(** * LexRegistry: the Windows registry file lexer and folder of Scintilla

    A shallow embedding of [scintilla/lexers/LexRegistry.cxx] and a
    verification of its documented behaviour: the lookahead predicates, the
    single-pass tokenizer [Lex], the line folder [Fold] and the property
    interface. *)

From Stdlib Require Import ZArith Bool Ascii String Sorted.
From stdpp Require Import base tactics option list gmap strings.

Local Open Scope Z_scope.

(** ** Characters

    A document is a sequence of 8-bit characters, held as their codes. *)

Definition chr (a : ascii) : Z := Z.of_N (N_of_ascii a).

Fixpoint str (s : string) : list Z :=
  match s with
  | EmptyString => []
  | String a s' => chr a :: str s'
  end.

Definition NUL : Z := 0.
Definition LF : Z := 10.  (* line feed *)
Definition CR : Z := 13.  (* carriage return *)
Definition SPACE : Z := 32.  (* space *)
Definition DQUOTE : Z := 34.  (* double quote *)
Definition PERCENT : Z := 37.  (* percent *)
Definition LPAREN : Z := 40.  (* left parenthesis *)
Definition RPAREN : Z := 41.  (* right parenthesis *)
Definition STAR : Z := 42.  (* asterisk *)
Definition COMMA : Z := 44.  (* comma *)
Definition MINUS : Z := 45.  (* hyphen *)
Definition DOT : Z := 46.  (* full stop *)
Definition COLON : Z := 58.  (* colon *)
Definition SEMICOLON : Z := 59.  (* semicolon *)
Definition EQUALS : Z := 61.  (* equals sign *)
Definition AT : Z := 64.  (* at sign *)
Definition LBRACKET : Z := 91.  (* left square bracket *)
Definition BACKSLASH : Z := 92.  (* backslash *)
Definition RBRACKET : Z := 93.  (* right square bracket *)
Definition LBRACE : Z := 123.  (* left brace *)
Definition RBRACE : Z := 125.  (* right brace *)

(** The classification functions of <cctype>, in the C locale. *)

Definition isdigit (c : Z) : bool := (48 <=? c) && (c <=? 57).

Definition isalpha (c : Z) : bool :=
  ((65 <=? c) && (c <=? 90)) || ((97 <=? c) && (c <=? 122)).

Definition isxdigit (c : Z) : bool :=
  isdigit c || ((65 <=? c) && (c <=? 70)) || ((97 <=? c) && (c <=? 102)).

(** Modelled from the spec: the whitespace of the "whitespace-skipping"
    scans, [isspacechar] of CharacterSet.h (missing from the sources): a
    space or one of the characters 9 to 13. *)
Definition isspacechar (c : Z) : bool :=
  (c =? SPACE) || ((9 <=? c) && (c <=? 13)).

(** The operator characters of [Lex], as it gives them to its character
    set: [- , . = : \ @ ( )]. *)
Definition setOperators : list Z :=
  [MINUS; COMMA; DOT; EQUALS; COLON; BACKSLASH; AT; LPAREN; RPAREN].

(** Modelled from the spec: membership in "the operator punctuation set"
    ([CharacterSet::Contains], missing from the sources). *)
Definition Contains (set : list Z) (c : Z) : bool :=
  existsb (Z.eqb c) set.

(** ** Styles *)

(** Modelled from the spec: the style tags, "an enumerated category
    assigned to each character position" (the [SCE_REG_*] constants of
    SciLexer.h, missing from the sources). *)
Inductive Style : Set :=
  | SCE_REG_DEFAULT
  | SCE_REG_COMMENT
  | SCE_REG_VALUENAME
  | SCE_REG_STRING
  | SCE_REG_HEXDIGIT
  | SCE_REG_VALUETYPE
  | SCE_REG_ADDEDKEY
  | SCE_REG_DELETEDKEY
  | SCE_REG_ESCAPED
  | SCE_REG_KEYPATH_GUID
  | SCE_REG_STRING_GUID
  | SCE_REG_PARAMETER
  | SCE_REG_OPERATOR.

#[global] Instance Style_eq_dec : EqDecision Style.
Proof. solve_decision. Defined.

Definition IsStringState (state : Style) : bool :=
  bool_decide (state = SCE_REG_VALUENAME) || bool_decide (state = SCE_REG_STRING).

Definition IsKeyPathState (state : Style) : bool :=
  bool_decide (state = SCE_REG_ADDEDKEY) || bool_decide (state = SCE_REG_DELETEDKEY).

Definition IsByteValue (value : Z) : bool := (0 <=? value) && (value <? 256).

(** ** The lookahead predicates *)

Section Lookahead.

Variable doc : list Z.

(** Modelled from the spec: the length of the document
    ([LexAccessor::Length], missing from the sources). *)
Definition Length : Z := Z.of_nat (length doc).

(** Modelled from the spec: the "random-access query of raw character at a
    position with a safe out-of-range default"
    ([LexAccessor::SafeGetCharAt], missing from the sources). *)
Definition SafeGetCharAt (position : Z) (chDefault : Z) : Z :=
  if (0 <=? position) && (position <? Length)
  then default chDefault (doc !! Z.to_nat position)
  else chDefault.

Fixpoint AtValueType_loop (n : nat) (start i : Z) : bool :=
  match n with
  | O => false
  | S n' =>
      let i := i + 1 in
      let curr := SafeGetCharAt (start + i) NUL in
      if curr =? COLON then true
      else if curr =? NUL then false
      else AtValueType_loop n' start i
  end.

Definition AtValueType (start : Z) : bool := AtValueType_loop 10 start 0.

Definition AtEndOfLine (pos : Z) : bool :=
  let curr := SafeGetCharAt pos NUL in
  let next := SafeGetCharAt (pos + 1) NUL in
  (curr =? NUL) || (curr =? LF) || ((curr =? CR) && negb (next =? LF)).

Definition AtBeginOfLine (pos : Z) : bool :=
  let prev := SafeGetCharAt (pos - 1) NUL in
  let curr := SafeGetCharAt pos NUL in
  (curr =? NUL) || (prev =? LF) || ((prev =? CR) && negb (curr =? LF)).

(** The [while] loops scan one position per turn and stop at the end (or
    the beginning) of the line, which the end of the document is too; the
    loops below take the number of turns left and give [None] when it
    runs out. [scan_fuel] turns are always enough (see
    [IsNextNonWhitespace_loop_total] and its siblings). *)
Definition scan_fuel : nat := S (length doc).

Fixpoint IsNextNonWhitespace_loop (fuel : nat) (start ch : Z) : option bool :=
  match fuel with
  | O => None
  | S fuel' =>
      if AtEndOfLine (start + 1) then Some false
      else
        let start := start + 1 in
        let curr := SafeGetCharAt start NUL in
        if curr =? ch then Some true
        else if negb (isspacechar curr) then Some false
        else IsNextNonWhitespace_loop fuel' start ch
  end.

Definition IsNextNonWhitespace (start ch : Z) : bool :=
  default false (IsNextNonWhitespace_loop scan_fuel start ch).

Fixpoint IsPrevNonWhitespace_loop (fuel : nat) (start ch : Z) : option bool :=
  match fuel with
  | O => None
  | S fuel' =>
      if AtBeginOfLine (start - 1) then Some false
      else
        let start := start - 1 in
        let curr := SafeGetCharAt start NUL in
        if curr =? ch then Some true
        else if negb (isspacechar curr) then Some false
        else IsPrevNonWhitespace_loop fuel' start ch
  end.

Definition IsPrevNonWhitespace (start ch : Z) : bool :=
  default false (IsPrevNonWhitespace_loop scan_fuel start ch).

(** Looks for the equal sign at the end of the string. *)
Fixpoint AtValueName_loop (fuel : nat) (start : Z) (escaped : bool) : option bool :=
  match fuel with
  | O => None
  | S fuel' =>
      if AtEndOfLine (start + 1) then Some false
      else
        let start := start + 1 in
        let curr := SafeGetCharAt start NUL in
        if escaped then AtValueName_loop fuel' start false
        else
          let escaped := curr =? BACKSLASH in
          if curr =? DQUOTE then Some (IsNextNonWhitespace start EQUALS)
          else if curr =? NUL then Some false
          else AtValueName_loop fuel' start escaped
  end.

Definition AtValueName (start : Z) : bool :=
  default false (AtValueName_loop scan_fuel start false).

Fixpoint AtKeyPathEnd_loop (fuel : nat) (start : Z) : option bool :=
  match fuel with
  | O => None
  | S fuel' =>
      if AtEndOfLine (start + 1) then Some true
      else
        let start := start + 1 in
        let curr := SafeGetCharAt start NUL in
        if curr =? RBRACKET then Some false
        else AtKeyPathEnd_loop fuel' start
  end.

Definition AtKeyPathEnd (start : Z) : bool :=
  default false (AtKeyPathEnd_loop scan_fuel start).

(** The inner loop of [AtGUID]: [count] characters from [start+offset],
    each a hexadecimal digit or a hyphen; the offset reached, or [None]
    for the [return false]. *)
Fixpoint AtGUID_digits (count : nat) (start offset : Z) : option Z :=
  match count with
  | O => Some offset
  | S count' =>
      let digit := SafeGetCharAt (start + offset) SPACE in
      if negb (isxdigit digit || (digit =? MINUS)) then None
      else AtGUID_digits count' start (offset + 1)
  end.

(** The outer loop, [while (portion < 5)], by the portions left. *)
Fixpoint AtGUID_portions (left : nat) (portion : Z) (count : nat)
    (start offset : Z) : option Z :=
  match left with
  | O => Some offset
  | S left' =>
      match AtGUID_digits count start offset with
      | None => None
      | Some offset =>
          let portion := portion + 1 in
          let count := if portion =? 4 then 13%nat else 5%nat in
          AtGUID_portions left' portion count start offset
      end
  end.

Definition AtGUID (start : Z) : bool :=
  match AtGUID_portions 5 0 8 start 1 with
  | None => false
  | Some offset => SafeGetCharAt (start + offset) SPACE =? RBRACE
  end.

End Lookahead.

(** ** The host interfaces: LexAccessor and StyleContext

    [Lex] drives a [StyleContext] over a [LexAccessor]. Both belong to the
    lexer library (lexlib), outside LexRegistry.cxx. *)

(** Modelled from the spec: the forward scan cursor of the document accessor
    (StyleContext over LexAccessor, missing from the sources), "with
    current/next/previous character peeks and an explicit commit current
    style then advance operation". The document is 8-bit, so every character
    is one position wide, and the line of the cursor is read off the
    characters ([at_line_end] below). [startSeg] and [styles] are the
    accessor's part: the start of the segment not yet styled, and the
    styles sent to the document so far, one per position from the position
    where styling started. *)
Record StyleContext : Set := mkStyleContext {
  startSeg : Z;
  styles : list Style;
  endPos : Z;
  currentPos : Z;
  atLineStart : bool;
  atLineEnd : bool;
  state : Style;
  chPrev : Z;
  ch : Z;
  chNext : Z
}.

(** The local variables of [Lex]. *)
Record LexState : Set := mkLexState {
  context : StyleContext;
  beforeGUID : Style;
  beforeEscape : Style;
  highlight : bool;
  afterEqualSign : bool;
  stateLastNonDefault : Style
}.

Definition set_context (f : StyleContext -> StyleContext) (s : LexState) : LexState :=
  mkLexState (f (context s)) (beforeGUID s) (beforeEscape s) (highlight s)
    (afterEqualSign s) (stateLastNonDefault s).

Definition set_beforeGUID (v : Style) (s : LexState) : LexState :=
  mkLexState (context s) v (beforeEscape s) (highlight s)
    (afterEqualSign s) (stateLastNonDefault s).

Definition set_beforeEscape (v : Style) (s : LexState) : LexState :=
  mkLexState (context s) (beforeGUID s) v (highlight s)
    (afterEqualSign s) (stateLastNonDefault s).

Definition set_highlight (v : bool) (s : LexState) : LexState :=
  mkLexState (context s) (beforeGUID s) (beforeEscape s) v
    (afterEqualSign s) (stateLastNonDefault s).

Definition set_afterEqualSign (v : bool) (s : LexState) : LexState :=
  mkLexState (context s) (beforeGUID s) (beforeEscape s) (highlight s)
    v (stateLastNonDefault s).

Definition set_stateLastNonDefault (v : Style) (s : LexState) : LexState :=
  mkLexState (context s) (beforeGUID s) (beforeEscape s) (highlight s)
    (afterEqualSign s) v.

Section Lexer.

Variable doc : list Z.

Abbreviation charAt := (SafeGetCharAt doc).
Abbreviation lengthDocument := (Length doc).

(** Modelled from the spec: the line table of the document, which ends a
    line at a line feed, or at a carriage return that no line feed
    follows. [at_line_end pos] holds on the last character of a line and
    from the end of the document on. *)
Definition at_line_end (pos : Z) : bool :=
  (lengthDocument <=? pos)
  || (charAt pos NUL =? LF)
  || ((charAt pos NUL =? CR) && negb (charAt (pos + 1) NUL =? LF)).

(** Modelled from the spec: whether a position is the first of its line. *)
Definition is_line_start (pos : Z) : bool :=
  (pos =? 0) || at_line_end (pos - 1).

(** Modelled from the spec: [LexAccessor::ColourTo], which styles the
    segment from [startSeg] to [pos] and starts the next segment after
    it; an empty segment styles nothing, and a position before the
    segment is refused. *)
Definition ColourTo (pos : Z) (chAttr : Style) (c : StyleContext) : StyleContext :=
  if pos =? startSeg c - 1 then c
  else if pos <? startSeg c then c
  else
    mkStyleContext (pos + 1)
      (styles c ++ replicate (Z.to_nat (pos - startSeg c + 1)) chAttr)
      (endPos c) (currentPos c) (atLineStart c) (atLineEnd c) (state c)
      (chPrev c) (ch c) (chNext c).

(** Modelled from the spec: the position that [SetState],
    [ForwardSetState] and [Complete] style up to, the character before
    the current one (two before, once the cursor has left the document). *)
Definition colour_pos (c : StyleContext) : Z :=
  currentPos c - (if lengthDocument <? currentPos c then 2 else 1).

(** Modelled from the spec: the constructor of the cursor. *)
Definition StyleContext_new (startPos length : Z) (initStyle : Style) : StyleContext :=
  let endPos := startPos + length in
  let endPos := if endPos =? lengthDocument then endPos + 1 else endPos in
  mkStyleContext startPos [] endPos startPos
    (is_line_start startPos) (at_line_end startPos) initStyle
    NUL (charAt startPos NUL) (charAt (startPos + 1) NUL).

(** Modelled from the spec: whether the cursor is still inside the span. *)
Definition More (c : StyleContext) : bool := currentPos c <? endPos c.

(** Modelled from the spec: "advance" of the cursor. *)
Definition Forward (c : StyleContext) : StyleContext :=
  if currentPos c <? endPos c then
    let pos := currentPos c + 1 in
    mkStyleContext (startSeg c) (styles c) (endPos c) pos
      (atLineEnd c) (at_line_end pos) (state c)
      (ch c) (chNext c) (charAt (pos + 1) NUL)
  else
    mkStyleContext (startSeg c) (styles c) (endPos c) (currentPos c)
      false true (state c) SPACE SPACE SPACE.

(** The cursor with another state. *)
Definition with_state (state_ : Style) (c : StyleContext) : StyleContext :=
  mkStyleContext (startSeg c) (styles c) (endPos c) (currentPos c)
    (atLineStart c) (atLineEnd c) state_ (chPrev c) (ch c) (chNext c).

(** Modelled from the spec: "commit current style", then change state. *)
Definition SetState (state_ : Style) (c : StyleContext) : StyleContext :=
  with_state state_ (ColourTo (colour_pos c) (state c) c).

(** Modelled from the spec: "commit current style then advance". *)
Definition ForwardSetState (state_ : Style) (c : StyleContext) : StyleContext :=
  SetState state_ (Forward c).

(** Modelled from the spec: the last commit of the current style, at the
    end of the scan. *)
Definition Complete (c : StyleContext) : StyleContext :=
  ColourTo (colour_pos c) (state c) c.

(** *** The tokenizer *)

(** [newState] is [None] for the -1 of the source, which only moves
    forward. *)
Definition ContextForwardSetState (newState : option Style) (s : LexState) : LexState :=
  let s :=
    if bool_decide (state (context s) <> SCE_REG_DEFAULT)
    then set_stateLastNonDefault (state (context s)) s
    else s in
  match newState with
  | Some newState => set_context (ForwardSetState newState) s
  | None => set_context Forward s
  end.

(** [if (context.atLineStart) { ... }] *)
Definition Lex_line_start (s : LexState) : LexState :=
  if atLineStart (context s) then
    let currPos := currentPos (context s) in
    let continued := IsPrevNonWhitespace doc currPos BACKSLASH in
    let s := set_highlight (if continued then true else false) s in
    if negb continued then
      set_stateLastNonDefault SCE_REG_DEFAULT
        (set_context (SetState SCE_REG_DEFAULT) s)
    else s
  else s.

Definition case_COMMENT (s : LexState) : LexState :=
  if atLineEnd (context s) then set_context (SetState SCE_REG_DEFAULT) s else s.

Definition case_STRING (s : LexState) : LexState :=
  let currPos := currentPos (context s) in
  let s :=
    if ch (context s) =? DQUOTE then
      ContextForwardSetState (Some SCE_REG_DEFAULT) s
    else if ch (context s) =? BACKSLASH then
      set_context Forward
        (set_context (SetState SCE_REG_ESCAPED)
           (set_beforeEscape (state (context s)) s))
    else if ch (context s) =? LBRACE then
      if AtGUID doc currPos then
        set_context (SetState SCE_REG_STRING_GUID)
          (set_beforeGUID (state (context s)) s)
      else s
    else s in
  if bool_decide (state (context s) = SCE_REG_STRING)
     && (ch (context s) =? PERCENT)
     && (isdigit (chNext (context s)) || (chNext (context s) =? STAR))
  then set_context (SetState SCE_REG_PARAMETER) s
  else s.

Definition case_PARAMETER (s : LexState) : LexState :=
  let s := ContextForwardSetState (Some SCE_REG_STRING) s in
  if ch (context s) =? DQUOTE then
    ContextForwardSetState (Some SCE_REG_DEFAULT) s
  else s.

Definition case_VALUETYPE (s : LexState) : LexState :=
  if ch (context s) =? COLON then
    set_afterEqualSign false (set_context (SetState SCE_REG_DEFAULT) s)
  else s.

Definition case_OPERATOR (s : LexState) : LexState :=
  set_context (SetState SCE_REG_DEFAULT) s.

Definition case_KEY (s : LexState) : LexState :=
  let currPos := currentPos (context s) in
  if (ch (context s) =? RBRACKET) && AtKeyPathEnd doc currPos then
    ContextForwardSetState (Some SCE_REG_DEFAULT) s
  else if ch (context s) =? LBRACE then
    if AtGUID doc currPos then
      set_context (SetState SCE_REG_KEYPATH_GUID)
        (set_beforeGUID (state (context s)) s)
    else s
  else s.

Definition case_ESCAPED (s : LexState) : LexState :=
  if ch (context s) =? DQUOTE then
    ContextForwardSetState (Some SCE_REG_DEFAULT)
      (set_context (SetState (beforeEscape s)) s)
  else if ch (context s) =? BACKSLASH then
    set_context Forward s
  else
    set_beforeEscape SCE_REG_DEFAULT
      (set_context (SetState (beforeEscape s)) s).

(** The two statements of the GUID cases: the closing brace, and then
    what follows the GUID. *)
Definition case_GUID_close (s : LexState) : LexState :=
  if ch (context s) =? RBRACE then
    set_beforeGUID SCE_REG_DEFAULT
      (ContextForwardSetState (Some (beforeGUID s)) s)
  else s.

Definition case_GUID_next (s : LexState) : LexState :=
  let currPos := currentPos (context s) in
  if (ch (context s) =? DQUOTE) && IsStringState (state (context s)) then
    ContextForwardSetState (Some SCE_REG_DEFAULT) s
  else if (ch (context s) =? RBRACKET) && IsKeyPathState (state (context s)) then
    if AtKeyPathEnd doc currPos then
      ContextForwardSetState (Some SCE_REG_DEFAULT) s
    else
      ContextForwardSetState (Some (beforeGUID s)) s
  else if (ch (context s) =? BACKSLASH) && IsStringState (state (context s)) then
    set_context Forward
      (set_context (SetState SCE_REG_ESCAPED)
         (set_beforeEscape (state (context s)) s))
  else s.

Definition case_GUID (s : LexState) : LexState :=
  case_GUID_next (case_GUID_close s).

(** [switch (context.state) { ... }] *)
Definition Lex_switch (s : LexState) : LexState :=
  match state (context s) with
  | SCE_REG_COMMENT => case_COMMENT s
  | SCE_REG_VALUENAME | SCE_REG_STRING => case_STRING s
  | SCE_REG_PARAMETER => case_PARAMETER s
  | SCE_REG_VALUETYPE => case_VALUETYPE s
  | SCE_REG_HEXDIGIT | SCE_REG_OPERATOR => case_OPERATOR s
  | SCE_REG_DELETEDKEY | SCE_REG_ADDEDKEY => case_KEY s
  | SCE_REG_ESCAPED => case_ESCAPED s
  | SCE_REG_STRING_GUID | SCE_REG_KEYPATH_GUID => case_GUID s
  | SCE_REG_DEFAULT => s
  end.

(** "Determine if a new state should be entered." *)
Definition Lex_default (s : LexState) : LexState :=
  if bool_decide (state (context s) = SCE_REG_DEFAULT) then
    let currPos := currentPos (context s) in
    let c := ch (context s) in
    let s :=
      if c =? SEMICOLON then
        set_context (SetState SCE_REG_COMMENT) s
      else if c =? DQUOTE then
        if AtValueName doc currPos
        then set_context (SetState SCE_REG_VALUENAME) s
        else set_context (SetState SCE_REG_STRING) s
      else if c =? LBRACKET then
        if IsNextNonWhitespace doc currPos MINUS
        then set_context (SetState SCE_REG_DELETEDKEY) s
        else set_context (SetState SCE_REG_ADDEDKEY) s
      else if c =? EQUALS then
        set_highlight true (set_afterEqualSign true s)
      else if afterEqualSign s then
        let wordStart := isalpha c && negb (isalpha (chPrev (context s))) in
        if wordStart && AtValueType doc currPos
        then set_context (SetState SCE_REG_VALUETYPE) s
        else s
      else if IsByteValue c && isxdigit (Z.land c 255) && highlight s then
        set_context (SetState SCE_REG_HEXDIGIT) s
      else s in
    let s := set_highlight (if c =? AT then true else highlight s) s in
    let s :=
      if Contains setOperators c && highlight s
      then set_context (SetState SCE_REG_OPERATOR) s
      else s in
    (* continue style for eolfilled *)
    if (c =? CR) || (c =? LF)
    then set_context (SetState (stateLastNonDefault s)) s
    else s
  else s.

(** One turn of the [while] loop. *)
Definition Lex_body (s : LexState) : LexState :=
  ContextForwardSetState None (Lex_default (Lex_switch (Lex_line_start s))).

(** [context.More() && context.ch] *)
Definition Lex_cond (s : LexState) : bool :=
  More (context s) && negb (ch (context s) =? NUL).

Definition Lex_init (startPos length : Z) (initStyle : Style) : LexState :=
  mkLexState (StyleContext_new startPos length initStyle)
    SCE_REG_DEFAULT SCE_REG_DEFAULT true false SCE_REG_DEFAULT.

(** The loop, by the number of turns left: [None] when they run out
    before the condition fails. *)
Fixpoint Lex_loop (fuel : nat) (s : LexState) : option LexState :=
  if Lex_cond s then
    match fuel with
    | O => None
    | S fuel' => Lex_loop fuel' (Lex_body s)
    end
  else Some s.

(** The states in which the loop takes its turns. *)
Inductive Lex_reaches (s0 : LexState) : LexState -> Prop :=
  | reaches_first : Lex_reaches s0 s0
  | reaches_next s :
      Lex_reaches s0 s -> Lex_cond s = true -> Lex_reaches s0 (Lex_body s).

(** The state after a number of turns. *)
Fixpoint Lex_turns (k : nat) (s : LexState) : LexState :=
  match k with
  | O => s
  | S k' => Lex_body (Lex_turns k' s)
  end.

(** [Lex]: the styles sent to the document, one per position from
    [startPos] on. Every turn moves the cursor forward, so the span
    bounds the number of turns. *)
Definition Lex (startPos length : Z) (initStyle : Style) : option (list Style) :=
  s ← Lex_loop (S (Z.to_nat length)) (Lex_init startPos length initStyle);
  Some (styles (Complete (context s))).

End Lexer.

(** ** The folder *)

(** Modelled from the spec: the fold level "with a base value, an optional
    header flag and an optional whitespace-only flag" (the constants of
    Scintilla.h, missing from the sources). *)
Definition SC_FOLDLEVELBASE : Z := 1024.         (* 0x400 *)
Definition SC_FOLDLEVELWHITEFLAG : Z := 4096.    (* 0x1000 *)
Definition SC_FOLDLEVELHEADERFLAG : Z := 8192.   (* 0x2000 *)

Record OptionsRegistry : Set := mkOptionsRegistry {
  foldCompact : bool;
  fold : bool
}.

(** [OptionsRegistry()] *)
Definition OptionsRegistry_new : OptionsRegistry := mkOptionsRegistry false false.

(** The state of [Fold]: its local variables, the level stored in the
    document for each line, and the calls of [SetLevel] made, oldest
    first. *)
Record FoldState : Type := mkFoldState {
  currLine : Z;
  visibleChars : Z;
  atKeyPath : bool;
  levels : gmap Z Z;
  writes : list (Z * Z)
}.

(** Modelled from the spec: the "per-line query/set of an integer fold-level
    record" of the document accessor. A line without a stored level is at
    the base level. *)
Definition LevelAt (lv : gmap Z Z) (line : Z) : Z :=
  default SC_FOLDLEVELBASE (lv !! line).

(** Modelled from the spec: the set of the same record; the call is
    recorded. *)
Definition SetLevel (line level : Z) (f : FoldState) : FoldState :=
  mkFoldState (currLine f) (visibleChars f) (atKeyPath f)
    (<[line := level]> (levels f)) (writes f ++ [(line, level)]).




Section Folder.

Variable options : OptionsRegistry.
Variable doc : list Z.
(** The styles stored in the document, one per position. *)
Variable docStyles : list Style.

(** Modelled from the spec: the style stored at a position, the default
    style out of range. *)
Definition StyleAt (position : Z) : Style :=
  if 0 <=? position
  then default SCE_REG_DEFAULT (docStyles !! Z.to_nat position)
  else SCE_REG_DEFAULT.

(** Modelled from the spec: the "line-number-from-offset lookup", the
    number of lines that end before the position. *)
Definition GetLine (pos : Z) : Z :=
  Z.of_nat (length (filter (fun q => at_line_end doc q = true) (seqZ 0 pos))).

(** The level a line takes from the line before it (the block that
    [Fold] has twice, inside its loop and after it). *)
Definition level_after_previous (lv : gmap Z Z) (currLine : Z) : Z :=
  let level := SC_FOLDLEVELBASE in
  if 0 <? currLine then
    let prevLevel := LevelAt lv (currLine - 1) in
    if negb (Z.land prevLevel SC_FOLDLEVELHEADERFLAG =? 0)
    then level + 1
    else prevLevel
  else level.

(** The level computed for the line that ends. *)
Definition Fold_level (f : FoldState) : Z :=
  let level := level_after_previous (levels f) (currLine f) in
  if (visibleChars f =? 0) && foldCompact options then
    Z.lor level SC_FOLDLEVELWHITEFLAG
  else if atKeyPath f then
    Z.lor SC_FOLDLEVELBASE SC_FOLDLEVELHEADERFLAG
  else level.

(** [if (atEOL || i == (endPos-1)) { ... }] *)
Definition Fold_line (f : FoldState) : FoldState :=
  let level := Fold_level f in
  let f :=
    if negb (level =? LevelAt (levels f) (currLine f))
    then SetLevel (currLine f) level f
    else f in
  mkFoldState (currLine f + 1) 0 false (levels f) (writes f).

(** One turn of the [for] loop, at position [i]. *)
Definition Fold_step (endPos i : Z) (f : FoldState) : FoldState :=
  let f :=
    mkFoldState (currLine f) (visibleChars f)
      (if IsKeyPathState (StyleAt i) then true else atKeyPath f)
      (levels f) (writes f) in
  let curr := SafeGetCharAt doc i SPACE in
  let next := SafeGetCharAt doc (i + 1) SPACE in
  let atEOL := ((curr =? CR) && negb (next =? LF)) || (curr =? LF) in
  let f := if atEOL || (i =? endPos - 1) then Fold_line f else f in
  if negb (isspacechar curr)
  then mkFoldState (currLine f) (visibleChars f + 1) (atKeyPath f)
         (levels f) (writes f)
  else f.

(** [for (Sci_PositionU i = startPos; i < endPos; i++)], by the number of
    positions left. *)
Fixpoint Fold_loop (left : nat) (endPos i : Z) (f : FoldState) : FoldState :=
  match left with
  | O => f
  | S left' => Fold_loop left' endPos (i + 1) (Fold_step endPos i f)
  end.

(** "Make the folding reach the last line in the file" *)
Definition Fold_last (f : FoldState) : FoldState :=
  SetLevel (currLine f) (level_after_previous (levels f) (currLine f)) f.

(** [Fold]: the stored levels it leaves and the [SetLevel] calls it
    made. *)
Definition Fold (startPos length : Z) (lv : gmap Z Z) : gmap Z Z * list (Z * Z) :=
  if negb (fold options) then (lv, [])
  else
    let endPos := startPos + length in
    let f := mkFoldState (GetLine startPos) 0 false lv [] in
    let f := Fold_loop (Z.to_nat (endPos - startPos)) endPos startPos f in
    let f := Fold_last f in
    (levels f, writes f).

(** *** The lines of a span

    What [Fold] computes for a line depends on the line through three
    values only: its number, the count of its visible characters and
    whether one of its characters has a key path style. [Fold_scan]
    collects them for the lines that the loop closes, without the fold
    levels; [Fold_lines] then computes the levels line by line. *)

Fixpoint Fold_scan (left : nat) (endPos i : Z) (line vis : Z) (key : bool)
    : list (Z * Z * bool) :=
  match left with
  | O => []
  | S left' =>
      let key := if IsKeyPathState (StyleAt i) then true else key in
      let curr := SafeGetCharAt doc i SPACE in
      let next := SafeGetCharAt doc (i + 1) SPACE in
      let atEOL := ((curr =? CR) && negb (next =? LF)) || (curr =? LF) in
      let bump := fun v => if negb (isspacechar curr) then v + 1 else v in
      if atEOL || (i =? endPos - 1)
      then (line, vis, key)
           :: Fold_scan left' endPos (i + 1) (line + 1) (bump 0) false
      else Fold_scan left' endPos (i + 1) line (bump vis) key
  end.

Definition Fold_lines (lines : list (Z * Z * bool))
    (lw : gmap Z Z * list (Z * Z)) : gmap Z Z * list (Z * Z) :=
  foldl
    (fun lw '(line, vis, key) =>
       let f := Fold_line (mkFoldState line vis key lw.1 lw.2) in
       (levels f, writes f))
    lw lines.

End Folder.

(** ** The property interface *)

Section Properties.

(** What a property value means as a boolean ([OptionSet] reads it with
    [atoi]). *)
Variable option_value : string -> bool.

(** The member of [OptionsRegistry] a property stands for. *)
Inductive OptionMember : Set :=
  | member_foldCompact
  | member_fold.

Definition set_member (m : OptionMember) (v : bool) (o : OptionsRegistry) : OptionsRegistry :=
  match m with
  | member_foldCompact => mkOptionsRegistry v (fold o)
  | member_fold => mkOptionsRegistry (foldCompact o) v
  end.

(** Modelled from the spec: [OptionSet::DefineProperty], which records a
    property under its key (OptionSet.h is missing from the sources). *)
Definition DefineProperty (name : string) (m : OptionMember)
    (nameToDef : gmap string OptionMember) : gmap string OptionMember :=
  <[name := m]> nameToDef.

(** [OptionSetRegistry()] *)
Definition OptionSetRegistry : gmap string OptionMember :=
  DefineProperty "fold" member_fold
    (DefineProperty "fold.compact" member_foldCompact ∅).

(** Modelled from the spec: [OptionSet::PropertySet]. "Setting an
    unrecognized property key returns a not-found indication; all
    recognized keys always succeed." *)
Definition OptionSet_PropertySet (nameToDef : gmap string OptionMember)
    (base : OptionsRegistry) (name val : string) : OptionsRegistry * bool :=
  match nameToDef !! name with
  | Some m => (set_member m (option_value val) base, true)
  | None => (base, false)
  end.

(** [LexerRegistry::PropertySet] *)
Definition PropertySet (options : OptionsRegistry) (key val : string)
    : OptionsRegistry * Z :=
  let r := OptionSet_PropertySet OptionSetRegistry options key val in
  if r.2 then (r.1, 0) else (r.1, -1).

End Properties.

(** ** Reference definitions

    What the specification says of the lookahead predicates and of tokens,
    on the characters of a line; the theorems below compare the code with
    them. *)

(** The characters of a line from its first one: up to, and without, a
    line feed, a carriage return that no line feed follows, a NUL, or the
    end of the document. *)
Fixpoint line_prefix (l : list Z) : list Z :=
  match l with
  | [] => []
  | c :: l' =>
      if (c =? NUL) || (c =? LF) || ((c =? CR) && negb (hd NUL l' =? LF))
      then []
      else c :: line_prefix l'
  end.

(** The rest of the line after position [pos]. *)
Definition line_after (doc : list Z) (pos : Z) : list Z :=
  if pos <? -1 then [] else line_prefix (drop (Z.to_nat (pos + 1)) doc).

(** The mirror of [line_prefix]: the characters of a line from one of
    them backwards, last first, up to, and without, the character at which
    the start of a line holds: a NUL, the character after a line feed, or
    the character after a carriage return unless it is a line feed. *)
Fixpoint line_suffix_back (l : list Z) : list Z :=
  match l with
  | [] => []
  | c :: l' =>
      if (c =? NUL) || (hd NUL l' =? LF)
         || ((hd NUL l' =? CR) && negb (c =? LF))
      then []
      else c :: line_suffix_back l'
  end.

(** What lies before position [pos], backwards. *)
Definition line_before (doc : list Z) (pos : Z) : list Z :=
  if Z.of_nat (length doc) <? pos then []
  else line_suffix_back (reverse (take (Z.to_nat pos) doc)).

(** "The next significant character is [target]": [target] comes before
    any other character that is not whitespace. *)
Fixpoint next_significant_is (target : Z) (l : list Z) : bool :=
  match l with
  | [] => false
  | c :: l' =>
      if c =? target then true
      else if isspacechar c then next_significant_is target l'
      else false
  end.

(** "Scans forward from an opening quote; treats a backslash as escaping
    the following character; on finding an unescaped quote delegates to
    the forward whitespace-skip for the equals sign; returns false on
    encountering end-of-line unescaped." *)
Fixpoint closing_quote_implies_value_name (l : list Z) : bool :=
  match l with
  | [] => false
  | c :: l' =>
      if c =? DQUOTE then next_significant_is EQUALS l'
      else if c =? BACKSLASH then
        match l' with
        | [] => false
        | _ :: l'' => closing_quote_implies_value_name l''
        end
      else closing_quote_implies_value_name l'
  end.

(** "The run of consecutive positions sharing a tag forms a token": the
    tokens of a styled text, each with its style and its characters. *)
Fixpoint tokens (l : list (Z * Style)) : list (Style * list Z) :=
  match l with
  | [] => []
  | (c, st) :: l' =>
      match tokens l' with
      | (st', cs) :: ts =>
          if decide (st = st') then (st, c :: cs) :: ts
          else (st, [c]) :: (st', cs) :: ts
      | [] => [(st, [c])]
      end
  end.

(** The characters of the span [startPos, startPos+length). *)
Definition span (doc : list Z) (startPos length : Z) : list Z :=
  take (Z.to_nat length) (drop (Z.to_nat startPos) doc).

(** A character is a hexadecimal digit or a hyphen. *)
Definition hex_or_hyphen (c : Z) : bool := isxdigit c || (c =? MINUS).

(** A character inside a quoted string that the String case passes over:
    not a quote, not a backslash, not the brace of a GUID, not the percent
    sign of a parameter. *)
Definition plain_in_string (doc : list Z) (q : Z) : bool :=
  let c := SafeGetCharAt doc q NUL in
  let next := SafeGetCharAt doc (q + 1) NUL in
  negb (c =? DQUOTE) && negb (c =? BACKSLASH)
  && negb ((c =? LBRACE) && AtGUID doc q)
  && negb ((c =? PERCENT) && (isdigit next || (next =? STAR))).

(** The lines that a scan of [Fold] closes are numbered one after the
    other: [l0], [l0 + 1], ... *)
Definition numbered (l0 : Z) (lines : list (Z * Z * bool)) : Prop :=
  forall k x, lines !! k = Some x -> x.1.1 = l0 + Z.of_nat k.

(** A line break: a line feed, a carriage return, or the two together. *)
Definition line_break (nl : list Z) : Prop :=
  nl = [LF] \/ nl = [CR] \/ nl = [CR; LF].

(** The text of a line: none of its characters ends a line. *)
Definition line_text (l : list Z) : Prop :=
  Forall (fun c => c <> LF /\ c <> CR) l.

(** The end of the last line of a document: a line break, or nothing. *)
Definition last_break (nl : list Z) : Prop := line_break nl \/ nl = [].

(** The number of visible characters of a text. *)
Definition visible (l : list Z) : Z :=
  Z.of_nat (length (filter (fun c => isspacechar c = false) l)).

(** The characters of a line that [Fold] has counted when it closes the
    line: all of them when a line break ends the line, all but the last
    when the line ends the document with no line break. *)
Definition counted (l nl : list Z) : list Z :=
  match nl with
  | [] => removelast l
  | _ => l
  end.

(** Whether one of the styles is a key path style. *)
Definition key_styled (t : list Style) : bool := existsb IsKeyPathState t.

(** The last visible character of a line is not a backslash: the line
    after it does not continue it. *)
Definition not_continued (l : list Z) : Prop :=
  exists l' c w,
    l = l' ++ c :: w /\ isspacechar c = false /\ c <> BACKSLASH
    /\ Forall (fun x => isspacechar x = true) w.

(** The line of a key: a text without a NUL character that begins with an
    opening bracket. *)
Definition key_line (l : list Z) : Prop :=
  line_text l /\ Forall (fun c => c <> NUL) l
  /\ head l = Some LBRACKET /\ not_continued l.

(** A line of values: a text without a NUL character and without an
    opening bracket (an assignment, a comment, or any other text). *)
Definition value_line (l : list Z) : Prop :=
  line_text l /\ Forall (fun c => c <> NUL) l
  /\ Forall (fun c => c <> LBRACKET) l /\ not_continued l.

(** ** Invariants of the scan *)

Section Invariants.

Variable doc : list Z.
Variable startPos : Z.

(** The cursor agrees with the document, the segment not yet styled lies
    between the styled positions and the cursor, and the styles sent
    cover the positions from [startPos] to the segment. *)
Record cursor_inv (c : StyleContext) : Prop := mk_cursor_inv {
  inv_seg_lo : startPos <= startSeg c;
  inv_seg_pos : startSeg c <= currentPos c;
  inv_seg_doc : startSeg c <= Length doc;
  inv_pos_end : currentPos c <= endPos c;
  inv_end_doc : endPos c <= Length doc + 1;
  inv_styles : Z.of_nat (length (styles c)) = startSeg c - startPos;
  inv_ch :
    currentPos c < endPos c -> ch c = SafeGetCharAt doc (currentPos c) NUL;
  inv_chNext :
    currentPos c < endPos c ->
    chNext c = SafeGetCharAt doc (currentPos c + 1) NUL;
  inv_atLineEnd :
    currentPos c < endPos c -> atLineEnd c = at_line_end doc (currentPos c);
  inv_atLineStart :
    currentPos c < endPos c -> atLineStart c = is_line_start doc (currentPos c)
}.

(** The end of the segment that the next commit styles. *)
Definition pending_end (c : StyleContext) : Z := colour_pos doc c + 1.

(** [c'] comes after [c] in a scan: the cursor has not moved back, and
    either nothing was styled and the state is the same, or the segment
    pending at [c] was styled with the state of [c]. *)
Definition ext (c c' : StyleContext) : Prop :=
  currentPos c <= currentPos c' /\ endPos c' = endPos c /\
  ((styles c' = styles c /\ startSeg c' = startSeg c /\ state c' = state c)
   \/ exists n more,
        styles c' = styles c ++ replicate n (state c) ++ more
        /\ pending_end c - startSeg c <= Z.of_nat n).

(** The segment pending at [c] has been styled, with the state of [c]. *)
Definition committed (c c' : StyleContext) : Prop :=
  exists n more,
    styles c' = styles c ++ replicate n (state c) ++ more
    /\ pending_end c - startSeg c <= Z.of_nat n.

(** The style that a scan from [startPos] gave to position [p]. *)
Definition style_of (out : list Style) (p : Z) : option Style :=
  if p <? startPos then None else out !! Z.to_nat (p - startPos).

(** A property of the cursor that its two moves keep. *)
Definition cursor_closed (P : StyleContext -> Prop) : Prop :=
  (forall c, P c -> P (Forward doc c))
  /\ (forall st c, P c -> P (SetState doc st c)).

End Invariants.

(** *** What the turns of the loop keep *)

(** The state that an escape sequence returns to is the Default state or a
    string state. *)
Definition string_or_default (st : Style) : Prop :=
  st = SCE_REG_DEFAULT \/ st = SCE_REG_STRING \/ st = SCE_REG_VALUENAME.

(** What holds of the variables of [Lex] when a turn of its loop begins,
    once the check at the start of a line is done. *)
Record turn_ok (s : LexState) : Prop := mk_turn_ok {
  ok_beforeEscape : string_or_default (beforeEscape s);
  ok_beforeGUID : beforeGUID s <> SCE_REG_PARAMETER;
  ok_last :
    stateLastNonDefault s = SCE_REG_PARAMETER ->
    state (context s) = SCE_REG_PARAMETER;
  ok_parameter :
    state (context s) = SCE_REG_PARAMETER ->
    ch (context s) <> LF /\ ch (context s) <> CR
}.

(** The same in the middle of a turn, after the [switch]. *)
Record switch_ok (s : LexState) : Prop := mk_switch_ok {
  sw_beforeEscape : string_or_default (beforeEscape s);
  sw_beforeGUID : beforeGUID s <> SCE_REG_PARAMETER;
  sw_last :
    stateLastNonDefault s = SCE_REG_PARAMETER ->
    state (context s) <> SCE_REG_DEFAULT;
  sw_parameter :
    state (context s) = SCE_REG_PARAMETER ->
    isdigit (chNext (context s)) || (chNext (context s) =? STAR) = true
}.

(** From the cursor [c] to the cursor [c'], no position that the scan
    went past and none that it reached is the first of a line. *)
Definition no_line_start (doc : list Z) (c c' : StyleContext) : Prop :=
  currentPos c <= currentPos c'
  /\ forall p, currentPos c < p <= currentPos c' -> is_line_start doc p = false.

(** The cursor is sound and has crossed no start of a line since [c0]. *)
Definition strides (doc : list Z) (startPos : Z) (c0 c : StyleContext) : Prop :=
  cursor_inv doc startPos c /\ no_line_start doc c0 c.

(** The styles of a key: the key path styles and the style of a GUID
    inside a key path. *)
Definition key_style (st : Style) : bool :=
  IsKeyPathState st || bool_decide (st = SCE_REG_KEYPATH_GUID).

(** What holds of the variables of [Lex] on a line that has had no opening
    bracket so far. *)
Record value_ok (s : LexState) : Prop := mk_value_ok {
  vo_state : key_style (state (context s)) = false;
  vo_last : key_style (stateLastNonDefault s) = false;
  vo_escape : string_or_default (beforeEscape s);
  vo_guid :
    state (context s) = SCE_REG_STRING_GUID
    \/ stateLastNonDefault s = SCE_REG_STRING_GUID ->
    key_style (beforeGUID s) = false
}.

(** No position of the line from [a] to [b] has been given the style of a
    key, and none is about to. *)
Definition no_key_style (doc : list Z) (startPos a b : Z) (c : StyleContext)
    : Prop :=
  cursor_inv doc startPos c
  /\ (forall q st, a <= q < b ->
        style_of startPos (styles c) q = Some st -> key_style st = false)
  /\ (startSeg c < b -> key_style (state c) = false).

(** The same, once the cursor is past the line. *)
Definition past_line (doc : list Z) (startPos a b : Z) (c : StyleContext)
    : Prop :=
  no_key_style doc startPos a b c /\ b <= currentPos c.

(** What a turn keeps, on the line and after it. *)
Definition no_key_turn (doc : list Z) (startPos a b : Z) (s : LexState)
    : Prop :=
  no_key_style doc startPos a b (context (Lex_line_start doc s))
  /\ (value_ok (Lex_line_start doc s) \/ b <= currentPos (context s)).

(** ** Documents of the examples *)

(** A text between double quotes. *)
Definition quoted (s : string) : list Z := DQUOTE :: str s ++ [DQUOTE].

(** The assignment of the string [bar] to the value [Foo]. *)
Definition foo_bar_doc : list Z := quoted "Foo" ++ [EQUALS] ++ quoted "bar".

Definition added_key_doc : list Z := str "[HKEY_CURRENT_USER\Software\Foo]".

Definition deleted_key_doc : list Z := str "[-HKEY_CURRENT_USER\Software\Foo]".

(** An equals sign and a backslash, and a digit on the next line. *)
Definition continued_doc : list Z := [EQUALS; BACKSLASH; LF; chr "1"].

(** Three lines: an equals sign and a backslash, a backslash alone, and a
    letter. *)
Definition lone_backslash_doc : list Z :=
  [EQUALS; BACKSLASH; LF; BACKSLASH; LF; chr "x"].

(** The last two of those lines, as a document of their own. *)
Definition first_backslash_doc : list Z := [BACKSLASH; LF; chr "x"].

(** A line of text, and a line with a digit after it. *)
Definition plain_doc : list Z := [chr "a"; LF; chr "1"].

(** A key with one value under it, twice: four lines. *)
Definition two_keys_doc : list Z :=
  str "[Key]" ++ [LF] ++ quoted "a" ++ [EQUALS] ++ quoted "b" ++ [LF]
  ++ str "[Key]" ++ [LF] ++ quoted "a" ++ [EQUALS] ++ quoted "b" ++ [LF].

(** The styles that [Lex] gives to [two_keys_doc]. *)
Definition two_keys_styles : list Style :=
  default [] (Lex two_keys_doc 0 28 SCE_REG_DEFAULT).


(** The canonical GUID literal, alone in a string, and in a value name. *)
Definition guid_text : string := "{01234567-89AB-CDEF-0123-456789ABCDEF}".

Definition guid_string_doc : list Z := quoted guid_text.

Definition guid_value_doc : list Z :=
  quoted guid_text ++ [EQUALS] ++ quoted "x".

(** Braces around hyphens only. *)
Definition hyphens_doc : list Z := LBRACE :: replicate 36 MINUS ++ [RBRACE].

(** A comment that ends in a backslash, a line after it, and a third
    line. *)
Definition comment_doc : list Z :=
  str "; c \" ++ [LF] ++ str "xyz" ++ [LF] ++ str "abc".

(** A comment with a quote and a bracket in it, and a line after it. *)
Definition comment_line_doc : list Z :=
  [SEMICOLON; DQUOTE; LBRACKET; LF; chr "x"].

(** A string with an escaped quote in it. *)
Definition escaped_quote_doc : list Z :=
  [DQUOTE; chr "a"; BACKSLASH; DQUOTE; chr "b"; DQUOTE].

(** A key path with a closing bracket inside it. *)
Definition nested_key_doc : list Z := str "[a]b]".

(** A value with a value type and two hexadecimal digits. *)
Definition value_doc : list Z := quoted "a" ++ str "=hex:01".

(** The canonical GUID literal, alone in a key path. *)
Definition guid_key_doc : list Z := LBRACKET :: str guid_text ++ [RBRACKET].

(** A string that is a parameter. *)
Definition parameter_doc : list Z := quoted "%1".

(** The canonical GUID literal in a string, after an escaped backslash,
    after a parameter, and after another GUID. *)
Definition escaped_guid_doc : list Z :=
  [DQUOTE; BACKSLASH; BACKSLASH] ++ str guid_text ++ [DQUOTE].

Definition parameter_guid_doc : list Z :=
  [DQUOTE; PERCENT; chr "1"] ++ str guid_text ++ [DQUOTE].

Definition two_guids_doc : list Z :=
  [DQUOTE] ++ str guid_text ++ str guid_text ++ [DQUOTE].

(** A string with a parameter, a backslash and a quote after it. *)
Definition parameter_escape_doc : list Z :=
  [DQUOTE; PERCENT; chr "1"; BACKSLASH; DQUOTE; chr "x"; DQUOTE].

(** A string with two parameters. *)
Definition two_parameters_doc : list Z :=
  [DQUOTE; PERCENT; chr "1"; PERCENT; chr "2"; DQUOTE].

(** A string with a parameter between escaped quotes. *)
Definition escaped_parameter_doc : list Z :=
  [DQUOTE; BACKSLASH; DQUOTE; PERCENT; chr "1"; BACKSLASH; DQUOTE; DQUOTE].

(** A key path with two GUID literals. *)
Definition two_guids_key_doc : list Z :=
  LBRACKET :: str guid_text ++ str guid_text ++ [RBRACKET].

(** A letter after an equals sign, and a colon on the next line. *)
Definition value_type_lines_doc : list Z := [EQUALS; chr "h"; LF; chr "1"; COLON].

(** Two keys, each followed by a line of one character; the end of the
    document ends the last line. *)
Definition short_last_line_doc : list Z :=
  (str "[K]" ++ [LF]) ++ (str "a" ++ [LF]) ++ (str "[K]" ++ [LF]) ++ str "a".

(** * Verification *)

(** ** Characters of the document *)

Section CharFacts.

Variable doc : list Z.

Lemma SafeGetCharAt_outside pos d :
  pos < 0 \/ Length doc <= pos -> SafeGetCharAt doc pos d = d.
Proof.
  intros H. unfold SafeGetCharAt.
  destruct (0 <=? pos) eqn:E1; [|reflexivity].
  destruct (pos <? Length doc) eqn:E2; [|reflexivity].
  apply Z.leb_le in E1. apply Z.ltb_lt in E2. lia.
Qed.

Lemma SafeGetCharAt_inside pos d :
  0 <= pos < Length doc ->
  doc !! Z.to_nat pos = Some (SafeGetCharAt doc pos d).
Proof.
  intros [H1 H2]. unfold SafeGetCharAt.
  rewrite (proj2 (Z.leb_le _ _) H1), (proj2 (Z.ltb_lt _ _) H2). simpl.
  destruct (doc !! Z.to_nat pos) eqn:E; [reflexivity|].
  apply lookup_ge_None in E. unfold Length in H2. lia.
Qed.

Lemma SafeGetCharAt_not_default pos d :
  SafeGetCharAt doc pos d <> d -> 0 <= pos < Length doc.
Proof.
  intros H. destruct (decide (0 <= pos < Length doc)) as [|N]; [assumption|].
  exfalso. apply H, SafeGetCharAt_outside. lia.
Qed.

Lemma drop_at pos :
  0 <= pos < Length doc ->
  drop (Z.to_nat pos) doc
  = SafeGetCharAt doc pos NUL :: drop (Z.to_nat (pos + 1)) doc.
Proof.
  intros H. replace (Z.to_nat (pos + 1)) with (S (Z.to_nat pos)) by lia.
  apply drop_S. apply SafeGetCharAt_inside, H.
Qed.

Lemma drop_beyond pos :
  Length doc <= pos -> drop (Z.to_nat pos) doc = [].
Proof. intros H. apply drop_ge. unfold Length in H. lia. Qed.

Lemma hd_drop pos :
  0 <= pos -> hd NUL (drop (Z.to_nat pos) doc) = SafeGetCharAt doc pos NUL.
Proof.
  intros H. destruct (decide (pos < Length doc)).
  - rewrite drop_at by lia. reflexivity.
  - rewrite drop_beyond, SafeGetCharAt_outside by lia. reflexivity.
Qed.

Lemma AtEndOfLine_outside pos :
  pos < 0 \/ Length doc <= pos -> AtEndOfLine doc pos = true.
Proof.
  intros H. unfold AtEndOfLine. rewrite SafeGetCharAt_outside by assumption.
  reflexivity.
Qed.

Lemma AtEndOfLine_false_inside pos :
  AtEndOfLine doc pos = false -> 0 <= pos < Length doc.
Proof.
  intros H. destruct (decide (0 <= pos < Length doc)) as [|N]; [assumption|].
  rewrite AtEndOfLine_outside in H by lia. discriminate.
Qed.

Lemma AtBeginOfLine_outside pos :
  pos < 0 \/ Length doc <= pos -> AtBeginOfLine doc pos = true.
Proof.
  intros H. unfold AtBeginOfLine.
  rewrite (SafeGetCharAt_outside pos) by assumption. reflexivity.
Qed.

Lemma AtBeginOfLine_false_inside pos :
  AtBeginOfLine doc pos = false -> 0 <= pos < Length doc.
Proof.
  intros H. destruct (decide (0 <= pos < Length doc)) as [|N]; [assumption|].
  rewrite AtBeginOfLine_outside in H by lia. discriminate.
Qed.

(** The rest of a line, one character at a time. *)
Lemma line_prefix_drop pos :
  0 <= pos ->
  line_prefix (drop (Z.to_nat pos) doc)
  = if AtEndOfLine doc pos then []
    else SafeGetCharAt doc pos NUL
         :: line_prefix (drop (Z.to_nat (pos + 1)) doc).
Proof.
  intros H. destruct (decide (pos < Length doc)).
  - rewrite drop_at by lia. simpl. rewrite hd_drop by lia.
    unfold AtEndOfLine. reflexivity.
  - rewrite drop_beyond, AtEndOfLine_outside by lia. reflexivity.
Qed.

Lemma line_after_step pos :
  -1 <= pos ->
  line_after doc pos
  = if AtEndOfLine doc (pos + 1) then []
    else SafeGetCharAt doc (pos + 1) NUL :: line_after doc (pos + 1).
Proof.
  intros H. unfold line_after.
  rewrite (proj2 (Z.ltb_ge _ _)) by lia.
  rewrite (proj2 (Z.ltb_ge (pos + 1) _)) by lia.
  apply line_prefix_drop. lia.
Qed.

Lemma line_after_before pos : pos < -1 -> line_after doc pos = [].
Proof.
  intros H. unfold line_after. rewrite (proj2 (Z.ltb_lt _ _)) by lia.
  reflexivity.
Qed.

(** *** The scans end: [scan_fuel] turns are enough *)

Lemma IsNextNonWhitespace_loop_spec fuel start ch :
  -1 <= start -> (0 < fuel)%nat -> Length doc - 1 - start < Z.of_nat fuel ->
  IsNextNonWhitespace_loop doc fuel start ch
  = Some (next_significant_is ch (line_after doc start)).
Proof.
  revert start. induction fuel as [|fuel IH]; intros start H1 H0 H2; [lia|].
  simpl. rewrite line_after_step by assumption.
  destruct (AtEndOfLine doc (start + 1)) eqn:E; [reflexivity|].
  apply AtEndOfLine_false_inside in E. simpl.
  destruct (SafeGetCharAt doc (start + 1) NUL =? ch); [reflexivity|].
  destruct (isspacechar (SafeGetCharAt doc (start + 1) NUL)); simpl;
    [|reflexivity].
  apply IH; lia.
Qed.

(** [IsNextNonWhitespace] is the forward whitespace-skip of the
    specification. *)
Lemma IsNextNonWhitespace_spec start ch :
  IsNextNonWhitespace doc start ch
  = next_significant_is ch (line_after doc start).
Proof.
  unfold IsNextNonWhitespace, scan_fuel.
  destruct (decide (-1 <= start)).
  - rewrite IsNextNonWhitespace_loop_spec; [reflexivity|lia|lia|].
    unfold Length. lia.
  - rewrite line_after_before by lia. simpl.
    rewrite AtEndOfLine_outside by lia. reflexivity.
Qed.

Lemma AtValueName_loop_spec fuel start :
  -1 <= start -> (0 < fuel)%nat -> Length doc - 1 - start < Z.of_nat fuel ->
  AtValueName_loop doc fuel start false
  = Some (closing_quote_implies_value_name (line_after doc start))
  /\ AtValueName_loop doc fuel start true
     = Some (match line_after doc start with
             | [] => false
             | _ :: l => closing_quote_implies_value_name l
             end).
Proof.
  revert start. induction fuel as [|fuel IH]; intros start H1 H0 H2; [lia|].
  simpl. rewrite line_after_step by assumption.
  destruct (AtEndOfLine doc (start + 1)) eqn:E; [split; reflexivity|].
  pose proof (AtEndOfLine_false_inside _ E) as Hin.
  destruct (IH (start + 1)) as [IHf IHt]; [lia..|].
  split; [|exact IHf].
  simpl. rewrite IsNextNonWhitespace_spec.
  destruct (SafeGetCharAt doc (start + 1) NUL =? DQUOTE) eqn:Eq; [reflexivity|].
  destruct (SafeGetCharAt doc (start + 1) NUL =? NUL) eqn:En.
  { unfold AtEndOfLine in E. rewrite En in E. discriminate. }
  destruct (SafeGetCharAt doc (start + 1) NUL =? BACKSLASH); assumption.
Qed.

(** [AtValueName] is the value-name lookahead of the specification. *)
Lemma AtValueName_spec start :
  AtValueName doc start
  = closing_quote_implies_value_name (line_after doc start).
Proof.
  unfold AtValueName, scan_fuel.
  destruct (decide (-1 <= start)).
  - destruct (AtValueName_loop_spec (S (length doc)) start) as [-> _];
      [lia|lia|unfold Length; lia|reflexivity].
  - rewrite line_after_before by lia. simpl.
    rewrite AtEndOfLine_outside by lia. reflexivity.
Qed.

Lemma AtKeyPathEnd_loop_total fuel start :
  -1 <= start -> (0 < fuel)%nat -> Length doc - 1 - start < Z.of_nat fuel ->
  is_Some (AtKeyPathEnd_loop doc fuel start).
Proof.
  revert start. induction fuel as [|fuel IH]; intros start H1 H0 H2; [lia|].
  simpl. destruct (AtEndOfLine doc (start + 1)) eqn:E; [eauto|].
  apply AtEndOfLine_false_inside in E.
  destruct (SafeGetCharAt doc (start + 1) NUL =? RBRACKET); [eauto|].
  apply IH; lia.
Qed.

Lemma IsPrevNonWhitespace_loop_total fuel start ch :
  start <= Length doc -> (0 < fuel)%nat -> start < Z.of_nat fuel ->
  is_Some (IsPrevNonWhitespace_loop doc fuel start ch).
Proof.
  revert start. induction fuel as [|fuel IH]; intros start H1 H0 H2; [lia|].
  simpl. destruct (AtBeginOfLine doc (start - 1)) eqn:E; [eauto|].
  apply AtBeginOfLine_false_inside in E.
  destruct (SafeGetCharAt doc (start - 1) NUL =? ch); [eauto|].
  destruct (isspacechar (SafeGetCharAt doc (start - 1) NUL)); simpl; [|eauto].
  apply IH; lia.
Qed.

Lemma AtKeyPathEnd_total start :
  is_Some (AtKeyPathEnd_loop doc (scan_fuel doc) start).
Proof.
  unfold scan_fuel. destruct (decide (-1 <= start)).
  - apply AtKeyPathEnd_loop_total; [lia|lia|unfold Length; lia].
  - simpl. rewrite AtEndOfLine_outside by lia. eauto.
Qed.

Lemma IsPrevNonWhitespace_total start ch :
  is_Some (IsPrevNonWhitespace_loop doc (scan_fuel doc) start ch).
Proof.
  unfold scan_fuel. destruct (decide (start <= Length doc)).
  - apply IsPrevNonWhitespace_loop_total; [lia|lia|unfold Length in *; lia].
  - simpl. rewrite AtBeginOfLine_outside by lia. eauto.
Qed.

End CharFacts.

(** *** The backward scan *)

Lemma reverse_take_at doc pos :
  0 <= pos < Length doc ->
  reverse (take (Z.to_nat (pos + 1)) doc)
  = SafeGetCharAt doc pos NUL :: reverse (take (Z.to_nat pos) doc).
Proof.
  intros H. replace (Z.to_nat (pos + 1)) with (S (Z.to_nat pos)) by lia.
  rewrite (take_S_r _ _ (SafeGetCharAt doc pos NUL))
    by (apply SafeGetCharAt_inside, H).
  apply reverse_snoc.
Qed.

Lemma hd_reverse_take doc pos :
  0 <= pos <= Length doc ->
  hd NUL (reverse (take (Z.to_nat pos) doc)) = SafeGetCharAt doc (pos - 1) NUL.
Proof.
  intros H. destruct (decide (pos = 0)) as [->|Hne].
  - simpl. rewrite SafeGetCharAt_outside by lia. reflexivity.
  - replace pos with (pos - 1 + 1) at 1 by lia.
    rewrite reverse_take_at by lia. reflexivity.
Qed.

Lemma line_before_step doc pos :
  pos <= Length doc ->
  line_before doc pos
  = if AtBeginOfLine doc (pos - 1) then []
    else SafeGetCharAt doc (pos - 1) NUL :: line_before doc (pos - 1).
Proof.
  intros H. unfold line_before. fold (Length doc).
  rewrite (proj2 (Z.ltb_ge _ _)) by lia.
  destruct (decide (pos <= 0)) as [Hle|Hgt].
  - replace (Z.to_nat pos) with 0%nat by lia.
    rewrite AtBeginOfLine_outside by lia. reflexivity.
  - rewrite (proj2 (Z.ltb_ge (Length doc) (pos - 1))) by lia.
    replace pos with (pos - 1 + 1) at 1 by lia.
    rewrite reverse_take_at by lia. cbn [line_suffix_back].
    rewrite hd_reverse_take by lia. unfold AtBeginOfLine. reflexivity.
Qed.

Lemma line_before_beyond doc pos : Length doc < pos -> line_before doc pos = [].
Proof.
  intros H. unfold line_before. fold (Length doc).
  rewrite (proj2 (Z.ltb_lt _ _)) by lia. reflexivity.
Qed.

Lemma IsPrevNonWhitespace_loop_spec doc fuel start ch :
  start <= Length doc -> (0 < fuel)%nat -> start < Z.of_nat fuel ->
  IsPrevNonWhitespace_loop doc fuel start ch
  = Some (next_significant_is ch (line_before doc start)).
Proof.
  revert start. induction fuel as [|fuel IH]; intros start H1 H0 H2; [lia|].
  cbn [IsPrevNonWhitespace_loop]. rewrite line_before_step by assumption.
  destruct (AtBeginOfLine doc (start - 1)) eqn:E; [reflexivity|].
  apply AtBeginOfLine_false_inside in E. cbv zeta. cbn [next_significant_is].
  destruct (SafeGetCharAt doc (start - 1) NUL =? ch); [reflexivity|].
  destruct (isspacechar (SafeGetCharAt doc (start - 1) NUL)); cbn [negb];
    [|reflexivity].
  apply IH; lia.
Qed.

(** [IsPrevNonWhitespace] is the backward whitespace-skip of the
    specification, the mirror of the forward one. *)
Lemma IsPrevNonWhitespace_spec doc start ch :
  IsPrevNonWhitespace doc start ch
  = next_significant_is ch (line_before doc start).
Proof.
  unfold IsPrevNonWhitespace, scan_fuel.
  destruct (decide (start <= Length doc)).
  - rewrite IsPrevNonWhitespace_loop_spec; [reflexivity|lia|lia|].
    unfold Length in *. lia.
  - rewrite line_before_beyond by lia. simpl.
    rewrite AtBeginOfLine_outside by lia. reflexivity.
Qed.

(** ** The cursor *)

Section CursorFacts.

Variable doc : list Z.
Variable startPos : Z.
Hypothesis startPos_nonneg : 0 <= startPos.

Abbreviation inv := (cursor_inv doc startPos).
Abbreviation ext := (ext doc).
Abbreviation committed := (committed doc).

Lemma pending_end_mono c c' :
  currentPos c <= currentPos c' -> pending_end doc c <= pending_end doc c'.
Proof.
  unfold pending_end, colour_pos. intros H.
  destruct (Z.ltb_spec (Length doc) (currentPos c));
    destruct (Z.ltb_spec (Length doc) (currentPos c')); lia.
Qed.

Lemma ext_refl c : ext c c.
Proof. unfold ext. repeat split; [lia|]. left. auto. Qed.

Lemma ext_styles c c' : ext c c' -> exists more, styles c' = styles c ++ more.
Proof.
  intros (_ & _ & [(-> & _)|(n & more & -> & _)]).
  - exists []. rewrite app_nil_r. reflexivity.
  - eauto.
Qed.

Lemma ext_trans c1 c2 c3 : ext c1 c2 -> ext c2 c3 -> ext c1 c3.
Proof.
  intros (Hp1 & He1 & H1) H23.
  destruct (ext_styles _ _ H23) as [more3 Hs3].
  destruct H23 as (Hp2 & He2 & H2).
  split; [lia|]. split; [congruence|].
  destruct H1 as [(Hs & Hg & Hst)|(n & more & Hs & Hn)].
  - destruct H2 as [(Hs' & Hg' & Hst')|(n & more & Hs' & Hn)].
    + left. repeat split; congruence.
    + right. exists n, more. split; [congruence|].
      pose proof (pending_end_mono _ _ Hp1). lia.
  - right. exists n, (more ++ more3). split; [|assumption].
    rewrite Hs3, Hs, <- !app_assoc. reflexivity.
Qed.

Lemma ext_committed c1 c2 c3 : ext c1 c2 -> committed c2 c3 -> committed c1 c3.
Proof.
  intros (Hp1 & He1 & H1) (n & more & Hs' & Hn).
  destruct H1 as [(Hs & Hg & Hst)|(n1 & more1 & Hs & Hn1)].
  - exists n, more. split; [congruence|].
    pose proof (pending_end_mono _ _ Hp1). lia.
  - exists n1, (more1 ++ replicate n (state c2) ++ more). split; [|assumption].
    rewrite Hs', Hs, <- !app_assoc. reflexivity.
Qed.

Lemma ext_Forward c : ext c (Forward doc c).
Proof.
  unfold ext, Forward. destruct (currentPos c <? endPos c); simpl.
  - repeat split; [lia|]. left. auto.
  - repeat split; [lia|]. left. auto.
Qed.

Lemma committed_Complete c : committed c (Complete doc c).
Proof.
  unfold committed, Complete, ColourTo, pending_end.
  destruct (Z.eqb_spec (colour_pos doc c) (startSeg c - 1)).
  { exists 0%nat, []. simpl. rewrite app_nil_r. split; [reflexivity|lia]. }
  destruct (Z.ltb_spec (colour_pos doc c) (startSeg c)).
  { exists 0%nat, []. simpl. rewrite app_nil_r. split; [reflexivity|lia]. }
  simpl. eexists _, []. rewrite app_nil_r. split; [reflexivity|lia].
Qed.

Lemma ext_SetState st c : ext c (SetState doc st c).
Proof.
  destruct (committed_Complete c) as (n & more & Hs & Hn).
  unfold ext, SetState. fold (Complete doc c).
  assert (currentPos (Complete doc c) = currentPos c
          /\ endPos (Complete doc c) = endPos c) as [Hp He].
  { unfold Complete, ColourTo. repeat case_match; auto. }
  simpl. rewrite Hp, He. repeat split; [lia|]. right. eauto.
Qed.

Lemma ext_ForwardSetState st c : ext c (ForwardSetState doc st c).
Proof.
  unfold ForwardSetState. eapply ext_trans; [apply ext_Forward|apply ext_SetState].
Qed.

(** *** The invariant *)

Lemma inv_new length initStyle :
  0 <= length -> startPos + length <= Length doc ->
  inv (StyleContext_new doc startPos length initStyle).
Proof.
  intros H1 H2. unfold StyleContext_new.
  destruct (Z.eqb_spec (startPos + length) (Length doc));
    constructor; simpl; auto; lia.
Qed.

Lemma inv_Forward c : inv c -> inv (Forward doc c).
Proof.
  intros [? ? ? ? ? ? Hch Hnext Hend Hstart]. unfold Forward.
  destruct (Z.ltb_spec (currentPos c) (endPos c)) as [Hlt|Hge].
  - constructor; simpl; auto; try lia.
    intros _. rewrite Hend by assumption. unfold is_line_start.
    replace (currentPos c + 1 - 1) with (currentPos c) by lia.
    rewrite (proj2 (Z.eqb_neq _ _)) by lia. reflexivity.
  - constructor; simpl; auto; lia.
Qed.

Lemma inv_Complete c : inv c -> inv (Complete doc c).
Proof.
  intros [? ? ? ? ? ? Hch Hnext Hend Hstart]. unfold Complete, ColourTo.
  destruct (Z.eqb_spec (colour_pos doc c) (startSeg c - 1)).
  { constructor; auto. }
  destruct (Z.ltb_spec (colour_pos doc c) (startSeg c)).
  { constructor; auto. }
  unfold colour_pos in *.
  destruct (Z.ltb_spec (Length doc) (currentPos c));
    constructor; simpl; auto; try lia;
    rewrite length_app, length_replicate; lia.
Qed.

Lemma inv_SetState st c : inv c -> inv (SetState doc st c).
Proof.
  intros H. apply inv_Complete in H. unfold SetState. fold (Complete doc c).
  destruct H. constructor; simpl; auto.
Qed.

Lemma inv_ForwardSetState st c : inv c -> inv (ForwardSetState doc st c).
Proof. intros H. apply inv_SetState, inv_Forward, H. Qed.

End CursorFacts.

(** ** The turns of the tokenizer *)

Ltac lex_simpl :=
  cbn [context set_context set_beforeGUID set_beforeEscape set_highlight
       set_afterEqualSign set_stateLastNonDefault beforeGUID beforeEscape
       highlight afterEqualSign stateLastNonDefault] in *.

Section BodyFacts.

Variable doc : list Z.

(** Whatever [Forward] and [SetState] keep, every part of a turn keeps:
    the tokenizer touches the cursor through them only. *)
Section Closed.

Variable P : StyleContext -> Prop.
Hypothesis P_closed : cursor_closed doc P.

Let P_Forward : forall c, P c -> P (Forward doc c) := proj1 P_closed.
Let P_SetState : forall st c, P c -> P (SetState doc st c) := proj2 P_closed.

Ltac closed :=
  intros; lex_simpl;
  repeat first
    [ assumption
    | apply P_SetState
    | apply P_Forward
    | progress lex_simpl
    | progress unfold ForwardSetState
    | case_match ].

Lemma closed_ContextForwardSetState o s :
  P (context s) -> P (context (ContextForwardSetState doc o s)).
Proof. unfold ContextForwardSetState. closed. Qed.

Hint Resolve closed_ContextForwardSetState : core.

Lemma closed_line_start s :
  P (context s) -> P (context (Lex_line_start doc s)).
Proof. unfold Lex_line_start. closed. Qed.

Lemma closed_case_STRING s :
  P (context s) -> P (context (case_STRING doc s)).
Proof.
  unfold case_STRING. cbv zeta. closed; auto.
Qed.

Lemma closed_case_PARAMETER s :
  P (context s) -> P (context (case_PARAMETER doc s)).
Proof. unfold case_PARAMETER. cbv zeta. closed; auto. Qed.

Lemma closed_case_GUID_close s :
  P (context s) -> P (context (case_GUID_close doc s)).
Proof. unfold case_GUID_close. closed; auto. Qed.

Lemma closed_case_GUID_next s :
  P (context s) -> P (context (case_GUID_next doc s)).
Proof. unfold case_GUID_next. cbv zeta. closed; auto. Qed.

Lemma closed_case_GUID s :
  P (context s) -> P (context (case_GUID doc s)).
Proof.
  intros H. apply closed_case_GUID_next, closed_case_GUID_close, H.
Qed.

Lemma closed_switch s :
  P (context s) -> P (context (Lex_switch doc s)).
Proof.
  intros H. unfold Lex_switch.
  destruct (state (context s));
    auto using closed_case_STRING, closed_case_PARAMETER, closed_case_GUID;
    unfold case_COMMENT, case_VALUETYPE, case_OPERATOR, case_KEY, case_ESCAPED;
    closed; auto.
Qed.

Lemma closed_default s :
  P (context s) -> P (context (Lex_default doc s)).
Proof. unfold Lex_default. cbv zeta. closed. Qed.

Lemma closed_body s :
  P (context s) -> P (context (Lex_body doc s)).
Proof.
  intros H. unfold Lex_body.
  apply closed_ContextForwardSetState, closed_default, closed_switch,
    closed_line_start, H.
Qed.

End Closed.

Variable startPos : Z.
Hypothesis startPos_nonneg : 0 <= startPos.

Lemma ext_closed c0 : cursor_closed doc (ext doc c0).
Proof.
  split; intros; (eapply ext_trans; [eassumption|]);
    [apply ext_Forward|apply ext_SetState].
Qed.

Lemma inv_closed : cursor_closed doc (cursor_inv doc startPos).
Proof.
  split; intros; [apply inv_Forward|apply inv_SetState]; assumption.
Qed.

(** The state in which a turn classifies its character: after the check
    at the start of a line and the [switch]. *)
Lemma ext_classify s :
  ext doc (context s)
    (context (Lex_default doc (Lex_switch doc (Lex_line_start doc s)))).
Proof.
  pose proof (ext_closed (context s)) as H.
  apply (closed_default _ H), (closed_switch _ H), (closed_line_start _ H),
    ext_refl.
Qed.

Lemma inv_classify s :
  cursor_inv doc startPos (context s) ->
  cursor_inv doc startPos
    (context (Lex_default doc (Lex_switch doc (Lex_line_start doc s)))).
Proof.
  intros H.
  apply (closed_default _ inv_closed), (closed_switch _ inv_closed),
    (closed_line_start _ inv_closed), H.
Qed.

Lemma inv_body s :
  cursor_inv doc startPos (context s) ->
  cursor_inv doc startPos (context (Lex_body doc s)).
Proof. apply (closed_body _ inv_closed). Qed.

Lemma ext_body s : ext doc (context s) (context (Lex_body doc s)).
Proof. apply (closed_body _ (ext_closed (context s))), ext_refl. Qed.

End BodyFacts.

(** ** The loop of the tokenizer *)

Section LoopFacts.

Variable doc : list Z.
Variable startPos : Z.
Hypothesis startPos_nonneg : 0 <= startPos.

(** The last step of a turn, [ContextForwardSetState(context, -1, ...)]. *)
Lemma turn_end_cursor x :
  let c := context (ContextForwardSetState doc None x) in
  endPos c = endPos (context x)
  /\ startSeg c = startSeg (context x)
  /\ styles c = styles (context x)
  /\ state c = state (context x)
  /\ ((currentPos (context x) < endPos (context x)
       /\ currentPos c = currentPos (context x) + 1)
      \/ (endPos (context x) <= currentPos (context x)
          /\ currentPos c = currentPos (context x))).
Proof.
  unfold ContextForwardSetState. case_match; lex_simpl; unfold Forward;
    destruct (Z.ltb_spec (currentPos (context x)) (endPos (context x)));
    simpl; repeat split; auto.
Qed.

Lemma Lex_body_eq s :
  Lex_body doc s
  = ContextForwardSetState doc None
      (Lex_default doc (Lex_switch doc (Lex_line_start doc s))).
Proof. reflexivity. Qed.

Lemma Lex_cond_true s :
  Lex_cond s = true ->
  currentPos (context s) < endPos (context s) /\ ch (context s) <> NUL.
Proof.
  unfold Lex_cond, More. intros H. apply andb_true_iff in H as [H1 H2].
  apply Z.ltb_lt in H1. apply negb_true_iff, Z.eqb_neq in H2. auto.
Qed.

(** Every turn moves the cursor forward. *)
Lemma Lex_body_progress s :
  Lex_cond s = true ->
  currentPos (context s) < currentPos (context (Lex_body doc s))
  /\ endPos (context (Lex_body doc s)) = endPos (context s).
Proof.
  intros Hc. apply Lex_cond_true in Hc as [Hc _].
  destruct (ext_classify doc s) as (Hp & He & _).
  rewrite Lex_body_eq. revert Hp He.
  generalize (Lex_default doc (Lex_switch doc (Lex_line_start doc s))).
  intros x Hp He.
  destruct (turn_end_cursor x) as (H1 & _ & _ & _ & H2). lia.
Qed.

(** After a turn, the character before the cursor is still to be styled. *)
Lemma Lex_body_pending s :
  cursor_inv doc startPos (context s) ->
  currentPos (context (Lex_body doc s)) < endPos (context (Lex_body doc s)) ->
  startSeg (context (Lex_body doc s)) < currentPos (context (Lex_body doc s)).
Proof.
  intros Hinv. apply (inv_classify doc startPos startPos_nonneg) in Hinv.
  rewrite Lex_body_eq. revert Hinv.
  generalize (Lex_default doc (Lex_switch doc (Lex_line_start doc s))).
  intros x [_ Hseg _ _ _ _ _ _ _ _] Hlt.
  destruct (turn_end_cursor x) as (H1 & H2 & _ & _ & H3). lia.
Qed.

(** The loop ends within the turns that the distance to the end of the
    span allows. *)
Lemma Lex_loop_total fuel s :
  endPos (context s) - currentPos (context s) <= Z.of_nat fuel ->
  is_Some (Lex_loop doc fuel s).
Proof.
  revert s. induction fuel as [|fuel IH]; intros s H.
  - simpl. destruct (Lex_cond s) eqn:Hc; [|eauto].
    apply Lex_cond_true in Hc. lia.
  - simpl. destruct (Lex_cond s) eqn:Hc; [|eauto].
    apply IH. destruct (Lex_body_progress s Hc) as [Hp He]. lia.
Qed.

Lemma Lex_loop_end fuel s s' :
  Lex_loop doc fuel s = Some s' ->
  Lex_cond s' = false
  /\ ext doc (context s) (context s')
  /\ (cursor_inv doc startPos (context s) -> cursor_inv doc startPos (context s')).
Proof.
  revert s. induction fuel as [|fuel IH]; intros s H; simpl in H;
    destruct (Lex_cond s) eqn:Hc; try discriminate.
  - injection H as <-. auto using ext_refl.
  - apply IH in H as (H1 & H2 & H3). split; [assumption|]. split.
    + eapply ext_trans; [apply ext_body|exact H2].
    + intros Hi. apply H3, inv_body; assumption.
  - injection H as <-. auto using ext_refl.
Qed.

Lemma Lex_reaches_inv s0 s :
  Lex_reaches doc s0 s ->
  ext doc (context s0) (context s)
  /\ (cursor_inv doc startPos (context s0) -> cursor_inv doc startPos (context s)).
Proof.
  induction 1 as [|s Hr [IH1 IH2] Hc].
  - auto using ext_refl.
  - split.
    + eapply ext_trans; [exact IH1|apply ext_body].
    + intros Hi. apply inv_body; auto.
Qed.

(** A turn of the loop is a turn of every run that ends. *)
Lemma Lex_reaches_loop s0 s fuel sf :
  Lex_reaches doc s0 s -> Lex_loop doc fuel s0 = Some sf ->
  exists fuel', Lex_loop doc fuel' s = Some sf.
Proof.
  induction 1 as [|s Hr IH Hc]; intros H; [eauto|].
  destruct (IH H) as [fuel' H']. destruct fuel' as [|fuel'];
    simpl in H'; rewrite Hc in H'; [discriminate|eauto].
Qed.

(** After the first turn, the character before the cursor is still to be
    styled. *)
Lemma Lex_reaches_pending s0 s :
  cursor_inv doc startPos (context s0) ->
  Lex_reaches doc s0 s -> Lex_cond s = true ->
  s = s0 \/ (currentPos (context s0) < currentPos (context s)
             /\ startSeg (context s) < currentPos (context s)).
Proof.
  intros Hi Hr. destruct Hr as [|s Hr Hc]; [auto|]. intros Hc'. right.
  destruct (Lex_reaches_inv _ _ Hr) as [(Hp & _) Hinv].
  specialize (Hinv Hi).
  destruct (Lex_body_progress s Hc) as [Hlt He]. split; [lia|].
  apply Lex_cond_true in Hc' as [Hc' _].
  apply Lex_body_pending; assumption.
Qed.

End LoopFacts.

(** ** Runs of the tokenizer *)

Section RunFacts.

Variable doc : list Z.
Variables (startPos length : Z) (initStyle : Style).

Lemma Lex_loop_init_total :
  is_Some (Lex_loop doc (S (Z.to_nat length)) (Lex_init doc startPos length initStyle)).
Proof.
  apply Lex_loop_total. unfold Lex_init, StyleContext_new. lex_simpl.
  case_match; simpl; lia.
Qed.

(** [Lex] returns, whatever the span. *)
Lemma Lex_total : is_Some (Lex doc startPos length initStyle).
Proof.
  unfold Lex. destruct Lex_loop_init_total as [sf ->]. simpl. eauto.
Qed.

Hypothesis startPos_nonneg : 0 <= startPos.
Hypothesis length_nonneg : 0 <= length.
Hypothesis span_in_doc : startPos + length <= Length doc.

Lemma inv_init :
  cursor_inv doc startPos (context (Lex_init doc startPos length initStyle)).
Proof. apply inv_new; assumption. Qed.

(** The last state of the loop, for a span of the document. *)
Lemma Lex_run out :
  Lex doc startPos length initStyle = Some out ->
  exists sf,
    Lex_loop doc (S (Z.to_nat length)) (Lex_init doc startPos length initStyle)
    = Some sf
    /\ out = styles (Complete doc (context sf))
    /\ Lex_cond sf = false
    /\ cursor_inv doc startPos (context sf)
    /\ endPos (context sf)
       = endPos (context (Lex_init doc startPos length initStyle)).
Proof.
  unfold Lex. destruct Lex_loop_init_total as [sf Hsf]. rewrite Hsf. simpl.
  intros [= <-]. exists sf.
  destruct (Lex_loop_end doc startPos startPos_nonneg _ _ _ Hsf)
    as (Hc & (_ & He & _) & Hi).
  split_and!; auto using inv_init.
Qed.

(** What a turn of the loop is about to style is what the run gives. *)
Lemma Lex_reaches_committed s out :
  Lex_reaches doc (Lex_init doc startPos length initStyle) s ->
  Lex doc startPos length initStyle = Some out ->
  cursor_inv doc startPos (context s)
  /\ exists n more,
       out = styles (context s) ++ replicate n (state (context s)) ++ more
       /\ pending_end doc (context s) - startSeg (context s) <= Z.of_nat n.
Proof.
  intros Hr Hout. destruct (Lex_run _ Hout) as (sf & Hsf & -> & _).
  destruct (Lex_reaches_inv doc startPos startPos_nonneg _ _ Hr) as [_ Hi].
  split; [auto using inv_init|].
  destruct (Lex_reaches_loop doc _ _ _ _ Hr Hsf) as [fuel' Hs].
  destruct (Lex_loop_end doc startPos startPos_nonneg _ _ _ Hs) as (_ & He & _).
  apply (ext_committed doc _ _ _ He), committed_Complete.
Qed.

(** The style of a position that a turn has pending. *)
Lemma Lex_reaches_style_of s out p :
  Lex_reaches doc (Lex_init doc startPos length initStyle) s ->
  Lex doc startPos length initStyle = Some out ->
  startSeg (context s) <= p < pending_end doc (context s) ->
  style_of startPos out p = Some (state (context s)).
Proof.
  intros Hr Hout Hp.
  destruct (Lex_reaches_committed _ _ Hr Hout) as (Hi & n & more & -> & Hn).
  destruct Hi as [Hlo _ _ _ _ Hlen _ _ _ _].
  unfold style_of. rewrite (proj2 (Z.ltb_ge _ _)) by lia.
  rewrite lookup_app_r by lia.
  rewrite lookup_app_l by (rewrite length_replicate; lia).
  apply lookup_replicate_2. lia.
Qed.

(** The styles a turn has sent are those the run gives. *)
Lemma Lex_reaches_settled s out p :
  Lex_reaches doc (Lex_init doc startPos length initStyle) s ->
  Lex doc startPos length initStyle = Some out ->
  startPos <= p < startSeg (context s) ->
  style_of startPos out p = style_of startPos (styles (context s)) p.
Proof.
  intros Hr Hout Hp.
  destruct (Lex_reaches_committed _ _ Hr Hout) as (Hi & n & more & -> & Hn).
  destruct Hi as [Hlo _ _ _ _ Hlen _ _ _ _].
  unfold style_of. rewrite (proj2 (Z.ltb_ge _ _)) by lia.
  apply lookup_app_l. lia.
Qed.

End RunFacts.

(** ** Tokens *)

Lemma tokens_concat (l : list (Z * Style)) :
  concat (snd <$> tokens l) = fst <$> l.
Proof.
  induction l as [|[c st] l IH]; [reflexivity|].
  rewrite fmap_cons, <- IH. cbn [tokens fst].
  destruct (tokens l) as [|[st' cs] ts]; [reflexivity|].
  case_decide; reflexivity.
Qed.

Lemma span_length doc startPos length :
  0 <= startPos -> 0 <= length -> startPos + length <= Length doc ->
  Z.of_nat (List.length (span doc startPos length)) = length.
Proof.
  intros H1 H2 H3. unfold span, Length in *.
  rewrite length_take, length_drop. lia.
Qed.

(** ** Coverage of the span *)

Lemma Complete_startSeg doc startPos c :
  cursor_inv doc startPos c ->
  startSeg (Complete doc c) = pending_end doc c.
Proof.
  intros [_ Hseg Hdoc _ _ _ _ _ _ _]. unfold Complete, ColourTo, pending_end.
  assert (startSeg c - 1 <= colour_pos doc c) as Hge.
  { unfold colour_pos. destruct (Z.ltb_spec (Length doc) (currentPos c)); lia. }
  destruct (Z.eqb_spec (colour_pos doc c) (startSeg c - 1)); [lia|].
  destruct (Z.ltb_spec (colour_pos doc c) (startSeg c)); [lia|reflexivity].
Qed.

(** C2 (as amended): for every document and every span of it that holds
    no NUL character, [Lex] returns and assigns exactly one style to every
    position of the span: the styles are as many as the positions, in
    order from [startPos], and the characters of the tokens (the runs of
    one style), put end to end, are the characters of the span. *)
Theorem Lex_covers_span doc startPos length initStyle :
  0 <= startPos -> 0 <= length -> startPos + length <= Length doc ->
  (forall p, startPos <= p < startPos + length ->
             SafeGetCharAt doc p NUL <> NUL) ->
  exists out,
    Lex doc startPos length initStyle = Some out
    /\ Z.of_nat (List.length out) = length
    /\ (forall p, startPos <= p < startPos + length ->
                  is_Some (style_of startPos out p))
    /\ concat (snd <$> tokens (zip (span doc startPos length) out))
       = span doc startPos length.
Proof.
  intros Hs Hl Hd Hnul.
  destruct (Lex_total doc startPos length initStyle) as [out Hout].
  exists out. split; [assumption|].
  assert (Z.of_nat (List.length out) = length) as Hlen.
  { destruct (Lex_run doc startPos length initStyle Hs Hl Hd out Hout)
      as (sf & _ & -> & Hc & Hi & He).
    pose proof (inv_Complete doc startPos _ Hi) as [_ _ _ _ _ Hst _ _ _ _].
    rewrite Hst, (Complete_startSeg doc startPos) by assumption.
    destruct Hi as [Hlo Hseg _ Hpe _ _ Hch _ _ _].
    unfold Lex_init, StyleContext_new in He. lex_simpl. simpl in He.
    unfold pending_end, colour_pos.
    unfold Lex_cond, More in Hc. apply andb_false_iff in Hc as [Hc|Hc].
    - apply Z.ltb_ge in Hc.
      destruct (Z.eqb_spec (startPos + length) (Length doc));
        destruct (Z.ltb_spec (Length doc) (currentPos (context sf))); lia.
    - apply negb_false_iff, Z.eqb_eq in Hc.
      destruct (Z.ltb_spec (currentPos (context sf)) (endPos (context sf)))
        as [Hlt|Hge].
      + rewrite Hch in Hc by assumption.
        assert (startPos + length <= currentPos (context sf)) as Hcur.
        { destruct (Z.le_gt_cases (startPos + length) (currentPos (context sf)));
            [assumption|]. exfalso. apply (Hnul (currentPos (context sf))); lia. }
        destruct (Z.eqb_spec (startPos + length) (Length doc));
          destruct (Z.ltb_spec (Length doc) (currentPos (context sf))); lia.
      + destruct (Z.eqb_spec (startPos + length) (Length doc));
          destruct (Z.ltb_spec (Length doc) (currentPos (context sf))); lia. }
  split; [assumption|]. split.
  - intros p Hp. unfold style_of. rewrite (proj2 (Z.ltb_ge _ _)) by lia.
    apply lookup_lt_is_Some. lia.
  - rewrite tokens_concat. apply fst_zip.
    pose proof (span_length doc startPos length Hs Hl Hd). lia.
Qed.

Lemma Lex_covers_span_witness :
  exists out,
    Lex (str "@=-") 0 3 SCE_REG_DEFAULT = Some out
    /\ Z.of_nat (List.length out) = 3
    /\ (forall p, 0 <= p < 0 + 3 -> is_Some (style_of 0 out p))
    /\ concat (snd <$> tokens (zip (span (str "@=-") 0 3) out))
       = span (str "@=-") 0 3.
Proof.
  apply (Lex_covers_span (str "@=-") 0 3 SCE_REG_DEFAULT); try (vm_compute; congruence).
  intros p Hp. assert (p = 0 \/ p = 1 \/ p = 2) as [->|[->| ->]] by lia;
    vm_compute; congruence.
Defined.

(** C2 (as stated) fails where the span holds a NUL character: the loop
    stops there, and the positions from it on get no style. Of the three
    positions of the document [a NUL b], only the first is styled. *)
Lemma Lex_stops_at_NUL :
  Lex [chr "a"; NUL; chr "b"] 0 3 SCE_REG_DEFAULT = Some [SCE_REG_DEFAULT]
  /\ ~ (exists out, Lex [chr "a"; NUL; chr "b"] 0 3 SCE_REG_DEFAULT = Some out
                    /\ Z.of_nat (List.length out) = 3).
Proof.
  assert (Lex [chr "a"; NUL; chr "b"] 0 3 SCE_REG_DEFAULT = Some [SCE_REG_DEFAULT])
    as H by (vm_compute; reflexivity).
  split; [exact H|]. intros (out & Hout & Hlen). rewrite H in Hout.
  injection Hout as <-. simpl in Hlen. lia.
Qed.

(** ** The start of a line *)

Section LineStart.

Variable doc : list Z.
Variables (startPos length : Z) (initStyle : Style).
Hypothesis startPos_nonneg : 0 <= startPos.
Hypothesis length_nonneg : 0 <= length.
Hypothesis span_in_doc : startPos + length <= Length doc.

Abbreviation init := (Lex_init doc startPos length initStyle).

(** In a turn of the loop, the cursor is inside the document, on the
    character held in [ch], and [atLineStart] tells whether the position
    is the first of a line. *)
Lemma Lex_reaches_cursor s :
  Lex_reaches doc init s -> Lex_cond s = true ->
  cursor_inv doc startPos (context s)
  /\ startPos <= currentPos (context s) < Length doc
  /\ ch (context s) = SafeGetCharAt doc (currentPos (context s)) NUL
  /\ atLineStart (context s) = is_line_start doc (currentPos (context s))
  /\ pending_end doc (context s) = currentPos (context s).
Proof.
  intros Hr Hc.
  destruct (Lex_reaches_inv doc startPos startPos_nonneg _ _ Hr) as [_ Hi].
  specialize (Hi (inv_init doc startPos length initStyle length_nonneg span_in_doc)).
  apply Lex_cond_true in Hc as [Hlt Hch].
  pose proof Hi as [Hlo Hseg _ _ Hend _ Hch' _ _ Hls].
  rewrite Hch' in Hch by assumption.
  apply SafeGetCharAt_not_default in Hch.
  split_and!; auto; try lia.
  unfold pending_end, colour_pos. rewrite (proj2 (Z.ltb_ge _ _)); lia.
Qed.

End LineStart.

(** The start of a line, for every document: at the start of every
    physical line that [Lex] processes (a turn of its loop at a position
    that is the first of a line), the backward whitespace-skip for a
    backslash decides ([IsPrevNonWhitespace], which looks back from the
    line start over the whitespace of the previous line, as far as, and
    without, the character at which the start of a line holds).
    When no backslash is reachable, the line is not a continuation: the
    state is reset to Default and the remembered last non-default style is
    cleared. When one is reachable, the line is a continuation: nothing is
    reset, and the line starts in the trailing style of the prior line,
    the style that the run gives to the last character of that line (for
    the first turn of the run, the initial style that the host
    supplies). *)
Theorem Lex_line_start_continuation doc startPos length initStyle s out :
  0 <= startPos -> 0 <= length -> startPos + length <= Length doc ->
  Lex_reaches doc (Lex_init doc startPos length initStyle) s ->
  Lex_cond s = true ->
  is_line_start doc (currentPos (context s)) = true ->
  Lex doc startPos length initStyle = Some out ->
  let s' := Lex_line_start doc s in
  atLineStart (context s) = true
  /\ if next_significant_is BACKSLASH
          (line_before doc (currentPos (context s)))
     then state (context s') = state (context s)
          /\ stateLastNonDefault s' = stateLastNonDefault s
          /\ (currentPos (context s) = startPos ->
              state (context s') = initStyle)
          /\ (startPos < currentPos (context s) ->
              style_of startPos out (currentPos (context s) - 1)
              = Some (state (context s')))
     else state (context s') = SCE_REG_DEFAULT
          /\ stateLastNonDefault s' = SCE_REG_DEFAULT.
Proof.
  intros Hs Hl Hd Hr Hc Hls Hout s'.
  destruct (Lex_reaches_cursor doc startPos length initStyle Hs Hl Hd s Hr Hc)
    as (Hi & Hpos & Hch & Hals & Hpe).
  rewrite Hls in Hals. split; [assumption|].
  subst s'. unfold Lex_line_start. rewrite Hals.
  rewrite <- IsPrevNonWhitespace_spec.
  destruct (IsPrevNonWhitespace doc (currentPos (context s)) BACKSLASH);
    [|split; reflexivity].
  cbn [negb]. lex_simpl. split_and!; try reflexivity.
  - intros Heq.
    destruct (Lex_reaches_pending doc startPos Hs _ _
                (inv_init doc startPos length initStyle Hl Hd) Hr Hc)
      as [->|[Hlt _]]; [reflexivity|].
    unfold Lex_init, StyleContext_new in Hlt. lex_simpl. simpl in Hlt. lia.
  - intros Hgt.
    destruct (Lex_reaches_pending doc startPos Hs _ _
                (inv_init doc startPos length initStyle Hl Hd) Hr Hc)
      as [->|[_ Hseg]].
    { unfold Lex_init, StyleContext_new in Hgt. lex_simpl. simpl in Hgt. lia. }
    apply (Lex_reaches_style_of doc startPos length initStyle Hs Hl Hd s);
      [assumption..|lia].
Qed.

Lemma Lex_line_start_continuation_witness :
  let s := Lex_turns continued_doc 3
             (Lex_init continued_doc 0 4 SCE_REG_DEFAULT) in
  let s' := Lex_line_start continued_doc s in
  atLineStart (context s) = true
  /\ if next_significant_is BACKSLASH
          (line_before continued_doc (currentPos (context s)))
     then state (context s') = state (context s)
          /\ stateLastNonDefault s' = stateLastNonDefault s
          /\ (currentPos (context s) = 0 ->
              state (context s') = SCE_REG_DEFAULT)
          /\ (0 < currentPos (context s) ->
              style_of 0 [SCE_REG_OPERATOR; SCE_REG_OPERATOR; SCE_REG_OPERATOR;
                          SCE_REG_DEFAULT]
                (currentPos (context s) - 1)
              = Some (state (context s')))
     else state (context s') = SCE_REG_DEFAULT
          /\ stateLastNonDefault s' = SCE_REG_DEFAULT.
Proof.
  apply (Lex_line_start_continuation continued_doc 0 4 SCE_REG_DEFAULT).
  - lia.
  - lia.
  - vm_compute. congruence.
  - cbn [Lex_turns]. repeat (apply reaches_next; [|vm_compute; reflexivity]).
    apply reaches_first.
  - vm_compute. reflexivity.
  - vm_compute. reflexivity.
  - vm_compute. reflexivity.
Defined.

(** *** The line after a line that holds only a backslash *)

(** C1, at the start of a line whose previous line holds only a backslash.
    The document has three lines: an equals sign and a backslash, a
    backslash alone, and a letter. The second line continues the first and
    is styled Operator, line feed included. It ends in a backslash, which
    the whitespace-skip over its characters, read backwards from the start
    of the third line, reaches: the third line is a continuation, and by
    the claim it starts in the trailing style of the second, Operator.
    [IsPrevNonWhitespace] tests [AtBeginOfLine] at the position it is about
    to read and leaves its loop when the test holds, so it never reads the
    first character of the previous line: it answers false, and the third
    line starts in Default. *)
Theorem Lex_line_start_lone_backslash :
  let doc := lone_backslash_doc in
  let s := Lex_turns doc 5 (Lex_init doc 0 6 SCE_REG_DEFAULT) in
  Lex_reaches doc (Lex_init doc 0 6 SCE_REG_DEFAULT) s
  /\ Lex_cond s = true
  /\ currentPos (context s) = 5
  /\ atLineStart (context s) = true
  /\ take 2 (drop 3 doc) = [BACKSLASH; LF]
  /\ next_significant_is BACKSLASH (reverse (take 2 (drop 3 doc))) = true
  /\ Lex doc 0 6 SCE_REG_DEFAULT
     = Some [SCE_REG_OPERATOR; SCE_REG_OPERATOR; SCE_REG_OPERATOR;
             SCE_REG_OPERATOR; SCE_REG_OPERATOR; SCE_REG_DEFAULT]
  /\ state (context s) = SCE_REG_OPERATOR
  /\ IsPrevNonWhitespace doc 5 BACKSLASH = false
  /\ state (context (Lex_line_start doc s)) = SCE_REG_DEFAULT
  /\ stateLastNonDefault (Lex_line_start doc s) = SCE_REG_DEFAULT.
Proof.
  cbv zeta. split.
  - cbn [Lex_turns]. repeat (apply reaches_next; [|vm_compute; reflexivity]).
    apply reaches_first.
  - split_and!; vm_compute; reflexivity.
Qed.

(** The same two last lines as a document of their own: the first
    character of the first line of a document is read, since no line feed
    comes before it, and the second line is a continuation. *)
Example IsPrevNonWhitespace_first_line :
  let doc := first_backslash_doc in
  let s := Lex_turns doc 2 (Lex_init doc 0 3 SCE_REG_DEFAULT) in
  currentPos (context s) = 2
  /\ atLineStart (context s) = true
  /\ IsPrevNonWhitespace doc 2 BACKSLASH = true
  /\ highlight (Lex_line_start doc s) = true
  /\ state (context (Lex_line_start doc s)) = state (context s).
Proof. split_and!; vm_compute; reflexivity. Qed.

(** ** The highlight flag *)

Section Highlight.

Variable doc : list Z.




End Highlight.




(** ** Entering a state *)

Section Entering.

Variable doc : list Z.

Lemma SetState_fields st c :
  state (SetState doc st c) = st
  /\ currentPos (SetState doc st c) = currentPos c
  /\ endPos (SetState doc st c) = endPos c
  /\ ch (SetState doc st c) = ch c
  /\ startSeg (SetState doc st c) = startSeg (Complete doc c).
Proof.
  unfold SetState. fold (Complete doc c). unfold Complete, ColourTo.
  repeat case_match; simpl; auto.
Qed.

Lemma Forward_fields c :
  currentPos c < endPos c ->
  state (Forward doc c) = state c
  /\ currentPos (Forward doc c) = currentPos c + 1
  /\ endPos (Forward doc c) = endPos c
  /\ startSeg (Forward doc c) = startSeg c
  /\ styles (Forward doc c) = styles c.
Proof.
  intros H. unfold Forward. rewrite (proj2 (Z.ltb_lt _ _) H). simpl. auto.
Qed.

Lemma context_turn_end x :
  context (ContextForwardSetState doc None x) = Forward doc (context x).
Proof. unfold ContextForwardSetState. case_match; reflexivity. Qed.

Variables (startPos length : Z) (initStyle : Style).
Hypothesis startPos_nonneg : 0 <= startPos.
Hypothesis length_nonneg : 0 <= length.
Hypothesis span_in_doc : startPos + length <= Length doc.

(** When the classification of a turn enters a state at its character,
    the run gives that character the style of the state. *)
Lemma entered_style s out st :
  Lex_reaches doc (Lex_init doc startPos length initStyle) s ->
  Lex_cond s = true ->
  Lex doc startPos length initStyle = Some out ->
  let s1 := Lex_switch doc (Lex_line_start doc s) in
  context (Lex_default doc s1) = SetState doc st (context s1) ->
  currentPos (context s1) < endPos (context s1) ->
  ch (context s1) <> NUL ->
  state (context (Lex_body doc s)) = st
  /\ style_of startPos out (currentPos (context s1)) = Some st.
Proof.
  intros Hr Hc Hout s1 Hdef Hlt Hch.
  assert (cursor_inv doc startPos (context s1)) as Hi1.
  { subst s1.
    apply (closed_switch _ _ (inv_closed doc startPos startPos_nonneg)),
      (closed_line_start _ _ (inv_closed doc startPos startPos_nonneg)).
    apply (Lex_reaches_inv doc startPos startPos_nonneg _ _ Hr),
      inv_init; assumption. }
  assert (Lex_reaches doc (Lex_init doc startPos length initStyle)
            (Lex_body doc s)) as Hr2 by (apply reaches_next; assumption).
  pose proof (Lex_reaches_style_of doc startPos length initStyle
                startPos_nonneg length_nonneg span_in_doc _ out
                (currentPos (context s1)) Hr2 Hout) as Hstyle.
  revert Hstyle. rewrite Lex_body_eq, context_turn_end. fold s1.
  rewrite Hdef. clearbody s1.
  destruct (SetState_fields st (context s1)) as (Hst & Hcp & Hep & _ & Hsg).
  destruct (Forward_fields (SetState doc st (context s1))) as (Fst & Fcp & _ & Fsg & _);
    [lia|].
  rewrite Fst, Hst, Fsg, Hsg, (Complete_startSeg doc startPos) by assumption.
  unfold pending_end, colour_pos. rewrite Fcp, Hcp.
  pose proof Hi1 as [_ _ _ _ _ _ Hch1 _ _ _].
  rewrite Hch1 in Hch by assumption. apply SafeGetCharAt_not_default in Hch.
  rewrite !(proj2 (Z.ltb_ge _ _)) by lia.
  intros Hstyle. split; [reflexivity|]. apply Hstyle. lia.
Qed.

(** The classification of a double quote in the Default state. *)
Lemma Lex_default_quote x :
  state (context x) = SCE_REG_DEFAULT -> ch (context x) = DQUOTE ->
  context (Lex_default doc x)
  = SetState doc
      (if AtValueName doc (currentPos (context x))
       then SCE_REG_VALUENAME else SCE_REG_STRING)
      (context x).
Proof.
  intros Hst Hch. unfold Lex_default. rewrite Hst, Hch. cbv zeta.
  rewrite bool_decide_eq_true_2 by reflexivity.
  change (DQUOTE =? SEMICOLON) with false. change (DQUOTE =? DQUOTE) with true.
  change (DQUOTE =? AT) with false.
  change (Contains setOperators DQUOTE) with false.
  change ((DQUOTE =? CR) || (DQUOTE =? LF)) with false.
  cbv iota. rewrite andb_false_l.
  destruct (AtValueName doc (currentPos (context x))); reflexivity.
Qed.

(** The classification of a left square bracket in the Default state. *)
Lemma Lex_default_bracket x :
  state (context x) = SCE_REG_DEFAULT -> ch (context x) = LBRACKET ->
  context (Lex_default doc x)
  = SetState doc
      (if IsNextNonWhitespace doc (currentPos (context x)) MINUS
       then SCE_REG_DELETEDKEY else SCE_REG_ADDEDKEY)
      (context x).
Proof.
  intros Hst Hch. unfold Lex_default. rewrite Hst, Hch. cbv zeta.
  rewrite bool_decide_eq_true_2 by reflexivity.
  change (LBRACKET =? SEMICOLON) with false.
  change (LBRACKET =? DQUOTE) with false.
  change (LBRACKET =? LBRACKET) with true.
  change (LBRACKET =? AT) with false.
  change (Contains setOperators LBRACKET) with false.
  change ((LBRACKET =? CR) || (LBRACKET =? LF)) with false.
  cbv iota. rewrite andb_false_l.
  destruct (IsNextNonWhitespace doc (currentPos (context x)) MINUS); reflexivity.
Qed.

End Entering.

(** ** Value names and strings, added and deleted keys *)

(** C4: a double quote met in the Default state enters ValueName if and
    only if the scan forward on the line, in which a backslash escapes the
    character after it and the end of the line gives false, finds an
    unescaped closing quote whose next character that is not whitespace,
    before the end of the line, is an equals sign; otherwise it enters
    String. The run gives the quote that style. In the assignment of the
    string [bar] to the value [Foo], the quoted [Foo] is a ValueName and
    the quoted [bar] a String. *)
Theorem quote_in_default :
  (forall doc startPos length initStyle s out,
      0 <= startPos -> 0 <= length -> startPos + length <= Length doc ->
      Lex_reaches doc (Lex_init doc startPos length initStyle) s ->
      Lex_cond s = true ->
      Lex doc startPos length initStyle = Some out ->
      let s1 := Lex_switch doc (Lex_line_start doc s) in
      state (context s1) = SCE_REG_DEFAULT ->
      ch (context s1) = DQUOTE ->
      currentPos (context s1) < endPos (context s1) ->
      let entered :=
        if closing_quote_implies_value_name
             (line_after doc (currentPos (context s1)))
        then SCE_REG_VALUENAME else SCE_REG_STRING in
      state (context (Lex_body doc s)) = entered
      /\ style_of startPos out (currentPos (context s1)) = Some entered)
  /\ Lex foo_bar_doc 0 11 SCE_REG_DEFAULT
     = Some (replicate 5 SCE_REG_VALUENAME ++ [SCE_REG_OPERATOR]
             ++ replicate 5 SCE_REG_STRING).
Proof.
  split; [|vm_compute; reflexivity].
  intros doc startPos length initStyle s out Hs Hl Hd Hr Hc Hout s1 Hst Hch Hlt.
  rewrite <- AtValueName_spec. cbv zeta.
  apply (entered_style doc startPos length initStyle Hs Hl Hd s out _ Hr Hc Hout).
  - apply Lex_default_quote; assumption.
  - assumption.
  - fold s1. rewrite Hch. discriminate.
Qed.

Lemma quote_in_default_witness :
  let s := Lex_init foo_bar_doc 0 11 SCE_REG_DEFAULT in
  let s1 := Lex_switch foo_bar_doc (Lex_line_start foo_bar_doc s) in
  let entered :=
    if closing_quote_implies_value_name
         (line_after foo_bar_doc (currentPos (context s1)))
    then SCE_REG_VALUENAME else SCE_REG_STRING in
  state (context (Lex_body foo_bar_doc s)) = entered
  /\ style_of 0 (replicate 5 SCE_REG_VALUENAME ++ [SCE_REG_OPERATOR]
                 ++ replicate 5 SCE_REG_STRING) (currentPos (context s1))
     = Some entered.
Proof.
  apply (proj1 quote_in_default foo_bar_doc 0 11 SCE_REG_DEFAULT).
  - lia.
  - lia.
  - vm_compute. congruence.
  - apply reaches_first.
  - vm_compute. reflexivity.
  - vm_compute. reflexivity.
  - vm_compute. reflexivity.
  - vm_compute. reflexivity.
  - vm_compute. reflexivity.
Defined.

(** C5: a left square bracket met in the Default state enters
    DeletedKeyPath if the next character after it that is not whitespace,
    before the end of the line, is a hyphen, and AddedKeyPath otherwise.
    The run gives the bracket that style. The key
    [[HKEY_CURRENT_USER\Software\Foo]] is an AddedKeyPath throughout, and
    with a hyphen after its bracket a DeletedKeyPath throughout. *)
Theorem bracket_in_default :
  (forall doc startPos length initStyle s out,
      0 <= startPos -> 0 <= length -> startPos + length <= Length doc ->
      Lex_reaches doc (Lex_init doc startPos length initStyle) s ->
      Lex_cond s = true ->
      Lex doc startPos length initStyle = Some out ->
      let s1 := Lex_switch doc (Lex_line_start doc s) in
      state (context s1) = SCE_REG_DEFAULT ->
      ch (context s1) = LBRACKET ->
      currentPos (context s1) < endPos (context s1) ->
      let entered :=
        if next_significant_is MINUS (line_after doc (currentPos (context s1)))
        then SCE_REG_DELETEDKEY else SCE_REG_ADDEDKEY in
      state (context (Lex_body doc s)) = entered
      /\ style_of startPos out (currentPos (context s1)) = Some entered)
  /\ Lex added_key_doc 0 32 SCE_REG_DEFAULT
     = Some (replicate 32 SCE_REG_ADDEDKEY)
  /\ Lex deleted_key_doc 0 33 SCE_REG_DEFAULT
     = Some (replicate 33 SCE_REG_DELETEDKEY).
Proof.
  split; [|split; vm_compute; reflexivity].
  intros doc startPos length initStyle s out Hs Hl Hd Hr Hc Hout s1 Hst Hch Hlt.
  rewrite <- IsNextNonWhitespace_spec. cbv zeta.
  apply (entered_style doc startPos length initStyle Hs Hl Hd s out _ Hr Hc Hout).
  - apply Lex_default_bracket; assumption.
  - assumption.
  - fold s1. rewrite Hch. discriminate.
Qed.

Lemma bracket_in_default_witness :
  let s := Lex_init deleted_key_doc 0 33 SCE_REG_DEFAULT in
  let s1 := Lex_switch deleted_key_doc (Lex_line_start deleted_key_doc s) in
  let entered :=
    if next_significant_is MINUS
         (line_after deleted_key_doc (currentPos (context s1)))
    then SCE_REG_DELETEDKEY else SCE_REG_ADDEDKEY in
  state (context (Lex_body deleted_key_doc s)) = entered
  /\ style_of 0 (replicate 33 SCE_REG_DELETEDKEY) (currentPos (context s1))
     = Some entered.
Proof.
  apply (proj1 bracket_in_default deleted_key_doc 0 33 SCE_REG_DEFAULT).
  - lia.
  - lia.
  - vm_compute. congruence.
  - apply reaches_first.
  - vm_compute. reflexivity.
  - vm_compute. reflexivity.
  - vm_compute. reflexivity.
  - vm_compute. reflexivity.
  - vm_compute. reflexivity.
Defined.

(** ** The folder *)

Section FoldFacts.

Variable options : OptionsRegistry.
Variable doc : list Z.
Variable docStyles : list Style.

Lemma LevelAt_insert lv line level l :
  LevelAt (<[line := level]> lv) l
  = if l =? line then level else LevelAt lv l.
Proof.
  unfold LevelAt. destruct (Z.eqb_spec l line) as [->|Hne].
  - rewrite lookup_insert_eq. reflexivity.
  - rewrite lookup_insert_ne by congruence. reflexivity.
Qed.



(** A line is written when its level changes, and only then. *)
Lemma Fold_line_writes f :
  let level := Fold_level options f in
  if level =? LevelAt (levels f) (currLine f)
  then writes (Fold_line options f) = writes f
       /\ levels (Fold_line options f) = levels f
  else writes (Fold_line options f) = writes f ++ [(currLine f, level)]
       /\ levels (Fold_line options f) = <[currLine f := level]> (levels f).
Proof.
  unfold Fold_line. cbv zeta.
  destruct (Fold_level options f =? LevelAt (levels f) (currLine f));
    simpl; auto.
Qed.

(** The level stored for the line is then the level computed, and the
    levels of the other lines are those of before. *)
Lemma Fold_line_LevelAt f l :
  LevelAt (levels (Fold_line options f)) l
  = if l =? currLine f then Fold_level options f else LevelAt (levels f) l.
Proof.
  pose proof (Fold_line_writes f) as H. cbv zeta in H.
  destruct (Z.eqb_spec (Fold_level options f) (LevelAt (levels f) (currLine f)))
    as [He|Hne]; destruct H as [_ ->].
  - destruct (Z.eqb_spec l (currLine f)) as [->|]; congruence.
  - apply LevelAt_insert.
Qed.

Lemma Fold_line_cursor f :
  currLine (Fold_line options f) = currLine f + 1
  /\ visibleChars (Fold_line options f) = 0
  /\ atKeyPath (Fold_line options f) = false.
Proof.
  unfold Fold_line. cbv zeta. case_match; simpl; auto.
Qed.





(** The loop, line by line. *)
Lemma Fold_loop_lines left endPos i f :
  let f' := Fold_loop options doc docStyles left endPos i f in
  let lines :=
    Fold_scan doc docStyles left endPos i
      (currLine f) (visibleChars f) (atKeyPath f) in
  (levels f', writes f') = Fold_lines options lines (levels f, writes f)
  /\ currLine f' = currLine f + Z.of_nat (List.length lines).
Proof.
  revert i f. induction left as [|left IH]; intros i f.
  - simpl. split; [reflexivity|lia].
  - cbn [Fold_loop Fold_scan]. cbv zeta.
    specialize (IH (i + 1) (Fold_step options doc docStyles endPos i f)).
    cbv zeta in IH. destruct IH as [IH1 IH2]. rewrite IH1, IH2. clear IH1 IH2.
    unfold Fold_step. cbv zeta.
    destruct ((SafeGetCharAt doc i SPACE =? CR)
              && negb (SafeGetCharAt doc (i + 1) SPACE =? LF)
              || (SafeGetCharAt doc i SPACE =? LF) || (i =? endPos - 1));
      destruct (negb (isspacechar (SafeGetCharAt doc i SPACE)));
      cbn [currLine visibleChars atKeyPath levels writes];
      rewrite ?(proj1 (Fold_line_cursor _)),
        ?(proj1 (proj2 (Fold_line_cursor _))),
        ?(proj2 (proj2 (Fold_line_cursor _)));
      cbn [currLine visibleChars atKeyPath levels writes List.length];
      (split; [reflexivity|lia]).
Qed.

End FoldFacts.




(** ** The property interface *)

(** C9: for every key and value passed to [PropertySet], whatever the
    options so far and whatever the reading of values: if the key is one
    of the recognized keys, [fold] and [fold.compact], the call returns
    the success indication, 0, for every value, and the option of the key
    takes the value; if the key is not recognized, the call returns the
    not-found indication, -1, and leaves the options as they were. *)
Theorem PropertySet_result option_value options (key val : string) :
  PropertySet option_value options key val
  = if decide (key = "fold"%string) then
      (mkOptionsRegistry (foldCompact options) (option_value val), 0)
    else if decide (key = "fold.compact"%string) then
      (mkOptionsRegistry (option_value val) (fold options), 0)
    else (options, -1).
Proof.
  unfold PropertySet, OptionSet_PropertySet, OptionSetRegistry, DefineProperty.
  destruct (decide (key = "fold"%string)) as [->|H1].
  { rewrite lookup_insert_eq. reflexivity. }
  rewrite lookup_insert_ne by congruence.
  destruct (decide (key = "fold.compact"%string)) as [->|H2].
  { rewrite lookup_insert_eq. reflexivity. }
  rewrite lookup_insert_ne, lookup_empty by congruence. reflexivity.
Qed.

(** ** The shape of a GUID *)

Section GuidShape.

Variable doc : list Z.

Lemma AtGUID_digits_spec count start offset :
  AtGUID_digits doc count start offset
  = if forallb (fun k => hex_or_hyphen (SafeGetCharAt doc (start + k) SPACE))
         (seqZ offset (Z.of_nat count))
    then Some (offset + Z.of_nat count)
    else None.
Proof.
  revert offset. induction count as [|count IH]; intros offset.
  - simpl. rewrite Z.add_0_r. reflexivity.
  - cbn [AtGUID_digits]. cbv zeta.
    replace (Z.of_nat (S count)) with (Z.succ (Z.of_nat count)) by lia.
    rewrite seqZ_cons by lia. cbn [forallb]. fold (hex_or_hyphen
      (SafeGetCharAt doc (start + offset) SPACE)).
    destruct (hex_or_hyphen (SafeGetCharAt doc (start + offset) SPACE));
      [|reflexivity].
    cbn [negb andb]. rewrite IH.
    replace (Z.succ offset) with (offset + 1) by lia.
    replace (Z.pred (Z.succ (Z.of_nat count))) with (Z.of_nat count) by lia.
    replace (offset + 1 + Z.of_nat count)
      with (offset + Z.succ (Z.of_nat count)) by lia.
    reflexivity.
Qed.

(** [AtGUID] accepts exactly the 36 characters after the brace that are
    hexadecimal digits or hyphens, in any arrangement, with a closing
    brace after them. *)
Lemma AtGUID_spec start :
  AtGUID doc start
  = forallb (fun k => hex_or_hyphen (SafeGetCharAt doc (start + k) SPACE))
      (seqZ 1 36)
    && (SafeGetCharAt doc (start + 37) SPACE =? RBRACE).
Proof.
  unfold AtGUID. cbn [AtGUID_portions]. cbv zeta.
  change (seqZ 1 36)
    with (seqZ 1 8 ++ seqZ 9 5 ++ seqZ 14 5 ++ seqZ 19 5 ++ seqZ 24 13).
  rewrite !forallb_app, !AtGUID_digits_spec.
  change (Z.of_nat 8) with 8.
  destruct (forallb _ (seqZ 1 8)); [|reflexivity].
  change (0 + 1 =? 4) with false. cbv iota.
  change (1 + 8) with 9. rewrite AtGUID_digits_spec. change (Z.of_nat 5) with 5.
  destruct (forallb _ (seqZ 9 5)); [|reflexivity].
  change (0 + 1 + 1 =? 4) with false. cbv iota.
  change (9 + 5) with 14. rewrite AtGUID_digits_spec. change (Z.of_nat 5) with 5.
  destruct (forallb _ (seqZ 14 5)); [|reflexivity].
  change (0 + 1 + 1 + 1 =? 4) with false. cbv iota.
  change (14 + 5) with 19. rewrite AtGUID_digits_spec. change (Z.of_nat 5) with 5.
  destruct (forallb _ (seqZ 19 5)); [|reflexivity].
  change (0 + 1 + 1 + 1 + 1 =? 4) with true. cbv iota.
  change (19 + 5) with 24. rewrite AtGUID_digits_spec. change (Z.of_nat 13) with 13.
  destruct (forallb _ (seqZ 24 13)); reflexivity.
Qed.

Lemma AtGUID_true start :
  AtGUID doc start = true ->
  (forall k, 1 <= k <= 36 ->
             hex_or_hyphen (SafeGetCharAt doc (start + k) SPACE) = true)
  /\ SafeGetCharAt doc (start + 37) SPACE = RBRACE.
Proof.
  rewrite AtGUID_spec. intros H. apply andb_true_iff in H as [H1 H2].
  split; [|apply Z.eqb_eq, H2].
  intros k Hk. rewrite forallb_forall in H1. apply H1.
  apply list_elem_of_In, elem_of_seqZ. lia.
Qed.

End GuidShape.

(** ** The style of the character that a turn leaves behind *)

Section Passing.

Variable doc : list Z.
Variables (startPos length : Z) (initStyle : Style).
Hypothesis startPos_nonneg : 0 <= startPos.
Hypothesis length_nonneg : 0 <= length.
Hypothesis span_in_doc : startPos + length <= Length doc.

Abbreviation init := (Lex_init doc startPos length initStyle).

(** A run that passes through a cursor styles the segment pending there
    with the state of that cursor. *)
Lemma Lex_passes s c out q :
  Lex_reaches doc init s ->
  Lex doc startPos length initStyle = Some out ->
  cursor_inv doc startPos c ->
  ext doc c (context s) ->
  startSeg c <= q < pending_end doc c ->
  style_of startPos out q = Some (state c).
Proof.
  intros Hr Hout Hi He Hq.
  destruct (Lex_run doc startPos length initStyle startPos_nonneg
              length_nonneg span_in_doc out Hout) as (sf & Hsf & -> & _).
  destruct (Lex_reaches_loop doc _ _ _ _ Hr Hsf) as [fuel' Hs].
  destruct (Lex_loop_end doc startPos startPos_nonneg _ _ _ Hs) as (_ & He' & _).
  pose proof (ext_committed doc _ _ _ (ext_trans doc _ _ _ He He')
                (committed_Complete doc (context sf)))
    as (n & more & -> & Hn).
  destruct Hi as [Hlo _ _ _ _ Hlen _ _ _ _].
  unfold style_of. rewrite (proj2 (Z.ltb_ge _ _)) by lia.
  rewrite lookup_app_r by lia.
  rewrite lookup_app_l by (rewrite length_replicate; lia).
  apply lookup_replicate_2. lia.
Qed.

(** The character that a turn moves past takes the state held at that
    move. *)
Lemma Lex_forward_style s c out :
  Lex_reaches doc init s -> Lex_cond s = true ->
  Lex doc startPos length initStyle = Some out ->
  cursor_inv doc startPos c ->
  currentPos c < endPos c -> currentPos c < Length doc ->
  ext doc (Forward doc c) (context (Lex_body doc s)) ->
  style_of startPos out (currentPos c) = Some (state c).
Proof.
  intros Hr Hc Hout Hi Hlt Hdoc He.
  destruct (Forward_fields doc c Hlt) as (Hst & Hcp & _ & Hsg & _).
  rewrite <- Hst.
  apply (Lex_passes (Lex_body doc s) (Forward doc c) out);
    [apply reaches_next; assumption|assumption| |assumption|].
  - apply inv_Forward; assumption.
  - rewrite Hsg. unfold pending_end, colour_pos. rewrite Hcp.
    rewrite (proj2 (Z.ltb_ge _ _)) by lia.
    destruct Hi as [_ Hseg _ _ _ _ _ _ _ _]. lia.
Qed.

End Passing.

(** ** Exact turns *)

Section Turns.

Variable doc : list Z.

(** The check at the start of a line keeps the cursor, or resets the
    state. *)
Lemma Lex_line_start_fields s :
  beforeGUID (Lex_line_start doc s) = beforeGUID s
  /\ beforeEscape (Lex_line_start doc s) = beforeEscape s
  /\ afterEqualSign (Lex_line_start doc s) = afterEqualSign s
  /\ ((context (Lex_line_start doc s) = context s
       /\ stateLastNonDefault (Lex_line_start doc s) = stateLastNonDefault s
       /\ (atLineStart (context s) = true ->
           IsPrevNonWhitespace doc (currentPos (context s)) BACKSLASH = true))
      \/ (context (Lex_line_start doc s)
          = SetState doc SCE_REG_DEFAULT (context s)
          /\ atLineStart (context s) = true
          /\ IsPrevNonWhitespace doc (currentPos (context s)) BACKSLASH = false)).
Proof.
  unfold Lex_line_start. destruct (atLineStart (context s)).
  - destruct (IsPrevNonWhitespace doc (currentPos (context s)) BACKSLASH);
      cbn [negb]; lex_simpl; split_and!; auto.
  - split_and!; auto. left. split_and!; auto. discriminate.
Qed.

Lemma Lex_default_skip x :
  state (context x) <> SCE_REG_DEFAULT -> Lex_default doc x = x.
Proof.
  intros H. unfold Lex_default. rewrite bool_decide_eq_false_2 by assumption.
  reflexivity.
Qed.

Lemma turn_end_fields x :
  context (ContextForwardSetState doc None x) = Forward doc (context x)
  /\ beforeGUID (ContextForwardSetState doc None x) = beforeGUID x
  /\ (state (context x) <> SCE_REG_DEFAULT ->
      stateLastNonDefault (ContextForwardSetState doc None x)
      = state (context x)).
Proof.
  unfold ContextForwardSetState. case_bool_decide; lex_simpl; split_and!; auto.
  congruence.
Qed.

(** A character inside a GUID. *)
Lemma turn_GUID_inner s :
  state (context s) = SCE_REG_STRING_GUID ->
  atLineStart (context s) = false ->
  ch (context s) <> RBRACE ->
  context (Lex_body doc s) = Forward doc (context s)
  /\ beforeGUID (Lex_body doc s) = beforeGUID s.
Proof.
  intros Hst Hals Hch. rewrite Lex_body_eq.
  assert (Lex_line_start doc s = s) as ->
    by (unfold Lex_line_start; rewrite Hals; reflexivity).
  assert (Lex_switch doc s = s) as ->.
  { unfold Lex_switch. rewrite Hst. unfold case_GUID, case_GUID_close.
    rewrite (proj2 (Z.eqb_neq _ _) Hch). unfold case_GUID_next. rewrite Hst.
    cbn [IsStringState IsKeyPathState bool_decide decide_rel orb].
    rewrite !andb_false_r. reflexivity. }
  rewrite Lex_default_skip by (rewrite Hst; discriminate).
  destruct (turn_end_fields s) as (-> & -> & _). auto.
Qed.

(** The opening brace of a GUID inside a string. *)
Lemma turn_GUID_open s :
  let s0 := Lex_line_start doc s in
  IsStringState (state (context s0)) = true ->
  ch (context s0) = LBRACE ->
  AtGUID doc (currentPos (context s0)) = true ->
  context (Lex_body doc s)
  = Forward doc (SetState doc SCE_REG_STRING_GUID (context s0))
  /\ beforeGUID (Lex_body doc s) = state (context s0).
Proof.
  intros s0 Hst Hch Hguid. rewrite Lex_body_eq. fold s0. clearbody s0.
  assert (Lex_switch doc s0
          = set_context (SetState doc SCE_REG_STRING_GUID)
              (set_beforeGUID (state (context s0)) s0)) as ->.
  { unfold Lex_switch, IsStringState in *.
    assert (case_STRING doc s0
            = set_context (SetState doc SCE_REG_STRING_GUID)
                (set_beforeGUID (state (context s0)) s0)) as Hcase.
    { unfold case_STRING. rewrite Hch, Hguid. cbv zeta.
      change (LBRACE =? DQUOTE) with false.
      change (LBRACE =? BACKSLASH) with false.
      change (LBRACE =? LBRACE) with true. cbv iota. lex_simpl.
      destruct (SetState_fields doc SCE_REG_STRING_GUID (context s0))
        as (-> & _).
      reflexivity. }
    destruct (state (context s0)); try discriminate; exact Hcase. }
  rewrite Lex_default_skip
    by (lex_simpl; destruct (SetState_fields doc SCE_REG_STRING_GUID (context s0))
          as (-> & _); discriminate).
  destruct (turn_end_fields
              (set_context (SetState doc SCE_REG_STRING_GUID)
                 (set_beforeGUID (state (context s0)) s0))) as (-> & -> & _).
  auto.
Qed.

(** The closing brace of a GUID. *)
Lemma turn_GUID_close s :
  state (context s) = SCE_REG_STRING_GUID ->
  atLineStart (context s) = false ->
  ch (context s) = RBRACE ->
  let y := case_GUID_close doc s in
  context y = SetState doc (beforeGUID s) (Forward doc (context s))
  /\ Lex_body doc s
     = ContextForwardSetState doc None
         (Lex_default doc (case_GUID_next doc y)).
Proof.
  intros Hst Hals Hch y. split.
  - subst y. unfold case_GUID_close. rewrite Hch.
    change (RBRACE =? RBRACE) with true. cbv iota.
    unfold ContextForwardSetState. case_bool_decide; reflexivity.
  - rewrite Lex_body_eq.
    assert (Lex_line_start doc s = s) as ->
      by (unfold Lex_line_start; rewrite Hals; reflexivity).
    unfold Lex_switch. rewrite Hst. reflexivity.
Qed.

End Turns.

(** ** A GUID inside a string *)

Lemma hex_or_hyphen_char c :
  hex_or_hyphen c = true ->
  c <> NUL /\ c <> LF /\ c <> CR /\ c <> SPACE /\ c <> RBRACE.
Proof.
  unfold hex_or_hyphen, isxdigit, isdigit, NUL, LF, CR, SPACE, RBRACE, MINUS.
  intros H. repeat (apply orb_true_iff in H as [H|H]);
    try (apply andb_true_iff in H as [H1 H2]; apply Z.leb_le in H1, H2; lia).
  apply Z.eqb_eq in H. lia.
Qed.

Lemma SafeGetCharAt_default doc pos d d' :
  SafeGetCharAt doc pos d <> d -> SafeGetCharAt doc pos d' = SafeGetCharAt doc pos d.
Proof.
  intros H. apply SafeGetCharAt_not_default in H.
  pose proof (SafeGetCharAt_inside doc pos d H) as H1.
  pose proof (SafeGetCharAt_inside doc pos d' H) as H2. congruence.
Qed.

Lemma at_line_end_false doc pos :
  pos < Length doc ->
  SafeGetCharAt doc pos NUL <> LF -> SafeGetCharAt doc pos NUL <> CR ->
  at_line_end doc pos = false.
Proof.
  intros H1 H2 H3. unfold at_line_end.
  rewrite (proj2 (Z.leb_gt _ _)) by lia.
  rewrite (proj2 (Z.eqb_neq _ _) H2), (proj2 (Z.eqb_neq _ _) H3). reflexivity.
Qed.

Section GuidInString.

Variable doc : list Z.
Variables (startPos length : Z) (initStyle : Style).
Hypothesis startPos_nonneg : 0 <= startPos.
Hypothesis length_nonneg : 0 <= length.
Hypothesis span_in_doc : startPos + length <= Length doc.

Abbreviation init := (Lex_init doc startPos length initStyle).

Variable s : LexState.
Variable out : list Style.
Hypothesis s_reached : Lex_reaches doc init s.
Hypothesis s_cond : Lex_cond s = true.
Hypothesis run : Lex doc startPos length initStyle = Some out.
Hypothesis in_string :
  IsStringState (state (context (Lex_line_start doc s))) = true.
Hypothesis at_brace : ch (context s) = LBRACE.
Hypothesis guid : AtGUID doc (currentPos (context s)) = true.
Hypothesis guid_in_span : currentPos (context s) + 38 <= startPos + length.

Let p := currentPos (context s).
Let st := state (context s).

Lemma guid_line_start : context (Lex_line_start doc s) = context s.
Proof.
  destruct (Lex_line_start_fields doc s) as (_ & _ & _ & [(H & _)|(H & _)]);
    [exact H|].
  exfalso. revert in_string. rewrite H.
  destruct (SetState_fields doc SCE_REG_DEFAULT (context s)) as (-> & _).
  discriminate.
Qed.

Lemma guid_endPos s' :
  Lex_reaches doc init s' -> startPos + length <= endPos (context s').
Proof.
  intros Hr.
  destruct (Lex_reaches_inv doc startPos startPos_nonneg _ _ Hr)
    as [(_ & -> & _) _].
  unfold Lex_init, StyleContext_new. lex_simpl. simpl. case_match; lia.
Qed.

Lemma guid_inv s' :
  Lex_reaches doc init s' -> cursor_inv doc startPos (context s').
Proof.
  intros Hr. apply (Lex_reaches_inv doc startPos startPos_nonneg _ _ Hr).
  apply inv_init; assumption.
Qed.

Lemma guid_pos : startPos <= p.
Proof.
  destruct (guid_inv s s_reached) as [? ? _ _ _ _ _ _ _ _]. subst p. lia.
Qed.

Lemma guid_chars k :
  1 <= k <= 36 -> hex_or_hyphen (SafeGetCharAt doc (p + k) NUL) = true.
Proof.
  intros Hk. destruct (AtGUID_true doc _ guid) as [H _].
  specialize (H k Hk). fold p in H.
  rewrite (SafeGetCharAt_default doc (p + k) SPACE NUL); [assumption|].
  apply hex_or_hyphen_char in H. tauto.
Qed.

Lemma guid_close_char : SafeGetCharAt doc (p + 37) NUL = RBRACE.
Proof.
  destruct (AtGUID_true doc _ guid) as [_ H]. fold p in H.
  rewrite (SafeGetCharAt_default doc (p + 37) SPACE NUL); [assumption|].
  rewrite H. discriminate.
Qed.

Lemma guid_open_char : SafeGetCharAt doc p NUL = LBRACE.
Proof.
  destruct (Lex_reaches_cursor doc startPos length initStyle startPos_nonneg
              length_nonneg span_in_doc s s_reached s_cond)
    as (_ & _ & H & _).
  subst p. congruence.
Qed.

(** A turn on a character of the GUID after its brace. *)
Lemma guid_at s' k :
  Lex_reaches doc init s' -> currentPos (context s') = p + k -> 1 <= k <= 37 ->
  Lex_cond s' = true
  /\ atLineStart (context s') = false
  /\ ch (context s') = SafeGetCharAt doc (p + k) NUL
  /\ currentPos (context s') < endPos (context s').
Proof.
  intros Hr Hcp Hk.
  pose proof (guid_inv s' Hr) as [_ _ _ _ _ _ Hch _ _ Hals].
  pose proof (guid_endPos s' Hr) as Hend.
  pose proof guid_pos as Hp.
  assert (currentPos (context s') < endPos (context s')) as Hlt by lia.
  specialize (Hch Hlt). specialize (Hals Hlt). rewrite Hcp in Hch, Hals.
  assert (SafeGetCharAt doc (p + k) NUL <> NUL) as Hnul.
  { destruct (decide (k = 37)) as [->|].
    - rewrite guid_close_char. discriminate.
    - pose proof (guid_chars k ltac:(lia)) as H.
      apply hex_or_hyphen_char in H. tauto. }
  assert (SafeGetCharAt doc (p + k - 1) NUL <> LF
          /\ SafeGetCharAt doc (p + k - 1) NUL <> CR) as [Hlf Hcr].
  { destruct (decide (k = 1)) as [->|].
    - replace (p + 1 - 1) with p by lia. rewrite guid_open_char.
      split; discriminate.
    - replace (p + k - 1) with (p + (k - 1)) by lia.
      pose proof (guid_chars (k - 1) ltac:(lia)) as H.
      apply hex_or_hyphen_char in H. tauto. }
  split_and!; auto.
  - unfold Lex_cond, More. rewrite (proj2 (Z.ltb_lt _ _) Hlt), Hch.
    rewrite (proj2 (Z.eqb_neq _ _) Hnul). reflexivity.
  - rewrite Hals. unfold is_line_start.
    rewrite (proj2 (Z.eqb_neq _ _)) by lia. cbn [orb].
    apply at_line_end_false; [lia|assumption..].
Qed.

Lemma guid_first_turn :
  context (Lex_body doc s)
  = Forward doc (SetState doc SCE_REG_STRING_GUID (context s))
  /\ beforeGUID (Lex_body doc s) = st.
Proof.
  destruct (turn_GUID_open doc s) as [Hctx Hbg]; [assumption| | |].
  { rewrite guid_line_start. assumption. }
  { rewrite guid_line_start. assumption. }
  rewrite Hctx, Hbg, guid_line_start. auto.
Qed.

(** The turns inside the GUID. *)
Lemma guid_turns (k : nat) :
  (1 <= k <= 37)%nat ->
  Lex_reaches doc init (Lex_turns doc k s)
  /\ currentPos (context (Lex_turns doc k s)) = p + Z.of_nat k
  /\ state (context (Lex_turns doc k s)) = SCE_REG_STRING_GUID
  /\ beforeGUID (Lex_turns doc k s) = st.
Proof.
  induction k as [|k IH]; [lia|]. intros Hk. cbn [Lex_turns].
  destruct (decide (k = 0%nat)) as [->|Hk0].
  - cbn [Lex_turns]. clear IH. destruct guid_first_turn as [Hctx Hbg].
    split; [apply reaches_next; assumption|].
    rewrite Hctx, Hbg.
    destruct (SetState_fields doc SCE_REG_STRING_GUID (context s))
      as (Hst & Hcp & Hep & _).
    destruct (Forward_fields doc (SetState doc SCE_REG_STRING_GUID (context s)))
      as (Fst & Fcp & _).
    { rewrite Hcp, Hep. apply Lex_cond_true in s_cond. tauto. }
    rewrite Fst, Fcp, Hst, Hcp. auto.
  - destruct IH as (Hr & Hcp & Hst & Hbg); [lia|].
    set (sk := Lex_turns doc k s) in *. clearbody sk.
    destruct (guid_at sk (Z.of_nat k) Hr Hcp ltac:(lia))
      as (Hc & Hals & Hch & Hlt).
    pose proof (guid_chars (Z.of_nat k) ltac:(lia)) as Hhex.
    apply hex_or_hyphen_char in Hhex as (_ & _ & _ & _ & Hrb).
    destruct (turn_GUID_inner doc sk Hst Hals) as [Hctx Hbg'];
      [rewrite Hch; assumption|].
    split; [apply reaches_next; assumption|].
    rewrite Hctx, Hbg'.
    destruct (Forward_fields doc (context sk) Hlt) as (Fst & Fcp & _).
    rewrite Fst, Fcp. split_and!; auto. lia.
Qed.

Lemma guid_string_state : IsStringState st = true.
Proof. subst st. rewrite <- guid_line_start. exact in_string. Qed.

(** From its opening brace to its closing brace, the GUID is styled as
    a GUID. *)
Lemma guid_styles q :
  p <= q < p + 38 -> style_of startPos out q = Some SCE_REG_STRING_GUID.
Proof.
  intros Hq. pose proof guid_pos as Hp.
  destruct (decide (q = p)) as [->|Hne].
  - destruct guid_first_turn as [Hctx _].
    destruct (SetState_fields doc SCE_REG_STRING_GUID (context s))
      as (Hst & Hcp & Hep & _).
    pose proof (Lex_forward_style doc startPos length initStyle
                  startPos_nonneg length_nonneg span_in_doc s
                  (SetState doc SCE_REG_STRING_GUID (context s)) out
                  s_reached s_cond run) as H.
    rewrite Hst, Hcp, Hep in H. apply H.
    + apply inv_SetState, guid_inv, s_reached.
    + apply Lex_cond_true in s_cond. tauto.
    + fold p. lia.
    + rewrite Hctx. apply ext_refl.
  - destruct (guid_turns (Z.to_nat (q - p)) ltac:(lia))
      as (Hr & Hcp & Hst & Hbg).
    set (sk := Lex_turns doc (Z.to_nat (q - p)) s) in *. clearbody sk.
    replace (p + Z.of_nat (Z.to_nat (q - p))) with q in Hcp by lia.
    destruct (guid_at sk (q - p) Hr ltac:(lia) ltac:(lia))
      as (Hc & Hals & Hch & Hlt).
    replace (p + (q - p)) with q in Hch by lia.
    pose proof (Lex_forward_style doc startPos length initStyle
                  startPos_nonneg length_nonneg span_in_doc sk
                  (context sk) out Hr Hc run (guid_inv sk Hr) Hlt) as H.
    rewrite Hst, Hcp in H. apply H; [lia|].
    destruct (decide (q = p + 37)) as [->|Hne'].
    + rewrite guid_close_char in Hch.
      destruct (turn_GUID_close doc sk Hst Hals Hch) as [Hy Hbody].
      rewrite Hbody.
      pose proof (ext_closed doc (Forward doc (context sk))) as Hcl.
      apply (closed_ContextForwardSetState _ _ Hcl), (closed_default _ _ Hcl),
        (closed_case_GUID_next _ _ Hcl).
      rewrite Hy. apply ext_SetState.
    + pose proof (guid_chars (q - p) ltac:(lia)) as Hhex.
      replace (p + (q - p)) with q in Hhex by lia.
      apply hex_or_hyphen_char in Hhex as (_ & _ & _ & _ & Hrb).
      destruct (turn_GUID_inner doc sk Hst Hals) as [Hctx _];
        [rewrite Hch; assumption|].
      rewrite Hctx. apply ext_refl.
Qed.

(** The character before the GUID keeps the style of the string. *)
Lemma guid_before :
  startPos < p -> style_of startPos out (p - 1) = Some st.
Proof.
  intros Hlt.
  destruct (Lex_reaches_cursor doc startPos length initStyle startPos_nonneg
              length_nonneg span_in_doc s s_reached s_cond)
    as (Hi & _ & _ & _ & Hpe).
  apply (Lex_reaches_style_of doc startPos length initStyle startPos_nonneg
           length_nonneg span_in_doc s out (p - 1) s_reached run).
  rewrite Hpe. fold p.
  destruct (Lex_reaches_pending doc startPos startPos_nonneg _ _
              (inv_init doc startPos length initStyle length_nonneg span_in_doc)
              s_reached s_cond) as [Heq|[_ Hseg]].
  - exfalso. subst p. rewrite Heq in Hlt.
    unfold Lex_init, StyleContext_new in Hlt. lex_simpl. simpl in Hlt. lia.
  - fold p in Hseg. lia.
Qed.

(** The character after the GUID, unless a backslash, takes the style
    of the string again. *)
Lemma guid_after :
  p + 38 < startPos + length ->
  SafeGetCharAt doc (p + 38) NUL <> BACKSLASH ->
  style_of startPos out (p + 38) = Some st.
Proof.
  intros Hin Hbs. pose proof guid_pos as Hp.
  destruct (guid_turns 37 ltac:(lia)) as (Hr & Hcp & Hst & Hbg).
  set (sk := Lex_turns doc 37 s) in *. clearbody sk.
  change (Z.of_nat 37) with 37 in Hcp.
  destruct (guid_at sk 37 Hr Hcp ltac:(lia)) as (Hc & Hals & Hch & Hlt).
  rewrite guid_close_char in Hch.
  destruct (turn_GUID_close doc sk Hst Hals Hch) as [Hy Hbody].
  rewrite Hbg in Hy.
  set (y := case_GUID_close doc sk) in *. clearbody y.
  pose proof (guid_endPos sk Hr) as Hend.
  destruct (Forward_fields doc (context sk) Hlt) as (_ & Fcp & Fep & _).
  destruct (SetState_fields doc st (Forward doc (context sk)))
    as (Sst & Scp & Sep & Sch & _).
  rewrite <- Hy in Sst, Scp, Sep, Sch. rewrite Fcp, Hcp in Scp.
  rewrite Fep in Sep.
  assert (cursor_inv doc startPos (context y)) as Hiy
    by (rewrite Hy; apply inv_SetState, inv_Forward, guid_inv; assumption).
  pose proof Hiy as [_ _ _ _ _ _ Hchy _ _ _].
  rewrite Scp, Sep in Hchy. specialize (Hchy ltac:(lia)).
  replace (p + 37 + 1) with (p + 38) in * by lia.
  pose proof (Lex_forward_style doc startPos length initStyle
                startPos_nonneg length_nonneg span_in_doc sk
                (context y) out Hr Hc run Hiy) as H.
  rewrite Sst, Scp, Sep in H. apply H; [lia|lia|]. clear H.
  rewrite Hbody.
  pose proof (ext_closed doc (Forward doc (context y))) as Hcl.
  pose proof guid_string_state as Hss.
  assert (IsKeyPathState st = false) as Hks
    by (unfold IsStringState, IsKeyPathState in *; destruct st;
        try discriminate; reflexivity).
  destruct (Z.eqb_spec (ch (context y)) DQUOTE) as [Hq|Hq].
  - apply (closed_ContextForwardSetState _ _ Hcl), (closed_default _ _ Hcl).
    unfold case_GUID_next. rewrite Hq, Sst, Hss.
    change (DQUOTE =? DQUOTE) with true. cbn [andb].
    unfold ContextForwardSetState. case_bool_decide; lex_simpl;
      unfold ForwardSetState; apply ext_SetState.
  - assert (case_GUID_next doc y = y) as ->.
    { unfold case_GUID_next. rewrite Sst, Hss, Hks, !andb_false_r, !andb_true_r.
      rewrite (proj2 (Z.eqb_neq _ _) Hq).
      rewrite (proj2 (Z.eqb_neq (ch (context y)) BACKSLASH)) by congruence.
      reflexivity. }
    rewrite Lex_default_skip
      by (rewrite Sst; intros E; rewrite E in Hss; discriminate).
    destruct (turn_end_fields doc y) as (-> & _). apply ext_refl.
Qed.

End GuidInString.

(** A GUID literal on whose opening brace a turn of the loop begins in
    the String or the ValueName state is styled StringGuid from its
    opening brace to its closing brace, and exactly so: the character
    before the brace keeps the style of the string, and so does the
    character after the closing brace (the closing quote, or more of the
    string; a backslash there starts an escape instead). The shape check
    [AtGUID] that admits the literal asks for 36 characters after the
    brace, each a hexadecimal digit or a hyphen (the groups of 8, 5, 5, 5
    and 13 that the loop counts), whatever the places of the hyphens, and
    then for the closing brace. The canonical literal is so styled in a
    String and in a ValueName. *)
Theorem guid_in_string :
  (forall doc start,
      AtGUID doc start
      = forallb (fun k => hex_or_hyphen (SafeGetCharAt doc (start + k) SPACE))
          (seqZ 1 36)
        && (SafeGetCharAt doc (start + 37) SPACE =? RBRACE))
  /\ AtGUID hyphens_doc 0 = true
  /\ (forall doc startPos length initStyle s out,
        0 <= startPos -> 0 <= length -> startPos + length <= Length doc ->
        Lex_reaches doc (Lex_init doc startPos length initStyle) s ->
        Lex_cond s = true ->
        Lex doc startPos length initStyle = Some out ->
        IsStringState (state (context (Lex_line_start doc s))) = true ->
        ch (context s) = LBRACE ->
        AtGUID doc (currentPos (context s)) = true ->
        currentPos (context s) + 38 <= startPos + length ->
        let p := currentPos (context s) in
        let st := state (context s) in
        (forall q, p <= q < p + 38 ->
                   style_of startPos out q = Some SCE_REG_STRING_GUID)
        /\ (startPos < p -> style_of startPos out (p - 1) = Some st)
        /\ (p + 38 < startPos + length ->
            SafeGetCharAt doc (p + 38) NUL <> BACKSLASH ->
            style_of startPos out (p + 38) = Some st))
  /\ Lex guid_string_doc 0 40 SCE_REG_DEFAULT
     = Some ([SCE_REG_STRING] ++ replicate 38 SCE_REG_STRING_GUID
             ++ [SCE_REG_STRING])
  /\ Lex guid_value_doc 0 44 SCE_REG_DEFAULT
     = Some ([SCE_REG_VALUENAME] ++ replicate 38 SCE_REG_STRING_GUID
             ++ [SCE_REG_VALUENAME; SCE_REG_OPERATOR]
             ++ replicate 3 SCE_REG_STRING).
Proof.
  split_and!.
  - apply AtGUID_spec.
  - vm_compute. reflexivity.
  - intros doc startPos length initStyle s out Hs Hl Hd Hr Hc Hout Hst Hch
      Hguid Hspan p st.
    split_and!.
    + apply (guid_styles doc startPos length initStyle); assumption.
    + apply (guid_before doc startPos length initStyle); assumption.
    + apply (guid_after doc startPos length initStyle); assumption.
  - vm_compute. reflexivity.
  - vm_compute. reflexivity.
Qed.

Lemma guid_in_string_witness :
  let s := Lex_body guid_string_doc
             (Lex_init guid_string_doc 0 40 SCE_REG_DEFAULT) in
  let out := [SCE_REG_STRING] ++ replicate 38 SCE_REG_STRING_GUID
             ++ [SCE_REG_STRING] in
  let p := currentPos (context s) in
  let st := state (context s) in
  (forall q, p <= q < p + 38 -> style_of 0 out q = Some SCE_REG_STRING_GUID)
  /\ (0 < p -> style_of 0 out (p - 1) = Some st)
  /\ (p + 38 < 0 + 40 ->
      SafeGetCharAt guid_string_doc (p + 38) NUL <> BACKSLASH ->
      style_of 0 out (p + 38) = Some st).
Proof.
  apply (proj1 (proj2 (proj2 guid_in_string)) guid_string_doc 0 40
           SCE_REG_DEFAULT).
  - lia.
  - lia.
  - vm_compute. congruence.
  - apply reaches_next; [apply reaches_first|vm_compute; reflexivity].
  - vm_compute. reflexivity.
  - vm_compute. reflexivity.
  - vm_compute. reflexivity.
  - vm_compute. reflexivity.
  - vm_compute. reflexivity.
  - vm_compute. congruence.
Defined.

(** *** A GUID that no turn begins on

    The String case looks for the brace of a GUID in the character on
    which a turn begins. A character that the cursor reaches in the middle
    of a turn is not looked at by that case: the character after an escape
    sequence (the Escaped case restores the string state and tests for a
    quote and a backslash only), the character after a parameter (the
    Parameter case tests for a quote only) and the character after a GUID
    (the GUID cases test for a quote, a bracket and a backslash only). The
    step at the end of the turn then moves past it. *)

(** C6: the canonical GUID literal inside a quoted string is not styled
    StringGuid when it follows an escape sequence: in
    [escaped_guid_doc], a quote, an escaped backslash, the literal and a
    quote, the shape check [AtGUID] holds at the brace, the turn on the
    brace begins in the Escaped state and ends in the String state one
    position further, and the 38 characters of the literal are styled
    String. The same holds after a parameter and after another GUID. Alone
    in the string, the same literal is styled StringGuid from brace to
    brace. *)
Theorem guid_after_escape :
  AtGUID escaped_guid_doc 3 = true
  /\ Lex escaped_guid_doc 0 42 SCE_REG_DEFAULT
     = Some ([SCE_REG_STRING; SCE_REG_ESCAPED; SCE_REG_ESCAPED]
             ++ replicate 38 SCE_REG_STRING ++ [SCE_REG_STRING])
  /\ (let s := Lex_turns escaped_guid_doc 2
                 (Lex_init escaped_guid_doc 0 42 SCE_REG_DEFAULT) in
      Lex_cond s = true
      /\ currentPos (context s) = 3
      /\ ch (context s) = LBRACE
      /\ state (context s) = SCE_REG_ESCAPED
      /\ state (context (Lex_switch escaped_guid_doc s)) = SCE_REG_STRING
      /\ currentPos (context (Lex_switch escaped_guid_doc s)) = 3
      /\ state (context (Lex_body escaped_guid_doc s)) = SCE_REG_STRING
      /\ currentPos (context (Lex_body escaped_guid_doc s)) = 4)
  /\ AtGUID parameter_guid_doc 3 = true
  /\ Lex parameter_guid_doc 0 42 SCE_REG_DEFAULT
     = Some ([SCE_REG_STRING; SCE_REG_PARAMETER; SCE_REG_PARAMETER]
             ++ replicate 38 SCE_REG_STRING ++ [SCE_REG_STRING])
  /\ AtGUID two_guids_doc 39 = true
  /\ Lex two_guids_doc 0 78 SCE_REG_DEFAULT
     = Some ([SCE_REG_STRING] ++ replicate 38 SCE_REG_STRING_GUID
             ++ replicate 38 SCE_REG_STRING ++ [SCE_REG_STRING])
  /\ Lex guid_string_doc 0 40 SCE_REG_DEFAULT
     = Some ([SCE_REG_STRING] ++ replicate 38 SCE_REG_STRING_GUID
             ++ [SCE_REG_STRING]).
Proof.
  vm_compute. repeat split; reflexivity.
Qed.

(** ** A comment continued on the next line *)

Section BackwardScan.

Variable doc : list Z.

Lemma AtBeginOfLine_inside q :
  at_line_end doc (q - 1) = false -> SafeGetCharAt doc q NUL <> NUL ->
  AtBeginOfLine doc q = false.
Proof.
  unfold at_line_end, AtBeginOfLine. intros H Hq.
  apply orb_false_iff in H as [H H3]. apply orb_false_iff in H as [_ H2].
  replace (q - 1 + 1) with q in H3 by lia.
  rewrite (proj2 (Z.eqb_neq _ _) Hq), H2, H3. reflexivity.
Qed.

Lemma IsPrevNonWhitespace_loop_found fuel start b ch :
  b < start -> start - b <= Z.of_nat fuel ->
  SafeGetCharAt doc b NUL = ch ->
  (forall q, b < q < start -> isspacechar (SafeGetCharAt doc q NUL) = true) ->
  (forall q, b <= q < start -> AtBeginOfLine doc q = false) ->
  IsPrevNonWhitespace_loop doc fuel start ch = Some true.
Proof.
  revert start. induction fuel as [|fuel IH]; intros start Hb Hf Hch Hws Hbol;
    [lia|].
  cbn [IsPrevNonWhitespace_loop]. rewrite Hbol by lia. cbv zeta.
  destruct (Z.eqb_spec (SafeGetCharAt doc (start - 1) NUL) ch); [reflexivity|].
  destruct (decide (start - 1 = b)) as [Heq|Hne]; [congruence|].
  rewrite Hws by lia. cbn [negb].
  apply IH; try assumption; try lia; intros; [apply Hws|apply Hbol]; lia.
Qed.

(** A backslash with only whitespace after it, up to the end of its
    line, is reachable from the start of the next line. *)
Lemma IsPrevNonWhitespace_found start b ch :
  b < start ->
  SafeGetCharAt doc b NUL = ch ->
  (forall q, b < q < start -> isspacechar (SafeGetCharAt doc q NUL) = true) ->
  (forall q, b <= q < start -> AtBeginOfLine doc q = false) ->
  IsPrevNonWhitespace doc start ch = true.
Proof.
  intros Hb Hch Hws Hbol. unfold IsPrevNonWhitespace, scan_fuel.
  rewrite (IsPrevNonWhitespace_loop_found _ start b); try assumption;
    [reflexivity|].
  pose proof (AtBeginOfLine_false_inside doc b (Hbol b ltac:(lia))).
  pose proof (AtBeginOfLine_false_inside doc (start - 1)
                (Hbol (start - 1) ltac:(lia))).
  unfold Length in *. lia.
Qed.

End BackwardScan.

Section CommentTurns.

Variable doc : list Z.

#[local] Arguments SetState : simpl never.
#[local] Arguments AtValueType : simpl never.

(** The classification of a semicolon in the Default state. *)
Lemma Lex_default_semicolon x :
  state (context x) = SCE_REG_DEFAULT -> ch (context x) = SEMICOLON ->
  context (Lex_default doc x) = SetState doc SCE_REG_COMMENT (context x).
Proof.
  intros Hst Hch. unfold Lex_default. rewrite Hst, Hch. cbv zeta.
  rewrite bool_decide_eq_true_2 by reflexivity.
  change (SEMICOLON =? SEMICOLON) with true.
  change (SEMICOLON =? AT) with false.
  change (Contains setOperators SEMICOLON) with false.
  change ((SEMICOLON =? CR) || (SEMICOLON =? LF)) with false.
  cbv iota. rewrite andb_false_l. reflexivity.
Qed.

(** The classification of the character that ends a line, in the Default
    state: it takes the last style that was not the default one. *)
Lemma Lex_default_eol x :
  state (context x) = SCE_REG_DEFAULT ->
  ch (context x) = LF \/ ch (context x) = CR ->
  context (Lex_default doc x)
  = SetState doc (stateLastNonDefault x) (context x).
Proof.
  intros Hst Hch. unfold Lex_default. rewrite Hst.
  rewrite bool_decide_eq_true_2 by reflexivity.
  destruct Hch as [-> | ->]; cbv zeta.
  - change (LF =? SEMICOLON) with false. change (LF =? DQUOTE) with false.
    change (LF =? LBRACKET) with false. change (LF =? EQUALS) with false.
    change (LF =? AT) with false. change (isalpha LF) with false.
    change (IsByteValue LF && isxdigit (Z.land LF 255)) with false.
    change (Contains setOperators LF) with false.
    change ((LF =? CR) || (LF =? LF)) with true.
    cbv iota. rewrite !andb_false_l.
    destruct (afterEqualSign x); reflexivity.
  - change (CR =? SEMICOLON) with false. change (CR =? DQUOTE) with false.
    change (CR =? LBRACKET) with false. change (CR =? EQUALS) with false.
    change (CR =? AT) with false. change (isalpha CR) with false.
    change (IsByteValue CR && isxdigit (Z.land CR 255)) with false.
    change (Contains setOperators CR) with false.
    change ((CR =? CR) || (CR =? LF)) with true.
    cbv iota. rewrite !andb_false_l.
    destruct (afterEqualSign x); reflexivity.
Qed.

(** A turn in the Comment state, on a line that is not reset: the state
    is Comment again after it, also when the turn is on the character
    that ends the line. *)
Lemma turn_COMMENT s :
  state (context s) = SCE_REG_COMMENT ->
  stateLastNonDefault s = SCE_REG_COMMENT ->
  (atLineStart (context s) = true ->
   IsPrevNonWhitespace doc (currentPos (context s)) BACKSLASH = true) ->
  (atLineEnd (context s) = true ->
   ch (context s) = LF \/ ch (context s) = CR) ->
  exists c,
    context (Lex_body doc s) = Forward doc c
    /\ state c = SCE_REG_COMMENT
    /\ currentPos c = currentPos (context s)
    /\ endPos c = endPos (context s)
    /\ (forall startPos, cursor_inv doc startPos (context s) ->
                         cursor_inv doc startPos c)
    /\ stateLastNonDefault (Lex_body doc s) = SCE_REG_COMMENT.
Proof.
  intros Hst Hlast Hcont Heol. rewrite Lex_body_eq.
  destruct (Lex_line_start_fields doc s)
    as (_ & _ & _ & [(Hctx & Hlnd & _)|(_ & Hals & Hno)]);
    [|rewrite (Hcont Hals) in Hno; discriminate].
  revert Hctx Hlnd. generalize (Lex_line_start doc s). intros s0 Hctx Hlnd.
  rewrite <- Hctx in *. rewrite <- Hlnd in Hlast. clear Hctx Hlnd Hcont s.
  unfold Lex_switch. rewrite Hst. unfold case_COMMENT.
  destruct (atLineEnd (context s0)) eqn:Hend.
  - specialize (Heol eq_refl).
    set (x := set_context (SetState doc SCE_REG_DEFAULT) s0).
    destruct (SetState_fields doc SCE_REG_DEFAULT (context s0))
      as (Sst & Scp & Sep & Sch & _).
    pose proof (Lex_default_eol x Sst ltac:(subst x; lex_simpl; rewrite Sch; exact Heol))
      as Hdef.
    subst x. lex_simpl. rewrite Hlast in Hdef.
    destruct (SetState_fields doc SCE_REG_COMMENT
                (SetState doc SCE_REG_DEFAULT (context s0)))
      as (Tst & Tcp & Tep & _ & _).
    exists (SetState doc SCE_REG_COMMENT (SetState doc SCE_REG_DEFAULT (context s0))).
    destruct (turn_end_fields doc
                (Lex_default doc (set_context (SetState doc SCE_REG_DEFAULT) s0)))
      as (Hc & _ & Hl).
    rewrite Hc, Hdef. rewrite Hdef, Tst in Hl.
    split_and!; auto; try congruence.
    intros. apply inv_SetState, inv_SetState. assumption.
  - rewrite Lex_default_skip by (rewrite Hst; discriminate).
    exists (context s0).
    destruct (turn_end_fields doc s0) as (Hc & _ & Hl).
    rewrite Hc. split_and!; auto. rewrite Hl by (rewrite Hst; discriminate).
    assumption.
Qed.

End CommentTurns.

Section CommentContinued.

Variable doc : list Z.
Variables (startPos length : Z) (initStyle : Style).
Hypothesis startPos_nonneg : 0 <= startPos.
Hypothesis length_nonneg : 0 <= length.
Hypothesis span_in_doc : startPos + length <= Length doc.

Abbreviation init := (Lex_init doc startPos length initStyle).

Variable s : LexState.
Variable out : list Style.
Hypothesis s_reached : Lex_reaches doc init s.
Hypothesis s_cond : Lex_cond s = true.
Hypothesis run : Lex doc startPos length initStyle = Some out.

Let s1 := Lex_switch doc (Lex_line_start doc s).
Hypothesis in_default : state (context s1) = SCE_REG_DEFAULT.
Hypothesis at_semicolon : ch (context s1) = SEMICOLON.

Let p := currentPos (context s1).

Variables b e e2 : Z.
Hypothesis line1 : forall q, p <= q < e -> at_line_end doc q = false.
Hypothesis line1_end : at_line_end doc e = true.
Hypothesis backslash_pos : p < b < e.
Hypothesis backslash : SafeGetCharAt doc b NUL = BACKSLASH.
Hypothesis blank :
  forall q, b < q <= e -> isspacechar (SafeGetCharAt doc q NUL) = true.
Hypothesis line2 : forall q, e < q < e2 -> at_line_end doc q = false.
Hypothesis line2_pos : e < e2 < startPos + length.
Hypothesis no_nul :
  forall q, p <= q <= e2 -> SafeGetCharAt doc q NUL <> NUL.

Lemma comment_inv s' :
  Lex_reaches doc init s' -> cursor_inv doc startPos (context s').
Proof.
  intros Hr. apply (Lex_reaches_inv doc startPos startPos_nonneg _ _ Hr).
  apply inv_init; assumption.
Qed.

Lemma comment_endPos s' :
  Lex_reaches doc init s' -> startPos + length <= endPos (context s').
Proof.
  intros Hr.
  destruct (Lex_reaches_inv doc startPos startPos_nonneg _ _ Hr)
    as [(_ & -> & _) _].
  unfold Lex_init, StyleContext_new. lex_simpl. simpl. case_match; lia.
Qed.

Lemma comment_s1 :
  cursor_inv doc startPos (context s1)
  /\ endPos (context s1) = endPos (context s)
  /\ startPos <= p.
Proof.
  pose proof (inv_closed doc startPos startPos_nonneg) as Hcl.
  pose proof (ext_closed doc (context s)) as Hcl'.
  assert (cursor_inv doc startPos (context s1)) as Hi.
  { subst s1. apply (closed_switch _ _ Hcl), (closed_line_start _ _ Hcl),
      comment_inv, s_reached. }
  assert (ext doc (context s) (context s1)) as (_ & He & _).
  { subst s1. apply (closed_switch _ _ Hcl'), (closed_line_start _ _ Hcl'),
      ext_refl. }
  split_and!; auto. destruct Hi as [? ? _ _ _ _ _ _ _ _]. subst p. lia.
Qed.

(** The semicolon starts the comment. *)
Lemma comment_first_turn :
  Lex_reaches doc init (Lex_body doc s)
  /\ currentPos (context (Lex_body doc s)) = p + 1
  /\ state (context (Lex_body doc s)) = SCE_REG_COMMENT
  /\ stateLastNonDefault (Lex_body doc s) = SCE_REG_COMMENT
  /\ style_of startPos out p = Some SCE_REG_COMMENT.
Proof.
  destruct comment_s1 as (Hi1 & He1 & Hp).
  pose proof (comment_endPos s s_reached) as Hend.
  assert (currentPos (context s1) < endPos (context s1)) as Hlt
    by (fold p; lia).
  pose proof (Lex_default_semicolon doc s1 in_default at_semicolon) as Hdef.
  destruct (entered_style doc startPos length initStyle startPos_nonneg
              length_nonneg span_in_doc s out SCE_REG_COMMENT s_reached s_cond
              run Hdef Hlt) as [Hst Hsty].
  { fold s1. rewrite at_semicolon. discriminate. }
  split; [apply reaches_next; assumption|].
  split_and!; auto.
  - rewrite Lex_body_eq. fold s1.
    destruct (turn_end_fields doc (Lex_default doc s1)) as (-> & _).
    rewrite Hdef.
    destruct (SetState_fields doc SCE_REG_COMMENT (context s1))
      as (_ & Scp & Sep & _).
    destruct (Forward_fields doc (SetState doc SCE_REG_COMMENT (context s1)))
      as (_ & -> & _); [lia|]. rewrite Scp. reflexivity.
  - revert Hst. rewrite Lex_body_eq. fold s1.
    destruct (turn_end_fields doc (Lex_default doc s1)) as (Hc & _ & Hl).
    rewrite Hc. intros Hst. rewrite Hl.
    + rewrite Hdef.
      destruct (SetState_fields doc SCE_REG_COMMENT (context s1)) as (-> & _).
      reflexivity.
    + rewrite Hdef.
      destruct (SetState_fields doc SCE_REG_COMMENT (context s1)) as (-> & _).
      discriminate.
Qed.

(** A turn on a character of the comment or of the line after it. *)
Lemma comment_at s' q :
  Lex_reaches doc init s' -> currentPos (context s') = q -> p < q <= e2 ->
  Lex_cond s' = true
  /\ currentPos (context s') < endPos (context s')
  /\ (atLineStart (context s') = true ->
      IsPrevNonWhitespace doc (currentPos (context s')) BACKSLASH = true)
  /\ (atLineEnd (context s') = true ->
      ch (context s') = LF \/ ch (context s') = CR).
Proof.
  intros Hr Hcp Hq. destruct comment_s1 as (_ & _ & Hp).
  pose proof (comment_inv s' Hr) as [_ _ _ _ _ _ Hch _ Hale Hals].
  pose proof (comment_endPos s' Hr) as Hend.
  assert (currentPos (context s') < endPos (context s')) as Hlt by lia.
  specialize (Hch Hlt). specialize (Hale Hlt). specialize (Hals Hlt).
  rewrite Hcp in *.
  pose proof (no_nul q ltac:(lia)) as Hnul.
  pose proof (SafeGetCharAt_not_default doc q NUL Hnul) as Hin.
  split_and!; auto.
  - unfold Lex_cond, More. rewrite Hcp, (proj2 (Z.ltb_lt _ _) Hlt), Hch.
    rewrite (proj2 (Z.eqb_neq _ _) Hnul). reflexivity.
  - rewrite Hals. unfold is_line_start.
    rewrite (proj2 (Z.eqb_neq _ _)) by lia. cbn [orb]. intros Hle.
    assert (q = e + 1) as ->.
    { destruct (decide (q - 1 < e)) as [H|H];
        [rewrite line1 in Hle by lia; discriminate|].
      destruct (decide (e < q - 1)) as [H'|H'];
        [rewrite line2 in Hle by lia; discriminate|]. lia. }
    apply (IsPrevNonWhitespace_found doc (e + 1) b); try assumption; try lia.
    + intros q' Hq'. apply blank. lia.
    + intros q' Hq'. apply AtBeginOfLine_inside.
      * apply line1. lia.
      * apply no_nul. lia.
  - rewrite Hale, Hch. unfold at_line_end.
    rewrite (proj2 (Z.leb_gt _ _)) by lia. cbn [orb]. intros H.
    apply orb_true_iff in H as [H|H].
    + left. apply Z.eqb_eq, H.
    + right. apply andb_true_iff in H as [H _]. apply Z.eqb_eq, H.
Qed.

(** The turns of the comment and of the line after it. *)
Lemma comment_turns (k : nat) :
  p + 1 + Z.of_nat k <= e2 + 1 ->
  Lex_reaches doc init (Lex_turns doc k (Lex_body doc s))
  /\ currentPos (context (Lex_turns doc k (Lex_body doc s)))
     = p + 1 + Z.of_nat k
  /\ state (context (Lex_turns doc k (Lex_body doc s))) = SCE_REG_COMMENT
  /\ stateLastNonDefault (Lex_turns doc k (Lex_body doc s)) = SCE_REG_COMMENT.
Proof.
  induction k as [|k IH]; intros Hk.
  - cbn [Lex_turns]. destruct comment_first_turn as (H1 & H2 & H3 & H4 & _).
    split_and!; auto. lia.
  - cbn [Lex_turns]. destruct IH as (Hr & Hcp & Hst & Hl); [lia|].
    set (sk := Lex_turns doc k (Lex_body doc s)) in *. clearbody sk.
    destruct (comment_at sk _ Hr Hcp ltac:(lia)) as (Hc & Hlt & Hcont & Heol).
    destruct (turn_COMMENT doc sk Hst Hl Hcont Heol)
      as (c & Hctx & Cst & Ccp & Cep & _ & Hl').
    split; [apply reaches_next; assumption|].
    rewrite Hctx.
    destruct (Forward_fields doc c) as (-> & -> & _); [lia|].
    split_and!; auto. lia.
Qed.

(** The comment and the line after it are styled as a comment. *)
Lemma comment_styles q :
  p <= q <= e2 -> style_of startPos out q = Some SCE_REG_COMMENT.
Proof.
  intros Hq. destruct (decide (q = p)) as [->|Hne].
  { apply comment_first_turn. }
  destruct (comment_turns (Z.to_nat (q - p - 1)) ltac:(lia))
    as (Hr & Hcp & Hst & Hl).
  set (sk := Lex_turns doc (Z.to_nat (q - p - 1)) (Lex_body doc s)) in *.
  clearbody sk.
  replace (p + 1 + Z.of_nat (Z.to_nat (q - p - 1))) with q in Hcp by lia.
  destruct (comment_at sk q Hr Hcp ltac:(lia)) as (Hc & Hlt & Hcont & Heol).
  destruct (turn_COMMENT doc sk Hst Hl Hcont Heol)
    as (c & Hctx & Cst & Ccp & Cep & Ci & _).
  pose proof (Lex_forward_style doc startPos length initStyle startPos_nonneg
                length_nonneg span_in_doc sk c out Hr Hc run
                (Ci startPos (comment_inv sk Hr))) as H.
  rewrite Cst, Ccp, Cep, Hcp in H. apply H; [lia| |].
  - pose proof (no_nul q ltac:(lia)) as Hnul.
    apply SafeGetCharAt_not_default in Hnul. lia.
  - rewrite Hctx. apply ext_refl.
Qed.

End CommentContinued.

(** C10: when the tokenizer enters the Comment state at a semicolon, on a
    line whose last character that is not whitespace is a backslash, the
    Comment state goes on across the line break: the characters of the
    comment, the character that ends its line (which takes the last
    non-default style again, Comment), and then the characters of the
    following physical line, up to and with its own end of line, are all
    styled Comment. *)
Theorem comment_continued doc startPos length initStyle s out b e e2 :
  0 <= startPos -> 0 <= length -> startPos + length <= Length doc ->
  Lex_reaches doc (Lex_init doc startPos length initStyle) s ->
  Lex_cond s = true ->
  Lex doc startPos length initStyle = Some out ->
  let s1 := Lex_switch doc (Lex_line_start doc s) in
  let p := currentPos (context s1) in
  state (context s1) = SCE_REG_DEFAULT ->
  ch (context s1) = SEMICOLON ->
  (forall q, p <= q < e -> at_line_end doc q = false) ->
  at_line_end doc e = true ->
  p < b < e ->
  SafeGetCharAt doc b NUL = BACKSLASH ->
  (forall q, b < q <= e -> isspacechar (SafeGetCharAt doc q NUL) = true) ->
  (forall q, e < q < e2 -> at_line_end doc q = false) ->
  e < e2 < startPos + length ->
  (forall q, p <= q <= e2 -> SafeGetCharAt doc q NUL <> NUL) ->
  forall q, p <= q <= e2 -> style_of startPos out q = Some SCE_REG_COMMENT.
Proof.
  intros Hs Hl Hd Hr Hc Hout s1 p Hst Hch H1 H2 H3 H4 H5 H6 H7 H8.
  apply (comment_styles doc startPos length initStyle Hs Hl Hd s out Hr Hc
           Hout Hst Hch b e e2); assumption.
Qed.

Lemma comment_continued_witness :
  style_of 0 (replicate 10 SCE_REG_COMMENT ++ replicate 3 SCE_REG_DEFAULT) 7
  = Some SCE_REG_COMMENT.
Proof.
  assert (currentPos
            (context (Lex_switch comment_doc
                        (Lex_line_start comment_doc
                           (Lex_init comment_doc 0 13 SCE_REG_DEFAULT)))) = 0)
    as Hp by (vm_compute; reflexivity).
  apply (comment_continued comment_doc 0 13 SCE_REG_DEFAULT
           (Lex_init comment_doc 0 13 SCE_REG_DEFAULT) _ 4 5 9).
  - lia.
  - lia.
  - vm_compute. congruence.
  - apply reaches_first.
  - vm_compute. reflexivity.
  - vm_compute. reflexivity.
  - vm_compute. reflexivity.
  - vm_compute. reflexivity.
  - rewrite Hp. intros q Hq.
    assert (q = 0 \/ q = 1 \/ q = 2 \/ q = 3 \/ q = 4) as H by lia.
    repeat destruct H as [->|H]; try subst q; vm_compute; reflexivity.
  - vm_compute. reflexivity.
  - rewrite Hp. lia.
  - vm_compute. reflexivity.
  - intros q Hq. assert (q = 5) as -> by lia. vm_compute. reflexivity.
  - intros q Hq.
    assert (q = 6 \/ q = 7 \/ q = 8) as H by lia.
    repeat destruct H as [->|H]; try subst q; vm_compute; reflexivity.
  - lia.
  - rewrite Hp. intros q Hq.
    assert (q = 0 \/ q = 1 \/ q = 2 \/ q = 3 \/ q = 4 \/ q = 5 \/ q = 6
            \/ q = 7 \/ q = 8 \/ q = 9) as H by lia.
    repeat destruct H as [->|H]; try subst q; vm_compute; congruence.
  - rewrite Hp. lia.
Defined.

(** * Further properties of the code *)

(** Tactics for the examples: a state reached by turns that all run, and
    a position between bounds, case by case. *)
Ltac reach :=
  cbn [Lex_turns];
  repeat (apply reaches_next; [|vm_compute; reflexivity]);
  apply reaches_first.

Ltac by_cases q l :=
  let H := fresh in
  assert (List.In q l) as H by (cbn [List.In]; lia);
  cbn [List.In] in H;
  repeat (destruct H as [<-|H]; [vm_compute; try reflexivity; congruence|]);
  contradiction.

(** ** The lookahead predicates *)

Section ValueTypeWindow.

Variable doc : list Z.

Lemma AtValueType_loop_spec n start i0 :
  AtValueType_loop doc n start i0 = true
  <-> exists i, i0 < i <= i0 + Z.of_nat n
        /\ SafeGetCharAt doc (start + i) NUL = COLON
        /\ forall j, i0 < j < i -> SafeGetCharAt doc (start + j) NUL <> NUL.
Proof.
  revert i0. induction n as [|n IH]; intros i0.
  - simpl. split; [discriminate|]. intros (i & Hi & _). lia.
  - cbn [AtValueType_loop]. cbv zeta.
    destruct (Z.eqb_spec (SafeGetCharAt doc (start + (i0 + 1)) NUL) COLON)
      as [Hc|Hc].
    + split; [intros _|reflexivity]. exists (i0 + 1). split_and!; [lia|lia|assumption|].
      intros j Hj. lia.
    + destruct (Z.eqb_spec (SafeGetCharAt doc (start + (i0 + 1)) NUL) NUL)
        as [Hn|Hn].
      * split; [discriminate|]. intros (i & Hi & Hcol & Hnul).
        destruct (decide (i = i0 + 1)) as [->|Hne]; [congruence|].
        exfalso. apply (Hnul (i0 + 1)); [lia|assumption].
      * rewrite IH. split; intros (i & Hi & Hcol & Hnul); exists i.
        -- split_and!; [lia|lia|assumption|]. intros j Hj.
           destruct (decide (j = i0 + 1)) as [->|]; [assumption|apply Hnul; lia].
        -- destruct (decide (i = i0 + 1)) as [->|Hne]; [congruence|].
           split_and!; [lia|lia|assumption|]. intros j Hj. apply Hnul. lia.
Qed.

End ValueTypeWindow.

(** X1: [AtValueType] looks at the ten characters after its position and
    no further: it answers true exactly when one of them is a colon and no
    NUL character (or the end of the document) comes before that colon.
    The end of a line does not stop it. *)
Theorem AtValueType_window doc start :
  AtValueType doc start = true
  <-> exists i, 1 <= i <= 10
        /\ SafeGetCharAt doc (start + i) NUL = COLON
        /\ forall j, 1 <= j < i -> SafeGetCharAt doc (start + j) NUL <> NUL.
Proof.
  unfold AtValueType. rewrite AtValueType_loop_spec.
  split; intros (i & Hi & Hc & Hn); exists i; (split_and!; [lia|lia|assumption|]);
    intros j Hj; apply Hn; lia.
Qed.

Section KeyPathEnd.

Variable doc : list Z.

Lemma AtKeyPathEnd_loop_spec fuel start :
  -1 <= start -> (0 < fuel)%nat -> Length doc - 1 - start < Z.of_nat fuel ->
  AtKeyPathEnd_loop doc fuel start
  = Some (forallb (fun c => negb (c =? RBRACKET)) (line_after doc start)).
Proof.
  revert start. induction fuel as [|fuel IH]; intros start H1 H0 H2; [lia|].
  cbn [AtKeyPathEnd_loop]. rewrite line_after_step by assumption.
  destruct (AtEndOfLine doc (start + 1)) eqn:E; [reflexivity|].
  apply AtEndOfLine_false_inside in E. cbv zeta. cbn [forallb].
  destruct (SafeGetCharAt doc (start + 1) NUL =? RBRACKET); [reflexivity|].
  cbn [negb andb]. apply IH; lia.
Qed.

End KeyPathEnd.

(** X2: [AtKeyPathEnd] answers true exactly when no closing square
    bracket comes after its position on the rest of the line. *)
Theorem AtKeyPathEnd_last_bracket doc start :
  AtKeyPathEnd doc start
  = forallb (fun c => negb (c =? RBRACKET)) (line_after doc start).
Proof.
  unfold AtKeyPathEnd, scan_fuel. destruct (decide (-1 <= start)).
  - rewrite AtKeyPathEnd_loop_spec; [reflexivity|lia|lia|unfold Length; lia].
  - rewrite line_after_before by lia. simpl.
    rewrite AtEndOfLine_outside by lia. reflexivity.
Qed.

Section BackwardReach.

Variable doc : list Z.

Lemma IsPrevNonWhitespace_loop_sound fuel start ch :
  IsPrevNonWhitespace_loop doc fuel start ch = Some true ->
  exists b, b < start
    /\ SafeGetCharAt doc b NUL = ch
    /\ (forall q, b < q < start -> isspacechar (SafeGetCharAt doc q NUL) = true)
    /\ (forall q, b <= q < start -> AtBeginOfLine doc q = false).
Proof.
  revert start. induction fuel as [|fuel IH]; intros start H; [discriminate|].
  cbn [IsPrevNonWhitespace_loop] in H.
  destruct (AtBeginOfLine doc (start - 1)) eqn:E; [discriminate|].
  cbv zeta in H.
  destruct (Z.eqb_spec (SafeGetCharAt doc (start - 1) NUL) ch) as [Hc|Hc].
  - exists (start - 1). split_and!; [lia|assumption| |].
    + intros q Hq. lia.
    + intros q Hq. replace q with (start - 1) by lia. assumption.
  - destruct (isspacechar (SafeGetCharAt doc (start - 1) NUL)) eqn:Hw;
      cbn [negb] in H; [|discriminate].
    destruct (IH _ H) as (b & Hb & Hch & Hws & Hbol).
    exists b. split_and!; [lia|assumption| |].
    + intros q Hq. destruct (decide (q = start - 1)) as [->|];
        [assumption|apply Hws; lia].
    + intros q Hq. destruct (decide (q = start - 1)) as [->|];
        [assumption|apply Hbol; lia].
Qed.

End BackwardReach.

(** X3: [IsPrevNonWhitespace] answers true exactly when the character
    looked for lies before the position with only whitespace between them,
    and the start of a line holds neither at that character nor at any
    position between: the first character of a line that follows a line
    break is never the one found. *)
Theorem IsPrevNonWhitespace_reaches doc start ch :
  IsPrevNonWhitespace doc start ch = true
  <-> exists b, b < start
        /\ SafeGetCharAt doc b NUL = ch
        /\ (forall q, b < q < start ->
                      isspacechar (SafeGetCharAt doc q NUL) = true)
        /\ (forall q, b <= q < start -> AtBeginOfLine doc q = false).
Proof.
  split.
  - unfold IsPrevNonWhitespace.
    destruct (IsPrevNonWhitespace_loop doc (scan_fuel doc) start ch)
      as [[|]|] eqn:E; try discriminate.
    intros _. exact (IsPrevNonWhitespace_loop_sound doc _ _ _ E).
  - intros (b & Hb & Hch & Hws & Hbol).
    exact (IsPrevNonWhitespace_found doc start b ch Hb Hch Hws Hbol).
Qed.

(** X4: [AtGUID] accepts only where the 37 characters after its
    position all lie inside the document: a GUID cut off by the end of the
    document is not one. *)
Theorem AtGUID_inside doc start :
  AtGUID doc start = true ->
  0 <= start + 1 /\ start + 38 <= Length doc.
Proof.
  intros H. destruct (AtGUID_true doc start H) as [Hhex Hclose].
  specialize (Hhex 1 ltac:(lia)). apply hex_or_hyphen_char in Hhex.
  assert (SafeGetCharAt doc (start + 1) SPACE <> SPACE) as H1 by tauto.
  assert (SafeGetCharAt doc (start + 37) SPACE <> SPACE) as H2
    by (rewrite Hclose; discriminate).
  apply SafeGetCharAt_not_default in H1, H2. lia.
Qed.

Lemma AtGUID_inside_witness :
  0 <= 0 + 1 /\ 0 + 38 <= Length hyphens_doc.
Proof.
  apply (AtGUID_inside hyphens_doc 0). vm_compute. reflexivity.
Defined.

(** ** The span and the initial style *)

(** X5: [Lex] returns for every span of the document, with at most one
    style per position of the span; when the styles are fewer than the
    positions, the first position left without a style holds a NUL
    character. *)
Theorem Lex_stops_only_at_NUL doc startPos length initStyle :
  0 <= startPos -> 0 <= length -> startPos + length <= Length doc ->
  exists out,
    Lex doc startPos length initStyle = Some out
    /\ Z.of_nat (List.length out) <= length
    /\ (Z.of_nat (List.length out) < length ->
        SafeGetCharAt doc (startPos + Z.of_nat (List.length out)) NUL = NUL).
Proof.
  intros Hs Hl Hd.
  destruct (Lex_total doc startPos length initStyle) as [out Hout].
  exists out. split; [assumption|].
  destruct (Lex_run doc startPos length initStyle Hs Hl Hd out Hout)
    as (sf & _ & -> & Hc & Hi & He).
  pose proof (inv_Complete doc startPos _ Hi) as [_ _ _ _ _ Hst _ _ _ _].
  rewrite Hst, (Complete_startSeg doc startPos) by assumption.
  destruct Hi as [Hlo Hseg _ Hpe _ _ Hch _ _ _].
  unfold Lex_init, StyleContext_new in He. lex_simpl. simpl in He.
  unfold pending_end, colour_pos.
  unfold Lex_cond, More in Hc. apply andb_false_iff in Hc as [Hc|Hc].
  - apply Z.ltb_ge in Hc.
    destruct (Z.eqb_spec (startPos + length) (Length doc));
      destruct (Z.ltb_spec (Length doc) (currentPos (context sf))); lia.
  - apply negb_false_iff, Z.eqb_eq in Hc.
    destruct (Z.ltb_spec (currentPos (context sf)) (endPos (context sf)))
      as [Hlt|Hge].
    + rewrite Hch in Hc by assumption.
      destruct (Z.eqb_spec (startPos + length) (Length doc));
        destruct (Z.ltb_spec (Length doc) (currentPos (context sf)));
        (split; [lia|]); intros Hshort;
        replace (startPos + (currentPos (context sf) - 1 + 1 - startPos))
          with (currentPos (context sf)) by lia; try assumption; lia.
    + destruct (Z.eqb_spec (startPos + length) (Length doc));
        destruct (Z.ltb_spec (Length doc) (currentPos (context sf))); lia.
Qed.

Lemma Lex_stops_only_at_NUL_witness :
  exists out,
    Lex [chr "a"; NUL; chr "b"] 0 3 SCE_REG_DEFAULT = Some out
    /\ Z.of_nat (List.length out) <= 3
    /\ (Z.of_nat (List.length out) < 3 ->
        SafeGetCharAt [chr "a"; NUL; chr "b"] (0 + Z.of_nat (List.length out)) NUL
        = NUL).
Proof.
  apply (Lex_stops_only_at_NUL [chr "a"; NUL; chr "b"] 0 3 SCE_REG_DEFAULT);
    [lia|lia|vm_compute; congruence].
Defined.


Section InitStyle.

Variable doc : list Z.
Variables (startPos length : Z).
Hypothesis startPos_in_doc : 0 <= startPos <= Length doc.
Hypothesis line_start : is_line_start doc startPos = true.
Hypothesis not_continued : IsPrevNonWhitespace doc startPos BACKSLASH = false.

Lemma colour_pos_new st :
  colour_pos doc (StyleContext_new doc startPos length st) = startPos - 1.
Proof.
  unfold colour_pos, StyleContext_new. cbv zeta. cbn [currentPos].
  rewrite (proj2 (Z.ltb_ge _ _)) by lia. reflexivity.
Qed.

Lemma SetState_new st' st :
  SetState doc st' (StyleContext_new doc startPos length st)
  = StyleContext_new doc startPos length st'.
Proof.
  unfold SetState. rewrite colour_pos_new. unfold ColourTo.
  change (startSeg (StyleContext_new doc startPos length st)) with startPos.
  rewrite Z.eqb_refl. reflexivity.
Qed.

Lemma Lex_line_start_init st :
  Lex_line_start doc (Lex_init doc startPos length st)
  = Lex_line_start doc (Lex_init doc startPos length SCE_REG_DEFAULT).
Proof.
  unfold Lex_line_start, Lex_init.
  cbn [context set_context set_highlight set_stateLastNonDefault beforeGUID
       beforeEscape highlight afterEqualSign stateLastNonDefault].
  change (atLineStart (StyleContext_new doc startPos length st))
    with (is_line_start doc startPos).
  change (atLineStart (StyleContext_new doc startPos length SCE_REG_DEFAULT))
    with (is_line_start doc startPos).
  change (currentPos (StyleContext_new doc startPos length st)) with startPos.
  change (currentPos (StyleContext_new doc startPos length SCE_REG_DEFAULT))
    with startPos.
  rewrite line_start, not_continued. cbn [negb].
  unfold set_stateLastNonDefault, set_context, set_highlight. cbn [context beforeGUID beforeEscape highlight afterEqualSign].
  rewrite !SetState_new. reflexivity.
Qed.

Lemma Lex_init_cond st :
  Lex_cond (Lex_init doc startPos length st)
  = Lex_cond (Lex_init doc startPos length SCE_REG_DEFAULT).
Proof. reflexivity. Qed.

Lemma Lex_init_Complete st :
  styles (Complete doc (context (Lex_init doc startPos length st))) = [].
Proof.
  unfold Complete, Lex_init. cbn [context]. rewrite colour_pos_new.
  unfold ColourTo.
  change (startSeg (StyleContext_new doc startPos length st)) with startPos.
  rewrite Z.eqb_refl. reflexivity.
Qed.

Lemma Lex_init_default st :
  Lex doc startPos length st = Lex doc startPos length SCE_REG_DEFAULT.
Proof.
  unfold Lex. cbn [Lex_loop]. rewrite (Lex_init_cond st).
  destruct (Lex_cond (Lex_init doc startPos length SCE_REG_DEFAULT)).
  - rewrite !Lex_body_eq, Lex_line_start_init. reflexivity.
  - unfold mbind, option_bind. rewrite !Lex_init_Complete. reflexivity.
Qed.

End InitStyle.

(** X6: at a line start that does not continue the line before it, the
    initial style that the host supplies is not used. *)
Theorem Lex_initStyle_unused doc startPos length st1 st2 :
  0 <= startPos <= Length doc ->
  is_line_start doc startPos = true ->
  IsPrevNonWhitespace doc startPos BACKSLASH = false ->
  Lex doc startPos length st1 = Lex doc startPos length st2.
Proof.
  intros H1 H2 H3.
  rewrite (Lex_init_default doc startPos length H1 H2 H3 st1).
  rewrite (Lex_init_default doc startPos length H1 H2 H3 st2). reflexivity.
Qed.

Lemma Lex_initStyle_unused_witness :
  Lex plain_doc 2 1 SCE_REG_STRING = Lex plain_doc 2 1 SCE_REG_COMMENT.
Proof.
  apply (Lex_initStyle_unused plain_doc 2 1).
  - vm_compute. split; congruence.
  - vm_compute. reflexivity.
  - vm_compute. reflexivity.
Defined.

(** The start of the document is such a line start. *)
Corollary Lex_at_document_start doc length st1 st2 :
  Lex doc 0 length st1 = Lex doc 0 length st2.
Proof.
  assert (0 <= 0 <= Length doc) as H1 by (unfold Length; lia).
  assert (is_line_start doc 0 = true) as H2 by reflexivity.
  assert (IsPrevNonWhitespace doc 0 BACKSLASH = false) as H3.
  { unfold IsPrevNonWhitespace, scan_fuel. cbn [IsPrevNonWhitespace_loop].
    rewrite AtBeginOfLine_outside by lia. reflexivity. }
  rewrite (Lex_init_default doc 0 length H1 H2 H3 st1).
  rewrite (Lex_init_default doc 0 length H1 H2 H3 st2). reflexivity.
Qed.

(** ** The flag of the equals sign *)

Section AfterEqualSign.

Variable doc : list Z.

Lemma afterEqualSign_ContextForwardSetState o s :
  afterEqualSign (ContextForwardSetState doc o s) = afterEqualSign s.
Proof. unfold ContextForwardSetState. repeat case_match; reflexivity. Qed.

Lemma afterEqualSign_line_start s :
  afterEqualSign (Lex_line_start doc s) = afterEqualSign s.
Proof. unfold Lex_line_start. repeat case_match; reflexivity. Qed.

(** The [switch] clears the flag at a colon met in the ValueType state,
    and nowhere else. *)
Lemma afterEqualSign_switch s :
  afterEqualSign (Lex_switch doc s)
  = afterEqualSign s
    && negb (bool_decide (state (context s) = SCE_REG_VALUETYPE)
             && (ch (context s) =? COLON)).
Proof.
  unfold Lex_switch.
  destruct (state (context s)) eqn:Hst;
    rewrite ?bool_decide_eq_false_2 by discriminate;
    rewrite ?bool_decide_eq_true_2 by reflexivity;
    rewrite ?andb_false_l, ?andb_true_l; cbn [negb]; rewrite ?andb_true_r;
    try reflexivity;
    unfold case_COMMENT, case_STRING, case_PARAMETER, case_VALUETYPE,
      case_OPERATOR, case_KEY, case_ESCAPED, case_GUID, case_GUID_next,
      case_GUID_close;
    cbv zeta;
    repeat first
      [ reflexivity
      | rewrite afterEqualSign_ContextForwardSetState
      | progress lex_simpl
      | case_match ];
    rewrite ?andb_false_r, ?andb_true_r; reflexivity.
Qed.

(** The classification sets the flag at an equals sign, and nowhere
    else. *)
Lemma afterEqualSign_default s :
  afterEqualSign (Lex_default doc s)
  = afterEqualSign s
    || (bool_decide (state (context s) = SCE_REG_DEFAULT)
        && (ch (context s) =? EQUALS)).
Proof.
  unfold Lex_default. cbv zeta.
  destruct (bool_decide (state (context s) = SCE_REG_DEFAULT));
    [|rewrite orb_false_r; reflexivity].
  rewrite andb_true_l.
  destruct (Z.eqb_spec (ch (context s)) EQUALS) as [->|Hne].
  { change (EQUALS =? SEMICOLON) with false. change (EQUALS =? DQUOTE) with false.
    change (EQUALS =? LBRACKET) with false.
    repeat first [reflexivity | progress lex_simpl | case_match];
      rewrite !orb_true_r; reflexivity. }
  rewrite orb_false_r.
  repeat first
    [ reflexivity
    | progress lex_simpl
    | case_match ].
  all: assumption.
Qed.

End AfterEqualSign.

(** X7: the flag that an equals sign was seen: the check at the start of a
    line leaves it as it is, so it is carried from line to line; a turn
    clears it only at a colon met in the ValueType state, and sets it only
    at an equals sign that the turn classifies in the Default state. *)
Theorem afterEqualSign_flag doc s :
  let s0 := Lex_line_start doc s in
  let s1 := Lex_switch doc s0 in
  afterEqualSign s0 = afterEqualSign s
  /\ afterEqualSign (Lex_body doc s)
     = (afterEqualSign s
        && negb (bool_decide (state (context s0) = SCE_REG_VALUETYPE)
                 && (ch (context s0) =? COLON)))
       || (bool_decide (state (context s1) = SCE_REG_DEFAULT)
           && (ch (context s1) =? EQUALS)).
Proof.
  intros s0 s1. split; [apply afterEqualSign_line_start|].
  rewrite Lex_body_eq, afterEqualSign_ContextForwardSetState,
    afterEqualSign_default.
  fold s0. fold s1. subst s1. rewrite afterEqualSign_switch. subst s0.
  rewrite afterEqualSign_line_start. reflexivity.
Qed.

(** ** Runs of turns in one state *)

Section Run.

Variable doc : list Z.
Variables (startPos length : Z) (initStyle : Style).
Hypothesis startPos_nonneg : 0 <= startPos.
Hypothesis length_nonneg : 0 <= length.
Hypothesis span_in_doc : startPos + length <= Length doc.

Abbreviation init := (Lex_init doc startPos length initStyle).

Variable out : list Style.
Hypothesis run : Lex doc startPos length initStyle = Some out.

(** The style of the run, what its turns keep, and its positions. *)
Variable st : Style.
Variable I : LexState -> Prop.
Variables a e : Z.
Hypothesis range : e <= startPos + length.
Hypothesis no_nul : forall q, a <= q < e -> SafeGetCharAt doc q NUL <> NUL.
Hypothesis step :
  forall s', Lex_reaches doc init s' -> Lex_cond s' = true ->
    a <= currentPos (context s') < e -> I s' ->
    exists c,
      context (Lex_body doc s') = Forward doc c
      /\ state c = st
      /\ currentPos c = currentPos (context s')
      /\ endPos c = endPos (context s')
      /\ cursor_inv doc startPos c
      /\ I (Lex_body doc s').

Variable s : LexState.
Hypothesis s_reached : Lex_reaches doc init s.
Hypothesis s_pos : currentPos (context s) = a.
Hypothesis s_I : I s.

Lemma run_inv s' :
  Lex_reaches doc init s' -> cursor_inv doc startPos (context s').
Proof.
  intros Hr. apply (Lex_reaches_inv doc startPos startPos_nonneg _ _ Hr).
  apply inv_init; assumption.
Qed.

Lemma run_endPos s' :
  Lex_reaches doc init s' -> startPos + length <= endPos (context s').
Proof.
  intros Hr.
  destruct (Lex_reaches_inv doc startPos startPos_nonneg _ _ Hr)
    as [(_ & -> & _) _].
  unfold Lex_init, StyleContext_new. lex_simpl. simpl. case_match; lia.
Qed.

Lemma run_at s' :
  Lex_reaches doc init s' -> a <= currentPos (context s') < e ->
  Lex_cond s' = true /\ currentPos (context s') < endPos (context s').
Proof.
  intros Hr Hq.
  pose proof (run_inv s' Hr) as [_ _ _ _ _ _ Hch _ _ _].
  pose proof (run_endPos s' Hr) as Hend.
  assert (currentPos (context s') < endPos (context s')) as Hlt by lia.
  split; [|assumption].
  unfold Lex_cond, More. rewrite (proj2 (Z.ltb_lt _ _) Hlt), (Hch Hlt).
  rewrite (proj2 (Z.eqb_neq _ _) (no_nul _ Hq)). reflexivity.
Qed.

Lemma run_turns (k : nat) :
  a + Z.of_nat k <= e ->
  Lex_reaches doc init (Lex_turns doc k s)
  /\ currentPos (context (Lex_turns doc k s)) = a + Z.of_nat k
  /\ I (Lex_turns doc k s).
Proof.
  induction k as [|k IH]; intros Hk.
  - cbn [Lex_turns]. split_and!; [exact s_reached|lia|exact s_I].
  - cbn [Lex_turns]. destruct IH as (Hr & Hcp & HI); [lia|].
    set (sk := Lex_turns doc k s) in *. clearbody sk.
    destruct (run_at sk Hr ltac:(lia)) as [Hc Hlt].
    destruct (step sk Hr Hc ltac:(lia) HI)
      as (c & Hctx & _ & Ccp & Cep & _ & HI').
    split; [apply reaches_next; assumption|].
    rewrite Hctx.
    destruct (Forward_fields doc c) as (_ & -> & _); [lia|].
    split; [lia|assumption].
Qed.

(** Every position of the run takes the style of the run. *)
Lemma run_styles q :
  a <= q < e -> style_of startPos out q = Some st.
Proof.
  intros Hq.
  destruct (run_turns (Z.to_nat (q - a)) ltac:(lia)) as (Hr & Hcp & HI).
  set (sk := Lex_turns doc (Z.to_nat (q - a)) s) in *. clearbody sk.
  replace (a + Z.of_nat (Z.to_nat (q - a))) with q in * by lia.
  destruct (run_at sk Hr ltac:(lia)) as [Hc Hlt].
  destruct (step sk Hr Hc ltac:(lia) HI)
    as (c & Hctx & Cst & Ccp & Cep & Ci & _).
  pose proof (Lex_forward_style doc startPos length initStyle startPos_nonneg
                length_nonneg span_in_doc sk c out Hr Hc run Ci) as H.
  rewrite Cst, Ccp, Cep, Hcp in H. apply H; [lia| |].
  - pose proof (no_nul q Hq) as Hnul.
    apply SafeGetCharAt_not_default in Hnul. lia.
  - rewrite Hctx. apply ext_refl.
Qed.

End Run.

(** ** Comments *)

Section EnteredTurn.

Variable doc : list Z.
Variables (startPos length : Z) (initStyle : Style).
Hypothesis startPos_nonneg : 0 <= startPos.
Hypothesis length_nonneg : 0 <= length.
Hypothesis span_in_doc : startPos + length <= Length doc.

Abbreviation init := (Lex_init doc startPos length initStyle).

Variable s : LexState.
Variable out : list Style.
Hypothesis s_reached : Lex_reaches doc init s.
Hypothesis s_cond : Lex_cond s = true.
Hypothesis run : Lex doc startPos length initStyle = Some out.

Let s1 := Lex_switch doc (Lex_line_start doc s).

(** The cursor when the turn classifies its character. *)
Lemma classify_cursor :
  cursor_inv doc startPos (context s1)
  /\ endPos (context s1) = endPos (context s)
  /\ startPos + length <= endPos (context s1)
  /\ startPos <= currentPos (context s1).
Proof.
  pose proof (inv_closed doc startPos startPos_nonneg) as Hcl.
  pose proof (ext_closed doc (context s)) as Hcl'.
  assert (cursor_inv doc startPos (context s1)) as Hi.
  { subst s1. apply (closed_switch _ _ Hcl), (closed_line_start _ _ Hcl).
    apply (run_inv doc startPos length initStyle); assumption. }
  assert (ext doc (context s) (context s1)) as (_ & He & _).
  { subst s1. apply (closed_switch _ _ Hcl'), (closed_line_start _ _ Hcl'),
      ext_refl. }
  pose proof (run_endPos doc startPos length initStyle startPos_nonneg s s_reached).
  split_and!; auto; [lia|]. destruct Hi as [? ? _ _ _ _ _ _ _ _]. lia.
Qed.

(** A turn whose classification enters a state at its character. *)
Lemma entered_turn st :
  context (Lex_default doc s1) = SetState doc st (context s1) ->
  currentPos (context s1) < startPos + length ->
  ch (context s1) <> NUL ->
  Lex_reaches doc init (Lex_body doc s)
  /\ currentPos (context (Lex_body doc s)) = currentPos (context s1) + 1
  /\ state (context (Lex_body doc s)) = st
  /\ (st <> SCE_REG_DEFAULT -> stateLastNonDefault (Lex_body doc s) = st)
  /\ beforeGUID (Lex_body doc s) = beforeGUID (Lex_default doc s1)
  /\ style_of startPos out (currentPos (context s1)) = Some st.
Proof.
  intros Hdef Hin Hch.
  destruct classify_cursor as (Hi1 & He1 & Hend & Hp).
  assert (currentPos (context s1) < endPos (context s1)) as Hlt by lia.
  destruct (entered_style doc startPos length initStyle startPos_nonneg
              length_nonneg span_in_doc s out st s_reached s_cond
              run Hdef Hlt Hch) as [Hst Hsty].
  split; [apply reaches_next; assumption|].
  rewrite Lex_body_eq in *. fold s1 in Hst |- *.
  destruct (turn_end_fields doc (Lex_default doc s1)) as (Hc & Hbg & Hl).
  rewrite Hc, Hdef in *.
  destruct (SetState_fields doc st (context s1)) as (Sst & Scp & Sep & _).
  destruct (Forward_fields doc (SetState doc st (context s1)))
    as (Fst & Fcp & _); [lia|].
  split_and!; auto.
  rewrite Fcp, Scp. reflexivity.
Qed.

End EnteredTurn.

(** What the cursor shows inside a line. *)
Lemma at_line_end_char doc pos :
  pos < Length doc -> at_line_end doc pos = true ->
  SafeGetCharAt doc pos NUL = LF \/ SafeGetCharAt doc pos NUL = CR.
Proof.
  intros Hlt. unfold at_line_end. rewrite (proj2 (Z.leb_gt _ _)) by lia.
  cbn [orb]. intros H. apply orb_true_iff in H as [H|H].
  - left. apply Z.eqb_eq, H.
  - right. apply andb_true_iff in H as [H _]. apply Z.eqb_eq, H.
Qed.

Lemma is_line_start_inside doc pos :
  0 < pos -> at_line_end doc (pos - 1) = false -> is_line_start doc pos = false.
Proof.
  intros H1 H2. unfold is_line_start. rewrite (proj2 (Z.eqb_neq _ _)) by lia.
  exact H2.
Qed.

Section CommentLine.

Variable doc : list Z.
Variables (startPos length : Z) (initStyle : Style).
Hypothesis startPos_nonneg : 0 <= startPos.
Hypothesis length_nonneg : 0 <= length.
Hypothesis span_in_doc : startPos + length <= Length doc.

Abbreviation init := (Lex_init doc startPos length initStyle).

Variable s : LexState.
Variable out : list Style.
Hypothesis s_reached : Lex_reaches doc init s.
Hypothesis s_cond : Lex_cond s = true.
Hypothesis run : Lex doc startPos length initStyle = Some out.

Let s1 := Lex_switch doc (Lex_line_start doc s).
Hypothesis in_default : state (context s1) = SCE_REG_DEFAULT.
Hypothesis at_semicolon : ch (context s1) = SEMICOLON.

Let p := currentPos (context s1).

Variable e : Z.
Hypothesis line : forall q, p <= q < e -> at_line_end doc q = false.
Hypothesis line_pos : p <= e < startPos + length.
Hypothesis no_nul : forall q, p <= q <= e -> SafeGetCharAt doc q NUL <> NUL.

Lemma comment_line_step s' :
  Lex_reaches doc init s' -> Lex_cond s' = true ->
  p + 1 <= currentPos (context s') < e + 1 ->
  state (context s') = SCE_REG_COMMENT
  /\ stateLastNonDefault s' = SCE_REG_COMMENT ->
  exists c,
    context (Lex_body doc s') = Forward doc c
    /\ state c = SCE_REG_COMMENT
    /\ currentPos c = currentPos (context s')
    /\ endPos c = endPos (context s')
    /\ cursor_inv doc startPos c
    /\ (state (context (Lex_body doc s')) = SCE_REG_COMMENT
        /\ stateLastNonDefault (Lex_body doc s') = SCE_REG_COMMENT).
Proof.
  intros Hr Hc Hq [Hst Hl].
  destruct (classify_cursor doc startPos length initStyle startPos_nonneg
              length_nonneg span_in_doc s s_reached) as (_ & _ & _ & Hp).
  fold s1 in Hp. fold p in Hp.
  pose proof (run_inv doc startPos length initStyle startPos_nonneg
                length_nonneg span_in_doc s' Hr) as Hi.
  pose proof Hi as [_ _ _ _ _ _ Hch _ Hale Hals].
  apply Lex_cond_true in Hc as [Hlt _].
  specialize (Hch Hlt). specialize (Hale Hlt). specialize (Hals Hlt).
  destruct (turn_COMMENT doc s' Hst Hl) as (c & Hctx & Cst & Ccp & Cep & Ci & Hl').
  - rewrite Hals, is_line_start_inside; [discriminate|lia|apply line; lia].
  - rewrite Hale, Hch. apply at_line_end_char. lia.
  - exists c. split_and!; auto.
    rewrite Hctx.
    destruct (Forward_fields doc c) as (-> & _); [lia|]. assumption.
Qed.

Lemma comment_line_styles q :
  p <= q <= e -> style_of startPos out q = Some SCE_REG_COMMENT.
Proof.
  intros Hq.
  pose proof (Lex_default_semicolon doc s1 in_default at_semicolon) as Hdef.
  destruct (entered_turn doc startPos length initStyle startPos_nonneg
              length_nonneg span_in_doc s out s_reached s_cond run
              SCE_REG_COMMENT Hdef)
    as (Hr & Hcp & Hst & Hl & _ & Hsty).
  { fold s1. fold p. lia. }
  { fold s1. rewrite at_semicolon. discriminate. }
  fold s1 in Hcp, Hsty. fold p in Hcp, Hsty.
  destruct (decide (q = p)) as [->|Hne]; [assumption|].
  apply (run_styles doc startPos length initStyle startPos_nonneg
           length_nonneg span_in_doc out run SCE_REG_COMMENT
           (fun s' => state (context s') = SCE_REG_COMMENT
                      /\ stateLastNonDefault s' = SCE_REG_COMMENT)
           (p + 1) (e + 1)) with (s := Lex_body doc s).
  - lia.
  - intros q' Hq'. apply no_nul. lia.
  - exact comment_line_step.
  - assumption.
  - assumption.
  - split; [assumption|]. apply Hl. discriminate.
  - lia.
Qed.

End CommentLine.

(** X8: a semicolon met in the Default state starts a comment that runs
    to the end of its line: every character from the semicolon up to and
    with the character that ends the line is styled Comment, whatever the
    characters are. *)
Theorem comment_to_line_end doc startPos length initStyle s out e :
  0 <= startPos -> 0 <= length -> startPos + length <= Length doc ->
  Lex_reaches doc (Lex_init doc startPos length initStyle) s ->
  Lex_cond s = true ->
  Lex doc startPos length initStyle = Some out ->
  let s1 := Lex_switch doc (Lex_line_start doc s) in
  let p := currentPos (context s1) in
  state (context s1) = SCE_REG_DEFAULT ->
  ch (context s1) = SEMICOLON ->
  (forall q, p <= q < e -> at_line_end doc q = false) ->
  p <= e < startPos + length ->
  (forall q, p <= q <= e -> SafeGetCharAt doc q NUL <> NUL) ->
  forall q, p <= q <= e -> style_of startPos out q = Some SCE_REG_COMMENT.
Proof.
  intros Hs Hl Hd Hr Hc Hout s1 p Hst Hch H1 H2 H3.
  apply (comment_line_styles doc startPos length initStyle Hs Hl Hd s out Hr Hc
           Hout Hst Hch e); assumption.
Qed.

Lemma comment_to_line_end_witness :
  style_of 0 (replicate 4 SCE_REG_COMMENT ++ [SCE_REG_DEFAULT]) 3
  = Some SCE_REG_COMMENT.
Proof.
  assert (currentPos
            (context (Lex_switch comment_line_doc
                        (Lex_line_start comment_line_doc
                           (Lex_init comment_line_doc 0 5 SCE_REG_DEFAULT)))) = 0)
    as Hp by (vm_compute; reflexivity).
  apply (comment_to_line_end comment_line_doc 0 5 SCE_REG_DEFAULT
           (Lex_init comment_line_doc 0 5 SCE_REG_DEFAULT) _ 3).
  - lia.
  - lia.
  - vm_compute. congruence.
  - apply reaches_first.
  - vm_compute. reflexivity.
  - vm_compute. reflexivity.
  - vm_compute. reflexivity.
  - vm_compute. reflexivity.
  - rewrite Hp. intros q Hq. by_cases q [0; 1; 2].
  - rewrite Hp. lia.
  - rewrite Hp. intros q Hq. by_cases q [0; 1; 2; 3].
  - rewrite Hp. lia.
Defined.

(** ** Quoted strings *)

Section StringTurns.

Variable doc : list Z.

Lemma Lex_line_start_skip s :
  atLineStart (context s) = false -> Lex_line_start doc s = s.
Proof. intros H. unfold Lex_line_start. rewrite H. reflexivity. Qed.

Lemma Lex_switch_STRING s :
  IsStringState (state (context s)) = true ->
  Lex_switch doc s = case_STRING doc s.
Proof.
  unfold Lex_switch, IsStringState.
  destruct (state (context s)); try discriminate; reflexivity.
Qed.

Lemma IsStringState_not_default st :
  IsStringState st = true -> st <> SCE_REG_DEFAULT.
Proof. intros H ->. discriminate. Qed.

(** A character of the string that the String case passes over. *)
Lemma turn_STRING_plain s :
  IsStringState (state (context s)) = true ->
  atLineStart (context s) = false ->
  ch (context s) <> DQUOTE -> ch (context s) <> BACKSLASH ->
  (ch (context s) = LBRACE -> AtGUID doc (currentPos (context s)) = false) ->
  (ch (context s) = PERCENT ->
   isdigit (chNext (context s)) || (chNext (context s) =? STAR) = false) ->
  context (Lex_body doc s) = Forward doc (context s).
Proof.
  intros Hst Hals Hq Hb Hg Hp. rewrite Lex_body_eq.
  rewrite (Lex_line_start_skip s Hals), (Lex_switch_STRING s Hst).
  assert (case_STRING doc s = s) as ->.
  { unfold case_STRING. cbv zeta.
    rewrite (proj2 (Z.eqb_neq _ _) Hq), (proj2 (Z.eqb_neq _ _) Hb).
    assert ((if ch (context s) =? LBRACE
             then if AtGUID doc (currentPos (context s))
                  then set_context (SetState doc SCE_REG_STRING_GUID)
                         (set_beforeGUID (state (context s)) s)
                  else s
             else s) = s) as ->.
    { destruct (Z.eqb_spec (ch (context s)) LBRACE) as [E|E]; [|reflexivity].
      rewrite (Hg E). reflexivity. }
    destruct (Z.eqb_spec (ch (context s)) PERCENT) as [E|E].
    - rewrite (Hp E), andb_false_r. reflexivity.
    - rewrite andb_false_r. reflexivity. }
  rewrite Lex_default_skip by (apply IsStringState_not_default, Hst).
  apply turn_end_fields.
Qed.

(** The closing quote: the turn styles it as the string and goes on in
    the Default state. *)
Lemma turn_STRING_close s :
  IsStringState (state (context s)) = true ->
  atLineStart (context s) = false ->
  ch (context s) = DQUOTE ->
  ext doc (Forward doc (context s)) (context (Lex_body doc s)).
Proof.
  intros Hst Hals Hq. rewrite Lex_body_eq.
  rewrite (Lex_line_start_skip s Hals), (Lex_switch_STRING s Hst).
  pose proof (ext_closed doc (Forward doc (context s))) as Hcl.
  apply (closed_ContextForwardSetState _ _ Hcl), (closed_default _ _ Hcl).
  unfold case_STRING. cbv zeta. rewrite Hq.
  change (DQUOTE =? DQUOTE) with true. cbv iota.
  assert (context (ContextForwardSetState doc (Some SCE_REG_DEFAULT) s)
          = SetState doc SCE_REG_DEFAULT (Forward doc (context s))) as Hctx.
  { unfold ContextForwardSetState. case_bool_decide; reflexivity. }
  assert (state (context (ContextForwardSetState doc (Some SCE_REG_DEFAULT) s))
          = SCE_REG_DEFAULT) as Hd.
  { rewrite Hctx.
    destruct (SetState_fields doc SCE_REG_DEFAULT (Forward doc (context s)))
      as (-> & _). reflexivity. }
  rewrite Hd. rewrite bool_decide_eq_false_2 by discriminate.
  cbn [andb]. rewrite Hctx. apply ext_SetState.
Qed.

End StringTurns.

Section StringRun.

Variable doc : list Z.
Variables (startPos length : Z) (initStyle : Style).
Hypothesis startPos_nonneg : 0 <= startPos.
Hypothesis length_nonneg : 0 <= length.
Hypothesis span_in_doc : startPos + length <= Length doc.

Abbreviation init := (Lex_init doc startPos length initStyle).

Variable s : LexState.
Variable out : list Style.
Hypothesis s_reached : Lex_reaches doc init s.
Hypothesis s_cond : Lex_cond s = true.
Hypothesis run : Lex doc startPos length initStyle = Some out.

Let s1 := Lex_switch doc (Lex_line_start doc s).
Hypothesis in_default : state (context s1) = SCE_REG_DEFAULT.
Hypothesis at_quote : ch (context s1) = DQUOTE.

Let p := currentPos (context s1).
Let st := if AtValueName doc p then SCE_REG_VALUENAME else SCE_REG_STRING.

Variable e : Z.
Hypothesis line : forall q, p <= q < e -> at_line_end doc q = false.
Hypothesis quote_pos : p < e < startPos + length.
Hypothesis no_nul : forall q, p < q < e -> SafeGetCharAt doc q NUL <> NUL.
Hypothesis plain : forall q, p < q < e -> plain_in_string doc q = true.
Hypothesis closing : SafeGetCharAt doc e NUL = DQUOTE.

Lemma string_state : IsStringState st = true.
Proof. subst st. destruct (AtValueName doc p); reflexivity. Qed.

Lemma string_step s' :
  Lex_reaches doc init s' -> Lex_cond s' = true ->
  p + 1 <= currentPos (context s') < e ->
  state (context s') = st ->
  exists c,
    context (Lex_body doc s') = Forward doc c
    /\ state c = st
    /\ currentPos c = currentPos (context s')
    /\ endPos c = endPos (context s')
    /\ cursor_inv doc startPos c
    /\ state (context (Lex_body doc s')) = st.
Proof.
  intros Hr Hc Hq Hst.
  destruct (classify_cursor doc startPos length initStyle startPos_nonneg
              length_nonneg span_in_doc s s_reached) as (_ & _ & _ & Hp).
  fold s1 in Hp. fold p in Hp.
  pose proof (run_inv doc startPos length initStyle startPos_nonneg
                length_nonneg span_in_doc s' Hr) as Hi.
  pose proof Hi as [_ _ _ _ _ _ Hch Hnx _ Hals].
  apply Lex_cond_true in Hc as [Hlt _].
  specialize (Hch Hlt). specialize (Hnx Hlt). specialize (Hals Hlt).
  pose proof (plain (currentPos (context s')) ltac:(lia)) as Hpl.
  unfold plain_in_string in Hpl. cbv zeta in Hpl.
  rewrite <- Hch, <- Hnx in Hpl.
  apply andb_true_iff in Hpl as [Hpl H4]. apply andb_true_iff in Hpl as [Hpl H3].
  apply andb_true_iff in Hpl as [H1 H2].
  apply negb_true_iff in H1, H2, H3, H4.
  apply Z.eqb_neq in H1, H2.
  assert (context (Lex_body doc s') = Forward doc (context s')) as Hctx.
  { apply turn_STRING_plain; try assumption.
    - rewrite Hst. apply string_state.
    - rewrite Hals. apply is_line_start_inside; [lia|apply line; lia].
    - intros E. rewrite E in H3. change (LBRACE =? LBRACE) with true in H3.
      cbn [andb] in H3. exact H3.
    - intros E. rewrite E in H4. change (PERCENT =? PERCENT) with true in H4.
      cbn [andb] in H4. exact H4. }
  exists (context s'). split_and!; auto.
  rewrite Hctx. destruct (Forward_fields doc (context s') Hlt) as (-> & _).
  assumption.
Qed.

Lemma string_styles q :
  p <= q <= e -> style_of startPos out q = Some st.
Proof.
  intros Hq.
  pose proof (Lex_default_quote doc s1 in_default at_quote) as Hdef.
  fold p in Hdef. fold st in Hdef.
  destruct (entered_turn doc startPos length initStyle startPos_nonneg
              length_nonneg span_in_doc s out s_reached s_cond run st Hdef)
    as (Hr & Hcp & Hst & _ & _ & Hsty).
  { fold s1. fold p. lia. }
  { fold s1. rewrite at_quote. discriminate. }
  fold s1 in Hcp, Hsty. fold p in Hcp, Hsty.
  destruct (decide (q = p)) as [->|Hne]; [assumption|].
  assert (forall q', p + 1 <= q' < e -> SafeGetCharAt doc q' NUL <> NUL) as Hnn
    by (intros; apply no_nul; lia).
  destruct (decide (q = e)) as [->|Hne'].
  - destruct (run_turns doc startPos length initStyle startPos_nonneg
                length_nonneg span_in_doc st (fun s' => state (context s') = st)
                (p + 1) e ltac:(lia) Hnn string_step (Lex_body doc s)
                Hr Hcp Hst (Z.to_nat (e - p - 1)) ltac:(lia))
      as (Hrk & Hcpk & Hstk).
    set (sk := Lex_turns doc (Z.to_nat (e - p - 1)) (Lex_body doc s)) in *.
    clearbody sk.
    replace (p + 1 + Z.of_nat (Z.to_nat (e - p - 1))) with e in Hcpk by lia.
    pose proof (run_inv doc startPos length initStyle startPos_nonneg
                  length_nonneg span_in_doc sk Hrk) as Hi.
    pose proof (run_endPos doc startPos length initStyle startPos_nonneg
                  sk Hrk) as Hend.
    pose proof Hi as [_ _ _ _ _ _ Hch _ _ Hals].
    assert (currentPos (context sk) < endPos (context sk)) as Hlt by lia.
    specialize (Hch Hlt). specialize (Hals Hlt). rewrite Hcpk in Hch, Hals.
    assert (Lex_cond sk = true) as Hc.
    { unfold Lex_cond, More. rewrite (proj2 (Z.ltb_lt _ _) Hlt), Hch, closing.
      reflexivity. }
    pose proof (Lex_forward_style doc startPos length initStyle startPos_nonneg
                  length_nonneg span_in_doc sk (context sk) out Hrk Hc run Hi Hlt)
      as H.
    rewrite Hstk, Hcpk in H. apply H; [lia|].
    apply turn_STRING_close.
    + rewrite Hstk. apply string_state.
    + rewrite Hals. destruct (classify_cursor doc startPos length initStyle
        startPos_nonneg length_nonneg span_in_doc s s_reached) as (_ & _ & _ & Hp).
      fold s1 in Hp. fold p in Hp.
      apply is_line_start_inside; [lia|apply line; lia].
    + rewrite Hch. exact closing.
  - apply (run_styles doc startPos length initStyle startPos_nonneg
             length_nonneg span_in_doc out run st
             (fun s' => state (context s') = st) (p + 1) e ltac:(lia) Hnn
             string_step (Lex_body doc s) Hr Hcp Hst). lia.
Qed.

End StringRun.

(** X9: a quoted string without escapes, GUIDs or parameters: from the
    opening quote met in the Default state to the closing quote on the same
    line, every character, both quotes with them, takes one style,
    ValueName or String as the opening quote decides. *)
Theorem string_to_closing_quote doc startPos length initStyle s out e :
  0 <= startPos -> 0 <= length -> startPos + length <= Length doc ->
  Lex_reaches doc (Lex_init doc startPos length initStyle) s ->
  Lex_cond s = true ->
  Lex doc startPos length initStyle = Some out ->
  let s1 := Lex_switch doc (Lex_line_start doc s) in
  let p := currentPos (context s1) in
  state (context s1) = SCE_REG_DEFAULT ->
  ch (context s1) = DQUOTE ->
  (forall q, p <= q < e -> at_line_end doc q = false) ->
  p < e < startPos + length ->
  (forall q, p < q < e -> SafeGetCharAt doc q NUL <> NUL) ->
  (forall q, p < q < e -> plain_in_string doc q = true) ->
  SafeGetCharAt doc e NUL = DQUOTE ->
  forall q, p <= q <= e ->
    style_of startPos out q
    = Some (if AtValueName doc p then SCE_REG_VALUENAME else SCE_REG_STRING).
Proof.
  intros Hs Hl Hd Hr Hc Hout s1 p Hst Hch H1 H2 H3 H4 H5.
  apply (string_styles doc startPos length initStyle Hs Hl Hd s out Hr Hc
           Hout Hst Hch e); assumption.
Qed.

Lemma string_to_closing_quote_witness :
  style_of 0 (replicate 5 SCE_REG_VALUENAME ++ [SCE_REG_OPERATOR]
              ++ replicate 5 SCE_REG_STRING) 4
  = Some (if AtValueName foo_bar_doc 0
          then SCE_REG_VALUENAME else SCE_REG_STRING).
Proof.
  assert (currentPos
            (context (Lex_switch foo_bar_doc
                        (Lex_line_start foo_bar_doc
                           (Lex_init foo_bar_doc 0 11 SCE_REG_DEFAULT)))) = 0)
    as Hp by (vm_compute; reflexivity).
  rewrite <- Hp at 2.
  apply (string_to_closing_quote foo_bar_doc 0 11 SCE_REG_DEFAULT
           (Lex_init foo_bar_doc 0 11 SCE_REG_DEFAULT) _ 4).
  - lia.
  - lia.
  - vm_compute. congruence.
  - apply reaches_first.
  - vm_compute. reflexivity.
  - vm_compute. reflexivity.
  - vm_compute. reflexivity.
  - vm_compute. reflexivity.
  - rewrite Hp. intros q Hq. by_cases q [0; 1; 2; 3].
  - rewrite Hp. lia.
  - rewrite Hp. intros q Hq. by_cases q [1; 2; 3].
  - rewrite Hp. intros q Hq. by_cases q [1; 2; 3].
  - vm_compute. reflexivity.
  - rewrite Hp. lia.
Defined.

(** ** Escapes *)

Section EscapeTurns.

Variable doc : list Z.

(** A backslash inside a string: the turn enters the Escaped state and
    moves past the backslash and the character after it. *)
Lemma turn_STRING_escape s :
  IsStringState (state (context s)) = true ->
  ch (context s) = BACKSLASH ->
  Lex_switch doc s
  = set_context (Forward doc)
      (set_context (SetState doc SCE_REG_ESCAPED)
         (set_beforeEscape (state (context s)) s)).
Proof.
  intros Hst Hch. rewrite (Lex_switch_STRING doc s Hst).
  unfold case_STRING. cbv zeta. rewrite Hch.
  change (BACKSLASH =? DQUOTE) with false.
  change (BACKSLASH =? BACKSLASH) with true. cbv iota.
  set (x := set_context (Forward doc) _).
  assert (state (context x) = SCE_REG_ESCAPED) as Hx.
  { subst x. lex_simpl. unfold Forward. case_match; reflexivity. }
  rewrite Hx. rewrite bool_decide_eq_false_2 by discriminate. reflexivity.
Qed.

Lemma Forward_state c : state (Forward doc c) = state c.
Proof. unfold Forward. case_match; reflexivity. Qed.

Lemma Lex_switch_ESCAPED s :
  state (context s) = SCE_REG_ESCAPED ->
  Lex_switch doc s = case_ESCAPED doc s.
Proof. intros H. unfold Lex_switch. rewrite H. reflexivity. Qed.

(** The turn after an escape, on a character that is not a backslash: the
    state of before the escape styles the character. *)
Lemma turn_ESCAPED_back s :
  state (context s) = SCE_REG_ESCAPED ->
  atLineStart (context s) = false ->
  ch (context s) <> BACKSLASH ->
  beforeEscape s <> SCE_REG_DEFAULT ->
  ext doc (Forward doc (SetState doc (beforeEscape s) (context s)))
    (context (Lex_body doc s)).
Proof.
  intros Hst Hals Hb Hbe. rewrite Lex_body_eq.
  rewrite (Lex_line_start_skip doc s Hals), (Lex_switch_ESCAPED s Hst).
  unfold case_ESCAPED. rewrite (proj2 (Z.eqb_neq _ _) Hb).
  destruct (ch (context s) =? DQUOTE).
  - pose proof (ext_closed doc
                  (Forward doc (SetState doc (beforeEscape s) (context s))))
      as Hcl.
    apply (closed_ContextForwardSetState _ _ Hcl), (closed_default _ _ Hcl).
    unfold ContextForwardSetState. case_bool_decide; lex_simpl;
      unfold ForwardSetState; apply ext_SetState.
  - rewrite Lex_default_skip.
    + destruct (turn_end_fields doc
                  (set_beforeEscape SCE_REG_DEFAULT
                     (set_context (SetState doc (beforeEscape s)) s)))
        as (-> & _).
      lex_simpl. apply ext_refl.
    + lex_simpl.
      destruct (SetState_fields doc (beforeEscape s) (context s)) as (-> & _).
      assumption.
Qed.

End EscapeTurns.

Section EscapeInString.

Variable doc : list Z.
Variables (startPos length : Z) (initStyle : Style).
Hypothesis startPos_nonneg : 0 <= startPos.
Hypothesis length_nonneg : 0 <= length.
Hypothesis span_in_doc : startPos + length <= Length doc.

Abbreviation init := (Lex_init doc startPos length initStyle).

Variable s : LexState.
Variable out : list Style.
Hypothesis s_reached : Lex_reaches doc init s.
Hypothesis s_cond : Lex_cond s = true.
Hypothesis run : Lex doc startPos length initStyle = Some out.
Hypothesis in_string :
  IsStringState (state (context (Lex_line_start doc s))) = true.
Hypothesis at_backslash : ch (context s) = BACKSLASH.

Let p := currentPos (context s).
Let st := state (context s).

Hypothesis pair_in_span : p + 1 < startPos + length.

Lemma escape_line_start : context (Lex_line_start doc s) = context s.
Proof.
  destruct (Lex_line_start_fields doc s) as (_ & _ & _ & [(H & _)|(H & _)]);
    [exact H|].
  exfalso. revert in_string. rewrite H.
  destruct (SetState_fields doc SCE_REG_DEFAULT (context s)) as (-> & _).
  discriminate.
Qed.

Lemma escape_string_state : IsStringState st = true.
Proof. subst st. rewrite <- escape_line_start. exact in_string. Qed.

Lemma escape_turn :
  context (Lex_body doc s)
  = Forward doc (Forward doc (SetState doc SCE_REG_ESCAPED (context s)))
  /\ beforeEscape (Lex_body doc s) = st.
Proof.
  rewrite Lex_body_eq.
  rewrite (turn_STRING_escape doc _ in_string)
    by (rewrite escape_line_start; exact at_backslash).
  rewrite Lex_default_skip.
  - set (x := set_context (Forward doc) _).
    destruct (turn_end_fields doc x) as (-> & _).
    unfold ContextForwardSetState. subst x.
    case_bool_decide; lex_simpl; rewrite escape_line_start; auto.
  - lex_simpl. rewrite Forward_state.
    destruct (SetState_fields doc SCE_REG_ESCAPED
                (context (Lex_line_start doc s))) as (-> & _).
    discriminate.
Qed.

Lemma escape_cursor :
  let c := Forward doc (Forward doc (SetState doc SCE_REG_ESCAPED (context s))) in
  cursor_inv doc startPos c
  /\ state c = SCE_REG_ESCAPED
  /\ currentPos c = p + 2
  /\ startSeg c = p.
Proof.
  destruct (Lex_reaches_cursor doc startPos length initStyle startPos_nonneg
              length_nonneg span_in_doc s s_reached s_cond)
    as (Hi & Hpos & _ & _ & Hpe).
  pose proof (run_endPos doc startPos length initStyle startPos_nonneg
                s s_reached) as Hend.
  destruct (SetState_fields doc SCE_REG_ESCAPED (context s))
    as (Sst & Scp & Sep & _ & Ssg).
  rewrite (Complete_startSeg doc startPos) in Ssg by assumption.
  destruct (Forward_fields doc (SetState doc SCE_REG_ESCAPED (context s)))
    as (Fst & Fcp & Fep & Fsg & _); [fold p in Hpos; lia|].
  destruct (Forward_fields doc
              (Forward doc (SetState doc SCE_REG_ESCAPED (context s))))
    as (Gst & Gcp & Gep & Gsg & _); [fold p in Hpos; lia|].
  cbv zeta. split_and!.
  - apply inv_Forward; [assumption|]. apply inv_Forward; [assumption|].
    apply inv_SetState. exact Hi.
  - rewrite Gst, Fst. exact Sst.
  - rewrite Gcp, Fcp, Scp. fold p. lia.
  - rewrite Gsg, Fsg, Ssg. exact Hpe.
Qed.

(** The backslash and the character after it are styled Escaped. *)
Lemma escape_styles q :
  p <= q <= p + 1 -> style_of startPos out q = Some SCE_REG_ESCAPED.
Proof.
  intros Hq. destruct escape_turn as [Hctx _].
  destruct escape_cursor as (Hi & Hst & Hcp & Hsg).
  rewrite <- Hst.
  apply (Lex_passes doc startPos length initStyle startPos_nonneg
           length_nonneg span_in_doc (Lex_body doc s) _ out q).
  - apply reaches_next; assumption.
  - assumption.
  - assumption.
  - rewrite Hctx. apply ext_refl.
  - rewrite Hsg. unfold pending_end, colour_pos. rewrite Hcp.
    rewrite (proj2 (Z.ltb_ge _ _)) by lia. lia.
Qed.

(** The character after the pair, unless a backslash, is styled as the
    string again. *)
Lemma escape_after :
  p + 2 < startPos + length ->
  at_line_end doc (p + 1) = false ->
  SafeGetCharAt doc (p + 2) NUL <> NUL ->
  SafeGetCharAt doc (p + 2) NUL <> BACKSLASH ->
  style_of startPos out (p + 2) = Some st.
Proof.
  intros Hin Hle Hnul Hbs. destruct escape_turn as [Hctx Hbe].
  destruct escape_cursor as (Hi & Hst & Hcp & Hsg). rewrite <- Hctx in *.
  set (s2 := Lex_body doc s) in *.
  assert (Lex_reaches doc init s2) as Hr2 by (apply reaches_next; assumption).
  clearbody s2.
  pose proof (run_endPos doc startPos length initStyle startPos_nonneg
                s2 Hr2) as Hend.
  pose proof Hi as [_ _ _ _ _ _ Hch _ _ Hals].
  assert (currentPos (context s2) < endPos (context s2)) as Hlt by lia.
  specialize (Hch Hlt). specialize (Hals Hlt). rewrite Hcp in Hch, Hals.
  assert (Lex_cond s2 = true) as Hc2.
  { unfold Lex_cond, More. rewrite (proj2 (Z.ltb_lt _ _) Hlt), Hch.
    rewrite (proj2 (Z.eqb_neq _ _) Hnul). reflexivity. }
  destruct (SetState_fields doc st (context s2)) as (Sst & Scp & Sep & _).
  pose proof (Lex_forward_style doc startPos length initStyle startPos_nonneg
                length_nonneg span_in_doc s2 (SetState doc st (context s2)) out
                Hr2 Hc2 run (inv_SetState doc startPos _ _ Hi)) as H.
  rewrite Sst, Scp, Sep, Hcp in H. apply H; [lia|lia|].
  rewrite <- Hbe. apply turn_ESCAPED_back.
  - assumption.
  - rewrite Hals. apply is_line_start_inside.
    + destruct (Lex_reaches_cursor doc startPos length initStyle
                  startPos_nonneg length_nonneg span_in_doc s s_reached s_cond)
        as (_ & Hpos & _). fold p in Hpos. lia.
    + replace (p + 2 - 1) with (p + 1) by lia. assumption.
  - rewrite Hch. assumption.
  - rewrite Hbe. apply IsStringState_not_default, escape_string_state.
Qed.

End EscapeInString.

(** X10: an escape inside a quoted string: a backslash on which a turn of
    the loop begins in the String or the ValueName state, and the
    character after it, whatever it is, are styled Escaped, so an escaped
    quote does not close the string; when the escaped character does not
    end a line, the character that follows the pair, unless it is a NUL or
    a backslash again, is styled as the string. (A backslash that the
    cursor reaches in the middle of a turn begins no turn: see
    [escape_after_parameter].) *)
Theorem escape_in_string doc startPos length initStyle s out :
  0 <= startPos -> 0 <= length -> startPos + length <= Length doc ->
  Lex_reaches doc (Lex_init doc startPos length initStyle) s ->
  Lex_cond s = true ->
  Lex doc startPos length initStyle = Some out ->
  IsStringState (state (context (Lex_line_start doc s))) = true ->
  ch (context s) = BACKSLASH ->
  let p := currentPos (context s) in
  let st := state (context s) in
  p + 1 < startPos + length ->
  style_of startPos out p = Some SCE_REG_ESCAPED
  /\ style_of startPos out (p + 1) = Some SCE_REG_ESCAPED
  /\ (p + 2 < startPos + length ->
      at_line_end doc (p + 1) = false ->
      SafeGetCharAt doc (p + 2) NUL <> NUL ->
      SafeGetCharAt doc (p + 2) NUL <> BACKSLASH ->
      style_of startPos out (p + 2) = Some st).
Proof.
  intros Hs Hl Hd Hr Hc Hout Hst Hch p st Hin. split_and!.
  - apply (escape_styles doc startPos length initStyle Hs Hl Hd s out);
      try assumption. lia.
  - apply (escape_styles doc startPos length initStyle Hs Hl Hd s out);
      try assumption. fold p. lia.
  - apply (escape_after doc startPos length initStyle Hs Hl Hd s out);
      assumption.
Qed.

Lemma escape_in_string_witness :
  let out := [SCE_REG_STRING; SCE_REG_STRING; SCE_REG_ESCAPED; SCE_REG_ESCAPED;
              SCE_REG_STRING; SCE_REG_STRING] in
  let s := Lex_turns escaped_quote_doc 2
             (Lex_init escaped_quote_doc 0 6 SCE_REG_DEFAULT) in
  let p := currentPos (context s) in
  let st := state (context s) in
  style_of 0 out p = Some SCE_REG_ESCAPED
  /\ style_of 0 out (p + 1) = Some SCE_REG_ESCAPED
  /\ (p + 2 < 0 + 6 ->
      at_line_end escaped_quote_doc (p + 1) = false ->
      SafeGetCharAt escaped_quote_doc (p + 2) NUL <> NUL ->
      SafeGetCharAt escaped_quote_doc (p + 2) NUL <> BACKSLASH ->
      style_of 0 out (p + 2) = Some st).
Proof.
  apply (escape_in_string escaped_quote_doc 0 6 SCE_REG_DEFAULT).
  - lia.
  - lia.
  - vm_compute. congruence.
  - reach.
  - vm_compute. reflexivity.
  - vm_compute. reflexivity.
  - vm_compute. reflexivity.
  - vm_compute. reflexivity.
  - vm_compute. reflexivity.
Defined.

(** A backslash right after a parameter begins no turn: the Parameter case
    moves the cursor onto it and tests for a quote only, and the step at
    the end of the turn moves past it. In [parameter_escape_doc] it is
    styled String, and the quote after it closes the string. *)
Example escape_after_parameter :
  Lex parameter_escape_doc 0 7 SCE_REG_DEFAULT
  = Some [SCE_REG_STRING; SCE_REG_PARAMETER; SCE_REG_PARAMETER;
          SCE_REG_STRING; SCE_REG_STRING; SCE_REG_DEFAULT; SCE_REG_STRING].
Proof.
  vm_compute. reflexivity.
Qed.

(** ** Key paths *)

Section KeyPathScan.

Variable doc : list Z.

Lemma AtEndOfLine_inside q :
  at_line_end doc q = false -> SafeGetCharAt doc q NUL <> NUL ->
  AtEndOfLine doc q = false.
Proof.
  unfold at_line_end, AtEndOfLine. intros H Hq.
  apply orb_false_iff in H as [H H3]. apply orb_false_iff in H as [_ H2].
  rewrite (proj2 (Z.eqb_neq _ _) Hq), H2, H3. reflexivity.
Qed.

Lemma AtKeyPathEnd_loop_found fuel start e :
  start < e -> e - start <= Z.of_nat fuel ->
  SafeGetCharAt doc e NUL = RBRACKET ->
  (forall r, start < r <= e -> AtEndOfLine doc r = false) ->
  AtKeyPathEnd_loop doc fuel start = Some false.
Proof.
  revert start. induction fuel as [|fuel IH]; intros start He Hf Hch Heol;
    [lia|].
  cbn [AtKeyPathEnd_loop]. rewrite Heol by lia. cbv zeta.
  destruct (Z.eqb_spec (SafeGetCharAt doc (start + 1) NUL) RBRACKET);
    [reflexivity|].
  destruct (decide (start + 1 = e)) as [Heq|Hne]; [congruence|].
  apply IH; try assumption; try lia. intros r Hr. apply Heol. lia.
Qed.

(** A closing bracket with another one after it on the line is not the
    end of the key path. *)
Lemma AtKeyPathEnd_found start e :
  start < e ->
  SafeGetCharAt doc e NUL = RBRACKET ->
  (forall r, start < r <= e -> AtEndOfLine doc r = false) ->
  AtKeyPathEnd doc start = false.
Proof.
  intros He Hch Heol. unfold AtKeyPathEnd, scan_fuel.
  rewrite (AtKeyPathEnd_loop_found _ start e); try assumption; [reflexivity|].
  pose proof (AtEndOfLine_false_inside doc e (Heol e ltac:(lia))).
  pose proof (AtEndOfLine_false_inside doc (start + 1)
                (Heol (start + 1) ltac:(lia))).
  unfold Length in *. lia.
Qed.

End KeyPathScan.

Section KeyTurns.

Variable doc : list Z.

Lemma Lex_switch_KEY s :
  IsKeyPathState (state (context s)) = true ->
  Lex_switch doc s = case_KEY doc s.
Proof.
  unfold Lex_switch, IsKeyPathState.
  destruct (state (context s)); try discriminate; reflexivity.
Qed.

Lemma IsKeyPathState_not_default st :
  IsKeyPathState st = true -> st <> SCE_REG_DEFAULT.
Proof. intros H ->. discriminate. Qed.

(** A character of the key path that the key path case passes over. *)
Lemma turn_KEY_plain s :
  IsKeyPathState (state (context s)) = true ->
  atLineStart (context s) = false ->
  (ch (context s) = RBRACKET ->
   AtKeyPathEnd doc (currentPos (context s)) = false) ->
  (ch (context s) = LBRACE -> AtGUID doc (currentPos (context s)) = false) ->
  context (Lex_body doc s) = Forward doc (context s).
Proof.
  intros Hst Hals Hb Hg. rewrite Lex_body_eq.
  rewrite (Lex_line_start_skip doc s Hals), (Lex_switch_KEY s Hst).
  assert (case_KEY doc s = s) as ->.
  { unfold case_KEY. cbv zeta.
    destruct (Z.eqb_spec (ch (context s)) RBRACKET) as [E|E].
    - rewrite (Hb E). cbn [andb]. rewrite E.
      change (RBRACKET =? LBRACE) with false. reflexivity.
    - cbn [andb].
      destruct (Z.eqb_spec (ch (context s)) LBRACE) as [E'|E']; [|reflexivity].
      rewrite (Hg E'). reflexivity. }
  rewrite Lex_default_skip by (apply IsKeyPathState_not_default, Hst).
  apply turn_end_fields.
Qed.

(** The last closing bracket of the line: the turn styles it as the key
    path and goes on in the Default state. *)
Lemma turn_KEY_close s :
  IsKeyPathState (state (context s)) = true ->
  atLineStart (context s) = false ->
  ch (context s) = RBRACKET ->
  AtKeyPathEnd doc (currentPos (context s)) = true ->
  ext doc (Forward doc (context s)) (context (Lex_body doc s)).
Proof.
  intros Hst Hals Hq Hend. rewrite Lex_body_eq.
  rewrite (Lex_line_start_skip doc s Hals), (Lex_switch_KEY s Hst).
  pose proof (ext_closed doc (Forward doc (context s))) as Hcl.
  apply (closed_ContextForwardSetState _ _ Hcl), (closed_default _ _ Hcl).
  unfold case_KEY. cbv zeta. rewrite Hq, Hend.
  change (RBRACKET =? RBRACKET) with true. cbn [andb].
  unfold ContextForwardSetState. case_bool_decide; lex_simpl;
    unfold ForwardSetState; apply ext_SetState.
Qed.

End KeyTurns.

Section KeyPathRun.

Variable doc : list Z.
Variables (startPos length : Z) (initStyle : Style).
Hypothesis startPos_nonneg : 0 <= startPos.
Hypothesis length_nonneg : 0 <= length.
Hypothesis span_in_doc : startPos + length <= Length doc.

Abbreviation init := (Lex_init doc startPos length initStyle).

Variable s : LexState.
Variable out : list Style.
Hypothesis s_reached : Lex_reaches doc init s.
Hypothesis s_cond : Lex_cond s = true.
Hypothesis run : Lex doc startPos length initStyle = Some out.

Let s1 := Lex_switch doc (Lex_line_start doc s).
Hypothesis in_default : state (context s1) = SCE_REG_DEFAULT.
Hypothesis at_bracket : ch (context s1) = LBRACKET.

Let p := currentPos (context s1).
Let st :=
  if IsNextNonWhitespace doc p MINUS
  then SCE_REG_DELETEDKEY else SCE_REG_ADDEDKEY.

Variable e : Z.
Hypothesis line : forall q, p <= q < e -> at_line_end doc q = false.
Hypothesis bracket_pos : p < e < startPos + length.
Hypothesis no_nul : forall q, p < q < e -> SafeGetCharAt doc q NUL <> NUL.
Hypothesis no_guid :
  forall q, p < q < e -> SafeGetCharAt doc q NUL = LBRACE -> AtGUID doc q = false.
Hypothesis closing : SafeGetCharAt doc e NUL = RBRACKET.
Hypothesis last : AtKeyPathEnd doc e = true.

Lemma key_state : IsKeyPathState st = true.
Proof. subst st. destruct (IsNextNonWhitespace doc p MINUS); reflexivity. Qed.

Lemma key_p : startPos <= p.
Proof.
  destruct (classify_cursor doc startPos length initStyle startPos_nonneg
              length_nonneg span_in_doc s s_reached) as (_ & _ & _ & Hp).
  exact Hp.
Qed.

Lemma key_step s' :
  Lex_reaches doc init s' -> Lex_cond s' = true ->
  p + 1 <= currentPos (context s') < e ->
  state (context s') = st ->
  exists c,
    context (Lex_body doc s') = Forward doc c
    /\ state c = st
    /\ currentPos c = currentPos (context s')
    /\ endPos c = endPos (context s')
    /\ cursor_inv doc startPos c
    /\ state (context (Lex_body doc s')) = st.
Proof.
  intros Hr Hc Hq Hst. pose proof key_p as Hp.
  pose proof (run_inv doc startPos length initStyle startPos_nonneg
                length_nonneg span_in_doc s' Hr) as Hi.
  pose proof Hi as [_ _ _ _ _ _ Hch _ _ Hals].
  apply Lex_cond_true in Hc as [Hlt _].
  specialize (Hch Hlt). specialize (Hals Hlt).
  assert (context (Lex_body doc s') = Forward doc (context s')) as Hctx.
  { apply turn_KEY_plain.
    - rewrite Hst. apply key_state.
    - rewrite Hals. apply is_line_start_inside; [lia|apply line; lia].
    - intros _. apply (AtKeyPathEnd_found doc _ e); [lia|assumption|].
      intros r Hr'. destruct (decide (r = e)) as [->|Hne].
      + unfold AtEndOfLine. rewrite closing. reflexivity.
      + apply AtEndOfLine_inside; [apply line|apply no_nul]; lia.
    - rewrite Hch. apply no_guid. lia. }
  exists (context s'). split_and!; auto.
  rewrite Hctx. destruct (Forward_fields doc (context s') Hlt) as (-> & _).
  assumption.
Qed.

Lemma key_styles q :
  p <= q <= e -> style_of startPos out q = Some st.
Proof.
  intros Hq. pose proof key_p as Hp.
  pose proof (Lex_default_bracket doc s1 in_default at_bracket) as Hdef.
  fold p in Hdef. fold st in Hdef.
  destruct (entered_turn doc startPos length initStyle startPos_nonneg
              length_nonneg span_in_doc s out s_reached s_cond run st Hdef)
    as (Hr & Hcp & Hst & _ & _ & Hsty).
  { fold s1. fold p. lia. }
  { fold s1. rewrite at_bracket. discriminate. }
  fold s1 in Hcp, Hsty. fold p in Hcp, Hsty.
  destruct (decide (q = p)) as [->|Hne]; [assumption|].
  assert (forall q', p + 1 <= q' < e -> SafeGetCharAt doc q' NUL <> NUL) as Hnn
    by (intros; apply no_nul; lia).
  destruct (decide (q = e)) as [->|Hne'].
  - destruct (run_turns doc startPos length initStyle startPos_nonneg
                length_nonneg span_in_doc st (fun s' => state (context s') = st)
                (p + 1) e ltac:(lia) Hnn key_step (Lex_body doc s)
                Hr Hcp Hst (Z.to_nat (e - p - 1)) ltac:(lia))
      as (Hrk & Hcpk & Hstk).
    set (sk := Lex_turns doc (Z.to_nat (e - p - 1)) (Lex_body doc s)) in *.
    clearbody sk.
    replace (p + 1 + Z.of_nat (Z.to_nat (e - p - 1))) with e in Hcpk by lia.
    pose proof (run_inv doc startPos length initStyle startPos_nonneg
                  length_nonneg span_in_doc sk Hrk) as Hi.
    pose proof (run_endPos doc startPos length initStyle startPos_nonneg
                  sk Hrk) as Hend.
    pose proof Hi as [_ _ _ _ _ _ Hch _ _ Hals].
    assert (currentPos (context sk) < endPos (context sk)) as Hlt by lia.
    specialize (Hch Hlt). specialize (Hals Hlt). rewrite Hcpk in Hch, Hals.
    assert (Lex_cond sk = true) as Hc.
    { unfold Lex_cond, More. rewrite (proj2 (Z.ltb_lt _ _) Hlt), Hch, closing.
      reflexivity. }
    pose proof (Lex_forward_style doc startPos length initStyle startPos_nonneg
                  length_nonneg span_in_doc sk (context sk) out Hrk Hc run Hi Hlt)
      as H.
    rewrite Hstk, Hcpk in H. apply H; [lia|].
    apply turn_KEY_close.
    + rewrite Hstk. apply key_state.
    + rewrite Hals. apply is_line_start_inside; [lia|apply line; lia].
    + rewrite Hch. exact closing.
    + rewrite Hcpk. exact last.
  - apply (run_styles doc startPos length initStyle startPos_nonneg
             length_nonneg span_in_doc out run st
             (fun s' => state (context s') = st) (p + 1) e ltac:(lia) Hnn
             key_step (Lex_body doc s) Hr Hcp Hst). lia.
Qed.

End KeyPathRun.

(** X11: a key path runs from its opening bracket, met in the Default
    state, to the last closing bracket of the line: every character
    between them, closing brackets that are not the last with them, takes
    the style of the key path, DeletedKeyPath or AddedKeyPath as the
    opening bracket decides. *)
Theorem key_path_to_last_bracket doc startPos length initStyle s out e :
  0 <= startPos -> 0 <= length -> startPos + length <= Length doc ->
  Lex_reaches doc (Lex_init doc startPos length initStyle) s ->
  Lex_cond s = true ->
  Lex doc startPos length initStyle = Some out ->
  let s1 := Lex_switch doc (Lex_line_start doc s) in
  let p := currentPos (context s1) in
  state (context s1) = SCE_REG_DEFAULT ->
  ch (context s1) = LBRACKET ->
  (forall q, p <= q < e -> at_line_end doc q = false) ->
  p < e < startPos + length ->
  (forall q, p < q < e -> SafeGetCharAt doc q NUL <> NUL) ->
  (forall q, p < q < e ->
             SafeGetCharAt doc q NUL = LBRACE -> AtGUID doc q = false) ->
  SafeGetCharAt doc e NUL = RBRACKET ->
  AtKeyPathEnd doc e = true ->
  forall q, p <= q <= e ->
    style_of startPos out q
    = Some (if IsNextNonWhitespace doc p MINUS
            then SCE_REG_DELETEDKEY else SCE_REG_ADDEDKEY).
Proof.
  intros Hs Hl Hd Hr Hc Hout s1 p Hst Hch H1 H2 H3 H4 H5 H6.
  apply (key_styles doc startPos length initStyle Hs Hl Hd s out Hr Hc
           Hout Hst Hch e); assumption.
Qed.

Lemma key_path_to_last_bracket_witness :
  style_of 0 (replicate 5 SCE_REG_ADDEDKEY) 2
  = Some (if IsNextNonWhitespace nested_key_doc 0 MINUS
          then SCE_REG_DELETEDKEY else SCE_REG_ADDEDKEY).
Proof.
  assert (currentPos
            (context (Lex_switch nested_key_doc
                        (Lex_line_start nested_key_doc
                           (Lex_init nested_key_doc 0 5 SCE_REG_DEFAULT)))) = 0)
    as Hp by (vm_compute; reflexivity).
  rewrite <- Hp at 2.
  apply (key_path_to_last_bracket nested_key_doc 0 5 SCE_REG_DEFAULT
           (Lex_init nested_key_doc 0 5 SCE_REG_DEFAULT) _ 4).
  - lia.
  - lia.
  - vm_compute. congruence.
  - apply reaches_first.
  - vm_compute. reflexivity.
  - vm_compute. reflexivity.
  - vm_compute. reflexivity.
  - vm_compute. reflexivity.
  - rewrite Hp. intros q Hq. by_cases q [0; 1; 2; 3].
  - rewrite Hp. lia.
  - rewrite Hp. intros q Hq. by_cases q [1; 2; 3].
  - rewrite Hp. intros q Hq. by_cases q [1; 2; 3].
  - vm_compute. reflexivity.
  - vm_compute. reflexivity.
  - rewrite Hp. lia.
Defined.

(** ** A GUID inside a key path *)

Section KeyGuidTurns.

Variable doc : list Z.

(** The opening brace of a GUID inside a key path. *)
Lemma turn_KEYGUID_open s :
  let s0 := Lex_line_start doc s in
  IsKeyPathState (state (context s0)) = true ->
  ch (context s0) = LBRACE ->
  AtGUID doc (currentPos (context s0)) = true ->
  context (Lex_body doc s)
  = Forward doc (SetState doc SCE_REG_KEYPATH_GUID (context s0))
  /\ beforeGUID (Lex_body doc s) = state (context s0).
Proof.
  intros s0 Hst Hch Hguid. rewrite Lex_body_eq. fold s0. clearbody s0.
  rewrite (Lex_switch_KEY doc s0 Hst).
  assert (case_KEY doc s0
          = set_context (SetState doc SCE_REG_KEYPATH_GUID)
              (set_beforeGUID (state (context s0)) s0)) as ->.
  { unfold case_KEY. rewrite Hch, Hguid. cbv zeta.
    change (LBRACE =? RBRACKET) with false.
    change (LBRACE =? LBRACE) with true. reflexivity. }
  rewrite Lex_default_skip
    by (lex_simpl; destruct (SetState_fields doc SCE_REG_KEYPATH_GUID (context s0))
          as (-> & _); discriminate).
  destruct (turn_end_fields doc
              (set_context (SetState doc SCE_REG_KEYPATH_GUID)
                 (set_beforeGUID (state (context s0)) s0))) as (-> & -> & _).
  auto.
Qed.

(** A character inside the GUID. *)
Lemma turn_KEYGUID_inner s :
  state (context s) = SCE_REG_KEYPATH_GUID ->
  atLineStart (context s) = false ->
  ch (context s) <> RBRACE ->
  context (Lex_body doc s) = Forward doc (context s)
  /\ beforeGUID (Lex_body doc s) = beforeGUID s.
Proof.
  intros Hst Hals Hch. rewrite Lex_body_eq.
  rewrite (Lex_line_start_skip doc s Hals).
  assert (Lex_switch doc s = s) as ->.
  { unfold Lex_switch. rewrite Hst. unfold case_GUID, case_GUID_close.
    rewrite (proj2 (Z.eqb_neq _ _) Hch). unfold case_GUID_next. rewrite Hst.
    cbn [IsStringState IsKeyPathState bool_decide decide_rel orb].
    rewrite !andb_false_r. reflexivity. }
  rewrite Lex_default_skip by (rewrite Hst; discriminate).
  destruct (turn_end_fields doc s) as (-> & -> & _). auto.
Qed.

(** The closing brace of the GUID, and the character after it. *)
Lemma turn_KEYGUID_close s :
  state (context s) = SCE_REG_KEYPATH_GUID ->
  atLineStart (context s) = false ->
  ch (context s) = RBRACE ->
  IsKeyPathState (beforeGUID s) = true ->
  let c := SetState doc (beforeGUID s) (Forward doc (context s)) in
  ext doc (Forward doc (context s)) (context (Lex_body doc s))
  /\ ext doc (Forward doc c) (context (Lex_body doc s)).
Proof.
  intros Hst Hals Hch Hkey c. rewrite Lex_body_eq.
  rewrite (Lex_line_start_skip doc s Hals).
  unfold Lex_switch. rewrite Hst. unfold case_GUID.
  set (y := case_GUID_close doc s).
  assert (context y = c /\ beforeGUID y = SCE_REG_DEFAULT) as [Hy Hby].
  { subst y c. unfold case_GUID_close. rewrite Hch.
    change (RBRACE =? RBRACE) with true. cbv iota.
    unfold ContextForwardSetState. case_bool_decide; auto. }
  assert (state (context y) = beforeGUID s) as Hsty.
  { rewrite Hy. subst c.
    destruct (SetState_fields doc (beforeGUID s) (Forward doc (context s)))
      as (-> & _). reflexivity. }
  clearbody y. split.
  - pose proof (ext_closed doc (Forward doc (context s))) as Hcl.
    apply (closed_ContextForwardSetState _ _ Hcl), (closed_default _ _ Hcl),
      (closed_case_GUID_next _ _ Hcl).
    rewrite Hy. subst c. apply ext_SetState.
  - rewrite <- Hy.
    assert (IsStringState (state (context y)) = false) as Hss.
    { rewrite Hsty. unfold IsKeyPathState, IsStringState in *.
      destruct (beforeGUID s); try discriminate; reflexivity. }
    unfold case_GUID_next. rewrite Hss, Hsty, Hkey, Hby, !andb_false_r.
    rewrite andb_true_r. cbv zeta.
    destruct (ch (context y) =? RBRACKET).
    + pose proof (ext_closed doc (Forward doc (context y))) as Hcl.
      assert (ext doc (Forward doc (context y))
                (context (ContextForwardSetState doc (Some SCE_REG_DEFAULT) y)))
        as He.
      { unfold ContextForwardSetState. case_bool_decide; lex_simpl;
          unfold ForwardSetState; apply ext_SetState. }
      destruct (AtKeyPathEnd doc (currentPos (context y)));
        apply (closed_ContextForwardSetState _ _ Hcl), (closed_default _ _ Hcl),
          He.
    + rewrite Lex_default_skip
        by (rewrite Hsty; apply IsKeyPathState_not_default, Hkey).
      destruct (turn_end_fields doc y) as (-> & _). apply ext_refl.
Qed.

End KeyGuidTurns.

Section GuidInKeyPath.

Variable doc : list Z.
Variables (startPos length : Z) (initStyle : Style).
Hypothesis startPos_nonneg : 0 <= startPos.
Hypothesis length_nonneg : 0 <= length.
Hypothesis span_in_doc : startPos + length <= Length doc.

Abbreviation init := (Lex_init doc startPos length initStyle).

Variable s : LexState.
Variable out : list Style.
Hypothesis s_reached : Lex_reaches doc init s.
Hypothesis s_cond : Lex_cond s = true.
Hypothesis run : Lex doc startPos length initStyle = Some out.
Hypothesis in_key :
  IsKeyPathState (state (context (Lex_line_start doc s))) = true.
Hypothesis at_brace : ch (context s) = LBRACE.
Hypothesis guid : AtGUID doc (currentPos (context s)) = true.
Hypothesis guid_in_span : currentPos (context s) + 38 <= startPos + length.

Let p := currentPos (context s).
Let st := state (context s).

Lemma keyguid_line_start : context (Lex_line_start doc s) = context s.
Proof.
  destruct (Lex_line_start_fields doc s) as (_ & _ & _ & [(H & _)|(H & _)]);
    [exact H|].
  exfalso. revert in_key. rewrite H.
  destruct (SetState_fields doc SCE_REG_DEFAULT (context s)) as (-> & _).
  discriminate.
Qed.

Lemma keyguid_key_state : IsKeyPathState st = true.
Proof. subst st. rewrite <- keyguid_line_start. exact in_key. Qed.

Lemma keyguid_cursor :
  cursor_inv doc startPos (context s)
  /\ startPos <= p < Length doc
  /\ SafeGetCharAt doc p NUL = LBRACE
  /\ pending_end doc (context s) = p.
Proof.
  destruct (Lex_reaches_cursor doc startPos length initStyle startPos_nonneg
              length_nonneg span_in_doc s s_reached s_cond)
    as (Hi & Hpos & Hch & _ & Hpe).
  split_and!; [exact Hi|exact (proj1 Hpos)|exact (proj2 Hpos)| |exact Hpe].
  subst p. congruence.
Qed.

Lemma keyguid_chars k :
  1 <= k <= 36 -> hex_or_hyphen (SafeGetCharAt doc (p + k) NUL) = true.
Proof.
  intros Hk. destruct (AtGUID_true doc _ guid) as [H _].
  specialize (H k Hk). fold p in H.
  rewrite (SafeGetCharAt_default doc (p + k) SPACE NUL); [assumption|].
  apply hex_or_hyphen_char in H. tauto.
Qed.

Lemma keyguid_close_char : SafeGetCharAt doc (p + 37) NUL = RBRACE.
Proof.
  destruct (AtGUID_true doc _ guid) as [_ H]. fold p in H.
  rewrite (SafeGetCharAt_default doc (p + 37) SPACE NUL); [assumption|].
  rewrite H. discriminate.
Qed.

Lemma keyguid_not_line_start q :
  p < q <= p + 37 -> is_line_start doc q = false.
Proof.
  intros Hq. destruct keyguid_cursor as (_ & Hp & Hopen & _).
  apply is_line_start_inside; [lia|].
  assert (p + 37 < Length doc) as Hlen.
  { pose proof keyguid_close_char as H.
    assert (SafeGetCharAt doc (p + 37) NUL <> NUL) as H'
      by (rewrite H; discriminate).
    apply SafeGetCharAt_not_default in H'. lia. }
  destruct (decide (q = p + 1)) as [->|Hne].
  - replace (p + 1 - 1) with p by lia.
    apply at_line_end_false; [lia|rewrite Hopen; discriminate..].
  - pose proof (keyguid_chars (q - 1 - p) ltac:(lia)) as H.
    replace (p + (q - 1 - p)) with (q - 1) in H by lia.
    apply hex_or_hyphen_char in H.
    apply at_line_end_false; [lia|tauto..].
Qed.

Lemma keyguid_first_turn :
  Lex_reaches doc init (Lex_body doc s)
  /\ currentPos (context (Lex_body doc s)) = p + 1
  /\ state (context (Lex_body doc s)) = SCE_REG_KEYPATH_GUID
  /\ beforeGUID (Lex_body doc s) = st
  /\ style_of startPos out p = Some SCE_REG_KEYPATH_GUID.
Proof.
  destruct keyguid_cursor as (Hi & Hp & _ & Hpe).
  destruct (turn_KEYGUID_open doc s) as [Hctx Hbg]; [assumption| | |].
  { rewrite keyguid_line_start. assumption. }
  { rewrite keyguid_line_start. assumption. }
  rewrite keyguid_line_start in Hctx, Hbg.
  destruct (SetState_fields doc SCE_REG_KEYPATH_GUID (context s))
    as (Hst & Hcp & Hep & _).
  destruct (Forward_fields doc (SetState doc SCE_REG_KEYPATH_GUID (context s)))
    as (Fst & Fcp & _).
  { rewrite Hcp, Hep. apply Lex_cond_true in s_cond. tauto. }
  split; [apply reaches_next; assumption|].
  rewrite Hctx, Hbg, Fst, Fcp, Hst, Hcp. split_and!; auto.
  pose proof (Lex_forward_style doc startPos length initStyle
                startPos_nonneg length_nonneg span_in_doc s
                (SetState doc SCE_REG_KEYPATH_GUID (context s)) out
                s_reached s_cond run) as H.
  rewrite Hst, Hcp, Hep in H. apply H.
  - apply inv_SetState. exact Hi.
  - apply Lex_cond_true in s_cond. tauto.
  - fold p. lia.
  - rewrite Hctx. apply ext_refl.
Qed.

Lemma keyguid_step s' :
  Lex_reaches doc init s' -> Lex_cond s' = true ->
  p + 1 <= currentPos (context s') < p + 37 ->
  state (context s') = SCE_REG_KEYPATH_GUID /\ beforeGUID s' = st ->
  exists c,
    context (Lex_body doc s') = Forward doc c
    /\ state c = SCE_REG_KEYPATH_GUID
    /\ currentPos c = currentPos (context s')
    /\ endPos c = endPos (context s')
    /\ cursor_inv doc startPos c
    /\ (state (context (Lex_body doc s')) = SCE_REG_KEYPATH_GUID
        /\ beforeGUID (Lex_body doc s') = st).
Proof.
  intros Hr Hc Hq [Hst Hbg].
  pose proof (run_inv doc startPos length initStyle startPos_nonneg
                length_nonneg span_in_doc s' Hr) as Hi.
  pose proof Hi as [_ _ _ _ _ _ Hch _ _ Hals].
  apply Lex_cond_true in Hc as [Hlt _].
  specialize (Hch Hlt). specialize (Hals Hlt).
  destruct (turn_KEYGUID_inner doc s' Hst) as [Hctx Hbg'].
  - rewrite Hals. apply keyguid_not_line_start. lia.
  - rewrite Hch.
    pose proof (keyguid_chars (currentPos (context s') - p) ltac:(lia)) as H.
    replace (p + (currentPos (context s') - p))
      with (currentPos (context s')) in H by lia.
    apply hex_or_hyphen_char in H. tauto.
  - exists (context s'). split_and!; auto; [|congruence].
    rewrite Hctx. destruct (Forward_fields doc (context s') Hlt) as (-> & _).
    assumption.
Qed.

Lemma keyguid_no_nul q :
  p + 1 <= q < p + 37 -> SafeGetCharAt doc q NUL <> NUL.
Proof.
  intros Hq. pose proof (keyguid_chars (q - p) ltac:(lia)) as H.
  replace (p + (q - p)) with q in H by lia.
  apply hex_or_hyphen_char in H. tauto.
Qed.

(** The turn on the closing brace. *)
Lemma keyguid_last_turn :
  exists sk,
    Lex_reaches doc init sk /\ Lex_cond sk = true
    /\ currentPos (context sk) = p + 37
    /\ currentPos (context sk) < endPos (context sk)
    /\ cursor_inv doc startPos (context sk)
    /\ state (context sk) = SCE_REG_KEYPATH_GUID
    /\ beforeGUID sk = st
    /\ atLineStart (context sk) = false
    /\ ch (context sk) = RBRACE.
Proof.
  destruct keyguid_first_turn as (Hr & Hcp & Hst & Hbg & _).
  destruct (run_turns doc startPos length initStyle startPos_nonneg
              length_nonneg span_in_doc SCE_REG_KEYPATH_GUID
              (fun s' => state (context s') = SCE_REG_KEYPATH_GUID
                         /\ beforeGUID s' = st)
              (p + 1) (p + 37) ltac:(fold p in guid_in_span; lia)
              keyguid_no_nul keyguid_step (Lex_body doc s)
              Hr Hcp (conj Hst Hbg) 36 ltac:(lia))
    as (Hrk & Hcpk & Hstk & Hbgk).
  exists (Lex_turns doc 36 (Lex_body doc s)).
  set (sk := Lex_turns doc 36 (Lex_body doc s)) in *. clearbody sk.
  replace (p + 1 + Z.of_nat 36) with (p + 37) in Hcpk by lia.
  pose proof (run_inv doc startPos length initStyle startPos_nonneg
                length_nonneg span_in_doc sk Hrk) as Hi.
  pose proof (run_endPos doc startPos length initStyle startPos_nonneg
                sk Hrk) as Hend.
  pose proof Hi as [_ _ _ _ _ _ Hch _ _ Hals].
  assert (currentPos (context sk) < endPos (context sk)) as Hlt
    by (fold p in guid_in_span; lia).
  specialize (Hch Hlt). specialize (Hals Hlt). rewrite Hcpk in Hch, Hals.
  rewrite keyguid_close_char in Hch.
  split_and!; auto.
  - unfold Lex_cond, More. rewrite (proj2 (Z.ltb_lt _ _) Hlt), Hch.
    reflexivity.
  - rewrite Hals. apply keyguid_not_line_start. lia.
Qed.

(** From its opening brace to its closing brace, the GUID is styled as
    a GUID of a key path. *)
Lemma keyguid_styles q :
  p <= q < p + 38 -> style_of startPos out q = Some SCE_REG_KEYPATH_GUID.
Proof.
  intros Hq. destruct keyguid_first_turn as (Hr & Hcp & Hst & Hbg & Hsty).
  destruct (decide (q = p)) as [->|Hne]; [assumption|].
  destruct (decide (q = p + 37)) as [->|Hne'].
  - destruct keyguid_last_turn
      as (sk & Hrk & Hck & Hcpk & Hlt & Hi & Hstk & Hbgk & Hals & Hch).
    pose proof (Lex_forward_style doc startPos length initStyle startPos_nonneg
                  length_nonneg span_in_doc sk (context sk) out Hrk Hck run Hi
                  Hlt) as H.
    rewrite Hstk, Hcpk in H. apply H.
    + fold p in guid_in_span. lia.
    + apply turn_KEYGUID_close; try assumption.
      rewrite Hbgk. apply keyguid_key_state.
  - apply (run_styles doc startPos length initStyle startPos_nonneg
             length_nonneg span_in_doc out run SCE_REG_KEYPATH_GUID
             (fun s' => state (context s') = SCE_REG_KEYPATH_GUID
                        /\ beforeGUID s' = st)
             (p + 1) (p + 37) ltac:(fold p in guid_in_span; lia)
             keyguid_no_nul keyguid_step (Lex_body doc s)
             Hr Hcp (conj Hst Hbg)). lia.
Qed.

(** The character before the GUID keeps the style of the key path. *)
Lemma keyguid_before :
  startPos < p -> style_of startPos out (p - 1) = Some st.
Proof.
  intros Hlt. destruct keyguid_cursor as (Hi & Hp & _ & Hpe).
  apply (Lex_reaches_style_of doc startPos length initStyle startPos_nonneg
           length_nonneg span_in_doc s out (p - 1) s_reached run).
  rewrite Hpe.
  destruct (Lex_reaches_pending doc startPos startPos_nonneg _ _
              (inv_init doc startPos length initStyle length_nonneg span_in_doc)
              s_reached s_cond) as [Heq|[_ Hseg]].
  - exfalso. subst p. rewrite Heq in Hlt.
    unfold Lex_init, StyleContext_new in Hlt. lex_simpl. simpl in Hlt. lia.
  - fold p in Hseg. lia.
Qed.

(** The character after the GUID takes the style of the key path again. *)
Lemma keyguid_after :
  p + 38 < startPos + length ->
  style_of startPos out (p + 38) = Some st.
Proof.
  intros Hin.
  destruct keyguid_last_turn
    as (sk & Hrk & Hck & Hcpk & Hlt & Hi & Hstk & Hbgk & Hals & Hch).
  pose proof (run_endPos doc startPos length initStyle startPos_nonneg
                sk Hrk) as Hend.
  destruct (Forward_fields doc (context sk) Hlt) as (_ & Fcp & Fep & _).
  set (c := SetState doc (beforeGUID sk) (Forward doc (context sk))).
  destruct (SetState_fields doc (beforeGUID sk) (Forward doc (context sk)))
    as (Sst & Scp & Sep & _). fold c in Sst, Scp, Sep.
  rewrite Fcp, Hcpk in Scp. rewrite Fep in Sep. rewrite Hbgk in Sst.
  pose proof (Lex_forward_style doc startPos length initStyle startPos_nonneg
                length_nonneg span_in_doc sk c out Hrk Hck run) as H.
  rewrite Sst, Scp, Sep in H.
  replace (p + 37 + 1) with (p + 38) in H by lia. apply H.
  - subst c. apply inv_SetState. apply inv_Forward; assumption.
  - lia.
  - lia.
  - apply turn_KEYGUID_close; try assumption.
    rewrite Hbgk. apply keyguid_key_state.
Qed.

End GuidInKeyPath.

(** X12: a GUID literal (as [AtGUID] accepts it) on whose opening brace a
    turn of the loop begins in the AddedKeyPath or the DeletedKeyPath
    state is styled KeyPathGuid from its opening brace to its closing
    brace, and exactly so: the character before the brace and the
    character after the closing brace take the style of the key path. (A
    GUID right after another GUID begins no turn: see
    [key_path_second_guid].) *)
Theorem guid_in_key_path doc startPos length initStyle s out :
  0 <= startPos -> 0 <= length -> startPos + length <= Length doc ->
  Lex_reaches doc (Lex_init doc startPos length initStyle) s ->
  Lex_cond s = true ->
  Lex doc startPos length initStyle = Some out ->
  IsKeyPathState (state (context (Lex_line_start doc s))) = true ->
  ch (context s) = LBRACE ->
  AtGUID doc (currentPos (context s)) = true ->
  currentPos (context s) + 38 <= startPos + length ->
  let p := currentPos (context s) in
  let st := state (context s) in
  (forall q, p <= q < p + 38 ->
             style_of startPos out q = Some SCE_REG_KEYPATH_GUID)
  /\ (startPos < p -> style_of startPos out (p - 1) = Some st)
  /\ (p + 38 < startPos + length -> style_of startPos out (p + 38) = Some st).
Proof.
  intros Hs Hl Hd Hr Hc Hout Hst Hch Hguid Hspan p st. split_and!.
  - apply (keyguid_styles doc startPos length initStyle); assumption.
  - apply (keyguid_before doc startPos length initStyle); assumption.
  - apply (keyguid_after doc startPos length initStyle); assumption.
Qed.

Lemma guid_in_key_path_witness :
  let s := Lex_body guid_key_doc
             (Lex_init guid_key_doc 0 40 SCE_REG_DEFAULT) in
  let out := [SCE_REG_ADDEDKEY] ++ replicate 38 SCE_REG_KEYPATH_GUID
             ++ [SCE_REG_ADDEDKEY] in
  let p := currentPos (context s) in
  let st := state (context s) in
  (forall q, p <= q < p + 38 -> style_of 0 out q = Some SCE_REG_KEYPATH_GUID)
  /\ (0 < p -> style_of 0 out (p - 1) = Some st)
  /\ (p + 38 < 0 + 40 -> style_of 0 out (p + 38) = Some st).
Proof.
  apply (guid_in_key_path guid_key_doc 0 40 SCE_REG_DEFAULT).
  - lia.
  - lia.
  - vm_compute. congruence.
  - reach.
  - vm_compute. reflexivity.
  - vm_compute. reflexivity.
  - vm_compute. reflexivity.
  - vm_compute. reflexivity.
  - vm_compute. reflexivity.
  - vm_compute. congruence.
Defined.

(** A GUID right after another GUID begins no turn: the turn on the
    closing brace of the first moves the cursor onto its opening brace and
    tests for a quote, a bracket and a backslash only, and the step at the
    end of the turn moves past it. In [two_guids_key_doc] the shape check
    holds at the second brace, and the second literal is styled as the key
    path. *)
Example key_path_second_guid :
  AtGUID two_guids_key_doc 39 = true
  /\ Lex two_guids_key_doc 0 78 SCE_REG_DEFAULT
     = Some ([SCE_REG_ADDEDKEY] ++ replicate 38 SCE_REG_KEYPATH_GUID
             ++ replicate 38 SCE_REG_ADDEDKEY ++ [SCE_REG_ADDEDKEY]).
Proof.
  vm_compute. split; reflexivity.
Qed.

(** ** Parameters *)

Lemma parameter_char c :
  isdigit c || (c =? STAR) = true ->
  c <> NUL /\ c <> LF /\ c <> CR.
Proof.
  unfold isdigit, STAR, NUL, LF, CR. intros H.
  apply orb_true_iff in H as [H|H].
  - apply andb_true_iff in H as [H1 H2]. apply Z.leb_le in H1, H2. lia.
  - apply Z.eqb_eq in H. lia.
Qed.

Section ParameterTurns.

Variable doc : list Z.

(** The percent sign of a parameter inside a string. *)
Lemma turn_STRING_parameter s :
  state (context s) = SCE_REG_STRING ->
  ch (context s) = PERCENT ->
  isdigit (chNext (context s)) || (chNext (context s) =? STAR) = true ->
  Lex_switch doc s = set_context (SetState doc SCE_REG_PARAMETER) s.
Proof.
  intros Hst Hch Hnx. unfold Lex_switch. rewrite Hst.
  unfold case_STRING. cbv zeta. rewrite Hch.
  change (PERCENT =? DQUOTE) with false.
  change (PERCENT =? BACKSLASH) with false.
  change (PERCENT =? LBRACE) with false. cbv iota.
  rewrite Hch, Hst, Hnx.
  change (PERCENT =? PERCENT) with true.
  rewrite bool_decide_eq_true_2 by reflexivity. reflexivity.
Qed.

(** The turn in the Parameter state: the String state again, after the
    character of the parameter. *)
Lemma turn_PARAMETER s :
  state (context s) = SCE_REG_PARAMETER ->
  atLineStart (context s) = false ->
  let c := SetState doc SCE_REG_STRING (Forward doc (context s)) in
  ext doc (Forward doc (context s)) (context (Lex_body doc s))
  /\ ext doc (Forward doc c) (context (Lex_body doc s)).
Proof.
  intros Hst Hals c. rewrite Lex_body_eq.
  rewrite (Lex_line_start_skip doc s Hals).
  unfold Lex_switch. rewrite Hst. unfold case_PARAMETER. cbv zeta.
  set (x := ContextForwardSetState doc (Some SCE_REG_STRING) s).
  assert (context x = c) as Hx.
  { subst x c. unfold ContextForwardSetState. case_bool_decide; reflexivity. }
  assert (state (context x) = SCE_REG_STRING) as Hsx.
  { rewrite Hx. subst c.
    destruct (SetState_fields doc SCE_REG_STRING (Forward doc (context s)))
      as (-> & _). reflexivity. }
  clearbody x. split.
  - pose proof (ext_closed doc (Forward doc (context s))) as Hcl.
    apply (closed_ContextForwardSetState _ _ Hcl), (closed_default _ _ Hcl).
    assert (ext doc (Forward doc (context s)) (context x)) as He
      by (rewrite Hx; subst c; apply ext_SetState).
    destruct (ch (context x) =? DQUOTE); [|exact He].
    apply (closed_ContextForwardSetState _ _ Hcl), He.
  - rewrite <- Hx. destruct (ch (context x) =? DQUOTE).
    + pose proof (ext_closed doc (Forward doc (context x))) as Hcl.
      apply (closed_ContextForwardSetState _ _ Hcl), (closed_default _ _ Hcl).
      unfold ContextForwardSetState. case_bool_decide; lex_simpl;
        unfold ForwardSetState; apply ext_SetState.
    + rewrite Lex_default_skip by (rewrite Hsx; discriminate).
      destruct (turn_end_fields doc x) as (-> & _). apply ext_refl.
Qed.

End ParameterTurns.

Section ParameterInString.

Variable doc : list Z.
Variables (startPos length : Z) (initStyle : Style).
Hypothesis startPos_nonneg : 0 <= startPos.
Hypothesis length_nonneg : 0 <= length.
Hypothesis span_in_doc : startPos + length <= Length doc.

Abbreviation init := (Lex_init doc startPos length initStyle).

Variable s : LexState.
Variable out : list Style.
Hypothesis s_reached : Lex_reaches doc init s.
Hypothesis s_cond : Lex_cond s = true.
Hypothesis run : Lex doc startPos length initStyle = Some out.
Hypothesis in_string :
  state (context (Lex_line_start doc s)) = SCE_REG_STRING.
Hypothesis at_percent : ch (context s) = PERCENT.
Hypothesis digit_next :
  isdigit (chNext (context s)) || (chNext (context s) =? STAR) = true.

Let p := currentPos (context s).

Lemma parameter_line_start : Lex_line_start doc s = s \/
  context (Lex_line_start doc s) = context s.
Proof.
  right.
  destruct (Lex_line_start_fields doc s) as (_ & _ & _ & [(H & _)|(H & _)]);
    [exact H|].
  exfalso. revert in_string. rewrite H.
  destruct (SetState_fields doc SCE_REG_DEFAULT (context s)) as (-> & _).
  discriminate.
Qed.

Lemma parameter_context : context (Lex_line_start doc s) = context s.
Proof. destruct parameter_line_start as [-> | H]; [reflexivity|exact H]. Qed.

Lemma parameter_cursor :
  cursor_inv doc startPos (context s)
  /\ startPos <= p < Length doc
  /\ currentPos (context s) < endPos (context s)
  /\ chNext (context s) = SafeGetCharAt doc (p + 1) NUL.
Proof.
  destruct (Lex_reaches_cursor doc startPos length initStyle startPos_nonneg
              length_nonneg span_in_doc s s_reached s_cond)
    as (Hi & Hpos & _).
  pose proof Hi as [_ _ _ _ _ _ _ Hnx _ _].
  apply Lex_cond_true in s_cond as [Hlt _].
  split_and!; [exact Hi|exact (proj1 Hpos)|exact (proj2 Hpos)|exact Hlt|].
  apply Hnx, Hlt.
Qed.

Lemma parameter_first_turn :
  context (Lex_body doc s)
  = Forward doc (SetState doc SCE_REG_PARAMETER (context s)).
Proof.
  rewrite Lex_body_eq.
  rewrite (turn_STRING_parameter doc (Lex_line_start doc s))
    by first [assumption | rewrite parameter_context; assumption].
  rewrite Lex_default_skip.
  - destruct (turn_end_fields doc
                (set_context (SetState doc SCE_REG_PARAMETER)
                   (Lex_line_start doc s))) as (-> & _).
    lex_simpl. rewrite parameter_context. reflexivity.
  - lex_simpl.
    destruct (SetState_fields doc SCE_REG_PARAMETER
                (context (Lex_line_start doc s))) as (-> & _).
    discriminate.
Qed.

Lemma parameter_percent :
  style_of startPos out p = Some SCE_REG_PARAMETER.
Proof.
  destruct parameter_cursor as (Hi & Hp & Hlt & _).
  destruct (SetState_fields doc SCE_REG_PARAMETER (context s))
    as (Hst & Hcp & Hep & _).
  pose proof (Lex_forward_style doc startPos length initStyle
                startPos_nonneg length_nonneg span_in_doc s
                (SetState doc SCE_REG_PARAMETER (context s)) out
                s_reached s_cond run) as H.
  rewrite Hst, Hcp, Hep in H. apply H.
  - apply inv_SetState. exact Hi.
  - exact Hlt.
  - fold p. lia.
  - rewrite parameter_first_turn. apply ext_refl.
Qed.

(** The turn on the character of the parameter. *)
Lemma parameter_second_turn :
  p + 1 < startPos + length ->
  let sk := Lex_body doc s in
  Lex_reaches doc init sk /\ Lex_cond sk = true
  /\ currentPos (context sk) = p + 1
  /\ currentPos (context sk) < endPos (context sk)
  /\ cursor_inv doc startPos (context sk)
  /\ state (context sk) = SCE_REG_PARAMETER
  /\ atLineStart (context sk) = false.
Proof.
  intros Hin sk. destruct parameter_cursor as (Hi & Hp & Hlt & Hnx).
  assert (Lex_reaches doc init sk) as Hr by (apply reaches_next; assumption).
  pose proof (run_inv doc startPos length initStyle startPos_nonneg
                length_nonneg span_in_doc sk Hr) as Hik.
  pose proof (run_endPos doc startPos length initStyle startPos_nonneg
                sk Hr) as Hend.
  destruct (SetState_fields doc SCE_REG_PARAMETER (context s))
    as (Hst & Hcp & Hep & _).
  destruct (Forward_fields doc (SetState doc SCE_REG_PARAMETER (context s)))
    as (Fst & Fcp & _); [lia|].
  assert (currentPos (context sk) = p + 1) as Hcpk
    by (subst sk; rewrite parameter_first_turn, Fcp, Hcp; reflexivity).
  assert (state (context sk) = SCE_REG_PARAMETER) as Hstk
    by (subst sk; rewrite parameter_first_turn, Fst, Hst; reflexivity).
  clearbody sk.
  pose proof Hik as [_ _ _ _ _ _ Hch _ _ Hals].
  assert (currentPos (context sk) < endPos (context sk)) as Hltk by lia.
  specialize (Hch Hltk). specialize (Hals Hltk). rewrite Hcpk in Hch, Hals.
  pose proof digit_next as Hd. rewrite Hnx in Hd.
  apply parameter_char in Hd as (Hnul & _).
  split_and!; auto.
  - unfold Lex_cond, More. rewrite (proj2 (Z.ltb_lt _ _) Hltk), Hch.
    rewrite (proj2 (Z.eqb_neq _ _) Hnul). reflexivity.
  - rewrite Hals. apply is_line_start_inside; [lia|].
    replace (p + 1 - 1) with p by lia.
    destruct (Lex_reaches_cursor doc startPos length initStyle startPos_nonneg
                length_nonneg span_in_doc s s_reached s_cond)
      as (_ & _ & Hc & _).
    fold p in Hc.
    apply at_line_end_false; [lia|rewrite <- Hc, at_percent; discriminate..].
Qed.

Lemma parameter_character :
  p + 1 < startPos + length ->
  style_of startPos out (p + 1) = Some SCE_REG_PARAMETER.
Proof.
  intros Hin.
  destruct (parameter_second_turn Hin)
    as (Hr & Hc & Hcp & Hlt & Hi & Hst & Hals).
  set (sk := Lex_body doc s) in *. clearbody sk.
  pose proof (Lex_forward_style doc startPos length initStyle startPos_nonneg
                length_nonneg span_in_doc sk (context sk) out Hr Hc run Hi Hlt)
    as H.
  rewrite Hst, Hcp in H. apply H; [lia|].
  apply turn_PARAMETER; assumption.
Qed.

Lemma parameter_after :
  p + 2 < startPos + length ->
  style_of startPos out (p + 2) = Some SCE_REG_STRING.
Proof.
  intros Hin.
  destruct (parameter_second_turn ltac:(lia))
    as (Hr & Hc & Hcp & Hlt & Hi & Hst & Hals).
  set (sk := Lex_body doc s) in *. clearbody sk.
  pose proof (run_endPos doc startPos length initStyle startPos_nonneg
                sk Hr) as Hend.
  destruct (Forward_fields doc (context sk) Hlt) as (_ & Fcp & Fep & _).
  set (c := SetState doc SCE_REG_STRING (Forward doc (context sk))).
  destruct (SetState_fields doc SCE_REG_STRING (Forward doc (context sk)))
    as (Sst & Scp & Sep & _). fold c in Sst, Scp, Sep.
  rewrite Fcp, Hcp in Scp. rewrite Fep in Sep.
  pose proof (Lex_forward_style doc startPos length initStyle startPos_nonneg
                length_nonneg span_in_doc sk c out Hr Hc run) as H.
  rewrite Sst, Scp, Sep in H.
  replace (p + 1 + 1) with (p + 2) in H by lia. apply H.
  - subst c. apply inv_SetState. apply inv_Forward; assumption.
  - lia.
  - lia.
  - apply turn_PARAMETER; assumption.
Qed.

End ParameterInString.

(** X13: a parameter inside a string: a percent sign on which a turn of
    the loop begins in the String state, with a digit or an asterisk after
    it, and that character are styled Parameter; the character after them
    is styled String. (A percent sign that the cursor reaches in the
    middle of a turn, right after an escape sequence or after another
    parameter, begins no turn: see [parameter_after_escape].) *)
Theorem parameter_in_string doc startPos length initStyle s out :
  0 <= startPos -> 0 <= length -> startPos + length <= Length doc ->
  Lex_reaches doc (Lex_init doc startPos length initStyle) s ->
  Lex_cond s = true ->
  Lex doc startPos length initStyle = Some out ->
  state (context (Lex_line_start doc s)) = SCE_REG_STRING ->
  ch (context s) = PERCENT ->
  isdigit (chNext (context s)) || (chNext (context s) =? STAR) = true ->
  let p := currentPos (context s) in
  style_of startPos out p = Some SCE_REG_PARAMETER
  /\ (p + 1 < startPos + length ->
      style_of startPos out (p + 1) = Some SCE_REG_PARAMETER)
  /\ (p + 2 < startPos + length ->
      style_of startPos out (p + 2) = Some SCE_REG_STRING).
Proof.
  intros Hs Hl Hd Hr Hc Hout Hst Hch Hnx p. split_and!.
  - apply (parameter_percent doc startPos length initStyle); assumption.
  - apply (parameter_character doc startPos length initStyle); assumption.
  - apply (parameter_after doc startPos length initStyle); assumption.
Qed.

Lemma parameter_in_string_witness :
  let s := Lex_body parameter_doc
             (Lex_init parameter_doc 0 4 SCE_REG_DEFAULT) in
  let out := [SCE_REG_STRING; SCE_REG_PARAMETER; SCE_REG_PARAMETER;
              SCE_REG_STRING] in
  let p := currentPos (context s) in
  style_of 0 out p = Some SCE_REG_PARAMETER
  /\ (p + 1 < 0 + 4 -> style_of 0 out (p + 1) = Some SCE_REG_PARAMETER)
  /\ (p + 2 < 0 + 4 -> style_of 0 out (p + 2) = Some SCE_REG_STRING).
Proof.
  apply (parameter_in_string parameter_doc 0 4 SCE_REG_DEFAULT).
  - lia.
  - lia.
  - vm_compute. congruence.
  - reach.
  - vm_compute. reflexivity.
  - vm_compute. reflexivity.
  - vm_compute. reflexivity.
  - vm_compute. reflexivity.
  - vm_compute. reflexivity.
Defined.

(** A percent sign right after an escape sequence begins no turn in the
    String state: the turn on it begins in the Escaped state, restores the
    string state, and the step at the end of the turn moves past it. In
    [escaped_parameter_doc], a parameter between escaped quotes, the
    percent sign and the digit are styled String. So is, in
    [two_parameters_doc], the second of two parameters in a row: the
    Parameter case moves the cursor onto its percent sign and tests for a
    quote only. *)
Example parameter_after_escape :
  Lex escaped_parameter_doc 0 8 SCE_REG_DEFAULT
  = Some [SCE_REG_STRING; SCE_REG_ESCAPED; SCE_REG_ESCAPED; SCE_REG_STRING;
          SCE_REG_STRING; SCE_REG_ESCAPED; SCE_REG_ESCAPED; SCE_REG_STRING]
  /\ Lex two_parameters_doc 0 6 SCE_REG_DEFAULT
     = Some [SCE_REG_STRING; SCE_REG_PARAMETER; SCE_REG_PARAMETER;
             SCE_REG_STRING; SCE_REG_STRING; SCE_REG_STRING].
Proof.
  vm_compute. split; reflexivity.
Qed.

(** ** Value types *)

Lemma isalpha_char c :
  isalpha c = true ->
  c <> NUL /\ c <> LF /\ c <> CR /\ c <> SEMICOLON /\ c <> DQUOTE
  /\ c <> LBRACKET /\ c <> EQUALS /\ c <> AT /\ c <> COLON
  /\ Contains setOperators c = false.
Proof.
  unfold isalpha, NUL, LF, CR, SEMICOLON, DQUOTE, LBRACKET, EQUALS, AT, COLON.
  intros H.
  assert (65 <= c <= 90 \/ 97 <= c <= 122) as Hc.
  { apply orb_true_iff in H as [H|H]; apply andb_true_iff in H as [H1 H2];
      apply Z.leb_le in H1, H2; lia. }
  split_and!; try lia.
  unfold Contains, setOperators, MINUS, COMMA, DOT, EQUALS, COLON, BACKSLASH,
    AT, LPAREN, RPAREN. cbn [existsb].
  repeat (rewrite (proj2 (Z.eqb_neq c _)) by lia). reflexivity.
Qed.

Section ValueTypeTurns.

Variable doc : list Z.

(** The classification of the first letter of a word after an equals
    sign, with a colon within ten characters. *)
Lemma Lex_default_value_type x :
  state (context x) = SCE_REG_DEFAULT ->
  afterEqualSign x = true ->
  isalpha (ch (context x)) = true ->
  isalpha (chPrev (context x)) = false ->
  AtValueType doc (currentPos (context x)) = true ->
  context (Lex_default doc x) = SetState doc SCE_REG_VALUETYPE (context x).
Proof.
  intros Hst Haes Ha Hp Hvt. unfold Lex_default. rewrite Hst.
  rewrite bool_decide_eq_true_2 by reflexivity. cbv zeta.
  destruct (isalpha_char _ Ha)
    as (_ & Hlf & Hcr & H1 & H2 & H3 & H4 & H5 & _ & H6).
  rewrite (proj2 (Z.eqb_neq _ _) H1), (proj2 (Z.eqb_neq _ _) H2),
    (proj2 (Z.eqb_neq _ _) H3), (proj2 (Z.eqb_neq _ _) H4),
    (proj2 (Z.eqb_neq _ _) H5), (proj2 (Z.eqb_neq _ _) Hlf),
    (proj2 (Z.eqb_neq _ _) Hcr).
  rewrite Haes, Ha, Hp, Hvt, H6. cbn [negb andb orb]. lex_simpl.
  reflexivity.
Qed.

(** A character of the value type before its colon. *)
Lemma turn_VALUETYPE_inner s :
  state (context s) = SCE_REG_VALUETYPE ->
  atLineStart (context s) = false ->
  ch (context s) <> COLON ->
  context (Lex_body doc s) = Forward doc (context s).
Proof.
  intros Hst Hals Hch. rewrite Lex_body_eq.
  rewrite (Lex_line_start_skip doc s Hals).
  assert (Lex_switch doc s = s) as ->.
  { unfold Lex_switch. rewrite Hst. unfold case_VALUETYPE.
    rewrite (proj2 (Z.eqb_neq _ _) Hch). reflexivity. }
  rewrite Lex_default_skip by (rewrite Hst; discriminate).
  apply turn_end_fields.
Qed.

End ValueTypeTurns.

Section ValueTypeRun.

Variable doc : list Z.
Variables (startPos length : Z) (initStyle : Style).
Hypothesis startPos_nonneg : 0 <= startPos.
Hypothesis length_nonneg : 0 <= length.
Hypothesis span_in_doc : startPos + length <= Length doc.

Abbreviation init := (Lex_init doc startPos length initStyle).

Variable s : LexState.
Variable out : list Style.
Hypothesis s_reached : Lex_reaches doc init s.
Hypothesis s_cond : Lex_cond s = true.
Hypothesis run : Lex doc startPos length initStyle = Some out.

Let s1 := Lex_switch doc (Lex_line_start doc s).
Hypothesis in_default : state (context s1) = SCE_REG_DEFAULT.
Hypothesis after_equals : afterEqualSign s1 = true.
Hypothesis word_start :
  isalpha (ch (context s1)) = true /\ isalpha (chPrev (context s1)) = false.

Let p := currentPos (context s1).

Variable e : Z.
Hypothesis colon_pos : p < e <= p + 10.
Hypothesis colon : SafeGetCharAt doc e NUL = COLON.
Hypothesis colon_in_span : e <= startPos + length.
Hypothesis no_nul : forall q, p < q < e -> SafeGetCharAt doc q NUL <> NUL.
Hypothesis first_colon : forall q, p < q < e -> SafeGetCharAt doc q NUL <> COLON.
Hypothesis line : forall q, p <= q < e - 1 -> at_line_end doc q = false.

Lemma value_type_ahead : AtValueType doc p = true.
Proof.
  unfold AtValueType. apply AtValueType_loop_spec. exists (e - p).
  replace (p + (e - p)) with e by lia. split_and!; [lia|lia|assumption|].
  intros j Hj. apply no_nul. lia.
Qed.

Lemma value_type_p : startPos <= p.
Proof.
  destruct (classify_cursor doc startPos length initStyle startPos_nonneg
              length_nonneg span_in_doc s s_reached) as (_ & _ & _ & Hp).
  exact Hp.
Qed.

Lemma value_type_step s' :
  Lex_reaches doc init s' -> Lex_cond s' = true ->
  p + 1 <= currentPos (context s') < e ->
  state (context s') = SCE_REG_VALUETYPE ->
  exists c,
    context (Lex_body doc s') = Forward doc c
    /\ state c = SCE_REG_VALUETYPE
    /\ currentPos c = currentPos (context s')
    /\ endPos c = endPos (context s')
    /\ cursor_inv doc startPos c
    /\ state (context (Lex_body doc s')) = SCE_REG_VALUETYPE.
Proof.
  intros Hr Hc Hq Hst. pose proof value_type_p as Hp.
  pose proof (run_inv doc startPos length initStyle startPos_nonneg
                length_nonneg span_in_doc s' Hr) as Hi.
  pose proof Hi as [_ _ _ _ _ _ Hch _ _ Hals].
  apply Lex_cond_true in Hc as [Hlt _].
  specialize (Hch Hlt). specialize (Hals Hlt).
  assert (context (Lex_body doc s') = Forward doc (context s')) as Hctx.
  { apply turn_VALUETYPE_inner; [assumption| |].
    - rewrite Hals. apply is_line_start_inside; [lia|apply line; lia].
    - rewrite Hch. apply first_colon. lia. }
  exists (context s'). split_and!; auto.
  rewrite Hctx. destruct (Forward_fields doc (context s') Hlt) as (-> & _).
  assumption.
Qed.

Lemma value_type_styles q :
  p <= q < e -> style_of startPos out q = Some SCE_REG_VALUETYPE.
Proof.
  intros Hq. destruct word_start as [Ha Hp'].
  pose proof (Lex_default_value_type doc s1 in_default after_equals Ha Hp'
                value_type_ahead) as Hdef.
  destruct (entered_turn doc startPos length initStyle startPos_nonneg
              length_nonneg span_in_doc s out s_reached s_cond run
              SCE_REG_VALUETYPE Hdef)
    as (Hr & Hcp & Hst & _ & _ & Hsty).
  { fold s1. fold p. lia. }
  { fold s1. apply isalpha_char in Ha. tauto. }
  fold s1 in Hcp, Hsty. fold p in Hcp, Hsty.
  destruct (decide (q = p)) as [->|Hne]; [assumption|].
  assert (forall q', p + 1 <= q' < e -> SafeGetCharAt doc q' NUL <> NUL) as Hnn
    by (intros; apply no_nul; lia).
  apply (run_styles doc startPos length initStyle startPos_nonneg
           length_nonneg span_in_doc out run SCE_REG_VALUETYPE
           (fun s' => state (context s') = SCE_REG_VALUETYPE) (p + 1) e
           ltac:(lia) Hnn value_type_step (Lex_body doc s) Hr Hcp Hst). lia.
Qed.

End ValueTypeRun.

(** X14: a value type: the first letter of a word met in the Default
    state after an equals sign, with a colon at most ten characters after
    it, starts a ValueType token that runs up to the colon, when no
    character between the letter and the colon is a NUL or a colon and
    none of the characters from the letter on, the one just before the
    colon apart, ends a line. ([AtValueType] itself does not stop at the
    end of a line, the token does: see [value_type_line_end].) *)
Theorem value_type_to_colon doc startPos length initStyle s out e :
  0 <= startPos -> 0 <= length -> startPos + length <= Length doc ->
  Lex_reaches doc (Lex_init doc startPos length initStyle) s ->
  Lex_cond s = true ->
  Lex doc startPos length initStyle = Some out ->
  let s1 := Lex_switch doc (Lex_line_start doc s) in
  let p := currentPos (context s1) in
  state (context s1) = SCE_REG_DEFAULT ->
  afterEqualSign s1 = true ->
  isalpha (ch (context s1)) = true /\ isalpha (chPrev (context s1)) = false ->
  p < e <= p + 10 ->
  SafeGetCharAt doc e NUL = COLON ->
  e <= startPos + length ->
  (forall q, p < q < e -> SafeGetCharAt doc q NUL <> NUL) ->
  (forall q, p < q < e -> SafeGetCharAt doc q NUL <> COLON) ->
  (forall q, p <= q < e - 1 -> at_line_end doc q = false) ->
  forall q, p <= q < e -> style_of startPos out q = Some SCE_REG_VALUETYPE.
Proof.
  intros Hs Hl Hd Hr Hc Hout s1 p Hst Hae Hw H1 H2 H3 H4 H5 H6.
  apply (value_type_styles doc startPos length initStyle Hs Hl Hd s out Hr Hc
           Hout Hst Hae Hw e); assumption.
Qed.

Lemma value_type_to_colon_witness :
  style_of 0 (replicate 3 SCE_REG_VALUENAME ++ [SCE_REG_OPERATOR]
              ++ replicate 3 SCE_REG_VALUETYPE ++ [SCE_REG_OPERATOR]
              ++ replicate 2 SCE_REG_HEXDIGIT) 6
  = Some SCE_REG_VALUETYPE.
Proof.
  assert (currentPos
            (context (Lex_switch value_doc
                        (Lex_line_start value_doc
                           (Lex_turns value_doc 3
                              (Lex_init value_doc 0 10 SCE_REG_DEFAULT))))) = 4)
    as Hp by (vm_compute; reflexivity).
  apply (value_type_to_colon value_doc 0 10 SCE_REG_DEFAULT
           (Lex_turns value_doc 3 (Lex_init value_doc 0 10 SCE_REG_DEFAULT))
           _ 7).
  - lia.
  - lia.
  - vm_compute. congruence.
  - reach.
  - vm_compute. reflexivity.
  - vm_compute. reflexivity.
  - vm_compute. reflexivity.
  - vm_compute. reflexivity.
  - vm_compute. split; reflexivity.
  - rewrite Hp. lia.
  - vm_compute. reflexivity.
  - lia.
  - rewrite Hp. intros q Hq. by_cases q [5; 6].
  - rewrite Hp. intros q Hq. by_cases q [5; 6].
  - rewrite Hp. intros q Hq. by_cases q [4; 5].
  - rewrite Hp. lia.
Defined.

(** [AtValueType] looks ten characters ahead, across the end of a line;
    the token stops at the start of the next line, where the state is
    reset. In [value_type_lines_doc] the colon is on the next line: the
    letter and the line feed are styled ValueType, the digit before the
    colon is not. *)
Example value_type_line_end :
  AtValueType value_type_lines_doc 1 = true
  /\ Lex value_type_lines_doc 0 5 SCE_REG_DEFAULT
     = Some [SCE_REG_OPERATOR; SCE_REG_VALUETYPE; SCE_REG_VALUETYPE;
             SCE_REG_DEFAULT; SCE_REG_DEFAULT].
Proof.
  vm_compute. split; reflexivity.
Qed.

(** ** Hexadecimal digits, operators and line ends *)

Lemma isxdigit_char c :
  isxdigit c = true ->
  c <> NUL /\ c <> LF /\ c <> CR /\ c <> SEMICOLON /\ c <> DQUOTE
  /\ c <> LBRACKET /\ c <> EQUALS /\ c <> AT
  /\ Contains setOperators c = false
  /\ IsByteValue c = true /\ Z.land c 255 = c.
Proof.
  unfold isxdigit, isdigit, NUL, LF, CR, SEMICOLON, DQUOTE, LBRACKET, EQUALS, AT.
  intros H.
  assert (48 <= c <= 57 \/ 65 <= c <= 70 \/ 97 <= c <= 102) as Hc.
  { repeat (apply orb_true_iff in H as [H|H]);
      apply andb_true_iff in H as [H1 H2]; apply Z.leb_le in H1, H2; lia. }
  split_and!; try lia.
  - unfold Contains, setOperators, MINUS, COMMA, DOT, EQUALS, COLON, BACKSLASH,
      AT, LPAREN, RPAREN. cbn [existsb].
    repeat (rewrite (proj2 (Z.eqb_neq c _)) by lia). reflexivity.
  - unfold IsByteValue. apply andb_true_iff. split;
      [apply Z.leb_le|apply Z.ltb_lt]; lia.
  - change 255 with (Z.ones 8). rewrite Z.land_ones by lia.
    apply Z.mod_small. change (2 ^ 8) with 256. lia.
Qed.

Lemma operator_char c :
  Contains setOperators c = true ->
  c = MINUS \/ c = COMMA \/ c = DOT \/ c = EQUALS \/ c = COLON
  \/ c = BACKSLASH \/ c = AT \/ c = LPAREN \/ c = RPAREN.
Proof.
  unfold Contains, setOperators. cbn [existsb]. intros H.
  repeat (apply orb_true_iff in H as [H|H]; [apply Z.eqb_eq in H; tauto|]).
  discriminate.
Qed.

Section DefaultTurns.

Variable doc : list Z.

(** The classification of a hexadecimal digit in the Default state, with
    the highlight on and no equals sign pending. *)
Lemma Lex_default_hex x :
  state (context x) = SCE_REG_DEFAULT ->
  afterEqualSign x = false -> highlight x = true ->
  isxdigit (ch (context x)) = true ->
  context (Lex_default doc x) = SetState doc SCE_REG_HEXDIGIT (context x).
Proof.
  intros Hst Haes Hh Hx. unfold Lex_default. rewrite Hst.
  rewrite bool_decide_eq_true_2 by reflexivity. cbv zeta.
  destruct (isxdigit_char _ Hx)
    as (_ & Hlf & Hcr & H1 & H2 & H3 & H4 & H5 & H6 & H7 & H8).
  rewrite (proj2 (Z.eqb_neq _ _) H1), (proj2 (Z.eqb_neq _ _) H2),
    (proj2 (Z.eqb_neq _ _) H3), (proj2 (Z.eqb_neq _ _) H4),
    (proj2 (Z.eqb_neq _ _) H5), (proj2 (Z.eqb_neq _ _) Hlf),
    (proj2 (Z.eqb_neq _ _) Hcr).
  rewrite Haes, Hh, H7, H8, Hx, H6. cbn [negb andb orb]. lex_simpl.
  reflexivity.
Qed.

(** The classification of an operator character in the Default state,
    with the highlight on; the equals sign and the at sign turn it on
    themselves. *)
Lemma Lex_default_operator x :
  state (context x) = SCE_REG_DEFAULT ->
  Contains setOperators (ch (context x)) = true ->
  highlight x = true \/ ch (context x) = EQUALS \/ ch (context x) = AT ->
  context (Lex_default doc x) = SetState doc SCE_REG_OPERATOR (context x).
Proof.
  intros Hst Hop Hh. unfold Lex_default. rewrite Hst.
  rewrite bool_decide_eq_true_2 by reflexivity. cbv zeta.
  destruct (operator_char _ Hop) as [E|[E|[E|[E|[E|[E|[E|[E|E]]]]]]]];
    rewrite E in *; clear Hop;
    repeat match goal with
    | |- context [?a =? ?b] =>
        first [ change (a =? b) with true | change (a =? b) with false ]
    end;
    cbv iota;
    try change (isalpha MINUS) with false; try change (isalpha COMMA) with false;
    try change (isalpha DOT) with false; try change (isalpha COLON) with false;
    try change (isalpha BACKSLASH) with false; try change (isalpha AT) with false;
    try change (isalpha LPAREN) with false;
    try change (isalpha RPAREN) with false;
    cbn [andb];
    repeat match goal with
    | |- context [IsByteValue ?a && isxdigit (Z.land ?a 255)] =>
        change (IsByteValue a && isxdigit (Z.land a 255)) with false
    | |- context [Contains setOperators ?a] =>
        change (Contains setOperators a) with true
    end;
    cbn [andb orb]; lex_simpl;
    try (destruct (afterEqualSign x); lex_simpl);
    try reflexivity;
    destruct Hh as [Hh|[Hh|Hh]]; try discriminate;
    rewrite Hh; lex_simpl; reflexivity.
Qed.

End DefaultTurns.

(** X15: a hexadecimal digit met in the Default state is styled HexDigit
    when the highlight is on and no equals sign is pending. *)
Theorem hex_digit_in_default doc startPos length initStyle s out :
  0 <= startPos -> 0 <= length -> startPos + length <= Length doc ->
  Lex_reaches doc (Lex_init doc startPos length initStyle) s ->
  Lex_cond s = true ->
  Lex doc startPos length initStyle = Some out ->
  let s1 := Lex_switch doc (Lex_line_start doc s) in
  state (context s1) = SCE_REG_DEFAULT ->
  afterEqualSign s1 = false ->
  highlight s1 = true ->
  isxdigit (ch (context s1)) = true ->
  currentPos (context s1) < startPos + length ->
  style_of startPos out (currentPos (context s1)) = Some SCE_REG_HEXDIGIT.
Proof.
  intros Hs Hl Hd Hr Hc Hout s1 Hst Hae Hh Hx Hin.
  apply (entered_turn doc startPos length initStyle Hs Hl Hd s out Hr Hc Hout
           SCE_REG_HEXDIGIT).
  - apply Lex_default_hex; assumption.
  - assumption.
  - apply isxdigit_char in Hx. tauto.
Qed.

Lemma hex_digit_in_default_witness :
  style_of 0 (replicate 3 SCE_REG_VALUENAME ++ [SCE_REG_OPERATOR]
              ++ replicate 3 SCE_REG_VALUETYPE ++ [SCE_REG_OPERATOR]
              ++ replicate 2 SCE_REG_HEXDIGIT)
    (currentPos
       (context (Lex_switch value_doc
                   (Lex_line_start value_doc
                      (Lex_turns value_doc 7
                         (Lex_init value_doc 0 10 SCE_REG_DEFAULT))))))
  = Some SCE_REG_HEXDIGIT.
Proof.
  apply (hex_digit_in_default value_doc 0 10 SCE_REG_DEFAULT).
  - lia.
  - lia.
  - vm_compute. congruence.
  - reach.
  - vm_compute. reflexivity.
  - vm_compute. reflexivity.
  - vm_compute. reflexivity.
  - vm_compute. reflexivity.
  - vm_compute. reflexivity.
  - vm_compute. reflexivity.
  - vm_compute. reflexivity.
Defined.

(** X16: an operator character met in the Default state is styled Operator
    when the highlight is on; an equals sign and an at sign are so styled
    in any case. *)
Theorem operator_in_default doc startPos length initStyle s out :
  0 <= startPos -> 0 <= length -> startPos + length <= Length doc ->
  Lex_reaches doc (Lex_init doc startPos length initStyle) s ->
  Lex_cond s = true ->
  Lex doc startPos length initStyle = Some out ->
  let s1 := Lex_switch doc (Lex_line_start doc s) in
  state (context s1) = SCE_REG_DEFAULT ->
  Contains setOperators (ch (context s1)) = true ->
  highlight s1 = true \/ ch (context s1) = EQUALS \/ ch (context s1) = AT ->
  currentPos (context s1) < startPos + length ->
  style_of startPos out (currentPos (context s1)) = Some SCE_REG_OPERATOR.
Proof.
  intros Hs Hl Hd Hr Hc Hout s1 Hst Hop Hh Hin.
  apply (entered_turn doc startPos length initStyle Hs Hl Hd s out Hr Hc Hout
           SCE_REG_OPERATOR).
  - apply Lex_default_operator; assumption.
  - assumption.
  - apply operator_char in Hop.
    repeat destruct Hop as [Hop|Hop]; fold s1; rewrite Hop; discriminate.
Qed.

Lemma operator_in_default_witness :
  style_of 0 (replicate 3 SCE_REG_VALUENAME ++ [SCE_REG_OPERATOR]
              ++ replicate 3 SCE_REG_VALUETYPE ++ [SCE_REG_OPERATOR]
              ++ replicate 2 SCE_REG_HEXDIGIT)
    (currentPos
       (context (Lex_switch value_doc
                   (Lex_line_start value_doc
                      (Lex_turns value_doc 2
                         (Lex_init value_doc 0 10 SCE_REG_DEFAULT))))))
  = Some SCE_REG_OPERATOR.
Proof.
  apply (operator_in_default value_doc 0 10 SCE_REG_DEFAULT).
  - lia.
  - lia.
  - vm_compute. congruence.
  - reach.
  - vm_compute. reflexivity.
  - vm_compute. reflexivity.
  - vm_compute. reflexivity.
  - vm_compute. reflexivity.
  - right. left. vm_compute. reflexivity.
  - vm_compute. reflexivity.
Defined.

(** X17: the character that ends a line, met in the Default state, takes
    the style remembered as the last one that was not the default
    ([stateLastNonDefault]). *)
Theorem line_end_in_default doc startPos length initStyle s out :
  0 <= startPos -> 0 <= length -> startPos + length <= Length doc ->
  Lex_reaches doc (Lex_init doc startPos length initStyle) s ->
  Lex_cond s = true ->
  Lex doc startPos length initStyle = Some out ->
  let s1 := Lex_switch doc (Lex_line_start doc s) in
  state (context s1) = SCE_REG_DEFAULT ->
  ch (context s1) = LF \/ ch (context s1) = CR ->
  currentPos (context s1) < startPos + length ->
  style_of startPos out (currentPos (context s1))
  = Some (stateLastNonDefault s1).
Proof.
  intros Hs Hl Hd Hr Hc Hout s1 Hst Hch Hin.
  apply (entered_turn doc startPos length initStyle Hs Hl Hd s out Hr Hc Hout
           (stateLastNonDefault s1)).
  - apply Lex_default_eol; assumption.
  - assumption.
  - fold s1. destruct Hch as [-> | ->]; discriminate.
Qed.

Lemma line_end_in_default_witness :
  let s1 := Lex_switch two_keys_doc
              (Lex_line_start two_keys_doc
                 (Lex_turns two_keys_doc 4
                    (Lex_init two_keys_doc 0 28 SCE_REG_DEFAULT))) in
  style_of 0 two_keys_styles (currentPos (context s1))
  = Some (stateLastNonDefault s1).
Proof.
  apply (line_end_in_default two_keys_doc 0 28 SCE_REG_DEFAULT).
  - lia.
  - lia.
  - vm_compute. congruence.
  - reach.
  - vm_compute. reflexivity.
  - vm_compute. reflexivity.
  - vm_compute. reflexivity.
  - left. vm_compute. reflexivity.
  - vm_compute. reflexivity.
Defined.

(** ** The levels that [Fold] leaves *)

Section FoldLines.

Variable options : OptionsRegistry.
Variable doc : list Z.
Variable docStyles : list Style.

(** The lines of a scan are numbered one after the other. *)
Lemma Fold_scan_numbers left endPos i line vis key k x :
  Fold_scan doc docStyles left endPos i line vis key !! k = Some x ->
  x.1.1 = line + Z.of_nat k.
Proof.
  revert i line vis key k.
  induction left as [|left IH]; intros i line vis key k; [discriminate|].
  cbn [Fold_scan]. cbv zeta.
  destruct ((SafeGetCharAt doc i SPACE =? CR)
            && negb (SafeGetCharAt doc (i + 1) SPACE =? LF)
            || (SafeGetCharAt doc i SPACE =? LF) || (i =? endPos - 1)).
  - destruct k as [|k]; cbn [lookup list_lookup].
    + intros [= <-]. simpl. lia.
    + intros H. apply IH in H. lia.
  - apply IH.
Qed.

Lemma Fold_scan_length left endPos i line vis key :
  (List.length (Fold_scan doc docStyles left endPos i line vis key) <= left)%nat.
Proof.
  revert i line vis key.
  induction left as [|left IH]; intros i line vis key; [reflexivity|].
  cbn [Fold_scan]. cbv zeta. case_match; cbn [List.length].
  - specialize (IH (i + 1) (line + 1)
                  (if negb (isspacechar (SafeGetCharAt doc i SPACE))
                   then 0 + 1 else 0) false). lia.
  - specialize (IH (i + 1) line
                  (if negb (isspacechar (SafeGetCharAt doc i SPACE))
                   then vis + 1 else vis)
                  (if IsKeyPathState (StyleAt docStyles i) then true else key)).
    lia.
Qed.

(** The level computed for a line reads the stored levels at the line
    before it only. *)
Lemma Fold_level_ext line vis key lv ws lv' ws' :
  LevelAt lv (line - 1) = LevelAt lv' (line - 1) ->
  Fold_level options (mkFoldState line vis key lv ws)
  = Fold_level options (mkFoldState line vis key lv' ws').
Proof.
  intros H. unfold Fold_level, level_after_previous.
  cbn [currLine visibleChars atKeyPath levels]. rewrite H. reflexivity.
Qed.

Lemma level_after_previous_ext lv lv' line :
  LevelAt lv (line - 1) = LevelAt lv' (line - 1) ->
  level_after_previous lv line = level_after_previous lv' line.
Proof. intros H. unfold level_after_previous. rewrite H. reflexivity. Qed.

Lemma numbered_cons l0 x lines :
  numbered l0 (x :: lines) -> x.1.1 = l0 /\ numbered (l0 + 1) lines.
Proof.
  intros H. split.
  - specialize (H 0%nat x eq_refl). lia.
  - intros k y Hy. specialize (H (S k) y Hy). lia.
Qed.

Lemma Fold_lines_cons x lines lw :
  Fold_lines options (x :: lines) lw
  = Fold_lines options lines
      (let f := Fold_line options (mkFoldState x.1.1 x.1.2 x.2 lw.1 lw.2) in
       (levels f, writes f)).
Proof. destruct x as [[line vis] key]. reflexivity. Qed.

(** The levels after the lines of a scan: each line holds the level
    computed from the level of the line before it, and the lines outside
    the scan hold what they held. *)
Lemma Fold_lines_levels lines l0 lw :
  numbered l0 lines ->
  let lw' := Fold_lines options lines lw in
  (forall l, l < l0 \/ l0 + Z.of_nat (List.length lines) <= l ->
             LevelAt lw'.1 l = LevelAt lw.1 l)
  /\ (forall k x, lines !! k = Some x ->
        LevelAt lw'.1 x.1.1
        = Fold_level options (mkFoldState x.1.1 x.1.2 x.2 lw'.1 [])).
Proof.
  revert l0 lw. induction lines as [|x lines IH]; intros l0 lw Hn.
  - cbv zeta. cbn [Fold_lines foldl]. split; [reflexivity|].
    intros k x H. discriminate.
  - apply numbered_cons in Hn as [Hx Hn]. cbv zeta.
    rewrite Fold_lines_cons. cbv zeta.
    set (f := Fold_line options (mkFoldState x.1.1 x.1.2 x.2 lw.1 lw.2)).
    specialize (IH (l0 + 1) (levels f, writes f) Hn). cbv zeta in IH.
    destruct IH as [IH1 IH2]. cbn [fst snd] in IH1.
    assert (forall l, LevelAt (levels f) l
                      = if l =? x.1.1
                        then Fold_level options
                               (mkFoldState x.1.1 x.1.2 x.2 lw.1 lw.2)
                        else LevelAt lw.1 l) as Hf.
    { intros l. subst f. rewrite Fold_line_LevelAt. reflexivity. }
    split.
    + intros l Hl. cbn [List.length] in Hl. rewrite IH1 by lia.
      rewrite Hf. rewrite (proj2 (Z.eqb_neq _ _)) by lia. reflexivity.
    + intros k y Hy. destruct k as [|k].
      * injection Hy as <-. rewrite IH1 by lia. rewrite Hf, Z.eqb_refl.
        apply Fold_level_ext. rewrite IH1 by lia. rewrite Hf.
        rewrite (proj2 (Z.eqb_neq _ _)) by lia. reflexivity.
      * apply (IH2 k y Hy).
Qed.

(** Lines that hold their computed levels already are left alone. *)
Lemma Fold_lines_fixed lines lv ws :
  (forall k x, lines !! k = Some x ->
     LevelAt lv x.1.1 = Fold_level options (mkFoldState x.1.1 x.1.2 x.2 lv [])) ->
  Fold_lines options lines (lv, ws) = (lv, ws).
Proof.
  induction lines as [|x lines IH]; intros H; [reflexivity|].
  rewrite Fold_lines_cons. cbv zeta. cbn [fst snd].
  pose proof (Fold_line_writes options (mkFoldState x.1.1 x.1.2 x.2 lv ws)) as Hw.
  cbv zeta in Hw. cbn [levels currLine writes] in Hw.
  rewrite (Fold_level_ext _ _ _ lv ws lv []) in Hw by reflexivity.
  rewrite <- (H 0%nat x eq_refl), Z.eqb_refl in Hw. destruct Hw as [-> ->].
  apply IH. intros k y Hy. apply (H (S k) y Hy).
Qed.

(** The calls of a scan are for lines of the scan, in the order of the
    lines. *)
Lemma Fold_lines_writes lines l0 lw :
  numbered l0 lines ->
  exists new,
    (Fold_lines options lines lw).2 = lw.2 ++ new
    /\ (forall w, w ∈ new -> l0 <= w.1 < l0 + Z.of_nat (List.length lines))
    /\ StronglySorted Z.lt (new.*1).
Proof.
  revert l0 lw. induction lines as [|x lines IH]; intros l0 lw Hn.
  - exists []. cbn [Fold_lines foldl]. rewrite app_nil_r.
    split_and!; [reflexivity| |constructor]. intros w Hw. inversion Hw.
  - apply numbered_cons in Hn as [Hx Hn]. rewrite Fold_lines_cons. cbv zeta.
    pose proof (Fold_line_writes options
                  (mkFoldState x.1.1 x.1.2 x.2 lw.1 lw.2)) as Hw.
    cbv zeta in Hw. cbn [levels currLine writes] in Hw.
    set (f := Fold_line options (mkFoldState x.1.1 x.1.2 x.2 lw.1 lw.2)) in *.
    destruct (IH (l0 + 1) (levels f, writes f) Hn) as (new & Hnew & Hr & Hs).
    cbn [snd] in Hnew. cbn [List.length].
    destruct (Fold_level options (mkFoldState x.1.1 x.1.2 x.2 lw.1 lw.2)
              =? LevelAt lw.1 x.1.1); destruct Hw as [Hw _].
    + exists new. rewrite Hnew, Hw. split_and!; [reflexivity| |assumption].
      intros w Hin. specialize (Hr w Hin). lia.
    + exists ((x.1.1, Fold_level options
                        (mkFoldState x.1.1 x.1.2 x.2 lw.1 lw.2)) :: new).
      rewrite Hnew, Hw, <- app_assoc. split_and!; [reflexivity| |].
      * intros w Hin. apply elem_of_cons in Hin as [->|Hin].
        -- cbn [fst]. lia.
        -- specialize (Hr w Hin). lia.
      * rewrite fmap_cons. constructor; [assumption|]. cbn [fst].
        apply Forall_forall. intros l Hl.
        apply list_elem_of_fmap in Hl as (w & -> & Hin).
        specialize (Hr w Hin). lia.
Qed.

End FoldLines.

Section FoldRun.

Variable options : OptionsRegistry.
Variable doc : list Z.
Variable docStyles : list Style.
Variables startPos length : Z.
Hypothesis fold_on : fold options = true.

Let l0 := GetLine doc startPos.
Let lines :=
  Fold_scan doc docStyles (Z.to_nat length) (startPos + length) startPos
    l0 0 false.
Let last := l0 + Z.of_nat (List.length lines).

Lemma lines_numbered : numbered l0 lines.
Proof. intros k x H. apply Fold_scan_numbers in H. exact H. Qed.

(** [Fold] as the scan of its lines and the call for the line after
    them. *)
Lemma Fold_eq lv :
  let lw := Fold_lines options lines (lv, []) in
  let v := level_after_previous lw.1 last in
  Fold options doc docStyles startPos length lv
  = (<[last := v]> lw.1, lw.2 ++ [(last, v)]).
Proof.
  cbv zeta. unfold Fold. rewrite fold_on. cbn [negb]. cbv zeta.
  replace (startPos + length - startPos) with length by lia.
  destruct (Fold_loop_lines options doc docStyles (Z.to_nat length)
              (startPos + length) startPos
              (mkFoldState (GetLine doc startPos) 0 false lv [])) as [Hlw Hline].
  cbn [currLine visibleChars atKeyPath levels writes] in Hlw, Hline.
  fold l0 in Hlw, Hline. fold lines in Hlw, Hline. fold last in Hline.
  fold l0. revert Hlw Hline.
  generalize (Fold_loop options doc docStyles (Z.to_nat length)
                (startPos + length) startPos (mkFoldState l0 0 false lv [])).
  intros f Hlw Hline. unfold Fold_last, SetLevel. cbn [levels writes].
  rewrite Hline. rewrite <- Hlw. reflexivity.
Qed.

Lemma Fold_result_lines lv k x :
  lines !! k = Some x ->
  let r := Fold options doc docStyles startPos length lv in
  LevelAt r.1 x.1.1 = Fold_level options (mkFoldState x.1.1 x.1.2 x.2 r.1 []).
Proof.
  intros Hx. cbv zeta. rewrite Fold_eq. cbv zeta. cbn [fst].
  destruct (Fold_lines_levels options lines l0 (lv, []) lines_numbered)
    as [_ H2].
  pose proof (lines_numbered k x Hx) as Hk.
  pose proof (lookup_lt_Some _ _ _ Hx) as Hlt.
  rewrite LevelAt_insert. rewrite (proj2 (Z.eqb_neq _ _)) by (subst last; lia).
  rewrite (H2 k x Hx). apply Fold_level_ext.
  rewrite LevelAt_insert. rewrite (proj2 (Z.eqb_neq _ _)) by (subst last; lia).
  reflexivity.
Qed.

Lemma Fold_result_last lv :
  let r := Fold options doc docStyles startPos length lv in
  LevelAt r.1 last = level_after_previous r.1 last.
Proof.
  cbv zeta. rewrite Fold_eq. cbv zeta. cbn [fst].
  rewrite LevelAt_insert, Z.eqb_refl. apply level_after_previous_ext.
  rewrite LevelAt_insert. rewrite (proj2 (Z.eqb_neq _ _)) by lia. reflexivity.
Qed.

Lemma Fold_result_outside lv l :
  l < l0 \/ last < l ->
  let r := Fold options doc docStyles startPos length lv in
  LevelAt r.1 l = LevelAt lv l.
Proof.
  intros Hl. cbv zeta. rewrite Fold_eq. cbv zeta. cbn [fst].
  destruct (Fold_lines_levels options lines l0 (lv, []) lines_numbered)
    as [H1 _].
  rewrite LevelAt_insert. rewrite (proj2 (Z.eqb_neq _ _)) by (subst last; lia).
  apply H1. subst last. lia.
Qed.

Lemma Fold_again lv :
  let r1 := Fold options doc docStyles startPos length lv in
  let r2 := Fold options doc docStyles startPos length r1.1 in
  r2.1 = r1.1 /\ exists ws w, r1.2 = ws ++ [w] /\ r2.2 = [w].
Proof.
  cbv zeta.
  assert (Fold_lines options lines
            ((Fold options doc docStyles startPos length lv).1, [])
          = ((Fold options doc docStyles startPos length lv).1, [])) as Hfix.
  { apply Fold_lines_fixed. intros k x Hx. apply (Fold_result_lines lv k x Hx). }
  rewrite (Fold_eq (Fold options doc docStyles startPos length lv).1).
  cbv zeta. rewrite Hfix. cbn [fst snd].
  rewrite <- (Fold_result_last lv).
  rewrite (Fold_eq lv). cbv zeta. cbn [fst snd].
  rewrite LevelAt_insert, Z.eqb_refl. split.
  - apply insert_insert_eq.
  - eexists _, _. split; reflexivity.
Qed.

Lemma Fold_calls lv :
  let r := Fold options doc docStyles startPos length lv in
  StronglySorted Z.lt (r.2.*1)
  /\ (forall w, w ∈ r.2 -> l0 <= w.1 <= last).
Proof.
  cbv zeta. rewrite Fold_eq. cbv zeta. cbn [snd].
  destruct (Fold_lines_writes options lines l0 (lv, []) lines_numbered)
    as (new & -> & Hr & Hs).
  cbn [snd app]. split.
  - rewrite fmap_app. cbn [fmap list_fmap fst].
    clear -Hr Hs. subst last. revert Hr Hs.
    generalize (l0 + Z.of_nat (List.length lines)). intros b Hr Hs.
    induction new as [|w new IH]; cbn [fmap list_fmap app].
    + repeat constructor.
    + inversion Hs as [|? ? Hs' Hall]; subst. constructor.
      * apply IH; [|assumption]. intros w' Hw'. apply Hr. right. assumption.
      * apply Forall_app. split; [assumption|].
        constructor; [|constructor]. cbn [fst].
        specialize (Hr w ltac:(left)). lia.
  - intros w Hw. apply elem_of_app in Hw as [Hw|Hw].
    + specialize (Hr w Hw). subst last. lia.
    + apply list_elem_of_singleton in Hw as ->. cbn [fst]. subst last. lia.
Qed.

Lemma lines_count : Z.of_nat (List.length lines) <= Z.max 0 length.
Proof.
  pose proof (Fold_scan_length doc docStyles (Z.to_nat length)
                (startPos + length) startPos l0 0 false) as H.
  fold lines in H. lia.
Qed.

End FoldRun.

(** X18: the levels that [Fold] leaves, with the fold option on: every
    line that ends in the span holds the level computed from its own
    content and from the level left for the line before it; the line after
    them holds the level that follows from the last of them; every other
    line holds what it held before. *)
Theorem Fold_levels options doc docStyles startPos length lv :
  fold options = true ->
  let r := Fold options doc docStyles startPos length lv in
  let l0 := GetLine doc startPos in
  let lines :=
    Fold_scan doc docStyles (Z.to_nat length) (startPos + length) startPos
      l0 0 false in
  let last := l0 + Z.of_nat (List.length lines) in
  (forall k line vis key,
      lines !! k = Some (line, vis, key) ->
      line = l0 + Z.of_nat k
      /\ LevelAt r.1 line
         = Fold_level options (mkFoldState line vis key r.1 []))
  /\ LevelAt r.1 last = level_after_previous r.1 last
  /\ (forall l, l < l0 \/ last < l -> LevelAt r.1 l = LevelAt lv l).
Proof.
  intros Hf r l0 lines last. split_and!.
  - intros k line vis key Hx. split.
    + apply (Fold_scan_numbers _ _ _ _ _ _ _ _ _ _ Hx).
    + apply (Fold_result_lines options doc docStyles startPos length Hf lv k
               (line, vis, key) Hx).
  - apply Fold_result_last. assumption.
  - intros l Hl. apply Fold_result_outside; assumption.
Qed.

Lemma Fold_levels_witness :
  let options := mkOptionsRegistry false true in
  let r := Fold options two_keys_doc two_keys_styles 0 28 ∅ in
  let l0 := GetLine two_keys_doc 0 in
  let lines :=
    Fold_scan two_keys_doc two_keys_styles (Z.to_nat 28) (0 + 28) 0 l0 0 false in
  let last := l0 + Z.of_nat (List.length lines) in
  (forall k line vis key,
      lines !! k = Some (line, vis, key) ->
      line = l0 + Z.of_nat k
      /\ LevelAt r.1 line
         = Fold_level options (mkFoldState line vis key r.1 []))
  /\ LevelAt r.1 last = level_after_previous r.1 last
  /\ (forall l, l < l0 \/ last < l -> LevelAt r.1 l = LevelAt ∅ l).
Proof.
  apply (Fold_levels (mkOptionsRegistry false true) two_keys_doc
           two_keys_styles 0 28 ∅).
  reflexivity.
Defined.

(** X19: folding again what was folded changes no level: the second run
    makes one call only, the call for the line after the span that every
    run makes, with the level that the line holds already. *)
Theorem Fold_idempotent options doc docStyles startPos length lv :
  fold options = true ->
  let r1 := Fold options doc docStyles startPos length lv in
  let r2 := Fold options doc docStyles startPos length r1.1 in
  r2.1 = r1.1 /\ exists ws w, r1.2 = ws ++ [w] /\ r2.2 = [w].
Proof.
  intros Hf. apply Fold_again. assumption.
Qed.

Lemma Fold_idempotent_witness :
  let options := mkOptionsRegistry false true in
  let r1 := Fold options two_keys_doc two_keys_styles 0 28 ∅ in
  let r2 := Fold options two_keys_doc two_keys_styles 0 28 r1.1 in
  r2.1 = r1.1 /\ exists ws w, r1.2 = ws ++ [w] /\ r2.2 = [w].
Proof.
  apply (Fold_idempotent (mkOptionsRegistry false true) two_keys_doc
           two_keys_styles 0 28 ∅).
  reflexivity.
Defined.

(** X20: the calls of [SetLevel] that [Fold] makes are for lines in
    increasing order, each line at most once, from the line of the start of
    the span on and no further than one line for each position of the
    span. *)
Theorem Fold_calls_in_order options doc docStyles startPos length lv :
  fold options = true -> 0 <= length ->
  let r := Fold options doc docStyles startPos length lv in
  StronglySorted Z.lt (r.2.*1)
  /\ (forall w, w ∈ r.2 ->
        GetLine doc startPos <= w.1 <= GetLine doc startPos + length).
Proof.
  intros Hf Hl. cbv zeta.
  destruct (Fold_calls options doc docStyles startPos length Hf lv) as [H1 H2].
  split; [assumption|]. intros w Hw. specialize (H2 w Hw).
  pose proof (lines_count doc docStyles startPos length). lia.
Qed.

Lemma Fold_calls_in_order_witness :
  let r := Fold (mkOptionsRegistry false true) two_keys_doc two_keys_styles
             0 28 ∅ in
  StronglySorted Z.lt (r.2.*1)
  /\ (forall w, w ∈ r.2 ->
        GetLine two_keys_doc 0 <= w.1 <= GetLine two_keys_doc 0 + 28).
Proof.
  apply (Fold_calls_in_order (mkOptionsRegistry false true) two_keys_doc
           two_keys_styles 0 28 ∅).
  - reflexivity.
  - lia.
Defined.

(** * The folder on key lines and value lines *)

(** ** The scan of a line *)

Section FoldText.

Variable options : OptionsRegistry.

Lemma SafeGetCharAt_app_r (pre l : list Z) (k : nat) d :
  SafeGetCharAt (pre ++ l) (Z.of_nat (length pre) + Z.of_nat k) d
  = default d (l !! k).
Proof.
  unfold SafeGetCharAt, Length. rewrite length_app.
  replace (Z.to_nat (Z.of_nat (length pre) + Z.of_nat k))
    with (length pre + k)%nat by lia.
  rewrite lookup_app_r by lia.
  replace (length pre + k - length pre)%nat with k by lia.
  destruct (l !! k) as [c|] eqn:Hk.
  - apply lookup_lt_Some in Hk.
    rewrite (proj2 (Z.leb_le _ _)) by lia.
    rewrite (proj2 (Z.ltb_lt _ _)) by lia. reflexivity.
  - simpl. repeat case_match; reflexivity.
Qed.

Lemma StyleAt_app_r (tpre t : list Style) (k : nat) :
  StyleAt (tpre ++ t) (Z.of_nat (length tpre) + Z.of_nat k)
  = default SCE_REG_DEFAULT (t !! k).
Proof.
  unfold StyleAt. rewrite (proj2 (Z.leb_le _ _)) by lia.
  replace (Z.to_nat (Z.of_nat (length tpre) + Z.of_nat k))
    with (length tpre + k)%nat by lia.
  rewrite lookup_app_r by lia.
  replace (length tpre + k - length tpre)%nat with k by lia. reflexivity.
Qed.

Lemma visible_cons c l :
  visible (c :: l) = (if negb (isspacechar c) then 1 else 0) + visible l.
Proof.
  unfold visible. rewrite filter_cons.
  destruct (decide (isspacechar c = false)) as [E|E].
  - rewrite E. cbn [negb length]. lia.
  - apply not_false_is_true in E. rewrite E. cbn [negb]. lia.
Qed.

(** The scan of one line: its text, then its line break. *)
Lemma Fold_scan_line l :
  forall pre nl rest tpre t trest left endPos line vis key,
  line_text l -> line_break nl ->
  (nl = [CR] -> head rest <> Some LF) ->
  length tpre = length pre -> length t = length (l ++ nl) ->
  Z.of_nat (length pre + length (l ++ nl)) <= endPos ->
  (length (l ++ nl) <= left)%nat ->
  Fold_scan (pre ++ l ++ nl ++ rest) (tpre ++ t ++ trest) left endPos
    (Z.of_nat (length pre)) line vis key
  = (line, vis + visible l, key || key_styled t)
    :: Fold_scan (pre ++ l ++ nl ++ rest) (tpre ++ t ++ trest)
         (left - length (l ++ nl)) endPos
         (Z.of_nat (length pre + length (l ++ nl))) (line + 1) 0 false.
Proof.
  induction l as [|c l IH];
    intros pre nl rest tpre t trest left endPos line vis key
      Hl Hnl Hcr Htpre Ht Hend Hleft.
  - cbn [app] in *.
    assert (forall k, SafeGetCharAt (pre ++ nl ++ rest)
                        (Z.of_nat (length pre) + Z.of_nat k) SPACE
                      = default SPACE ((nl ++ rest) !! k)) as Hch
      by (intros k; apply SafeGetCharAt_app_r).
    assert (forall k, StyleAt (tpre ++ t ++ trest)
                        (Z.of_nat (length pre) + Z.of_nat k)
                      = default SCE_REG_DEFAULT ((t ++ trest) !! k)) as Hst
      by (intros k; rewrite <- Htpre; apply StyleAt_app_r).
    pose proof (Hch 0%nat) as Hc0. pose proof (Hch 1%nat) as Hc1.
    pose proof (Hch 2%nat) as Hc2.
    pose proof (Hst 0%nat) as Hs0. pose proof (Hst 1%nat) as Hs1.
    replace (Z.of_nat (length pre) + Z.of_nat 0) with (Z.of_nat (length pre))
      in * by lia.
    replace (Z.of_nat (length pre) + Z.of_nat 1)
      with (Z.of_nat (length pre) + 1) in * by lia.
    replace (Z.of_nat (length pre) + Z.of_nat 2)
      with (Z.of_nat (length pre) + 1 + 1) in * by lia.
    clear Hch Hst.
    destruct Hnl as [->|[->| ->]].
    + destruct t as [|s0 [|? ?]]; try discriminate.
      destruct left as [|left]; [simpl in Hleft; lia|].
      cbn [Fold_scan]. cbv zeta. rewrite Hc0, Hs0.
      cbn [app lookup list_lookup default from_option id].
      change (LF =? LF) with true. rewrite orb_true_r. cbn [orb].
      change (isspacechar LF) with true. cbn [negb].
      cbn [length]. rewrite Z.add_0_r.
      replace (S left - 1)%nat with left by lia.
      replace (Z.of_nat (length pre + 1)) with (Z.of_nat (length pre) + 1)
        by lia.
      unfold key_styled. cbn [existsb]. rewrite orb_false_r.
      destruct (IsKeyPathState s0), key; reflexivity.
    + destruct t as [|s0 [|? ?]]; try discriminate.
      destruct left as [|left]; [simpl in Hleft; lia|].
      assert ((default SPACE (([CR] ++ rest) !! 1%nat) =? LF) = false) as Hnext.
      { apply Z.eqb_neq. specialize (Hcr eq_refl).
        destruct rest as [|r rest]; [discriminate|]. simpl in *. congruence. }
      cbn [Fold_scan]. cbv zeta. rewrite Hc0, Hc1, Hs0, Hnext.
      cbn [app lookup list_lookup default from_option id].
      change (CR =? CR) with true.
      cbn [negb andb orb].
      change (isspacechar CR) with true. cbn [negb].
      cbn [length]. rewrite Z.add_0_r.
      replace (S left - 1)%nat with left by lia.
      replace (Z.of_nat (length pre + 1)) with (Z.of_nat (length pre) + 1)
        by lia.
      unfold key_styled. cbn [existsb]. rewrite orb_false_r.
      destruct (IsKeyPathState s0), key; reflexivity.
    + destruct t as [|s0 [|s1 [|? ?]]]; try discriminate.
      destruct left as [|[|left]]; try (simpl in Hleft; lia).
      cbn [length] in Hend.
      cbn [Fold_scan]. cbv zeta. rewrite Hc0, Hc1, Hc2, Hs0, Hs1.
      cbn [app lookup list_lookup default from_option id].
      change (CR =? CR) with true. change (LF =? LF) with true.
      change (CR =? LF) with false. cbn [negb andb orb].
      rewrite (proj2 (Z.eqb_neq _ _)) by lia.
      change (isspacechar CR) with true. change (isspacechar LF) with true.
      cbn [negb]. rewrite orb_true_r.
      cbn [length]. rewrite Z.add_0_r.
      replace (S (S left) - 2)%nat with left by lia.
      replace (Z.of_nat (length pre + 2)) with (Z.of_nat (length pre) + 1 + 1)
        by lia.
      unfold key_styled. cbn [existsb]. rewrite orb_false_r.
      destruct (IsKeyPathState s0), (IsKeyPathState s1), key; reflexivity.
  - apply Forall_cons in Hl as [[Hc1 Hc2] Hl].
    destruct t as [|s0 t]; [discriminate|].
    destruct left as [|left]; [simpl in Hleft; lia|].
    assert (1 <= length nl)%nat as Hnl1
      by (destruct Hnl as [->|[->| ->]]; simpl; lia).
    cbn [length app] in Hend, Hleft, Ht. rewrite length_app in Hend, Hleft.
    cbn [Fold_scan]. cbv zeta.
    pose proof (SafeGetCharAt_app_r pre ((c :: l) ++ nl ++ rest) 0 SPACE)
      as Hc0.
    pose proof (StyleAt_app_r tpre ((s0 :: t) ++ trest) 0) as Hs0.
    rewrite Htpre in Hs0.
    replace (Z.of_nat (length pre) + Z.of_nat 0) with (Z.of_nat (length pre))
      in * by lia.
    cbn [app lookup list_lookup default from_option id] in Hc0, Hs0. cbn [app].
    rewrite Hc0, Hs0.
    rewrite (proj2 (Z.eqb_neq c CR)) by assumption.
    rewrite (proj2 (Z.eqb_neq c LF)) by assumption.
    rewrite (proj2 (Z.eqb_neq _ (endPos - 1))) by lia.
    cbn [andb orb].
    specialize (IH (pre ++ [c]) nl rest (tpre ++ [s0]) t trest left endPos line
                  (if negb (isspacechar c) then vis + 1 else vis)
                  (if IsKeyPathState s0 then true else key) Hl Hnl Hcr).
    rewrite !length_app in IH. cbn [length] in IH.
    rewrite <- !app_assoc in IH. cbn [app] in IH.
    replace (Z.of_nat (length pre + 1)) with (Z.of_nat (length pre) + 1) in IH
      by lia.
    rewrite IH by (rewrite ?length_app in *; simpl in *; lia).
    rewrite visible_cons. unfold key_styled. cbn [existsb length].
    rewrite length_app.
    replace (S left - S (length l + length nl))%nat
      with (left - (length l + length nl))%nat by lia.
    replace (Z.of_nat (length pre + 1 + (length l + length nl)))
      with (Z.of_nat (length pre + S (length l + length nl))) by lia.
    f_equal. f_equal; [f_equal|].
    + destruct (isspacechar c); simpl; lia.
    + destruct (IsKeyPathState s0), key; reflexivity.
Qed.

(** The same, for a document and styles that hold the line. *)
Lemma Fold_scan_at doc docStyles l pre nl rest tpre t trest left endPos i
    line vis key :
  doc = pre ++ l ++ nl ++ rest -> docStyles = tpre ++ t ++ trest ->
  i = Z.of_nat (length pre) ->
  line_text l -> line_break nl ->
  (nl = [CR] -> head rest <> Some LF) ->
  length tpre = length pre -> length t = length (l ++ nl) ->
  i + Z.of_nat (length (l ++ nl)) <= endPos ->
  (length (l ++ nl) <= left)%nat ->
  Fold_scan doc docStyles left endPos i line vis key
  = (line, vis + visible l, key || key_styled t)
    :: Fold_scan doc docStyles (left - length (l ++ nl)) endPos
         (i + Z.of_nat (length (l ++ nl))) (line + 1) 0 false.
Proof.
  intros -> -> -> Hl Hnl Hcr Htpre Ht Hend Hleft.
  rewrite Fold_scan_line by (try assumption; lia).
  rewrite Nat2Z.inj_add. reflexivity.
Qed.

End FoldText.

(** The scan of the last line of a document that no line break ends: the
    line is closed at its last character, before that character is
    counted. *)
Lemma Fold_scan_end l :
  forall c pre tpre t left endPos line vis key,
  line_text l ->
  length tpre = length pre -> length t = length (l ++ [c]) ->
  endPos = Z.of_nat (length pre + length (l ++ [c])) ->
  left = length (l ++ [c]) ->
  Fold_scan (pre ++ l ++ [c]) (tpre ++ t) left endPos
    (Z.of_nat (length pre)) line vis key
  = [(line, vis + visible l, key || key_styled t)].
Proof.
  induction l as [|x l IH];
    intros c pre tpre t left endPos line vis key Hl Htpre Ht Hend Hleft.
  - cbn [app length] in *. subst left.
    destruct t as [|s0 [|? ?]]; try discriminate.
    pose proof (StyleAt_app_r tpre [s0] 0) as Hs0. rewrite Htpre in Hs0.
    replace (Z.of_nat (length pre) + Z.of_nat 0) with (Z.of_nat (length pre))
      in Hs0 by lia.
    cbn [Fold_scan]. cbv zeta. rewrite Hs0.
    cbn [lookup list_lookup default from_option id].
    rewrite (proj2 (Z.eqb_eq _ (endPos - 1))) by lia. rewrite orb_true_r.
    unfold visible, key_styled. cbn [filter list_filter length existsb].
    rewrite Z.add_0_r, orb_false_r.
    destruct (IsKeyPathState s0), key; reflexivity.
  - apply Forall_cons in Hl as [[Hx1 Hx2] Hl].
    destruct t as [|s0 t]; [discriminate|].
    cbn [app length] in Hend, Hleft, Ht. subst left.
    cbn [Fold_scan]. cbv zeta.
    pose proof (SafeGetCharAt_app_r pre ((x :: l) ++ [c]) 0 SPACE) as Hc0.
    pose proof (StyleAt_app_r tpre (s0 :: t) 0) as Hs0. rewrite Htpre in Hs0.
    replace (Z.of_nat (length pre) + Z.of_nat 0) with (Z.of_nat (length pre))
      in * by lia.
    cbn [app lookup list_lookup default from_option id] in Hc0, Hs0.
    cbn [app]. rewrite Hc0, Hs0.
    rewrite (proj2 (Z.eqb_neq x CR)) by assumption.
    rewrite (proj2 (Z.eqb_neq x LF)) by assumption.
    rewrite length_app in Hend. cbn [length] in Hend.
    rewrite (proj2 (Z.eqb_neq _ (endPos - 1))) by lia.
    cbn [andb orb].
    specialize (IH c (pre ++ [x]) (tpre ++ [s0]) t (length (l ++ [c])) endPos
                  line (if negb (isspacechar x) then vis + 1 else vis)
                  (if IsKeyPathState s0 then true else key) Hl).
    rewrite !length_app in IH. cbn [length] in IH.
    rewrite <- !app_assoc in IH. cbn [app] in IH.
    replace (Z.of_nat (length pre + 1)) with (Z.of_nat (length pre) + 1) in IH
      by lia.
    rewrite length_app. cbn [length].
    rewrite IH by (rewrite ?length_app in *; simpl in *; lia).
    rewrite visible_cons. unfold key_styled. cbn [existsb].
    f_equal. f_equal; [f_equal|].
    + destruct (isspacechar x); simpl; lia.
    + destruct (IsKeyPathState s0), key; reflexivity.
Qed.

Lemma Fold_scan_end_at doc docStyles l c pre tpre t left endPos i line vis key :
  doc = pre ++ l ++ [c] -> docStyles = tpre ++ t ->
  i = Z.of_nat (length pre) ->
  line_text l ->
  length tpre = length pre -> length t = length (l ++ [c]) ->
  endPos = i + Z.of_nat (length (l ++ [c])) ->
  left = length (l ++ [c]) ->
  Fold_scan doc docStyles left endPos i line vis key
  = [(line, vis + visible l, key || key_styled t)].
Proof.
  intros -> -> -> Hl Htpre Ht Hend Hleft.
  apply Fold_scan_end; try assumption. lia.
Qed.

Lemma visible_nonempty l : 0 < visible l -> l <> [].
Proof. intros H ->. unfold visible in H. simpl in H. lia. Qed.

Lemma head_text l rest :
  line_text l -> l <> [] -> head (l ++ rest) <> Some LF.
Proof.
  intros Hl Hn. destruct l as [|c l]; [contradiction|].
  apply Forall_cons in Hl as [[H _] _]. simpl. congruence.
Qed.

Lemma counted_break l nl : line_break nl -> counted l nl = l.
Proof. intros [->|[->| ->]]; reflexivity. Qed.

Section FourLines.

Variable options : OptionsRegistry.
Variables l1 n1 l2 n2 l3 n3 l4 n4 : list Z.
Variables t1 t2 t3 t4 : list Style.

Hypothesis text1 : line_text l1.
Hypothesis text2 : line_text l2.
Hypothesis text3 : line_text l3.
Hypothesis text4 : line_text l4.
Hypothesis break1 : line_break n1.
Hypothesis break2 : line_break n2.
Hypothesis break3 : line_break n3.
Hypothesis break4 : last_break n4.
Hypothesis visible1 : 0 < visible l1.
Hypothesis visible2 : 0 < visible l2.
Hypothesis visible3 : 0 < visible l3.
Hypothesis visible4 : 0 < visible (counted l4 n4).
Hypothesis styles1 : length t1 = length (l1 ++ n1).
Hypothesis styles2 : length t2 = length (l2 ++ n2).
Hypothesis styles3 : length t3 = length (l3 ++ n3).
Hypothesis styles4 : length t4 = length (l4 ++ n4).

Let doc := (l1 ++ n1) ++ (l2 ++ n2) ++ (l3 ++ n3) ++ (l4 ++ n4).
Let docStyles := t1 ++ t2 ++ t3 ++ t4.

Lemma line4_nonempty : l4 <> [].
Proof.
  destruct break4 as [Hb| ->].
  - rewrite (counted_break l4 n4 Hb) in visible4.
    apply visible_nonempty, visible4.
  - intros ->. unfold visible in visible4. simpl in visible4. lia.
Qed.

Lemma Fold_scan_four_lines :
  Fold_scan doc docStyles (Z.to_nat (Length doc)) (0 + Length doc) 0 0 0 false
  = [(0, visible l1, key_styled t1); (1, visible l2, key_styled t2);
     (2, visible l3, key_styled t3);
     (3, visible (counted l4 n4), key_styled t4)].
Proof.
  unfold Length. rewrite Nat2Z.id, Z.add_0_l.
  assert (length doc = length (l1 ++ n1) + length (l2 ++ n2)
                       + length (l3 ++ n3) + length (l4 ++ n4))%nat as Hlen
    by (unfold doc; rewrite !length_app; lia).
  pose proof (head_text l2 (n2 ++ (l3 ++ n3) ++ l4 ++ n4) text2
                (visible_nonempty l2 visible2)) as Hh2.
  pose proof (head_text l3 (n3 ++ l4 ++ n4) text3
                (visible_nonempty l3 visible3)) as Hh3.
  pose proof (head_text l4 n4 text4 line4_nonempty) as Hh4.
  rewrite (Fold_scan_at doc docStyles l1 [] n1
             ((l2 ++ n2) ++ (l3 ++ n3) ++ (l4 ++ n4)) [] t1 (t2 ++ t3 ++ t4));
    [ | unfold doc; rewrite <- ?app_assoc; reflexivity
      | reflexivity | reflexivity | assumption | assumption
      | intros _; rewrite <- app_assoc; assumption
      | reflexivity | assumption | lia | lia ].
  rewrite (Fold_scan_at doc docStyles l2 (l1 ++ n1) n2
             ((l3 ++ n3) ++ (l4 ++ n4)) t1 t2 (t3 ++ t4));
    [ | unfold doc; rewrite <- ?app_assoc; reflexivity
      | reflexivity | cbn [length]; lia | assumption | assumption
      | intros _; rewrite <- app_assoc; assumption
      | assumption | assumption | cbn [length]; lia | lia ].
  rewrite (Fold_scan_at doc docStyles l3 ((l1 ++ n1) ++ (l2 ++ n2)) n3
             (l4 ++ n4) (t1 ++ t2) t3 t4);
    [ | unfold doc; rewrite <- ?app_assoc; reflexivity
      | unfold docStyles; rewrite <- ?app_assoc; reflexivity
      | cbn [length]; rewrite (length_app (l1 ++ n1)); lia
      | assumption | assumption
      | intros _; assumption
      | rewrite !length_app in *; lia | assumption | cbn [length]; lia | lia ].
  do 3 f_equal.
  destruct break4 as [Hb|Hb].
  - rewrite (counted_break l4 n4 Hb).
    rewrite (Fold_scan_at doc docStyles l4
               ((l1 ++ n1) ++ (l2 ++ n2) ++ (l3 ++ n3)) n4 []
               (t1 ++ t2 ++ t3) t4 []);
      [ | unfold doc; rewrite <- ?app_assoc, ?app_nil_r; reflexivity
        | unfold docStyles; rewrite <- ?app_assoc, ?app_nil_r; reflexivity
        | cbn [length]; rewrite !length_app; lia | assumption | assumption
        | intros _; simpl; congruence
        | rewrite !length_app in *; lia | assumption | cbn [length]; lia
        | lia ].
    replace (length doc - length (l1 ++ n1) - length (l2 ++ n2)
             - length (l3 ++ n3) - length (l4 ++ n4))%nat with 0%nat by lia.
    cbn [Fold_scan]. rewrite !Z.add_0_l. reflexivity.
  - pose proof (app_removelast_last NUL line4_nonempty) as Hl4.
    assert (line_text (removelast l4)) as Ht4.
    { unfold line_text in *. rewrite Hl4 in text4.
      apply Forall_app in text4 as [H _]. exact H. }
    assert (length l4 = length (removelast l4 ++ [List.last l4 NUL])) as Hl4'
      by (rewrite <- Hl4; reflexivity).
    subst n4. rewrite app_nil_r in Hlen, styles4. cbn [counted].
    apply (Fold_scan_end_at doc docStyles (removelast l4) (List.last l4 NUL)
             ((l1 ++ n1) ++ (l2 ++ n2) ++ (l3 ++ n3)) (t1 ++ t2 ++ t3) t4);
      [ unfold doc; rewrite <- Hl4, <- ?app_assoc, ?app_nil_r; reflexivity
      | unfold docStyles; rewrite <- ?app_assoc; reflexivity
      | rewrite !length_app; lia
      | assumption
      | rewrite !length_app in *; lia
      | lia
      | lia
      | lia ].
Qed.

Hypothesis fold_on : fold options = true.
Hypothesis key1 : key_styled t1 = true.
Hypothesis key2 : key_styled t2 = false.
Hypothesis key3 : key_styled t3 = true.
Hypothesis key4 : key_styled t4 = false.

Lemma Fold_level_key line vis lv ws :
  0 < vis ->
  Fold_level options (mkFoldState line vis true lv ws)
  = Z.lor SC_FOLDLEVELBASE SC_FOLDLEVELHEADERFLAG.
Proof.
  intros H. unfold Fold_level. cbn [currLine visibleChars atKeyPath levels].
  rewrite (proj2 (Z.eqb_neq vis 0)) by lia. reflexivity.
Qed.

Lemma Fold_level_after_key line vis lv ws :
  0 < vis -> 0 < line ->
  LevelAt lv (line - 1) = Z.lor SC_FOLDLEVELBASE SC_FOLDLEVELHEADERFLAG ->
  Fold_level options (mkFoldState line vis false lv ws) = SC_FOLDLEVELBASE + 1.
Proof.
  intros H Hl Hp. unfold Fold_level, level_after_previous.
  cbn [currLine visibleChars atKeyPath levels].
  rewrite (proj2 (Z.eqb_neq vis 0)) by lia.
  rewrite (proj2 (Z.ltb_lt 0 line)) by lia. rewrite Hp. reflexivity.
Qed.

Lemma Fold_four_lines lv :
  let r := Fold options doc docStyles 0 (Length doc) lv in
  LevelAt r.1 0 = Z.lor SC_FOLDLEVELBASE SC_FOLDLEVELHEADERFLAG
  /\ LevelAt r.1 1 = SC_FOLDLEVELBASE + 1
  /\ LevelAt r.1 2 = Z.lor SC_FOLDLEVELBASE SC_FOLDLEVELHEADERFLAG
  /\ LevelAt r.1 3 = SC_FOLDLEVELBASE + 1.
Proof.
  intros r.
  assert (GetLine doc 0 = 0) as Hl0 by reflexivity.
  pose proof (fun k x =>
    Fold_result_lines options doc docStyles 0 (Length doc) fold_on lv k x) as H.
  rewrite Hl0, Fold_scan_four_lines, key1, key2, key3, key4 in H.
  fold r in H.
  pose proof (H 0%nat _ eq_refl) as H0. pose proof (H 1%nat _ eq_refl) as H1.
  pose proof (H 2%nat _ eq_refl) as H2. pose proof (H 3%nat _ eq_refl) as H3.
  clear H. cbn [fst snd] in *.
  rewrite Fold_level_key in H0, H2 by assumption.
  rewrite Fold_level_after_key in H1 by (try assumption; try lia).
  rewrite Fold_level_after_key in H3 by (try assumption; try lia).
  auto.
Qed.

End FourLines.

(** ** What every turn keeps *)

Section Fields.

Variable doc : list Z.

Lemma state_SetState st c : state (SetState doc st c) = st.
Proof. reflexivity. Qed.

Lemma state_Forward c : state (Forward doc c) = state c.
Proof. unfold Forward. case_match; reflexivity. Qed.

Lemma Complete_cursor c :
  ch (Complete doc c) = ch c /\ chNext (Complete doc c) = chNext c
  /\ chPrev (Complete doc c) = chPrev c
  /\ currentPos (Complete doc c) = currentPos c
  /\ endPos (Complete doc c) = endPos c
  /\ atLineStart (Complete doc c) = atLineStart c
  /\ atLineEnd (Complete doc c) = atLineEnd c.
Proof. unfold Complete, ColourTo. repeat case_match; simpl; auto 10. Qed.

Lemma ch_SetState st c : ch (SetState doc st c) = ch c.
Proof. apply (Complete_cursor c). Qed.

Lemma chNext_SetState st c : chNext (SetState doc st c) = chNext c.
Proof. apply (Complete_cursor c). Qed.

Lemma ch_Forward c :
  ch (Forward doc c) = if currentPos c <? endPos c then chNext c else SPACE.
Proof. unfold Forward. case_match; reflexivity. Qed.

Lemma state_ForwardSetState st c : state (ForwardSetState doc st c) = st.
Proof. reflexivity. Qed.

Lemma ContextForwardSetState_fields o s :
  beforeEscape (ContextForwardSetState doc o s) = beforeEscape s
  /\ beforeGUID (ContextForwardSetState doc o s) = beforeGUID s
  /\ stateLastNonDefault (ContextForwardSetState doc o s)
     = (if bool_decide (state (context s) <> SCE_REG_DEFAULT)
        then state (context s) else stateLastNonDefault s)
  /\ context (ContextForwardSetState doc o s)
     = match o with
       | Some st => ForwardSetState doc st (context s)
       | None => Forward doc (context s)
       end.
Proof.
  unfold ContextForwardSetState. case_bool_decide; destruct o; lex_simpl; auto.
Qed.


Lemma beforeEscape_CFS o s :
  beforeEscape (ContextForwardSetState doc o s) = beforeEscape s.
Proof. apply ContextForwardSetState_fields. Qed.

Lemma beforeGUID_CFS o s :
  beforeGUID (ContextForwardSetState doc o s) = beforeGUID s.
Proof. apply ContextForwardSetState_fields. Qed.

Lemma last_CFS o s :
  stateLastNonDefault (ContextForwardSetState doc o s)
  = if bool_decide (state (context s) <> SCE_REG_DEFAULT)
    then state (context s) else stateLastNonDefault s.
Proof. apply ContextForwardSetState_fields. Qed.

Lemma state_CFS_Some st s :
  state (context (ContextForwardSetState doc (Some st) s)) = st.
Proof.
  destruct (ContextForwardSetState_fields (Some st) s) as (_ & _ & _ & ->).
  reflexivity.
Qed.

Lemma state_CFS_None s :
  state (context (ContextForwardSetState doc None s)) = state (context s).
Proof.
  destruct (ContextForwardSetState_fields None s) as (_ & _ & _ & ->).
  apply state_Forward.
Qed.

End Fields.

Create Rewrite HintDb fields.

Hint Rewrite state_SetState state_Forward ch_SetState chNext_SetState
  state_ForwardSetState beforeEscape_CFS beforeGUID_CFS last_CFS
  state_CFS_Some state_CFS_None : fields.

Ltac fields := repeat (progress (lex_simpl; autorewrite with fields in * )).

Ltac split_bools :=
  repeat match goal with
  | H : _ && _ = true |- _ => apply andb_true_iff in H as [? ?]
  | H : bool_decide _ = true |- _ => apply bool_decide_eq_true_1 in H
  | H : bool_decide _ = false |- _ => apply bool_decide_eq_false_1 in H
  | H : IsStringState _ = true |- _ =>
      unfold IsStringState in H; apply orb_true_iff in H as [H|H]
  | H : IsKeyPathState _ = true |- _ =>
      unfold IsKeyPathState in H; apply orb_true_iff in H as [H|H]
  end.

Section TurnOk.

Variable doc : list Z.

Lemma turn_ok_line_start s : turn_ok s -> turn_ok (Lex_line_start doc s).
Proof.
  intros [H1 H2 H3 H4]. unfold Lex_line_start.
  repeat case_match; constructor; fields; unfold string_or_default in *;
    auto; try congruence.
Qed.

Lemma switch_ok_switch s : turn_ok s -> switch_ok (Lex_switch doc s).
Proof.
  intros [H1 H2 H3 H4]. unfold Lex_switch.
  destruct (state (context s)) eqn:E.
  all: unfold case_COMMENT, case_STRING, case_PARAMETER, case_VALUETYPE,
    case_OPERATOR, case_KEY, case_ESCAPED, case_GUID, case_GUID_close,
    case_GUID_next; cbv zeta.
  all: repeat case_match.
  all: constructor; fields; unfold string_or_default in *; auto;
    try congruence.
  all: try (intros; discriminate).
  all: split_bools; fields; try case_bool_decide; try (intros; congruence).
  all: try (intros; discriminate).
  all: try (intros Hx; apply H3 in Hx; congruence).
  all: try (intros Hx; destruct H1 as [H1|[H1|H1]]; congruence).
  all: rewrite ?E; try case_bool_decide; try (intros; congruence); auto.
Qed.

Lemma switch_ok_default x : switch_ok x -> switch_ok (Lex_default doc x).
Proof.
  intros [H1 H2 H3 H4]. unfold Lex_default. cbv zeta.
  case_bool_decide as E; [|constructor; assumption].
  assert (stateLastNonDefault x <> SCE_REG_PARAMETER) as Hl
    by (intros Hl; apply H3 in Hl; congruence).
  repeat case_match.
  all: constructor; fields; unfold string_or_default in *; auto;
    try congruence.
  all: try (intros; discriminate).
Qed.

Lemma turn_ok_end x :
  switch_ok x -> turn_ok (ContextForwardSetState doc None x).
Proof.
  intros [H1 H2 H3 H4]. constructor; fields; auto.
  - case_bool_decide as E; [auto|]. intros Hl. apply H3 in Hl.
    contradiction.
  - intros Hp. specialize (H4 Hp).
    destruct (ContextForwardSetState_fields doc None x) as (_ & _ & _ & ->).
    rewrite ch_Forward. case_match.
    + apply parameter_char in H4. tauto.
    + unfold SPACE, LF, CR. lia.
Qed.

(** Every turn keeps it. *)
Lemma turn_ok_body s :
  turn_ok (Lex_line_start doc s) ->
  turn_ok (Lex_line_start doc (Lex_body doc s)).
Proof.
  intros H. apply turn_ok_line_start. rewrite Lex_body_eq.
  apply turn_ok_end, switch_ok_default, switch_ok_switch, H.
Qed.

End TurnOk.

(** ** The starts of lines are starts of turns *)

Section Strides.

Variable doc : list Z.
Variable startPos : Z.
Hypothesis startPos_nonneg : 0 <= startPos.

Abbreviation strides := (strides doc startPos).

Lemma strides_refl c : cursor_inv doc startPos c -> strides c c.
Proof. intros H. split; [assumption|]. split; [lia|]. intros p Hp. lia. Qed.

Lemma strides_SetState c0 st c : strides c0 c -> strides c0 (SetState doc st c).
Proof.
  intros [Hi [H1 H2]]. split; [apply inv_SetState; assumption|].
  unfold no_line_start.
  destruct (SetState_fields doc st c) as (_ & -> & _). split; assumption.
Qed.

Lemma strides_Forward c0 c :
  strides c0 c -> ch c <> NUL -> ch c <> LF -> ch c <> CR ->
  strides c0 (Forward doc c).
Proof.
  intros [Hi [H1 H2]] Hnul Hlf Hcr.
  split; [apply inv_Forward; assumption|].
  destruct (Z.ltb_spec (currentPos c) (endPos c)) as [Hlt|Hge].
  - unfold no_line_start.
    destruct (Forward_fields doc c Hlt) as (_ & -> & _).
    pose proof Hi as [Hlo Hseg _ _ _ _ Hch _ _ _].
    rewrite Hch in Hnul, Hlf, Hcr by assumption.
    split; [lia|]. intros p Hp.
    destruct (decide (p = currentPos c + 1)) as [->|Hne]; [|apply H2; lia].
    unfold is_line_start. rewrite (proj2 (Z.eqb_neq _ _)) by lia.
    replace (currentPos c + 1 - 1) with (currentPos c) by lia.
    apply at_line_end_false; [|assumption|assumption].
    apply SafeGetCharAt_not_default in Hnul. lia.
  - unfold Forward. rewrite (proj2 (Z.ltb_ge _ _)) by lia. simpl.
    split; assumption.
Qed.

Lemma strides_CFS c0 o s :
  strides c0 (context s) ->
  ch (context s) <> NUL -> ch (context s) <> LF -> ch (context s) <> CR ->
  strides c0 (context (ContextForwardSetState doc o s)).
Proof.
  intros H Hnul Hlf Hcr.
  destruct (ContextForwardSetState_fields doc o s) as (_ & _ & _ & ->).
  destruct o as [st|].
  - apply strides_SetState, strides_Forward; assumption.
  - apply strides_Forward; assumption.
Qed.

Ltac char_neq :=
  repeat match goal with
  | H : (_ =? _) = true |- _ => apply Z.eqb_eq in H
  | H : _ && _ = true |- _ => apply andb_true_iff in H as [? ?]
  end;
  rewrite ?ch_SetState in *;
  unfold DQUOTE, BACKSLASH, RBRACKET, RBRACE, LBRACE, NUL, LF, CR in *;
  first [assumption | congruence | lia].

Lemma strides_switch c0 s :
  strides c0 (context s) -> turn_ok s -> ch (context s) <> NUL ->
  strides c0 (context (Lex_switch doc s)).
Proof.
  intros H [_ _ _ H4] Hnul. unfold Lex_switch.
  destruct (state (context s)) eqn:E; [assumption|..].
  all: unfold case_COMMENT, case_STRING, case_PARAMETER, case_VALUETYPE,
    case_OPERATOR, case_KEY, case_ESCAPED, case_GUID, case_GUID_close,
    case_GUID_next; cbv zeta.
  all: try (destruct (H4 eq_refl) as [Hlf Hcr]).
  all: repeat case_match.
  all: lex_simpl.
  all: repeat first
         [ assumption
         | apply strides_CFS
         | apply strides_SetState
         | apply strides_Forward
         | progress lex_simpl ].
  all: try char_neq.
Qed.

Lemma strides_default c0 x :
  strides c0 (context x) -> strides c0 (context (Lex_default doc x)).
Proof.
  intros H. unfold Lex_default. cbv zeta.
  repeat case_match; lex_simpl;
    repeat first [assumption | apply strides_SetState | progress lex_simpl].
Qed.

Lemma Lex_line_start_ch s :
  ch (context (Lex_line_start doc s)) = ch (context s).
Proof.
  unfold Lex_line_start. repeat case_match; lex_simpl;
    rewrite ?ch_SetState; reflexivity.
Qed.

Lemma strides_line_start c0 s :
  strides c0 (context s) -> strides c0 (context (Lex_line_start doc s)).
Proof.
  intros H. unfold Lex_line_start. repeat case_match; lex_simpl;
    repeat first [assumption | apply strides_SetState].
Qed.

(** A turn goes past no start of a line: only its last step can reach
    one. *)
Lemma turn_no_line_start s p :
  cursor_inv doc startPos (context s) -> Lex_cond s = true ->
  turn_ok (Lex_line_start doc s) ->
  currentPos (context s) < p < currentPos (context (Lex_body doc s)) ->
  is_line_start doc p = false.
Proof.
  intros Hi Hc Hok Hp. apply Lex_cond_true in Hc as [Hlt Hnul].
  assert (strides (context s)
            (context (Lex_default doc (Lex_switch doc (Lex_line_start doc s)))))
    as [Hi' [H1 H2]].
  { apply strides_default, strides_switch; [|assumption|].
    - apply strides_line_start, strides_refl, Hi.
    - rewrite Lex_line_start_ch. assumption. }
  apply H2. rewrite Lex_body_eq in Hp. revert Hp H1.
  generalize (Lex_default doc (Lex_switch doc (Lex_line_start doc s))).
  intros x Hp H1.
  destruct (turn_end_cursor doc x) as (_ & _ & _ & _ & [[_ H]|[_ H]]);
    cbv zeta in H; lia.
Qed.

End Strides.

Section LineStarts.

Variable doc : list Z.
Variables (startPos length : Z) (initStyle : Style).
Hypothesis startPos_nonneg : 0 <= startPos.
Hypothesis length_nonneg : 0 <= length.
Hypothesis span_in_doc : startPos + length <= Length doc.

Abbreviation init := (Lex_init doc startPos length initStyle).

Hypothesis init_ok : turn_ok (Lex_line_start doc init).

Lemma Lex_reaches_ok s :
  Lex_reaches doc init s -> turn_ok (Lex_line_start doc s).
Proof.
  induction 1 as [|s Hr IH Hc]; [assumption|]. apply turn_ok_body, IH.
Qed.

Lemma Lex_reaches_endPos s :
  Lex_reaches doc init s -> endPos (context s) = endPos (context init).
Proof.
  intros Hr.
  destruct (Lex_reaches_inv doc startPos startPos_nonneg _ _ Hr)
    as [(_ & He & _) _]. exact He.
Qed.

Lemma endPos_init : startPos + length <= endPos (context init).
Proof.
  unfold Lex_init, StyleContext_new. lex_simpl. case_match; simpl; lia.
Qed.

(** The loop takes a turn at the start of every line of the span that no
    NUL character comes before. *)
Lemma Lex_reaches_line_start a :
  startPos <= a < startPos + length ->
  is_line_start doc a = true ->
  (forall q, startPos <= q <= a -> SafeGetCharAt doc q NUL <> NUL) ->
  exists s,
    Lex_reaches doc init s /\ Lex_cond s = true
    /\ currentPos (context s) = a.
Proof.
  intros Ha Hls Hnul.
  assert (forall s, Lex_reaches doc init s ->
                    startPos <= currentPos (context s) <= a ->
                    Lex_cond s = true) as Hcond.
  { intros s Hr Hp.
    destruct (Lex_reaches_inv doc startPos startPos_nonneg _ _ Hr) as [_ Hi].
    specialize (Hi (inv_init doc startPos length initStyle length_nonneg
                      span_in_doc)).
    pose proof (Lex_reaches_endPos s Hr) as He. pose proof endPos_init.
    unfold Lex_cond, More. rewrite (proj2 (Z.ltb_lt _ _)) by lia.
    destruct Hi as [_ _ _ _ _ _ Hch _ _ _]. rewrite Hch by lia.
    rewrite (proj2 (Z.eqb_neq _ _)) by (apply Hnul; lia). reflexivity. }
  assert (forall n s, Lex_reaches doc init s ->
            startPos <= currentPos (context s) <= a ->
            a - currentPos (context s) <= Z.of_nat n ->
            exists s', Lex_reaches doc init s' /\ Lex_cond s' = true
                       /\ currentPos (context s') = a) as Hrun.
  { induction n as [|n IH]; intros s Hr Hp Hn.
    - exists s. split_and!; [assumption|apply Hcond; assumption|lia].
    - destruct (decide (currentPos (context s) = a)) as [Heq|Hne].
      + exists s. split_and!; [assumption|apply Hcond; assumption|assumption].
      + pose proof (Hcond s Hr Hp) as Hc.
        destruct (Lex_body_progress doc s Hc) as [Hlt _].
        destruct (Lex_reaches_inv doc startPos startPos_nonneg _ _ Hr)
          as [_ Hi].
        specialize (Hi (inv_init doc startPos length initStyle length_nonneg
                          span_in_doc)).
        assert (currentPos (context (Lex_body doc s)) <= a) as Hle.
        { destruct (Z.le_gt_cases (currentPos (context (Lex_body doc s))) a)
            as [|Hgt]; [assumption|]. exfalso.
          pose proof (turn_no_line_start doc startPos startPos_nonneg s a Hi Hc
                        (Lex_reaches_ok s Hr) ltac:(lia)) as Hf.
          congruence. }
        apply (IH (Lex_body doc s)); [apply reaches_next; assumption|lia|lia]. }
  apply (Hrun (Z.to_nat (a - startPos)) init).
  - apply reaches_first.
  - unfold Lex_init, StyleContext_new. lex_simpl. simpl. lia.
  - unfold Lex_init, StyleContext_new. lex_simpl. simpl. lia.
Qed.

End LineStarts.

(** ** Lines without a key *)

Section NoKey.

Variable doc : list Z.
Variable startPos : Z.
Hypothesis startPos_nonneg : 0 <= startPos.
(** The positions of the line. *)
Variables a b : Z.
Hypothesis b_in_doc : b <= Length doc.

Abbreviation no_key_style := (no_key_style doc startPos a b).
Abbreviation past_line := (past_line doc startPos a b).
Abbreviation no_key_turn := (no_key_turn doc startPos a b).

Lemma no_key_style_Forward c : no_key_style c -> no_key_style (Forward doc c).
Proof.
  intros (Hi & H1 & H2). split; [apply inv_Forward; assumption|].
  unfold Forward. case_match; simpl; auto.
Qed.

Lemma no_key_style_SetState st c :
  no_key_style c -> (currentPos c < b -> key_style st = false) ->
  no_key_style (SetState doc st c).
Proof.
  intros (Hi & H1 & H2) Hst. split; [apply inv_SetState; assumption|].
  pose proof Hi as [Hlo Hseg Hdoc _ _ Hlen _ _ _ _].
  assert (colour_pos doc c < currentPos c
          /\ (colour_pos doc c + 1 < b -> currentPos c < b)) as [Hp1 Hp2].
  { unfold colour_pos.
    destruct (Z.ltb_spec (Length doc) (currentPos c)); lia. }
  assert (startSeg c - 1 <= colour_pos doc c) as Hp3.
  { unfold colour_pos.
    destruct (Z.ltb_spec (Length doc) (currentPos c)); lia. }
  unfold SetState, with_state, ColourTo. cbn [state].
  destruct (Z.eqb_spec (colour_pos doc c) (startSeg c - 1)) as [He|Hne].
  { cbn [styles startSeg state]. split; [assumption|].
    intros Hlt. apply Hst. lia. }
  destruct (Z.ltb_spec (colour_pos doc c) (startSeg c)) as [Hlt|Hge]; [lia|].
  cbn [styles startSeg state]. split; [|intros Hlt; apply Hst; lia].
  intros q st' Hq. unfold style_of. case_match; [discriminate|].
  intros Hs. apply lookup_app_Some in Hs as [Hs|[Hge' Hs]].
  - apply (H1 q st' Hq). unfold style_of.
    rewrite (proj2 (Z.ltb_ge _ _)) by lia. assumption.
  - apply lookup_replicate in Hs as [-> _]. apply H2. lia.
Qed.

Lemma no_key_style_CFS o s :
  no_key_style (context s) ->
  (forall st, o = Some st -> key_style st = false) ->
  no_key_style (context (ContextForwardSetState doc o s)).
Proof.
  intros H Hst.
  destruct (ContextForwardSetState_fields doc o s) as (_ & _ & _ & ->).
  destruct o as [st|].
  - apply no_key_style_SetState; [apply no_key_style_Forward, H|].
    intros _. apply Hst. reflexivity.
  - apply no_key_style_Forward, H.
Qed.

Lemma key_style_string_or_default st :
  string_or_default st -> key_style st = false.
Proof. intros [->|[->| ->]]; reflexivity. Qed.

Ltac key_free :=
  repeat first
    [ assumption
    | reflexivity
    | apply no_key_style_CFS
    | apply no_key_style_SetState
    | apply no_key_style_Forward
    | progress lex_simpl ].

Lemma value_ok_switch s :
  no_key_style (context s) -> value_ok s ->
  no_key_style (context (Lex_switch doc s)) /\ value_ok (Lex_switch doc s).
Proof.
  intros Hn [H1 H2 H3 H4]. pose proof (key_style_string_or_default _ H3) as H3'.
  unfold Lex_switch.
  destruct (state (context s)) eqn:E; try discriminate H1.
  all: try (split; [assumption|constructor; rewrite ?E; assumption]).
  all: try (specialize (H4 (or_introl eq_refl))).
  all: unfold case_COMMENT, case_STRING, case_PARAMETER, case_VALUETYPE,
    case_OPERATOR, case_ESCAPED, case_GUID, case_GUID_close,
    case_GUID_next; cbv zeta.
  all: repeat case_match.
  all: split.
  all: try (key_free; intros; simplify_eq; try reflexivity; assumption).
  all: constructor; fields; rewrite ?E in *; fields.
  all: split_bools; try discriminate.
  all: unfold string_or_default; auto.
  all: try (intros [Hx|Hx]; try discriminate Hx).
  all: try (case_bool_decide; simplify_eq; auto).
  all: try (exfalso; destruct H3 as [H3|[H3|H3]]; congruence).
  all: try (apply H4; auto).
Qed.

Lemma value_ok_default x :
  no_key_style (context x) -> value_ok x ->
  ch (context x) <> LBRACKET ->
  no_key_style (context (Lex_default doc x)) /\ value_ok (Lex_default doc x).
Proof.
  intros Hn [H1 H2 H3 H4] Hch. unfold Lex_default. cbv zeta.
  case_bool_decide as E; [|split; [assumption|constructor; assumption]].
  apply Z.eqb_neq in Hch. rewrite Hch.
  repeat case_match.
  all: split.
  all: try (key_free; intros; simplify_eq; try reflexivity; assumption).
  all: constructor; fields; rewrite ?E in *; fields; auto.
  all: try (intros [Hx|Hx]; try discriminate Hx).
  all: try (apply H4; auto).
Qed.

Lemma value_ok_end x :
  no_key_style (context x) -> value_ok x ->
  no_key_style (context (ContextForwardSetState doc None x))
  /\ value_ok (ContextForwardSetState doc None x).
Proof.
  intros Hn [H1 H2 H3 H4]. split; [key_free; discriminate|].
  constructor; fields; auto.
  - case_bool_decide; assumption.
  - case_bool_decide as E; intros [Hx|Hx]; auto.
Qed.

Lemma value_ok_line_start s :
  no_key_style (context s) -> value_ok s ->
  no_key_style (context (Lex_line_start doc s))
  /\ value_ok (Lex_line_start doc s).
Proof.
  intros Hn [H1 H2 H3 H4]. unfold Lex_line_start.
  repeat case_match; (split; [key_free|]); try (constructor; assumption).
  all: try (constructor; fields; auto; intros [Hx|Hx]; discriminate).
Qed.

(** Past the line, whatever the turns do. *)
Lemma past_line_closed : cursor_closed doc past_line.
Proof.
  split.
  - intros c [H1 H2]. split; [apply no_key_style_Forward, H1|].
    unfold Forward. case_match; simpl; lia.
  - intros st c [H1 H2]. split.
    + apply no_key_style_SetState; [assumption|lia].
    + destruct (SetState_fields doc st c) as (_ & -> & _). assumption.
Qed.

Hypothesis no_bracket :
  forall q, a <= q < b -> SafeGetCharAt doc q NUL <> LBRACKET.

Lemma Lex_line_start_currentPos s :
  currentPos (context (Lex_line_start doc s)) = currentPos (context s).
Proof.
  unfold Lex_line_start. repeat case_match; lex_simpl; try reflexivity.
  all: apply (SetState_fields doc).
Qed.

Lemma no_key_turn_body s :
  Lex_cond s = true -> a <= currentPos (context s) ->
  b <= endPos (context s) ->
  no_key_turn s -> no_key_turn (Lex_body doc s).
Proof.
  intros Hc Ha Hb [Hn [Hv|Hp]].
  - destruct (value_ok_switch _ Hn Hv) as [Hn1 Hv1].
    rewrite Lex_body_eq.
    assert (ext doc (context s)
              (context (Lex_switch doc (Lex_line_start doc s))))
      as (Hpos & Hend & _).
    { apply (closed_switch doc _ (ext_closed doc (context s))),
        (closed_line_start doc _ (ext_closed doc (context s))), ext_refl. }
    set (x := Lex_switch doc (Lex_line_start doc s)) in *. clearbody x.
    destruct (Z.lt_ge_cases (currentPos (context x)) b) as [Hlt|Hge].
    + assert (ch (context x) <> LBRACKET) as Hch.
      { destruct Hn1 as ([_ _ _ _ _ _ Hch _ _ _] & _).
        rewrite Hch by lia. apply no_bracket. lia. }
      destruct (value_ok_default _ Hn1 Hv1 Hch) as [Hn2 Hv2].
      destruct (value_ok_end _ Hn2 Hv2) as [Hn3 Hv3].
      destruct (value_ok_line_start _ Hn3 Hv3) as [Hn4 Hv4].
      split; [assumption|left; assumption].
    + assert (past_line
                (context
                   (Lex_line_start doc
                      (ContextForwardSetState doc None (Lex_default doc x)))))
        as [Hn2 Hp2].
      { apply (closed_line_start doc _ past_line_closed),
          (closed_ContextForwardSetState doc _ past_line_closed),
          (closed_default doc _ past_line_closed).
        split; [assumption|lia]. }
      split; [assumption|right].
      rewrite Lex_line_start_currentPos in Hp2. assumption.
  - assert (past_line (context (Lex_line_start doc (Lex_body doc s))))
      as [Hn2 Hp2].
    { apply (closed_line_start doc _ past_line_closed),
        (closed_ContextForwardSetState doc _ past_line_closed),
        (closed_default doc _ past_line_closed),
        (closed_switch doc _ past_line_closed).
      split; [assumption|]. rewrite Lex_line_start_currentPos. assumption. }
    split; [assumption|right].
    rewrite Lex_line_start_currentPos in Hp2. assumption.
Qed.

Lemma no_key_turn_loop fuel s sf :
  Lex_loop doc fuel s = Some sf ->
  a <= currentPos (context s) -> b <= endPos (context s) ->
  no_key_turn s -> no_key_turn sf.
Proof.
  revert s. induction fuel as [|fuel IH]; intros s H Ha Hb Hn; simpl in H;
    destruct (Lex_cond s) eqn:Hc; try discriminate.
  - injection H as <-. assumption.
  - destruct (Lex_body_progress doc s Hc) as [Hlt He].
    apply (IH (Lex_body doc s)); [assumption|lia|lia|].
    apply no_key_turn_body; assumption.
  - injection H as <-. assumption.
Qed.

End NoKey.

(** ** The lines of a run *)

Section LinesOfLex.

Variable doc : list Z.
Variables (startPos length : Z) (initStyle : Style).
Hypothesis startPos_nonneg : 0 <= startPos.
Hypothesis length_nonneg : 0 <= length.
Hypothesis span_in_doc : startPos + length <= Length doc.

Abbreviation init := (Lex_init doc startPos length initStyle).

Hypothesis init_ok : turn_ok (Lex_line_start doc init).

Variable out : list Style.
Hypothesis run : Lex doc startPos length initStyle = Some out.

(** The styles are as many as the positions of a span without a NUL
    character. *)
Lemma Lex_length :
  (forall p, startPos <= p < startPos + length ->
             SafeGetCharAt doc p NUL <> NUL) ->
  Z.of_nat (List.length out) = length.
Proof.
  intros Hnul.
  destruct (Lex_run doc startPos length initStyle startPos_nonneg
              length_nonneg span_in_doc out run)
    as (sf & _ & -> & Hc & Hi & He).
  pose proof (inv_Complete doc startPos _ Hi) as [_ _ _ _ _ Hst _ _ _ _].
  rewrite Hst, (Complete_startSeg doc startPos) by assumption.
  destruct Hi as [Hlo Hseg _ Hpe _ _ Hch _ _ _].
  unfold Lex_init, StyleContext_new in He. lex_simpl. simpl in He.
  unfold pending_end, colour_pos.
  unfold Lex_cond, More in Hc. apply andb_false_iff in Hc as [Hc|Hc].
  - apply Z.ltb_ge in Hc.
    destruct (Z.eqb_spec (startPos + length) (Length doc));
      destruct (Z.ltb_spec (Length doc) (currentPos (context sf))); lia.
  - apply negb_false_iff, Z.eqb_eq in Hc.
    destruct (Z.ltb_spec (currentPos (context sf)) (endPos (context sf)))
      as [Hlt|Hge].
    + rewrite Hch in Hc by assumption.
      assert (startPos + length <= currentPos (context sf)) as Hcur.
      { destruct (Z.le_gt_cases (startPos + length) (currentPos (context sf)));
          [assumption|]. exfalso. apply (Hnul (currentPos (context sf))); lia. }
      destruct (Z.eqb_spec (startPos + length) (Length doc));
        destruct (Z.ltb_spec (Length doc) (currentPos (context sf))); lia.
    + destruct (Z.eqb_spec (startPos + length) (Length doc));
        destruct (Z.ltb_spec (Length doc) (currentPos (context sf))); lia.
Qed.

Variable a : Z.
Hypothesis a_in_span : startPos <= a < startPos + length.
Hypothesis a_line_start : is_line_start doc a = true.
Hypothesis a_not_continued : IsPrevNonWhitespace doc a BACKSLASH = false.
Hypothesis no_nul_before :
  forall q, startPos <= q <= a -> SafeGetCharAt doc q NUL <> NUL.

(** The turn at the start of the line. *)
Lemma line_start_turn :
  exists s,
    Lex_reaches doc init s /\ Lex_cond s = true
    /\ currentPos (context s) = a
    /\ cursor_inv doc startPos (context s)
    /\ pending_end doc (context s) = a
    /\ ch (context s) = SafeGetCharAt doc a NUL
    /\ turn_ok (Lex_line_start doc s)
    /\ Lex_line_start doc s
       = set_stateLastNonDefault SCE_REG_DEFAULT
           (set_context (SetState doc SCE_REG_DEFAULT)
              (set_highlight false s)).
Proof.
  destruct (Lex_reaches_line_start doc startPos length initStyle
              startPos_nonneg length_nonneg span_in_doc init_ok a a_in_span
              a_line_start no_nul_before) as (s & Hr & Hc & Hp).
  exists s.
  destruct (Lex_reaches_cursor doc startPos length initStyle startPos_nonneg
              length_nonneg span_in_doc s Hr Hc) as (Hi & _ & Hch & Hals & Hpe).
  rewrite Hp in Hch, Hals, Hpe.
  split_and!; auto.
  - apply (Lex_reaches_ok doc startPos length initStyle init_ok s Hr).
  - unfold Lex_line_start. rewrite Hals, a_line_start, Hp, a_not_continued.
    reflexivity.
Qed.

(** A line that begins with an opening bracket: the bracket is given a
    key path style. *)
Lemma key_line_style :
  SafeGetCharAt doc a NUL = LBRACKET ->
  exists st, style_of startPos out a = Some st /\ IsKeyPathState st = true.
Proof.
  intros Hch.
  destruct line_start_turn as (s & Hr & Hc & Hp & Hi & Hpe & Hchs & Hok & Hls).
  set (s1 := Lex_switch doc (Lex_line_start doc s)).
  assert (s1 = Lex_line_start doc s) as Hs1.
  { subst s1. unfold Lex_switch. rewrite Hls. reflexivity. }
  assert (state (context s1) = SCE_REG_DEFAULT) as Hst
    by (rewrite Hs1, Hls; reflexivity).
  assert (currentPos (context s1) = a) as Hp1.
  { rewrite Hs1, Hls. lex_simpl.
    destruct (SetState_fields doc SCE_REG_DEFAULT (context s)) as (_ & -> & _).
    assumption. }
  assert (ch (context s1) = LBRACKET) as Hch1.
  { rewrite Hs1, Hls. lex_simpl. rewrite ch_SetState. congruence. }
  assert (endPos (context s1) = endPos (context s)) as He1.
  { rewrite Hs1, Hls. lex_simpl.
    destruct (SetState_fields doc SCE_REG_DEFAULT (context s))
      as (_ & _ & -> & _). reflexivity. }
  pose proof (Lex_default_bracket doc s1 Hst Hch1) as Hdef.
  apply Lex_cond_true in Hc as Hc'. destruct Hc' as [Hlt _].
  destruct (entered_style doc startPos length initStyle startPos_nonneg
              length_nonneg span_in_doc s out _ Hr Hc run Hdef)
    as [_ Hsty].
  - fold s1. lia.
  - fold s1. rewrite Hch1. discriminate.
  - fold s1 in Hsty. rewrite Hp1 in Hsty. eexists. split; [exact Hsty|].
    case_match; reflexivity.
Qed.

(** A line without an opening bracket: none of its positions is given the
    style of a key. *)
Lemma value_line_styles b :
  a < b <= startPos + length ->
  (forall q, a <= q < b -> SafeGetCharAt doc q NUL <> LBRACKET) ->
  forall q st, a <= q < b ->
    style_of startPos out q = Some st -> key_style st = false.
Proof.
  intros Hb Hnb.
  destruct line_start_turn as (s & Hr & Hc & Hp & Hi & Hpe & Hchs & Hok & Hls).
  assert (no_key_turn doc startPos a b s) as Hs.
  { split; [|left]; rewrite Hls; lex_simpl.
    - split; [apply inv_SetState; assumption|]. split.
      + intros q st Hq. unfold style_of. case_match; [discriminate|].
        intros Hl. apply lookup_lt_Some in Hl.
        pose proof (inv_SetState doc startPos SCE_REG_DEFAULT _ Hi)
          as [_ _ _ _ _ Hlen _ _ _ _].
        destruct (SetState_fields doc SCE_REG_DEFAULT (context s))
          as (_ & _ & _ & _ & Hsg).
        rewrite (Complete_startSeg doc startPos) in Hsg by assumption.
        lia.
      + reflexivity.
    - destruct Hok as [H1 _ _ _]. rewrite Hls in H1. lex_simpl.
      constructor; lex_simpl; auto. intros [Hx|Hx]; discriminate. }
  destruct (Lex_run doc startPos length initStyle startPos_nonneg
              length_nonneg span_in_doc out run)
    as (sf & Hsf & Hout & _ & Hif & _).
  destruct (Lex_reaches_loop doc _ _ _ _ Hr Hsf) as [fuel' Hloop].
  pose proof (Lex_reaches_endPos doc startPos length initStyle
                startPos_nonneg s Hr) as He.
  pose proof (endPos_init doc startPos length initStyle) as He0.
  assert (no_key_turn doc startPos a b sf) as [Hn _].
  { apply (no_key_turn_loop doc startPos startPos_nonneg a b ltac:(lia) Hnb
             fuel' s sf Hloop); [lia|lia|assumption]. }
  assert (no_key_style doc startPos a b
            (SetState doc SCE_REG_DEFAULT (context sf))) as (_ & H & _).
  { destruct (Lex_line_start_fields doc sf)
      as (_ & _ & _ & [(Hx & _)|(Hx & _)]); rewrite Hx in Hn.
    - apply no_key_style_SetState; [lia|assumption|reflexivity].
    - assumption. }
  subst out. exact H.
Qed.

End LinesOfLex.

(** ** A line in a document *)

Section OneLine.

Variables pre l nl rest : list Z.

Let doc := pre ++ l ++ nl ++ rest.
Let a := Z.of_nat (List.length pre).
Let b := Z.of_nat (List.length pre + List.length (l ++ nl)).

Lemma line_char (k : nat) c :
  (l ++ nl) !! k = Some c -> SafeGetCharAt doc (a + Z.of_nat k) NUL = c.
Proof.
  intros Hk. subst doc a. rewrite SafeGetCharAt_app_r.
  rewrite app_assoc.
  rewrite lookup_app_l by (eapply lookup_lt_Some; eassumption).
  rewrite Hk. reflexivity.
Qed.

Lemma line_forall (P : Z -> Prop) q :
  last_break nl -> Forall P l -> P LF -> P CR -> a <= q < b ->
  P (SafeGetCharAt doc q NUL).
Proof.
  intros nl_break Hl Hlf Hcr Hq.
  assert (Forall P (l ++ nl)) as Hall.
  { apply Forall_app. split; [assumption|].
    destruct nl_break as [[->|[->| ->]]| ->]; repeat constructor; assumption. }
  destruct ((l ++ nl) !! Z.to_nat (q - a)) as [c|] eqn:Hk.
  - pose proof (line_char _ _ Hk) as Hc.
    replace (a + Z.of_nat (Z.to_nat (q - a))) with q in Hc by lia.
    rewrite Hc. eapply Forall_lookup_1; eassumption.
  - apply lookup_ge_None in Hk. subst a b. lia.
Qed.

Lemma doc_length :
  Length doc = b + Z.of_nat (List.length rest).
Proof. subst doc b. unfold Length. rewrite !length_app. lia. Qed.

Hypothesis nl_break : line_break nl.

Lemma break_nonempty : (1 <= List.length nl)%nat.
Proof. destruct nl_break as [->|[->| ->]]; simpl; lia. Qed.

(** The position after the line break is the first of a line. *)
Lemma next_line_start :
  (nl = [CR] -> head rest <> Some LF) -> is_line_start doc b = true.
Proof.
  intros Hcr. pose proof break_nonempty as Hn. pose proof doc_length as Hlen.
  unfold is_line_start. apply orb_true_iff. right.
  assert (exists c, (l ++ nl) !! (List.length (l ++ nl) - 1)%nat = Some c
                    /\ (c = LF \/ c = CR /\ nl = [CR])) as (c & Hk & Hc).
  { rewrite lookup_app_r by (rewrite length_app; lia).
    rewrite length_app.
    destruct nl_break as [->|[->| ->]]; simpl;
      [ replace (List.length l + 1 - 1 - List.length l)%nat with 0%nat by lia
      | replace (List.length l + 1 - 1 - List.length l)%nat with 0%nat by lia
      | replace (List.length l + 2 - 1 - List.length l)%nat with 1%nat by lia ];
      simpl; eauto. }
  apply line_char in Hk.
  assert (a + Z.of_nat (List.length (l ++ nl) - 1) = b - 1) as Hpos
    by (rewrite length_app in *; subst a b; rewrite length_app; lia).
  rewrite Hpos in Hk. unfold at_line_end.
  rewrite (proj2 (Z.leb_gt _ _)) by lia. rewrite Hk.
  destruct Hc as [->|[-> Hnl]]; [reflexivity|].
  change (CR =? LF) with false. change (CR =? CR) with true. cbn [orb andb].
  replace (b - 1 + 1) with b by lia.
  assert (SafeGetCharAt doc b NUL <> LF) as Hb.
  { subst doc b.
    replace (pre ++ l ++ nl ++ rest) with ((pre ++ l ++ nl) ++ rest)
      by (rewrite <- !app_assoc; reflexivity).
    replace (Z.of_nat (List.length pre + List.length (l ++ nl)))
      with (Z.of_nat (List.length (pre ++ l ++ nl)) + Z.of_nat 0)
      by (rewrite !length_app; lia).
    rewrite SafeGetCharAt_app_r. specialize (Hcr Hnl).
    destruct rest as [|r rest']; simpl in *; [discriminate|congruence]. }
  rewrite (proj2 (Z.eqb_neq _ _) Hb). reflexivity.
Qed.

(** The line after a line whose last visible character is not a
    backslash is not a continuation. *)
Lemma next_not_continued :
  not_continued l -> IsPrevNonWhitespace doc b BACKSLASH = false.
Proof.
  intros (l' & c & w & Hl & Hc1 & Hc2 & Hw).
  destruct (IsPrevNonWhitespace doc b BACKSLASH) eqn:E; [exfalso|reflexivity].
  unfold IsPrevNonWhitespace in E.
  destruct (IsPrevNonWhitespace_loop doc (scan_fuel doc) b BACKSLASH)
    as [[|]|] eqn:El; try discriminate.
  apply IsPrevNonWhitespace_loop_sound in El as (p & Hp & Hch & Hws & _).
  set (pc := a + Z.of_nat (List.length l')).
  assert (SafeGetCharAt doc pc NUL = c) as Hpc.
  { apply line_char. rewrite Hl, <- !app_assoc.
    rewrite lookup_app_r by lia.
    replace (List.length l' - List.length l')%nat with 0%nat by lia.
    reflexivity. }
  assert (pc < b) as Hlt.
  { subst pc a b. rewrite Hl, !length_app. simpl. lia. }
  destruct (Z.lt_trichotomy p pc) as [Hlt'|[Heq|Hgt]].
  - specialize (Hws pc ltac:(lia)). congruence.
  - subst p. congruence.
  - assert (isspacechar (SafeGetCharAt doc p NUL) = true) as Hsp.
    { destruct ((l ++ nl) !! Z.to_nat (p - a)) as [x|] eqn:Hk.
      - pose proof (line_char _ _ Hk) as Hx.
        replace (a + Z.of_nat (Z.to_nat (p - a))) with p in Hx
          by (subst pc; lia).
        rewrite Hx.
        replace (l ++ nl) with ((l' ++ [c]) ++ (w ++ nl)) in Hk
          by (rewrite Hl, <- !app_assoc; reflexivity).
        rewrite lookup_app_r in Hk
          by (rewrite length_app; simpl; subst pc; lia).
        apply list_elem_of_lookup_2, elem_of_app in Hk as [Hk|Hk].
        + apply (proj1 (Forall_forall _ _) Hw _ Hk).
        + destruct nl_break as [->|[->| ->]];
            repeat (apply elem_of_cons in Hk as [->|Hk]; [reflexivity|]);
            inversion Hk.
      - apply lookup_ge_None in Hk. subst pc a b. lia. }
    rewrite Hch in Hsp. discriminate.
Qed.

End OneLine.

(** ** Four lines, from [Lex] to [Fold] *)

Lemma IsPrevNonWhitespace_0 doc ch : IsPrevNonWhitespace doc 0 ch = false.
Proof.
  unfold IsPrevNonWhitespace, scan_fuel. cbn [IsPrevNonWhitespace_loop].
  rewrite AtBeginOfLine_outside by lia. reflexivity.
Qed.

(** At the start of a document the loop begins as it should, whatever the
    initial style. *)
Lemma turn_ok_init doc length initStyle :
  turn_ok (Lex_line_start doc (Lex_init doc 0 length initStyle)).
Proof.
  unfold Lex_line_start, Lex_init, StyleContext_new. lex_simpl.
  cbn [atLineStart currentPos]. change (is_line_start doc 0) with true.
  cbv iota. rewrite IsPrevNonWhitespace_0. cbn [negb]. lex_simpl.
  constructor; lex_simpl; unfold string_or_default; auto; try discriminate.
Qed.

Lemma not_continued_visible l : not_continued l -> 0 < visible l.
Proof.
  intros (l' & c & w & -> & Hc & _). unfold visible.
  rewrite filter_app, filter_cons, length_app.
  destruct (decide (isspacechar c = false)); [|contradiction].
  cbn [List.length]. lia.
Qed.

Lemma key_styled_true t k st :
  t !! k = Some st -> IsKeyPathState st = true -> key_styled t = true.
Proof.
  intros Hk Hst. unfold key_styled. apply existsb_exists. exists st.
  split; [|assumption]. apply list_elem_of_In.
  eapply list_elem_of_lookup_2; eassumption.
Qed.

Lemma key_styled_false t :
  (forall k st, t !! k = Some st -> key_style st = false) ->
  key_styled t = false.
Proof.
  intros H. unfold key_styled. apply not_true_is_false. intros Hex.
  apply existsb_exists in Hex as (st & Hin & Hst).
  apply list_elem_of_In, list_elem_of_lookup_1 in Hin as [k Hk].
  specialize (H k st Hk). unfold key_style in H. rewrite Hst in H.
  discriminate.
Qed.

Section FourLinesOfLex.

Variable options : OptionsRegistry.
Variables l1 n1 l2 n2 l3 n3 l4 n4 : list Z.
Variable initStyle : Style.

Hypothesis fold_on : fold options = true.
Hypothesis line1 : key_line l1.
Hypothesis line2 : value_line l2.
Hypothesis line3 : key_line l3.
Hypothesis line4 : value_line l4.
Hypothesis break1 : line_break n1.
Hypothesis break2 : line_break n2.
Hypothesis break3 : line_break n3.
Hypothesis break4 : last_break n4.
Hypothesis counted4 : 0 < visible (counted l4 n4).

Let doc := (l1 ++ n1) ++ (l2 ++ n2) ++ (l3 ++ n3) ++ (l4 ++ n4).
Let m1 := List.length (l1 ++ n1).
Let m2 := List.length (l2 ++ n2).
Let m3 := List.length (l3 ++ n3).
Let m4 := List.length (l4 ++ n4).

Lemma doc_eq1 :
  doc = [] ++ l1 ++ n1 ++ ((l2 ++ n2) ++ (l3 ++ n3) ++ (l4 ++ n4)).
Proof. unfold doc. rewrite <- !app_assoc. reflexivity. Qed.

Lemma doc_eq2 : doc = (l1 ++ n1) ++ l2 ++ n2 ++ ((l3 ++ n3) ++ (l4 ++ n4)).
Proof. unfold doc. rewrite <- !app_assoc. reflexivity. Qed.

Lemma doc_eq3 : doc = ((l1 ++ n1) ++ (l2 ++ n2)) ++ l3 ++ n3 ++ (l4 ++ n4).
Proof. unfold doc. rewrite <- !app_assoc. reflexivity. Qed.

Lemma doc_eq4 :
  doc = ((l1 ++ n1) ++ (l2 ++ n2) ++ (l3 ++ n3)) ++ l4 ++ n4 ++ [].
Proof. unfold doc. rewrite <- !app_assoc, app_nil_r. reflexivity. Qed.

Lemma doc_Length : Length doc = Z.of_nat (m1 + m2 + m3 + m4).
Proof. unfold Length, doc, m1, m2, m3, m4. rewrite !length_app. lia. Qed.

Lemma line_head l rest :
  line_text l -> not_continued l -> head (l ++ rest) <> Some LF.
Proof.
  intros Hl (l' & c & w & Heq & _). destruct l as [|x l].
  { destruct l'; discriminate. }
  apply Forall_cons in Hl as [[H _] _]. simpl. congruence.
Qed.

(** A property of every character of every line holds of every character
    of the document. *)
Lemma doc_forall (P : Z -> Prop) q :
  Forall P l1 -> Forall P l2 -> Forall P l3 -> Forall P l4 ->
  P LF -> P CR -> 0 <= q < Length doc -> P (SafeGetCharAt doc q NUL).
Proof.
  intros H1 H2 H3 H4 Hlf Hcr Hq. rewrite doc_Length in Hq.
  destruct (Z.lt_ge_cases q (Z.of_nat m1)).
  { rewrite doc_eq1.
    apply (line_forall [] l1 n1 _ P q (or_introl break1) H1 Hlf Hcr).
    cbn [List.length]. unfold m1 in *. lia. }
  destruct (Z.lt_ge_cases q (Z.of_nat (m1 + m2))).
  { rewrite doc_eq2.
    apply (line_forall _ l2 n2 _ P q (or_introl break2) H2 Hlf Hcr).
    unfold m1, m2 in *. lia. }
  destruct (Z.lt_ge_cases q (Z.of_nat (m1 + m2 + m3))).
  { rewrite doc_eq3.
    apply (line_forall _ l3 n3 _ P q (or_introl break3) H3 Hlf Hcr).
    unfold m1, m2, m3 in *. rewrite !length_app in *. lia. }
  rewrite doc_eq4. apply (line_forall _ l4 n4 _ P q break4 H4 Hlf Hcr).
  unfold m1, m2, m3, m4 in *. rewrite !length_app in *. lia.
Qed.

Variable out : list Style.
Hypothesis run : Lex doc 0 (Length doc) initStyle = Some out.

Let t1 := take m1 out.
Let t2 := take m2 (drop m1 out).
Let t3 := take m3 (drop (m1 + m2) out).
Let t4 := drop (m1 + m2 + m3) out.

Lemma no_nul q : 0 <= q < 0 + Length doc -> SafeGetCharAt doc q NUL <> NUL.
Proof.
  intros Hq. destruct line1 as (_ & H1 & _), line2 as (_ & H2 & _),
    line3 as (_ & H3 & _), line4 as (_ & H4 & _).
  apply (doc_forall (fun c => c <> NUL)); try assumption; discriminate.
Qed.

Lemma out_length : List.length out = (m1 + m2 + m3 + m4)%nat.
Proof.
  pose proof (Lex_length doc 0 (Length doc) initStyle ltac:(lia)
                ltac:(unfold Length; lia) ltac:(lia) out run no_nul) as H.
  rewrite doc_Length in H. lia.
Qed.

Lemma out_eq : out = t1 ++ t2 ++ t3 ++ t4.
Proof.
  subst t1 t2 t3 t4.
  rewrite <- (take_drop m1 out) at 1. f_equal.
  rewrite <- (take_drop m2 (drop m1 out)) at 1. f_equal.
  rewrite drop_drop.
  rewrite <- (take_drop m3 (drop (m1 + m2) out)) at 1. f_equal.
  rewrite drop_drop. reflexivity.
Qed.

Lemma style_of_out q st :
  style_of 0 out (Z.of_nat q) = Some st -> out !! q = Some st.
Proof.
  unfold style_of. rewrite (proj2 (Z.ltb_ge _ _)) by lia.
  rewrite Z.sub_0_r, Nat2Z.id. auto.
Qed.

Lemma out_style_of q st :
  out !! q = Some st -> style_of 0 out (Z.of_nat q) = Some st.
Proof.
  unfold style_of. rewrite (proj2 (Z.ltb_ge _ _)) by lia.
  rewrite Z.sub_0_r, Nat2Z.id. auto.
Qed.

Lemma lengths_positive : (1 <= m1 /\ 1 <= m2 /\ 1 <= m3 /\ 1 <= m4)%nat.
Proof.
  unfold m1, m2, m3, m4. rewrite !length_app.
  destruct line4 as (_ & _ & _ & l' & c & w & -> & _).
  rewrite length_app.
  destruct break1 as [->|[->| ->]], break2 as [->|[->| ->]],
    break3 as [->|[->| ->]]; simpl; lia.
Qed.

Let init_ok := turn_ok_init doc (Length doc) initStyle.

Lemma span_ok : 0 <= 0 /\ 0 <= Length doc /\ 0 + Length doc <= Length doc.
Proof. unfold Length. lia. Qed.

Lemma no_nul_before a :
  a < Length doc -> forall q, 0 <= q <= a -> SafeGetCharAt doc q NUL <> NUL.
Proof. intros Ha q Hq. apply no_nul. lia. Qed.

Lemma key_styled_1 : key_styled t1 = true.
Proof.
  destruct span_ok as (S1 & S2 & S3). pose proof lengths_positive as Hm.
  pose proof doc_Length as Hlen.
  destruct line1 as (Ht & _ & Hh & Hn).
  destruct (key_line_style doc 0 (Length doc) initStyle S1 S2 S3 init_ok out
              run 0) as (st & Hst & Hk).
  - lia.
  - reflexivity.
  - apply IsPrevNonWhitespace_0.
  - apply no_nul_before. lia.
  - rewrite doc_eq1.
    apply (line_char [] l1 n1 _ 0%nat LBRACKET).
    destruct l1; [discriminate|]. simpl in *. congruence.
  - apply (key_styled_true t1 0%nat st); [|assumption].
    unfold t1. rewrite lookup_take_lt by lia.
    apply (style_of_out 0%nat). assumption.
Qed.

Lemma key_styled_3 : key_styled t3 = true.
Proof.
  destruct span_ok as (S1 & S2 & S3). pose proof lengths_positive as Hm.
  pose proof doc_Length as Hlen.
  destruct line2 as (_ & _ & _ & Hn2). destruct line3 as (Ht & _ & Hh & Hn).
  destruct (key_line_style doc 0 (Length doc) initStyle S1 S2 S3 init_ok out
              run (Z.of_nat (m1 + m2))) as (st & Hst & Hk).
  - lia.
  - rewrite doc_eq2. apply next_line_start; [assumption|].
    intros _. rewrite <- app_assoc. apply line_head; assumption.
  - rewrite doc_eq2. apply next_not_continued; assumption.
  - apply no_nul_before. lia.
  - rewrite doc_eq3.
    replace (Z.of_nat (m1 + m2))
      with (Z.of_nat (List.length ((l1 ++ n1) ++ l2 ++ n2)) + Z.of_nat 0)
      by (rewrite length_app; fold m1 m2; lia).
    apply (line_char _ l3 n3 _ 0%nat LBRACKET).
    destruct l3; [discriminate|]. simpl in *. congruence.
  - apply (key_styled_true t3 0%nat st); [|assumption].
    unfold t3. rewrite lookup_take_lt by lia. rewrite lookup_drop.
    apply style_of_out. rewrite Nat.add_0_r. assumption.
Qed.

Lemma key_styled_2 : key_styled t2 = false.
Proof.
  destruct span_ok as (S1 & S2 & S3). pose proof lengths_positive as Hm.
  pose proof doc_Length as Hlen.
  destruct line1 as (_ & _ & _ & Hn1). destruct line2 as (Ht & _ & Hb & Hn).
  apply key_styled_false. intros k st Hk.
  assert (k < m2)%nat as Hlt.
  { apply lookup_lt_Some in Hk. unfold t2 in Hk.
    rewrite length_take in Hk. lia. }
  unfold t2 in Hk. rewrite lookup_take_lt, lookup_drop in Hk by lia.
  apply out_style_of in Hk.
  apply (value_line_styles doc 0 (Length doc) initStyle S1 S2 S3 init_ok out
           run (Z.of_nat m1))
    with (b := Z.of_nat (m1 + m2)) (q := Z.of_nat (m1 + k)).
  - lia.
  - rewrite doc_eq1. apply next_line_start; [assumption|].
    intros _. rewrite <- app_assoc. apply line_head; assumption.
  - rewrite doc_eq1. apply next_not_continued; assumption.
  - apply no_nul_before. lia.
  - lia.
  - intros q Hq. rewrite doc_eq2.
    apply (line_forall _ l2 n2 _ (fun c => c <> LBRACKET));
      try assumption; try discriminate; try (fold m1 m2; lia).
    left. assumption.
  - lia.
  - assumption.
Qed.

Lemma key_styled_4 : key_styled t4 = false.
Proof.
  destruct span_ok as (S1 & S2 & S3). pose proof lengths_positive as Hm.
  pose proof doc_Length as Hlen. pose proof out_length as Hout.
  destruct line3 as (_ & _ & _ & Hn3). destruct line4 as (Ht & _ & Hb & Hn).
  apply key_styled_false. intros k st Hk.
  assert (k < m4)%nat as Hlt.
  { apply lookup_lt_Some in Hk. unfold t4 in Hk.
    rewrite length_drop in Hk. lia. }
  unfold t4 in Hk. rewrite lookup_drop in Hk.
  apply out_style_of in Hk.
  apply (value_line_styles doc 0 (Length doc) initStyle S1 S2 S3 init_ok out
           run (Z.of_nat (m1 + m2 + m3)))
    with (b := Length doc) (q := Z.of_nat (m1 + m2 + m3 + k)).
  - lia.
  - rewrite doc_eq3.
    replace (Z.of_nat (m1 + m2 + m3))
      with (Z.of_nat (List.length ((l1 ++ n1) ++ l2 ++ n2)
                      + List.length (l3 ++ n3)))
      by (rewrite length_app; fold m1 m2 m3; lia).
    apply next_line_start; [assumption|].
    intros _. apply line_head; assumption.
  - rewrite doc_eq3.
    replace (Z.of_nat (m1 + m2 + m3))
      with (Z.of_nat (List.length ((l1 ++ n1) ++ l2 ++ n2)
                      + List.length (l3 ++ n3)))
      by (rewrite length_app; fold m1 m2 m3; lia).
    apply next_not_continued; assumption.
  - apply no_nul_before. lia.
  - lia.
  - intros q Hq. rewrite doc_eq4.
    apply (line_forall _ l4 n4 _ (fun c => c <> LBRACKET));
      try assumption; try discriminate;
      try (unfold m1, m2, m3, m4 in *; rewrite !length_app in *; lia).
  - lia.
  - assumption.
Qed.

(** The levels of the four lines, from the styles of [Lex]. *)
Lemma Fold_Lex_four_lines lv :
  let r := Fold options doc out 0 (Length doc) lv in
  LevelAt r.1 0 = Z.lor SC_FOLDLEVELBASE SC_FOLDLEVELHEADERFLAG
  /\ LevelAt r.1 1 = SC_FOLDLEVELBASE + 1
  /\ LevelAt r.1 2 = Z.lor SC_FOLDLEVELBASE SC_FOLDLEVELHEADERFLAG
  /\ LevelAt r.1 3 = SC_FOLDLEVELBASE + 1.
Proof.
  pose proof lengths_positive as Hm. pose proof out_length as Hout.
  rewrite out_eq. unfold doc.
  destruct line1 as (T1 & _ & _ & N1), line2 as (T2 & _ & _ & N2),
    line3 as (T3 & _ & _ & N3), line4 as (T4 & _ & _ & N4).
  apply Fold_four_lines; try assumption;
    try (apply not_continued_visible; assumption).
  - unfold t1. rewrite length_take. fold m1. lia.
  - unfold t2. rewrite length_take, length_drop. fold m2. lia.
  - unfold t3. rewrite length_take, length_drop. fold m3. lia.
  - unfold t4. rewrite length_drop. fold m4. lia.
  - apply key_styled_1.
  - apply key_styled_2.
  - apply key_styled_3.
  - apply key_styled_4.
Qed.

End FourLinesOfLex.

(** C7: with the fold option disabled, [Fold] makes no call of [SetLevel]
    and leaves every stored level as it was. With the option enabled, on
    every document of four lines, each ended by a line feed, a carriage
    return or the two together, the last one also by the end of the
    document, whatever the levels stored before and whatever the compact
    option, [Fold] leaves the levels base|header, base+1, base|header and
    base+1:
    - from any stored styles in which a character of the first and of the
      third line has a key path style and no character of the second and
      of the fourth line has one, each line having a visible character
      that [Fold] counts: this is all that [Fold] reads of the lines;
    - from the styles that [Lex] gives to the document, whatever the
      initial style, when the first and the third line are lines of a key
      (they begin with an opening bracket) and the second and the fourth
      are lines of values (they have no opening bracket: an assignment, a
      comment, any other text), no line holding a NUL character or ending
      in a backslash that would continue it on the next line.
    [Fold] closes the last line at the last position of the span before
    it counts the character there: a last line that the end of the
    document ends needs a visible character before its last one. *)
Theorem Fold_two_keys :
  (forall options doc docStyles startPos length lv,
      fold options = false ->
      Fold options doc docStyles startPos length lv = (lv, []))
  /\ (forall options l1 n1 l2 n2 l3 n3 l4 n4 t1 t2 t3 t4 lv,
        fold options = true ->
        line_text l1 /\ line_text l2 /\ line_text l3 /\ line_text l4 ->
        line_break n1 /\ line_break n2 /\ line_break n3 /\ last_break n4 ->
        0 < visible l1 /\ 0 < visible l2 /\ 0 < visible l3
        /\ 0 < visible (counted l4 n4) ->
        List.length t1 = List.length (l1 ++ n1)
        /\ List.length t2 = List.length (l2 ++ n2)
        /\ List.length t3 = List.length (l3 ++ n3)
        /\ List.length t4 = List.length (l4 ++ n4) ->
        key_styled t1 = true /\ key_styled t2 = false
        /\ key_styled t3 = true /\ key_styled t4 = false ->
        let doc := (l1 ++ n1) ++ (l2 ++ n2) ++ (l3 ++ n3) ++ (l4 ++ n4) in
        let r := Fold options doc (t1 ++ t2 ++ t3 ++ t4) 0 (Length doc) lv in
        LevelAt r.1 0 = Z.lor SC_FOLDLEVELBASE SC_FOLDLEVELHEADERFLAG
        /\ LevelAt r.1 1 = SC_FOLDLEVELBASE + 1
        /\ LevelAt r.1 2 = Z.lor SC_FOLDLEVELBASE SC_FOLDLEVELHEADERFLAG
        /\ LevelAt r.1 3 = SC_FOLDLEVELBASE + 1)
  /\ (forall options l1 n1 l2 n2 l3 n3 l4 n4 initStyle lv,
        fold options = true ->
        key_line l1 /\ value_line l2 /\ key_line l3 /\ value_line l4 ->
        line_break n1 /\ line_break n2 /\ line_break n3 /\ last_break n4 ->
        (n4 = [] -> 0 < visible (removelast l4)) ->
        let doc := (l1 ++ n1) ++ (l2 ++ n2) ++ (l3 ++ n3) ++ (l4 ++ n4) in
        exists out,
          Lex doc 0 (Length doc) initStyle = Some out
          /\ let r := Fold options doc out 0 (Length doc) lv in
             LevelAt r.1 0 = Z.lor SC_FOLDLEVELBASE SC_FOLDLEVELHEADERFLAG
             /\ LevelAt r.1 1 = SC_FOLDLEVELBASE + 1
             /\ LevelAt r.1 2 = Z.lor SC_FOLDLEVELBASE SC_FOLDLEVELHEADERFLAG
             /\ LevelAt r.1 3 = SC_FOLDLEVELBASE + 1).
Proof.
  split_and!.
  - intros options doc docStyles startPos length lv H. unfold Fold.
    rewrite H. reflexivity.
  - intros options l1 n1 l2 n2 l3 n3 l4 n4 t1 t2 t3 t4 lv Hf
      (T1 & T2 & T3 & T4) (B1 & B2 & B3 & B4) (V1 & V2 & V3 & V4)
      (S1 & S2 & S3 & S4) (K1 & K2 & K3 & K4).
    apply Fold_four_lines; assumption.
  - intros options l1 n1 l2 n2 l3 n3 l4 n4 initStyle lv Hf
      (L1 & L2 & L3 & L4) (B1 & B2 & B3 & B4) V4 doc.
    destruct (Lex_total doc 0 (Length doc) initStyle) as [out Hout].
    exists out. split; [assumption|].
    apply (Fold_Lex_four_lines options l1 n1 l2 n2 l3 n3 l4 n4 initStyle);
      try assumption.
    destruct n4 as [|c n4]; [apply V4; reflexivity|].
    cbn [counted]. apply not_continued_visible, L4.
Qed.

Lemma Fold_two_keys_witness :
  let doc := (str "[Key]" ++ [CR; LF])
             ++ ((quoted "a" ++ [EQUALS] ++ quoted "b") ++ [CR; LF])
             ++ (str "[Key]" ++ [CR; LF])
             ++ ((quoted "a" ++ [EQUALS] ++ quoted "b") ++ []) in
  exists out,
    Lex doc 0 (Length doc) SCE_REG_DEFAULT = Some out
    /\ let r := Fold (mkOptionsRegistry true true) doc out 0 (Length doc) ∅ in
       LevelAt r.1 0 = Z.lor SC_FOLDLEVELBASE SC_FOLDLEVELHEADERFLAG
       /\ LevelAt r.1 1 = SC_FOLDLEVELBASE + 1
       /\ LevelAt r.1 2 = Z.lor SC_FOLDLEVELBASE SC_FOLDLEVELHEADERFLAG
       /\ LevelAt r.1 3 = SC_FOLDLEVELBASE + 1.
Proof.
  assert (line_text (str "[Key]")) as T1.
  { unfold line_text.
    repeat (apply Forall_cons; split; [split; discriminate|]).
    apply Forall_nil_2. }
  assert (line_text (quoted "a" ++ [EQUALS] ++ quoted "b")) as T2.
  { unfold line_text.
    repeat (apply Forall_cons; split; [split; discriminate|]).
    apply Forall_nil_2. }
  assert (key_line (str "[Key]")) as K.
  { split_and!; [assumption| |reflexivity|].
    - repeat (apply Forall_cons; split; [discriminate|]). apply Forall_nil_2.
    - exists (str "[Key"), RBRACKET, []. split_and!;
        [reflexivity|reflexivity|discriminate|apply Forall_nil_2]. }
  assert (value_line (quoted "a" ++ [EQUALS] ++ quoted "b")) as V.
  { split_and!; [assumption| | |].
    - repeat (apply Forall_cons; split; [discriminate|]). apply Forall_nil_2.
    - repeat (apply Forall_cons; split; [discriminate|]). apply Forall_nil_2.
    - exists (quoted "a" ++ [EQUALS] ++ [DQUOTE; chr "b"]), DQUOTE, [].
      split_and!; [reflexivity|reflexivity|discriminate|apply Forall_nil_2]. }
  apply (proj2 (proj2 Fold_two_keys) (mkOptionsRegistry true true)
           (str "[Key]") [CR; LF]
           (quoted "a" ++ [EQUALS] ++ quoted "b") [CR; LF]
           (str "[Key]") [CR; LF]
           (quoted "a" ++ [EQUALS] ++ quoted "b") []
           SCE_REG_DEFAULT ∅).
  - reflexivity.
  - auto.
  - unfold last_break, line_break. auto 6.
  - intros _. reflexivity.
Defined.

(** The last line of [short_last_line_doc] has one character, at the last
    position of the span: [Fold] closes the line before it counts the
    character, and with the compact option the level of the line carries
    the white flag. Without the option the count is not read. *)
Example Fold_short_last_line :
  exists out,
    Lex short_last_line_doc 0 11 SCE_REG_DEFAULT = Some out
    /\ LevelAt (Fold (mkOptionsRegistry true true) short_last_line_doc out
                  0 11 ∅).1 3
       = Z.lor (SC_FOLDLEVELBASE + 1) SC_FOLDLEVELWHITEFLAG
    /\ LevelAt (Fold (mkOptionsRegistry false true) short_last_line_doc out
                  0 11 ∅).1 3
       = SC_FOLDLEVELBASE + 1.
Proof.
  eexists. split; [vm_compute; reflexivity|]. vm_compute.
  split; reflexivity.
Qed.
